(* ===== verification/_CoqProject ===== *)
-Q . S2P
Prelude.v
Text.v
TextSplit.v
Redact.v
Float.v
Json.v
Domain.v
Token.v
CondLexer.v
CondParser.v
ProcessDef.v
MessageRouting.v
Runtime.v
History.v
Persistence.v
ModelCheck.v
BpmnModels.v
BpmnTree.v
XmlRewrite.v
LogBuffer.v
Registry.v
Index.v
TopicIndex.v
TimerIndex.v
Engine.v
HttpState.v
HttpAuth.v
CondEval.v
DataMappings.v
Graph.v
Scripts.v
Gateway.v
Handlers.v
Boundary.v
Waits.v
Hoare.v
EventScope.v
Join.v
ProcessStart.v
Signals.v
Conditional.v
NextAction.v
InstanceOps.v
DefinitionOps.v
Collections.v
TaskHandlers.v
ThrowHandlers.v
Executor.v
TimerProcessor.v
ServiceTask.v
TaskCompletion.v
Nesting.v
EngineInv.v
EngineSteps.v
Startup.v
HttpServer.v
CondGrammar.v
Iso8601.v
RetryQueue.v
TaskDispatch.v
BpmnScan.v
BpmnData.v
BpmnCompile.v
BpmnSub.v
BpmnParse.v
BpmnWf.v
BpmnCollaboration.v
BpmnScanTree.v
JetStream.v
NatsClient.v
NatsStore.v
NatsLaws.v
NatsRestart.v
NatsDelete.v
HttpDeploy.v
HttpHandlers.v
HttpTasks.v
HttpFiles.v
HttpApi.v
Desktop.v
