(* ===== verification/Prelude.v ===== *)
(** * bpmninja: a verification development for the BPMN engine

    bpmninja executes BPMN 2.0 processes.  A process definition is a graph of
    elements and sequence flows; an instance of it is a set of tokens that move
    over the graph and carry JSON variables.  The crate bpmn-parser turns BPMN XML
    into definitions and collaborations.  The engine (crate engine-core) validates
    and stores definitions, moves tokens, splits and joins them at gateways, and
    keeps the work that waits for somebody else: user tasks, service tasks that
    workers fetch and lock, timers, and message, signal and conditional catches.
    It saves what it changes through a persistence port, with retries when the
    store fails.  The crate engine-server fills a new engine from the store after a
    restart and offers the engine's operations over HTTP, behind a gate of API keys.

    ** Files, in the order of dependency

    Foundations.
    - [Prelude]: Rust's [Result] and its question mark, record update, lists, the
      hint database [rust] and the lemmas the components share.
    - [Text], [Float], [Json]: Rust's [char]/[String], [f64] as IEEE 754 binary64,
      and [serde_json::Value].  [TextSplit]: splitting and joining of texts.

    Domain (engine-core/src/domain, condition.rs, history, runtime).
    - [CondLexer], [CondParser], [CondGrammar], [CondEval]: the condition language
      of condition.rs ([prepare], [tokenize], the parser, [evaluate]).
    - [Domain], [Token], [ProcessDef]: elements, timers, errors,
      tokens and data scopes, definitions with their validation,
      graph queries and builder.
    - [DataMappings]: engine/data_mappings.rs; [Runtime]: file_ref.rs and
      runtime/*.rs, the records and bounded logs of an instance; [History]: history/mod.rs.
    - [MessageRouting]: domain/collaboration.rs and engine/message_routing.rs.

    Stores and indexes.
    - [Persistence]: port/persistence.rs as a class with laws, and
      adapter/in_memory.rs as its reference instance.
    - [Registry]: engine/registry.rs and the deployment of definition_ops.rs.
    - [Index], [TopicIndex], [TimerIndex]: engine/topic_index.rs and
      engine/timer_index.rs.  [Index] is the interface of a secondary index and
      the store built on it; the two indexes are its instances.

    The engine (engine-core/src/engine).
    - [Engine]: the state of [WorkflowEngine] (mod.rs, persistence_ops.rs) and the
      monad [M] of its operations.  [Graph], [Gateway]: executor/helpers.rs and
      gateway.rs.  [Scripts]: listeners.
    - [Handlers], [TaskHandlers], [ThrowHandlers]: handlers/*.rs.  [Join]:
      executor/parallel.rs and completion.rs.  [Boundary], [Waits]: boundary.rs
      and the creation and cancellation of wait states.
    - [NextAction], [Executor]: executor/next_action.rs and executor/mod.rs, one
      step of a token and the loop of a batch.
    - [EventScope], [ProcessStart], [Signals] (with messages), [TimerProcessor],
      [Conditional], [ServiceTask], [TaskCompletion], [InstanceOps] (with
      incidents), [DefinitionOps], [Collections]: the operations of the files of the
      same names, offered to clients and to each other.
    - [Hoare], [EngineInv], [EngineSteps]: a unary program logic for the monad, the
      invariant of the engine proved for every operation, and the engines that any
      sequence of requests reaches.  [Nesting]: the bound on nested batches.
    - [RetryQueue]: retry_queue.rs and the delivery of saves in persistence_ops.rs.
      [TaskDispatch]: task_handler.rs.

    The NATS store (persistence-nats/src).
    - [JetStream]: the operations of async-nats the crate calls, as a class, and
      the laws it relies on.  [NatsClient]: client.rs.  [NatsStore]:
      trait_impl.rs, an instance of the class of the port.
    - [NatsLaws], [NatsRestart]: its contents as those of the in-memory store, and a
      concrete server that satisfies the laws.  [NatsDelete]: deletions beside other
      servers.

    The parser (bpmn-parser/src).
    - [BpmnModels]: models.rs.  [Iso8601]: the timer texts of parser.rs.
    - [BpmnScan], [BpmnScanTree]: the scan of parser.rs for elements without
      execution semantics, and its verdict over the tree of tags.
    - [BpmnTree], [BpmnData]: data.rs.  [BpmnCompile], [BpmnSub], [BpmnParse]:
      compile_process, flatten_subprocess, event sub-processes and the entry
      points of parser.rs.  [BpmnWf]: invariants of the compilation loops and
      what every parsed definition satisfies.
    - [BpmnCollaboration]: collaboration.rs, and its composition with the engine's
      compilation of message routes.

    The server (engine-server/src).
    - [Startup]: startup.rs.  [Redact]: redact.rs.  [LogBuffer]: log_buffer.rs,
      log_nats.rs and server/logs.rs.  [ModelCheck]: server/model_check.rs.
      [XmlRewrite]: the copy of one process that deploy.rs hands to the analyzer.
    - [HttpState]: settings, loopback addresses and error answers of server/state.rs.
      [HttpAuth]: server/auth.rs and the routes and gate of server/mod.rs.
      [HttpServer]: the state of the application ([AppState]), the monad of the
      handlers and the start of main.rs.
    - [HttpDeploy], [HttpTasks], [HttpFiles]: deploy.rs, tasks.rs (with the long poll
      of engine/service_task.rs) and files.rs.  [HttpHandlers]: instances.rs,
      messages.rs, signals.rs, timers.rs, events.rs, history.rs and monitoring.rs.
    - [Desktop]: the clients, desktop-tauri/src-tauri/src and agent-orchestrator/src.
    - [HttpApi]: a request through gate, routing, decoding and handler, and the
      servers that any sequence of requests reaches.

    ** What the theorems show

    - Engine: everything pending is stored under its id, is found through its
      index and belongs to an existing instance, in every engine that requests
      lead to ([EngineSteps.engine_invariant]); due timers fire and claimable
      tasks are offered; the loop of a batch ends; the bound on nested batches
      does not matter for a result that does not mention it.
    - Control flow: what gateways and joins do; the last expected token releases
      one merged token and nothing is left behind; the search for a closing join
      ends and finds a reachable join; terminate, delete, interrupt, suspend and
      resume, migration and the return to a caller do exactly their work.
    - Work: a lock excludes other workers until it expires, under every
      interleaving; an in-process handler excludes everybody else, and stopping the
      handlers ends within its budget ([TaskDispatch.shutdown_ends]).
    - Definitions: [ProcessDefinition::new] accepts exactly the well-formed graphs,
      the builder exactly those whose conditions also parse; a collection is
      deployed whole or not at all and its message routes stay pinned.
    - Parser: for every text the result is an error or a deployable definition and
      no path panics ([BpmnWf.parser_output_deployable]); the scan rejects exactly
      what is not supported ([BpmnScanTree.scan_rejects_unsupported]); mappings of
      a document evaluate at run time; what the parser accepts as a collaboration
      the engine compiles, flow by flow.
    - Persistence: failed saves are retried, counted and queued, never lost
      silently; a retry applies a save once; a shutdown accounts for every job; a
      restart restores the same work with complete indexes.  The NATS store holds
      what the in-memory store would hold after the calls that took effect
      ([NatsRestart.nats_refines_memory]), and concurrent deletions lose no mark
      ([NatsDelete.delete_definition_keeps_marks]).
    - Server: the engine behind it stays sound whatever clients send
      ([HttpApi.server_stays_sound]); a closed gate lets only the public handlers
      and keys through, and stays closed ([HttpAuth.gate_protects],
      [HttpApi.keyless_requests_change_nothing]); a deployment is whole or leaves
      nothing; a fetch request is answered in time; files come back as they were
      sent and their names stay inside their header; credentials are masked; one
      analysis runs at a time; the log survives a restart.
    - Clients: every command of the desktop client passes the server's gate and reaches
      the handler it is meant for, and only that one ([Desktop.client_commands_served]);
      every event of the engine arrives once and in order; reconnecting is bounded.
    - Conditions, durations, history: parsing inverts printing; the accepted
      durations are those whose seconds fit 64 bits; replaying a difference gives
      the new state.

    ** Conventions

    - A [Uuid] is its number and is written into messages as that number.
      [Uuid::new_v4()] takes the next number of a supply, so that ids differ;
      functions outside the monad take the ids as an argument.  One id is drawn
      per call of [push_or_touch_incident], also when it only touches.
    - A [DateTime] is nanoseconds since the epoch, a [Duration] nanoseconds.  The
      range of chrono is written out where a text of the process decides the span
      ([next_expiry]); lock and retry spans are capped by the code and are added
      without a range check.
    - A [HashMap] or [DashMap] is a [gmap]; a loop over it walks [map_to_list].
      The order of a hash map is arbitrary, so theorems state what holds for every
      order: acceptance, membership, counts.
    - An operation of the engine is a state transformer; what it changed before an
      error stays changed.  Calls of the persistence port, the history and the
      notifiers are recorded in order in a trace, as if a persistence is
      configured; [RetryQueue.deliver] hands the trace to a store.  Operations run
      alone: instance locks serialise the steps of one instance, and interleavings
      are sequences of whole operations.  The retry worker runs beside the engine:
      what happens during a pause is a function it is given.
    - Machine integers are [Z] or [N] with the width written out where the code can
      reach it (saturating counts, checked 64-bit seconds, [i32] versions, the
      wrapping error counter, the [usize] cast of an array index).
    - Code that can panic returns [call]: [Returns] a value or [Panics].
    - Metrics and tracing are left out.  Third-party code is a class of operations:
      Unicode tables [UnicodeData], Rhai [ScriptEngine], cron schedules [CronLib],
      chrono's date parser [TimeLib], quick-xml and serde [XmlLib], the stored
      collaborations [CollaborationReader], the texts of ids [UuidText],
      async-nats [JetStream] with [JetStreamLaws], the JSON forms of the records
      [Records] with [RecordsLaws] (reading gives back what was written).
      [others] is what other servers do to JetStream between a read and a write,
      [turns] bounds the loop that repeats a lost compare-and-set.
      [BpmnCollaboration.readers_agree] states what the composition relies on:
      the event reader and the deserializer of quick-xml see the same processes.
      For the server: [HttpLib] (header values and axum's routing), [HeaderLib],
      [Extractors] (decoding of path, query and body into a call), [Analyzer],
      [XmlCopy] (quick-xml's reader and writer), [LogJson], [CaseTables],
      [DebugText], [CollaborationWriter].  For the clients: [Machine] (reqwest and the
      file system), [Wire] (what of a request arrives) and [SseWriter] (axum's lines of an
      event); for scripts [Rhai].
    - A handler is a state transformer on [AppState] that answers a value or an
      error.  Requests run one after another, except the long poll, which is a
      sequence of rounds with whatever other requests did in between, and the
      model check, which is a step relation.

    ** Bounds of the recursions

    - The lexer runs with one step more than there are characters, the loops and
      the nesting of the condition parser with one more than there are tokens;
      [CondGrammar.parse_total] shows that neither bound is reached.
    - The search for the closing join: every round takes one entry of the queue and
      every node is expanded once ([Graph.search_total]).
    - The loop of a batch has more fuel than the 10,000 steps the code allows
      ([Executor.batch_loop_terminates]); nested batches run to a depth that is an
      argument ([EngineSteps.nesting_bound_irrelevant]).
    - Interrupting called instances recurses over the instances not yet closed
      ([EventScope.abort_interrupted_instance_closes]); a job is tried 50 times
      ([RetryQueue.retry_gives_up]); the parser recurses over the document; a long poll
      of at most 30 s with a tick of 500 ms ends after at most 62 ticks
      ([HttpTasks.fetch_request_answered]).

    ** Not modelled

    The select loop of the dispatcher, the Rhai interpreter, the serde forms of the
    records.  Of the server: axum's routing and extractors (parameters), the
    enforcement of CORS by tower-http, the transport of server-sent events, the metrics
    recorder, signals and shutdown of main.rs, the publishing of log entries to NATS.
    Of the desktop client: tauri's windows and plugins.  The fuzz targets and the
    tests. *)

From stdpp Require Import base option list gmap strings sorting.

(** ** Rust's [Result] *)

(** [Result<A, E>]: fallible code returns [Ok a] or [Err e]. *)
Inductive result (E A : Type) : Type :=
| Ok (a : A)
| Err (e : E).
Arguments Ok {E A} a.
Arguments Err {E A} e.

Declare Scope rust_scope.
Delimit Scope rust_scope with rust.

#[export] Instance result_eq_dec {E A} `{EqDecision E, EqDecision A} : EqDecision (result E A).
Proof. solve_decision. Defined.

(** The question-mark operator: [x ←? e; k] runs [k] on the value of [e] and
    returns early with its error. *)
Definition result_bind {E A B} (r : result E A) (k : A → result E B) : result E B :=
  match r with
  | Ok a => k a
  | Err e => Err e
  end.

Notation "x ←? e ; k" := (result_bind e (λ x, k))
  (at level 20, e at level 100, k at level 200, right associativity) : rust_scope.
Notation "' p ←? e ; k" := (result_bind e (λ p, k))
  (at level 20, p pattern, e at level 100, k at level 200, right associativity) : rust_scope.

Definition is_ok {E A} (r : result E A) : bool :=
  match r with Ok _ => true | Err _ => false end.

(** [Option::ok_or]. *)
Definition ok_or {E A} (e : E) (o : option A) : result E A :=
  match o with Some a => Ok a | None => Err e end.

(** [Result::map_err]. *)
Definition map_err {E E' A} (f : E → E') (r : result E A) : result E' A :=
  match r with Ok a => Ok a | Err e => Err (f e) end.

(** ** Automation *)

(** Facts that close the routine side conditions of the components. *)
Create HintDb rust.

(** Case analysis on the scrutinee of the first match of the goal or of [H]. *)
Ltac case_match_in H :=
  match type of H with
  | context [match ?x with _ => _ end] => destruct x eqn:?
  end.

(** Split a [Result] computation that is known to return [Ok]: every step
    returned [Ok], every guard was passed. *)
Ltac ok_inv H :=
  repeat (unfold result_bind, ok_or, map_err in H; simpl in H;
          first [discriminate H | progress simplify_eq H | case_match_in H]);
  simplify_eq.

Lemma result_bind_Ok {E A B} (r : result E A) (k : A → result E B) b :
  result_bind r k = Ok b ↔ ∃ a, r = Ok a ∧ k a = Ok b.
Proof. destruct r as [x|x]; simpl; naive_solver. Qed.

Lemma result_bind_Err {E A B} (r : result E A) (k : A → result E B) e :
  result_bind r k = Err e ↔ r = Err e ∨ ∃ a, r = Ok a ∧ k a = Err e.
Proof. destruct r as [x|x]; simpl; naive_solver. Qed.

(** ** Field updates *)

(** [r <| f := x |>] is [r] with field [f] set to [x].  A record type gives its
    eta expansion as a [Settable] instance; the setter of a field is that
    expansion with the projection abstracted. *)
Class Settable (R : Type) := settable_eta : R → R.
Class Setter {R T : Type} (proj : R → T) := set_field : (T → T) → R → R.
Arguments set_field {R T} proj {_} _ _ /.

Ltac solve_setter :=
  match goal with
  | |- @Setter ?R ?T ?proj =>
    let e := constr:(_ : Settable R) in
    let e := eval hnf in e in
    match eval pattern proj in e with
    | ?F _ => exact (λ f, F (λ r, f (proj r)))
    end
  end.
#[export] Hint Extern 1 (Setter _) => solve_setter : typeclass_instances.

Notation "r <| f := x |>" := (set_field f (λ _, x) r)
  (at level 12, f at next level, x at level 200, left associativity, format "r <| f  :=  x |>") : rust_scope.
Notation "r <| f ::= g |>" := (set_field f g r)
  (at level 12, f at next level, g at level 200, left associativity, format "r <| f  ::=  g |>") : rust_scope.

(** ** Loops *)

(** [for x in l { f(x)?; }]. *)
Fixpoint for_each {E A} (f : A → result E unit) (l : list A) : result E unit :=
  match l with
  | [] => Ok tt
  | x :: l => result_bind (f x) (λ _, for_each f l)
  end.

Lemma for_each_Ok {E A} (f : A → result E unit) (l : list A) :
  for_each f l = Ok tt ↔ ∀ x, x ∈ l → f x = Ok tt.
Proof.
  induction l as [|x l IH]; simpl.
  - split; [intros _ x Hx; by apply not_elem_of_nil in Hx|done].
  - rewrite result_bind_Ok. setoid_rewrite elem_of_cons. split.
    + intros ([] & Hx & Hl) y [->|Hy]; [done|]. by apply IH.
    + intros H. exists tt. split; [by apply H; left|]. apply IH. intros y Hy. apply H. by right.
Qed.

(** [for x in l { acc = f(acc, x)?; }]. *)
Section try_fold.
  Context {E A X : Type} (f : A → X → result E A).
Fixpoint try_fold (acc : A) (l : list X) : result E A :=
  match l with
  | [] => Ok acc
  | x :: l => result_bind (f acc x) (λ acc, try_fold acc l)
  end.

(** What every step of a loop preserves holds at its end. *)
Lemma try_fold_inv (P : A → Prop) acc l r :
  P acc → (∀ a x a', x ∈ l → P a → f a x = Ok a' → P a') → try_fold acc l = Ok r → P r.
Proof.
  revert acc. induction l as [|x l IH]; simpl; intros acc HP Hstep; [by intros [= <-]|].
  intros (a & Ha & Hr)%result_bind_Ok.
  apply (IH a); [|intros a0 y a' Hy; apply Hstep; by right|done].
  eapply Hstep; [by left|done..].
Qed.
End try_fold.

(** [iter.map(f).collect::<Result<Vec<_>, _>>()]. *)
Fixpoint collect {E A B} (f : A → result E B) (l : list A) : result E (list B) :=
  match l with
  | [] => Ok []
  | x :: l => result_bind (f x) (λ y, result_bind (collect f l) (λ r, Ok (y :: r)))
  end.

Lemma collect_Ok {E A B} (f : A → result E B) l r :
  collect f l = Ok r ↔ Forall2 (λ x y, f x = Ok y) l r.
Proof.
  revert r. induction l as [|x l IH]; intros r; simpl.
  - split; [by intros [= <-]|by intros ->%Forall2_nil_inv_l].
  - rewrite result_bind_Ok. split.
    + intros (y & Hy & (ys & Hys%IH & [= <-])%result_bind_Ok). by constructor.
    + intros (y & ys & Hy & Hys & ->)%Forall2_cons_inv_l. exists y. split; [done|].
      apply result_bind_Ok. exists ys. by rewrite IH.
Qed.

(** [if !b { return Err(e) }]. *)
Definition guard {E} (b : bool) (e : E) : result E unit := if b then Ok tt else Err e.

Lemma guard_Ok {E} (b : bool) (e : E) : guard b e = Ok tt ↔ b = true.
Proof. by destruct b. Qed.

(** [iter().all(f)]. *)
Lemma forallb_elem {A} (f : A → bool) l : forallb f l = true ↔ ∀ x, x ∈ l → f x = true.
Proof. rewrite forallb_forall. by split; intros H x Hx; apply H, list_elem_of_In. Qed.

(** [iter().find_map(f)]. *)
Fixpoint find_map {A B} (f : A → option B) (l : list A) : option B :=
  match l with
  | [] => None
  | x :: l => match f x with Some y => Some y | None => find_map f l end
  end.

Lemma find_map_Some {A B} (f : A → option B) (l : list A) y :
  find_map f l = Some y → ∃ x, x ∈ l ∧ f x = Some y.
Proof.
  induction l as [|x l IH]; simpl; [done|]. destruct (f x) eqn:E.
  - intros [= ->]. exists x. split; [apply elem_of_cons; by left|done].
  - intros (x' & ? & ?)%IH. exists x'. split; [apply elem_of_cons; by right|done].
Qed.

Lemma find_map_None {A B} (f : A → option B) (l : list A) :
  find_map f l = None ↔ ∀ x, x ∈ l → f x = None.
Proof.
  induction l as [|x l IH]; simpl.
  - split; [intros _ x Hx; by apply not_elem_of_nil in Hx|done].
  - setoid_rewrite elem_of_cons. destruct (f x) eqn:E.
    + split; [done|]. intros H. specialize (H x). naive_solver.
    + rewrite IH. naive_solver.
Qed.

(** Counting the entries of a list that satisfy a test. *)
Definition count {A} (f : A → bool) (l : list A) : nat := length (List.filter f l).

Lemma count_pos {A} (f : A → bool) (l : list A) : 0 < count f l ↔ ∃ x, x ∈ l ∧ f x = true.
Proof.
  unfold count. induction l as [|x l IH]; simpl.
  - split; [lia|]. intros (x & Hx & _). by apply not_elem_of_nil in Hx.
  - setoid_rewrite elem_of_cons. destruct (f x) eqn:E; simpl.
    + split; [|lia]. intros _. exists x. by split; [left|].
    + rewrite IH. split; intros (y & Hy & Hf); exists y; [naive_solver|].
      destruct Hy as [->|]; [congruence|done].
Qed.

Lemma count_le_1 {A} (f : A → bool) (l : list A) :
  NoDup l → count f l ≤ 1 ↔ ∀ x y, x ∈ l → y ∈ l → f x = true → f y = true → x = y.
Proof.
  intros Hnd. split.
  - intros Hc x y Hx Hy Hfx Hfy. unfold count in Hc.
    assert (x ∈ List.filter f l ∧ y ∈ List.filter f l) as [Hx' Hy'].
    { rewrite !list_elem_of_In, !filter_In, <- !list_elem_of_In. done. }
    destruct (List.filter f l) as [|a [|b r]]; simpl in *; [set_solver| |lia]. set_solver.
  - intros H. unfold count. induction Hnd as [|x l Hx _ IH]; simpl; [lia|].
    setoid_rewrite elem_of_cons in H. destruct (f x) eqn:E; simpl; [|naive_solver].
    enough (¬ 0 < count f l) by (unfold count in *; lia).
    intros (y & Hy & Hfy)%count_pos. apply Hx. rewrite (H x y); auto.
Qed.

Lemma count_cons {A} (f : A → bool) x l : count f (x :: l) = (if f x then 1 else 0) + count f l.
Proof. unfold count. simpl. by destruct (f x). Qed.

#[export] Instance count_Permutation {A} (f : A → bool) : Proper ((≡ₚ) ==> (=)) (count f).
Proof. induction 1; rewrite ?count_cons; lia. Qed.

Lemma count_all {A} (f : A → bool) l : (∀ x, x ∈ l → f x = true) → count f l = length l.
Proof.
  induction l as [|x l IH]; [done|]. setoid_rewrite elem_of_cons. intros H.
  rewrite count_cons, H, IH by eauto. done.
Qed.

Lemma count_none {A} (f : A → bool) l : (∀ x, x ∈ l → f x = false) → count f l = 0.
Proof.
  induction l as [|x l IH]; [done|]. setoid_rewrite elem_of_cons. intros H.
  rewrite count_cons, H, IH by eauto. done.
Qed.

Lemma count_app {A} (f : A → bool) l k : count f (l ++ k) = count f l + count f k.
Proof. induction l; simpl; rewrite ?count_cons; [done|lia]. Qed.

Lemma count_le_length {A} (f : A → bool) l : count f l ≤ length l.
Proof. induction l as [|x l]; [done|]. rewrite count_cons. simpl. destruct (f x); lia. Qed.

(** ** Stable sorting *)

Section sorting.
  Context {A : Type} (lt : A → A → bool).

Fixpoint insert_by (x : A) (l : list A) : list A :=
  match l with
  | [] => [x]
  | y :: l => if lt x y then x :: y :: l else y :: insert_by x l
  end.
(** [sort_by] and [sort_by_key]: equal elements keep their order. *)
Definition sort_by (l : list A) : list A := fold_left (flip insert_by) l [].

Lemma insert_by_perm x l : insert_by x l ≡ₚ x :: l.
Proof. induction l as [|y l IH]; cbn; [done|]. case_match; [done|]. rewrite IH. apply Permutation_swap. Qed.
Lemma sort_by_app l x : sort_by (l ++ [x]) = insert_by x (sort_by l).
Proof. unfold sort_by. by rewrite fold_left_app. Qed.
Lemma sort_by_perm l : sort_by l ≡ₚ l.
Proof.
  induction l as [|x l IH] using rev_ind; [done|]. by rewrite sort_by_app, insert_by_perm, IH, Permutation_app_comm.
Qed.

  Context (le : relation A) `{!Transitive le} (le_lt : ∀ x y, le x y ↔ lt y x = false) (lt_le : ∀ x y, lt x y = true → le x y).

Lemma insert_by_sorted x l : StronglySorted le l → StronglySorted le (insert_by x l).
Proof.
  induction 1 as [|y l Hl IH Hy]; cbn; [by repeat constructor|].
  destruct (lt x y) eqn:Hxy; constructor; [by constructor| |done|].
  - constructor; [by apply lt_le|]. eapply Forall_impl; [exact Hy|]. intros z Hz. trans y; [by apply lt_le|done].
  - rewrite insert_by_perm. constructor; [by apply le_lt|done].
Qed.
Lemma sort_by_sorted l : StronglySorted le (sort_by l).
Proof. induction l as [|x l IH] using rev_ind; [constructor|]. rewrite sort_by_app. by apply insert_by_sorted. Qed.

(** Elements none of which is smaller than another keep their order. *)
Lemma sort_by_stable (p : A → bool) l :
  (∀ y z, p y = true → p z = true → le y z) → List.filter p (sort_by l) = List.filter p l.
Proof.
  intros Hp. induction l as [|x l IH] using rev_ind; [done|]. rewrite sort_by_app, List.filter_app, <- IH. cbn.
  clear IH. induction (sort_by_sorted l) as [|y k Hk IH Hy]; cbn; [by destruct (p x)|].
  destruct (lt x y) eqn:Hxy; cbn.
  - destruct (p x) eqn:Hx; [|by rewrite app_nil_r]. assert (List.filter p (y :: k) = []) as Hnone.
    { destruct (List.filter p (y :: k)) as [|z r] eqn:Hf; [done|exfalso].
      assert (In z (List.filter p (y :: k))) as [Hin Hz]%filter_In by (rewrite Hf; by left).
      assert (le y x) as Hyx%le_lt; [|by rewrite Hyx in Hxy].
      destruct Hin as [->|Hin%list_elem_of_In]; [by apply Hp|]. rewrite Forall_forall in Hy.
      trans z; [by apply Hy|by apply Hp]. }
    cbn in Hnone. by rewrite Hnone.
  - rewrite IH. by destruct (p y).
Qed.
End sorting.
