(* ===== verification/Text.v ===== *)
(** * Rust text: [char], [String] and the Unicode predicates

    A Rust [String] is a sequence of bytes holding valid UTF-8; here it is a
    [string] (its bytes).  A [char] is a Unicode scalar value, here its code
    point.  [chars] is [str::chars], [push] is [String::push].  The tables of
    [char::is_alphabetic] and [char::is_numeric] beyond ASCII are data of the
    Unicode version Rust ships, so they are the operations of the class
    [UnicodeData]; [char::is_whitespace] is small and written out. *)

From stdpp Require Import base list numbers strings.
From Stdlib Require Import Ascii String.
From S2P Require Import Prelude.
Local Open Scope N_scope.

Abbreviation char := N.

(** A Unicode scalar value: a code point that is no surrogate. *)
Definition is_scalar (c : char) : bool :=
  (c <? 0xD800) || ((0xDFFF <? c) && (c <? 0x110000)).

(** ** UTF-8 *)

Definition byte_of (n : N) : ascii := ascii_of_N n.

(** The bytes of one [char] ([char::encode_utf8]). *)
Definition encode_char (c : char) : string :=
  if c <? 0x80 then String (byte_of c) EmptyString
  else if c <? 0x800 then
    String (byte_of (0xC0 + c / 64)) (String (byte_of (0x80 + c mod 64)) EmptyString)
  else if c <? 0x10000 then
    String (byte_of (0xE0 + c / 4096))
      (String (byte_of (0x80 + (c / 64) mod 64))
        (String (byte_of (0x80 + c mod 64)) EmptyString))
  else
    String (byte_of (0xF0 + c / 262144))
      (String (byte_of (0x80 + (c / 4096) mod 64))
        (String (byte_of (0x80 + (c / 64) mod 64))
          (String (byte_of (0x80 + c mod 64)) EmptyString))).

(** [String::push]. *)
Definition push (s : string) (c : char) : string := (s +:+ encode_char c)%string.

(** [chars.iter().collect::<String>()]. *)
Fixpoint of_chars (cs : list char) : string :=
  match cs with
  | [] => EmptyString
  | c :: cs => (encode_char c +:+ of_chars cs)%string
  end.

(** [str::chars]: decode the bytes.  A byte sequence that is not UTF-8 cannot
    occur in a Rust string; its leading byte is read as U+FFFD. *)
Fixpoint chars (s : string) : list char :=
  match s with
  | EmptyString => []
  | String a s1 =>
    let b0 := N_of_ascii a in
    if b0 <? 0x80 then b0 :: chars s1
    else if b0 <? 0xE0 then
      match s1 with
      | String a1 s2 => ((b0 - 0xC0) * 64 + (N_of_ascii a1 - 0x80)) :: chars s2
      | EmptyString => [0xFFFD]
      end
    else if b0 <? 0xF0 then
      match s1 with
      | String a1 (String a2 s3) =>
        ((b0 - 0xE0) * 4096 + (N_of_ascii a1 - 0x80) * 64 + (N_of_ascii a2 - 0x80)) :: chars s3
      | _ => [0xFFFD]
      end
    else
      match s1 with
      | String a1 (String a2 (String a3 s4)) =>
        ((b0 - 0xF0) * 262144 + (N_of_ascii a1 - 0x80) * 4096
          + (N_of_ascii a2 - 0x80) * 64 + (N_of_ascii a3 - 0x80)) :: chars s4
      | _ => [0xFFFD]
      end
  end.

(** [str::as_bytes] and [String::from_utf8]. *)
Definition as_bytes (s : string) : list Byte.byte := String.list_byte_of_string s.
Definition from_utf8 (data : list Byte.byte) : option string :=
  let s := String.string_of_list_byte data in
  if forallb is_scalar (chars s) && String.eqb (of_chars (chars s)) s then Some s else None.

(** ** Character classes *)

(** [str::contains]; on UTF-8 the search by bytes is the search by characters. *)
Fixpoint str_contains (needle hay : string) : bool :=
  String.prefix needle hay || match hay with EmptyString => false | String _ hay => str_contains needle hay end.

(** [char::is_whitespace]: the Unicode property White_Space. *)
Definition is_whitespace (c : char) : bool :=
  ((0x9 <=? c) && (c <=? 0xD)) || (c =? 0x20) || (c =? 0x85) || (c =? 0xA0)
  || (c =? 0x1680) || ((0x2000 <=? c) && (c <=? 0x200A))
  || (c =? 0x2028) || (c =? 0x2029) || (c =? 0x202F) || (c =? 0x205F) || (c =? 0x3000).

(** [char::is_ascii_digit]. *)
Definition is_ascii_digit (c : char) : bool := (48 <=? c) && (c <=? 57).

Definition is_ascii_alphabetic (c : char) : bool :=
  ((65 <=? c) && (c <=? 90)) || ((97 <=? c) && (c <=? 122)).

(** The Unicode tables for code points from U+0080 on. *)
Class UnicodeData := {
  table_alphabetic : char → bool;
  table_numeric : char → bool;
}.

(** A table that classifies no code point beyond ASCII; used by the witnesses. *)
Definition ascii_only : UnicodeData :=
  {| table_alphabetic := λ _, false; table_numeric := λ _, false |}.

(** [char::is_alphabetic] and [char::is_alphanumeric]. *)
Definition is_alphabetic `{UnicodeData} (c : char) : bool :=
  if c <? 0x80 then is_ascii_alphabetic c else table_alphabetic c.
Definition is_alphanumeric `{UnicodeData} (c : char) : bool :=
  if c <? 0x80 then is_ascii_alphabetic c || is_ascii_digit c
  else table_alphabetic c || table_numeric c.

Fixpoint drop_while (p : char → bool) (l : list char) : list char :=
  match l with
  | [] => []
  | c :: l' => if p c then drop_while p l' else l
  end.
(** [str::trim]. *)
Definition trim (l : list char) : list char :=
  rev (drop_while is_whitespace (rev (drop_while is_whitespace l))).

(** [str::trim().is_empty()]: the text holds nothing but white space. *)
Definition is_blank (s : string) : bool := forallb is_whitespace (chars s).

(** [str::trim] on a string. *)
Definition trim_str (s : string) : string := of_chars (trim (chars s)).
(** [str::starts_with], [str::ends_with], [str::strip_suffix]. *)
Definition starts_with (pre s : string) : bool := String.prefix pre s.
Definition ends_with (suf s : string) : bool :=
  (String.length suf <=? String.length s)%nat
  && String.eqb suf (String.substring (String.length s - String.length suf) (String.length suf) s).
Definition strip_suffix (suf s : string) : option string :=
  if ends_with suf s then Some (String.substring 0 (String.length s - String.length suf) s) else None.
(** [str::eq_ignore_ascii_case]. *)
Definition ascii_lower (c : char) : char := if (65 <=? c) && (c <=? 90) then c + 32 else c.
Definition eq_ignore_ascii_case (s t : string) : bool :=
  bool_decide (ascii_lower <$> chars s = ascii_lower <$> chars t).

(** ** Numbers *)

Definition digits_value (l : list char) : N := fold_left (λ n c, (n * 10 + (c - 48))%N) l 0%N.
(** [str::parse] of an unsigned integer up to [max]: an optional plus sign and
    digits. *)
Definition parse_unsigned (max : N) (l : list char) : option N :=
  let l := match l with c :: l' => if (c =? 43)%N then l' else l | [] => [] end in
  match l with
  | [] => None
  | _ => if forallb is_ascii_digit l && (digits_value l <=? max)%N then Some (digits_value l) else None
  end.
Definition u64_max : N := 18446744073709551615.
Definition parse_u64 (s : string) : option N := parse_unsigned u64_max (chars s).

(** [str::parse::<i64>]: an optional sign and digits. *)
Definition parse_i64 (s : string) : option Z :=
  match chars s with
  | c :: l =>
    if (c =? 45)%N then
      if forallb is_ascii_digit l && negb (bool_decide (l = [])) && (digits_value l <=? 9223372036854775808)%N
      then Some (- Z.of_N (digits_value l))%Z else None
    else Z.of_N <$> parse_unsigned 9223372036854775807 (c :: l)
  | [] => None
  end.

Lemma parse_unsigned_bound max l n : parse_unsigned max l = Some n → (n <= max)%N.
Proof.
  unfold parse_unsigned. destruct (match l with [] => [] | c :: l' => _ end); [done|].
  destruct (forallb _ _ && _) eqn:H; [|done]. intros [= <-]. apply andb_true_iff in H as [_ H]. by apply N.leb_le.
Qed.
Lemma parse_i64_bound s z : parse_i64 s = Some z → (- 2 ^ 63 <= z < 2 ^ 63)%Z.
Proof.
  unfold parse_i64. destruct (chars s) as [|c l]; [done|]. destruct (c =? 45)%N.
  - destruct (forallb _ _ && _ && _) eqn:H; [|done]. intros [= <-]. apply andb_true_iff in H as [_ H%N.leb_le]. lia.
  - destruct (parse_unsigned _ _) as [n|] eqn:H; [|done]. intros [= <-]. apply parse_unsigned_bound in H. lia.
Qed.

(** The code point of an ASCII literal, for readable character constants. *)
Definition ch (a : ascii) : char := N_of_ascii a.

(** ** UTF-8 round trip *)

Lemma N_of_byte_of (n : N) : n < 256 → N_of_ascii (byte_of n) = n.
Proof. apply N_ascii_embedding. Qed.

Lemma string_app_cons (x : ascii) (a b : string) : (String x a +:+ b = String x (a +:+ b))%string.
Proof. done. Qed.

Lemma string_app_nil_l (a : string) : (EmptyString +:+ a = a)%string.
Proof. done. Qed.

Lemma string_app_assoc (a b c : string) : ((a +:+ b) +:+ c = a +:+ (b +:+ c))%string.
Proof. induction a as [|x a IH]; [done|]. by rewrite !string_app_cons, IH. Qed.

Lemma string_app_nil_r (a : string) : (a +:+ EmptyString = a)%string.
Proof. induction a as [|x a IH]; [done|]. by rewrite string_app_cons, IH. Qed.

(** The base-64 digits of a code point, as the multi-byte encodings use them. *)
Lemma base64_digits (c : char) :
  ∃ q1 q2 q3 r0 r1 r2,
    c / 64 = q1 ∧ c / 4096 = q2 ∧ c / 262144 = q3 ∧
    c mod 64 = r0 ∧ (c / 64) mod 64 = r1 ∧ (c / 4096) mod 64 = r2 ∧
    r0 < 64 ∧ r1 < 64 ∧ r2 < 64 ∧
    c = 64 * q1 + r0 ∧ q1 = 64 * q2 + r1 ∧ q2 = 64 * q3 + r2.
Proof.
  exists (c / 64), (c / 4096), (c / 262144), (c mod 64), ((c / 64) mod 64), ((c / 4096) mod 64).
  do 6 (split; [done|]). do 3 (split; [by apply N.mod_lt|]). split; [apply N.Div0.div_mod|].
  change 4096 with (64 * 64). change 262144 with (64 * 64 * 64).
  rewrite <- !N.Div0.div_div. split; apply N.Div0.div_mod.
Qed.

Lemma chars_encode_char (c : char) (s : string) :
  c < 0x110000 → chars (encode_char c +:+ s)%string = c :: chars s.
Proof.
  intros Hc. unfold encode_char.
  destruct (base64_digits c) as (q1&q2&q3&r0&r1&r2&->&->&->&->&->&->&?&?&?&?&?&?).
  destruct (N.ltb_spec c 0x80); [|destruct (N.ltb_spec c 0x800); [|destruct (N.ltb_spec c 0x10000)]].
  all: rewrite ?string_app_cons, ?string_app_nil_l; cbn [chars].
  all: rewrite ?N_of_byte_of by lia.
  all: repeat match goal with |- context [?a <? ?b] =>
         first [rewrite (proj2 (N.ltb_lt a b)) by lia | rewrite (proj2 (N.ltb_ge a b)) by lia] end.
  all: rewrite ?N_of_byte_of by lia.
  all: f_equal; lia.
Qed.

Lemma chars_of_chars_app (cs : list char) (s : string) :
  Forall (λ c, c < 0x110000) cs → chars (of_chars cs +:+ s)%string = (cs ++ chars s)%list.
Proof.
  induction 1 as [|c cs Hc _ IH]; simpl; [done|].
  rewrite string_app_assoc, chars_encode_char by done. by rewrite IH.
Qed.

Lemma chars_of_chars (cs : list char) :
  Forall (λ c, c < 0x110000) cs → chars (of_chars cs) = cs.
Proof.
  intros H. rewrite <- (string_app_nil_r (of_chars cs)), chars_of_chars_app by done.
  apply app_nil_r.
Qed.
