(* ===== verification/TextSplit.v ===== *)
(** * Splitting and joining texts

    The methods of Rust's [str] that cut a text at a separator ([strip_prefix],
    [split_once], [rsplit_once], [split]) and put pieces together ([join]), on the
    characters of the text, and the lemmas that relate them. *)

From stdpp Require Import base list numbers sets strings.
From S2P Require Import Prelude Text.

(** ** On texts *)

(** [str::to_ascii_lowercase]. *)
Definition to_ascii_lowercase (s : string) : string := of_chars (ascii_lower <$> chars s).
(** [list.join(sep)]. *)
Fixpoint join (sep : string) (l : list string) : string :=
  match l with [] => "" | [s] => s | s :: l => s +:+ sep +:+ join sep l end.

(** ** On characters *)

Fixpoint strip_prefix (p l : list char) : option (list char) :=
  match p, l with
  | [], _ => Some l
  | x :: p, y :: l => if (x =? y)%N then strip_prefix p l else None
  | _ :: _, [] => None
  end.
(** [str::split_once] of a text: before and after its first occurrence. *)
Fixpoint split_once (sep l : list char) : option (list char * list char) :=
  match strip_prefix sep l with
  | Some r => Some ([], r)
  | None =>
    match l with
    | [] => None
    | x :: l => '(a, b) ← split_once sep l; Some (x :: a, b)
    end
  end.
(** [str::rsplit_once] of a character: before and after its last occurrence. *)
Fixpoint rsplit_once (c : char) (l : list char) : option (list char * list char) :=
  match l with
  | [] => None
  | x :: l =>
    match rsplit_once c l with
    | Some (a, b) => Some (x :: a, b)
    | None => if (x =? c)%N then Some ([], l) else None
    end
  end.
(** [str::split] at a character: at least one piece. *)
Fixpoint split_on (c : char) (l : list char) : list (list char) :=
  match l with
  | [] => [[]]
  | x :: l =>
    if (x =? c)%N then [] :: split_on c l
    else match split_on c l with p :: ps => (x :: p) :: ps | [] => [[x]] end
  end.
Fixpoint join_on (c : char) (ps : list (list char)) : list char :=
  match ps with [] => [] | [p] => p | p :: ps => p ++ c :: join_on c ps end.

(** ** Prefixes *)

Lemma strip_prefix_Some p l r : strip_prefix p l = Some r ↔ l = p ++ r.
Proof.
  revert l. induction p as [|x p IH]; intros [|y l]; simpl; [naive_solver..|].
  destruct (N.eqb_spec x y); [|naive_solver]. rewrite IH. naive_solver.
Qed.
(** Whether a text starts with [p] is decided by its first characters. *)
Lemma strip_prefix_local p l r r' :
  length p ≤ length l → strip_prefix p (l ++ r) = None → strip_prefix p (l ++ r') = None.
Proof.
  revert l. induction p as [|x p IH]; intros [|y l]; simpl; [done..|lia|].
  intros Hl. destruct (x =? y)%N; [|done]. apply IH. lia.
Qed.

(** ** The first occurrence of a text *)

Lemma split_once_app sep l a b : split_once sep l = Some (a, b) → l = a ++ sep ++ b.
Proof.
  revert a. induction l as [|x l IH]; intros a; cbn [split_once]; destruct (strip_prefix _ _) as [r|] eqn:Hp; simpl.
  1, 3: intros [= <- <-]; by apply strip_prefix_Some in Hp.
  - done.
  - destruct (split_once sep l) as [[a' b']|]; [|done]. intros [= <- <-]. by rewrite (IH a').
Qed.
(** What follows the first occurrence does not matter. *)
Lemma split_once_local sep a b b' :
  sep ≠ [] → split_once sep (a ++ sep ++ b) = Some (a, b) → split_once sep (a ++ sep ++ b') = Some (a, b').
Proof.
  intros Hne. induction a as [|x a IH]; cbn [app].
  - intros _. destruct (sep ++ b') eqn:Heq; cbn [split_once]; rewrite <- Heq;
      by rewrite (proj2 (strip_prefix_Some sep (sep ++ b') b') eq_refl).
  - cbn [split_once]. destruct (strip_prefix sep (x :: a ++ sep ++ b)) eqn:Hp; [done|].
    rewrite app_comm_cons, app_assoc in Hp. apply (strip_prefix_local _ _ _ b') in Hp; [|rewrite length_app; simpl; lia].
    rewrite <- app_assoc, <- app_comm_cons in Hp. rewrite Hp.
    destruct (split_once sep (a ++ sep ++ b)) as [[a' b'']|] eqn:Hs; [|done]. simpl. intros [= -> ->].
    by rewrite (IH eq_refl).
Qed.
(** A text without the separator has suffixes without it, and may be extended to the
    left by characters the separator does not start with. *)
Lemma split_once_suffix sep a l : split_once sep (a ++ l) = None → split_once sep l = None.
Proof.
  induction a as [|x a IH]; [done|]. cbn [app split_once]. destruct (strip_prefix _ _); [done|].
  destruct (split_once sep (a ++ l)) as [[]|]; [done|]. auto.
Qed.
Lemma split_once_extend c sep a l : c ∉ a → split_once (c :: sep) l = None → split_once (c :: sep) (a ++ l) = None.
Proof.
  intros Ha Hl. induction a as [|x a IH]; [done|]. apply not_elem_of_cons in Ha as [Hx Ha].
  cbn [app split_once strip_prefix]. destruct (N.eqb_spec c x); [done|]. by rewrite (IH Ha).
Qed.
Lemma split_once_fresh c sep a b : c ∉ a → split_once (c :: sep) (a ++ (c :: sep) ++ b) = Some (a, b).
Proof.
  intros Ha. induction a as [|x a IH].
  - cbn. rewrite N.eqb_refl. by rewrite (proj2 (strip_prefix_Some sep (sep ++ b) b) eq_refl).
  - apply not_elem_of_cons in Ha as [Hx Ha]. cbn [app split_once strip_prefix] in IH |- *.
    destruct (N.eqb_spec c x); [done|]. by rewrite (IH Ha).
Qed.
Lemma split_once_None c l : split_once [c] l = None ↔ c ∉ l.
Proof.
  split.
  - intros Hl [a [b ->]]%list_elem_of_split. apply split_once_suffix in Hl. cbn in Hl. by rewrite N.eqb_refl in Hl.
  - intros Hl. rewrite <- (app_nil_r l). by apply split_once_extend.
Qed.
Lemma split_once_Some c l a b : split_once [c] l = Some (a, b) ↔ l = a ++ c :: b ∧ c ∉ a.
Proof.
  split; [|intros [-> Ha]; by apply (split_once_fresh c [])].
  intros Hs. split; [by apply (split_once_app [c])|]. revert a Hs. induction l as [|x l IH]; intros a; cbn; [done|].
  destruct (N.eqb_spec c x); [intros [= <- <-]; apply not_elem_of_nil|].
  destruct (split_once [c] l) as [[a' b']|]; [|done]. intros [= <- <-]. apply not_elem_of_cons. split; [done|]. by apply IH.
Qed.

(** ** The last occurrence of a character *)

Lemma rsplit_once_None c l : rsplit_once c l = None ↔ c ∉ l.
Proof.
  induction l as [|x l IH]; cbn; [split; [intros _; apply not_elem_of_nil|done]|].
  rewrite not_elem_of_cons, <- IH. destruct (rsplit_once c l) as [[]|]; [naive_solver|].
  destruct (N.eqb_spec x c); naive_solver.
Qed.
Lemma rsplit_once_Some c l a b : rsplit_once c l = Some (a, b) ↔ l = a ++ c :: b ∧ c ∉ b.
Proof.
  revert a b. induction l as [|x l IH]; intros a b; cbn.
  - split; [done|]. intros [H _]. by destruct a.
  - destruct (rsplit_once c l) as [[a' b']|] eqn:Hr.
    + destruct (proj1 (IH a' b') eq_refl) as [Hl Hb']. split.
      * intros [= <- <-]. by rewrite Hl.
      * intros [H Hb]. destruct a as [|y a]; [injection H as -> ->; set_solver|]. injection H as -> H.
        pose proof (proj2 (IH a b) (conj H Hb)) as Hab. by injection Hab as -> ->.
    + apply rsplit_once_None in Hr. destruct (N.eqb_spec x c) as [->|Hx].
      * split; [intros [= <- <-]; by split|]. intros [H Hb]. destruct a; simplify_eq/=; [done|]. set_solver.
      * split; [done|]. intros [H Hb]. destruct a; simplify_eq/=. set_solver.
Qed.

(** ** Pieces *)

Lemma split_on_nonempty c l : split_on c l ≠ [].
Proof. destruct l as [|x l]; cbn; [done|]. destruct (x =? c)%N; [done|]. by destruct (split_on c l). Qed.
Lemma split_on_pieces c l p : p ∈ split_on c l → c ∉ p ∧ p ⊆ l.
Proof.
  revert p. induction l as [|x l IH]; cbn; intros p.
  - intros ->%list_elem_of_singleton. split; [apply not_elem_of_nil|done].
  - destruct (N.eqb_spec x c) as [->|Hx].
    + intros [->|Hp]%elem_of_cons; [split; [apply not_elem_of_nil|apply list_subseteq_nil]|].
      destruct (IH p Hp). set_solver.
    + destruct (split_on c l) as [|q qs] eqn:Hq; [by apply split_on_nonempty in Hq|].
      intros [->|Hp]%elem_of_cons.
      * destruct (IH q) as [Hc Hs]; [by left|]. rewrite not_elem_of_cons. split; [naive_solver|]. set_solver.
      * destruct (IH p) as [Hc Hs]; [by right|]. set_solver.
Qed.
Lemma split_on_fresh c p : c ∉ p → split_on c p = [p].
Proof.
  induction p as [|x p IH]; [done|]. rewrite not_elem_of_cons. intros [Hx Hp]. cbn. rewrite (IH Hp).
  by destruct (N.eqb_spec x c).
Qed.
Lemma split_on_cons c p l : c ∉ p → split_on c (p ++ c :: l) = p :: split_on c l.
Proof.
  induction p as [|x p IH]; cbn.
  - intros _. by rewrite N.eqb_refl.
  - rewrite not_elem_of_cons. intros [Hx Hp]. rewrite (IH Hp). by destruct (N.eqb_spec x c).
Qed.
(** Joining and splitting again gives the pieces back. *)
Lemma split_on_join c ps : ps ≠ [] → Forall (λ p, c ∉ p) ps → split_on c (join_on c ps) = ps.
Proof.
  intros Hne H. induction H as [|p ps Hp H IH]; [done|].
  destruct ps as [|q ps]; [by apply split_on_fresh|]. cbn [join_on]. rewrite split_on_cons by done.
  f_equal. by apply IH.
Qed.

(** ** Trimming *)

Definition edges_ok (l : list char) : Prop :=
  (∀ c, head l = Some c → is_whitespace c = false) ∧ (∀ c, last l = Some c → is_whitespace c = false).

Lemma drop_while_head p l c : head (drop_while p l) = Some c → p c = false.
Proof. induction l as [|x l IH]; [done|]. cbn. destruct (p x) eqn:Hx; [done|]. by intros [= <-]. Qed.
Lemma drop_while_id p l : (∀ c, head l = Some c → p c = false) → drop_while p l = l.
Proof. destruct l as [|x l]; [done|]. intros H. cbn. by rewrite (H x eq_refl). Qed.
Lemma drop_while_suffix p l : ∃ k, l = k ++ drop_while p l.
Proof. induction l as [|x l [k IH]]; [by exists []|]. cbn. destruct (p x); [exists (x :: k); cbn; by f_equal|by exists []]. Qed.
Lemma head_rev {A} (l : list A) : head (rev l) = last l.
Proof. rewrite <- (rev_involutive l) at 2. destruct (rev l) as [|x k]; [done|]. cbn. by rewrite last_snoc. Qed.
Lemma in_rev_elem {A} (l : list A) x : x ∈ rev l ↔ x ∈ l.
Proof. by rewrite !list_elem_of_In, <- in_rev. Qed.
Lemma trim_edges l : edges_ok (trim l).
Proof.
  unfold trim. split; intros c Hc.
  - set (m := drop_while is_whitespace l) in *. destruct (drop_while_suffix is_whitespace (rev m)) as [k Hk].
    assert (m = rev (drop_while is_whitespace (rev m)) ++ rev k) as Hm by (rewrite <- rev_app_distr, <- Hk; by rewrite rev_involutive).
    destruct (rev (drop_while is_whitespace (rev m))) as [|y r] eqn:Hr; [done|]. injection Hc as ->.
    apply (drop_while_head is_whitespace l). fold m. by rewrite Hm.
  - rewrite <- head_rev, rev_involutive in Hc. by apply drop_while_head in Hc.
Qed.
Lemma trim_id l : edges_ok l → trim l = l.
Proof.
  intros [Hh Hl]. unfold trim. rewrite (drop_while_id _ l Hh), drop_while_id; [apply rev_involutive|].
  intros c. rewrite head_rev. apply Hl.
Qed.
Lemma trim_subseteq l : trim l ⊆ l.
Proof.
  unfold trim. destruct (drop_while_suffix is_whitespace l) as [k Hk].
  destruct (drop_while_suffix is_whitespace (rev (drop_while is_whitespace l))) as [k' Hk'].
  intros c Hc. rewrite Hk. apply elem_of_app. right. rewrite <- in_rev_elem, Hk'. apply elem_of_app. right.
  by rewrite in_rev_elem in Hc.
Qed.
