(* ===== verification/Redact.v ===== *)
(** * Masking credentials in URLs

    engine-server/src/redact.rs: whatever is logged or returned of a NATS URL passes
    through [redact_nats_url].  The masking works on the characters of the text; what
    it leaves is compared with the URLs that differ only in user info and query. *)

From stdpp Require Import base list numbers sets strings.
From Stdlib Require Import Ascii.
From S2P Require Import Prelude Text TextSplit.

Definition mask : list char := chars "***".
Definition at_sign : char := ch "@".

(** [redact_single_url] and [redact_nats_url]. *)
Definition mask_authority (authority : list char) : list char :=
  match rsplit_once at_sign authority with
  | Some (_, host) => mask ++ at_sign :: host
  | None => authority
  end.
Definition assemble (scheme : option (list char)) (authority : list char) (path : option (list char)) (has_query : bool) : list char :=
  match scheme with Some scheme => scheme ++ chars "://" | None => [] end ++ authority
  ++ match path with Some path => ch "/" :: path | None => [] end
  ++ (if has_query then chars "?***" else []).
Definition redact_single (entry : list char) : list char :=
  let entry := trim entry in
  if bool_decide (entry = []) then []
  else
    let '(without_query, has_query) :=
      match split_once [ch "?"] entry with Some (base, _) => (base, true) | None => (entry, false) end in
    let '(scheme, rest) :=
      match split_once (chars "://") without_query with
      | Some (scheme, rest) => (Some scheme, rest)
      | None => (None, without_query)
      end in
    let '(authority, path) :=
      match split_once [ch "/"] rest with Some (authority, path) => (authority, Some path) | None => (rest, None) end in
    assemble scheme (mask_authority authority) path has_query.
Definition redact_chars (raw : list char) : list char :=
  join_on (ch ",") (redact_single <$> split_on (ch ",") raw).
Definition redact_nats_url (raw : string) : string := of_chars (redact_chars (chars raw)).

Example redact_user : redact_nats_url "nats://u:p@a:4222, nats://b:4222?token=1" = "nats://***@a:4222,nats://b:4222?***".
Proof. reflexivity. Qed.

(** ** URLs *)

(** An entry of a server list by its parts. *)
Record Url := mkUrl {
  url_scheme : option (list char);
  url_userinfo : option (list char);
  url_host : list char;
  url_path : option (list char);
  url_query : option (list char);
}.
Definition print_authority (u : Url) : list char :=
  match url_userinfo u with Some userinfo => userinfo ++ at_sign :: url_host u | None => url_host u end.
Definition print_body (u : Url) : list char :=
  print_authority u ++ match url_path u with Some path => ch "/" :: path | None => [] end.
Definition print_url (u : Url) : list char :=
  match url_scheme u with Some scheme => scheme ++ chars "://" | None => [] end ++ print_body u
  ++ match url_query u with Some query => ch "?" :: query | None => [] end.
(** Separators stand only where they separate: the first [://] ends the scheme, the
    first slash the authority, the last at sign the user info, the first question
    mark starts the query. *)
Definition scheme_part (u : Url) : list char :=
  match url_scheme u with Some scheme => scheme ++ chars "://" | None => [] end.
Record url_ok (u : Url) : Prop := {
  url_edges : edges_ok (print_url u);
  url_nonempty : print_url u ≠ [];
  url_commas : ch "," ∉ print_url u;
  url_marks : ch "?" ∉ scheme_part u ++ print_body u;
  url_scheme_first : ∀ scheme, url_scheme u = Some scheme →
    split_once (chars "://") (scheme ++ chars "://") = Some (scheme, []);
  url_schemeless : url_scheme u = None → split_once (chars "://") (print_body u) = None;
  url_authority : ch "/" ∉ print_authority u;
  url_host_at : at_sign ∉ url_host u;
}.
(** The user info and the query replaced by the mask. *)
Definition masked (u : Url) : Url :=
  mkUrl (url_scheme u) ((λ _, mask) <$> url_userinfo u) (url_host u) (url_path u) ((λ _, mask) <$> url_query u).
Definition print_list (us : list Url) : list char := join_on (ch ",") (print_url <$> us).

#[local] Arguments at_sign : simpl never.
#[local] Arguments ch : simpl never.
#[local] Arguments chars : simpl never.

(** ** What stays of a URL *)

Lemma mask_authority_print u : at_sign ∉ url_host u → mask_authority (print_authority u) = print_authority (masked u).
Proof.
  intros Hh. unfold mask_authority, print_authority, masked. destruct (url_userinfo u) as [i|]; cbn.
  - by rewrite (proj2 (rsplit_once_Some at_sign _ i (url_host u)) (conj eq_refl Hh)).
  - by rewrite (proj2 (rsplit_once_None at_sign _) Hh).
Qed.
Lemma split_scheme u : url_ok u →
  match split_once (chars "://") (scheme_part u ++ print_body u) with
  | Some (scheme, rest) => (Some scheme, rest)
  | None => (None, scheme_part u ++ print_body u)
  end = (url_scheme u, print_body u).
Proof.
  intros []. unfold scheme_part. destruct (url_scheme u) as [scheme|].
  - rewrite <- app_assoc, (split_once_local _ scheme [] (print_body u)); [done..|by apply url_scheme_first0].
  - cbn [app]. by rewrite url_schemeless0.
Qed.
Lemma split_path u : url_ok u →
  match split_once [ch "/"] (print_body u) with
  | Some (authority, path) => (authority, Some path)
  | None => (print_body u, None)
  end = (print_authority u, url_path u).
Proof.
  intros []. unfold print_body. destruct (url_path u) as [path|].
  - by rewrite (proj2 (split_once_Some _ _ (print_authority u) path)).
  - rewrite app_nil_r. by rewrite (proj2 (split_once_None _ _)).
Qed.
Lemma split_query u : url_ok u →
  match split_once [ch "?"] (print_url u) with Some (base, _) => (base, true) | None => (print_url u, false) end =
  (scheme_part u ++ print_body u, bool_decide (is_Some (url_query u))).
Proof.
  intros []. unfold print_url. fold (scheme_part u). rewrite app_assoc. destruct (url_query u) as [query|].
  - rewrite (proj2 (split_once_Some _ _ (scheme_part u ++ print_body u) query)); [|done]. by rewrite bool_decide_eq_true_2 by eauto.
  - rewrite app_nil_r. by rewrite (proj2 (split_once_None _ _)).
Qed.
(** The masking of one entry. *)
Lemma redact_single_print u : url_ok u → redact_single (print_url u) = print_url (masked u).
Proof.
  intros Hu. pose proof Hu as []. unfold redact_single. rewrite trim_id, bool_decide_eq_false_2 by done.
  rewrite split_query, split_scheme, split_path, mask_authority_print by done.
  unfold assemble, print_url, print_body. cbn. rewrite <- !app_assoc. do 3 f_equal. by destruct (url_query u).
Qed.

(** ** Every entry is a URL *)

Definition parse_entry (entry : list char) : Url :=
  let '(base, query) := match split_once [ch "?"] entry with Some (base, q) => (base, Some q) | None => (entry, None) end in
  let '(scheme, rest) :=
    match split_once (chars "://") base with Some (scheme, rest) => (Some scheme, rest) | None => (None, base) end in
  let '(authority, path) :=
    match split_once [ch "/"] rest with Some (authority, path) => (authority, Some path) | None => (rest, None) end in
  let '(userinfo, host) :=
    match rsplit_once at_sign authority with Some (i, host) => (Some i, host) | None => (None, authority) end in
  mkUrl scheme userinfo host path query.

(** The parts of the parsed entry, stage by stage. *)
Lemma parse_authority authority :
  let '(userinfo, host) :=
    match rsplit_once at_sign authority with Some (i, host) => (Some i, host) | None => (None, authority) end in
  (∀ s p q, print_authority (mkUrl s userinfo host p q) = authority) ∧ at_sign ∉ host.
Proof.
  destruct (rsplit_once at_sign authority) as [[i host]|] eqn:Ha.
  - apply rsplit_once_Some in Ha as [-> Hh]. by split.
  - by apply rsplit_once_None in Ha.
Qed.
Lemma parse_base base q :
  let u := parse_entry (base ++ match q with Some q => ch "?" :: q | None => [] end) in
  ch "?" ∉ base →
  scheme_part u ++ print_body u = base ∧ url_query u = q ∧
  (∀ scheme, url_scheme u = Some scheme → split_once (chars "://") (scheme ++ chars "://") = Some (scheme, [])) ∧
  (url_scheme u = None → split_once (chars "://") (print_body u) = None) ∧
  ch "/" ∉ print_authority u ∧ at_sign ∉ url_host u.
Proof.
  intros u Hq.
  assert (match split_once [ch "?"] (base ++ match q with Some q => ch "?" :: q | None => [] end) with
          | Some (b, x) => (b, Some x) | None => (base ++ match q with Some q => ch "?" :: q | None => [] end, None) end = (base, q)) as Hsplit.
  { destruct q as [q|]; [by rewrite (proj2 (split_once_Some _ _ base q))|]. rewrite app_nil_r. by rewrite (proj2 (split_once_None _ _)). }
  subst u. unfold parse_entry. rewrite Hsplit. clear Hsplit.
  destruct (split_once (chars "://") base) as [[scheme rest]|] eqn:Hs.
  1: pose proof (split_once_app _ _ _ _ Hs) as Hb; rewrite Hb in Hs; apply (split_once_local _ _ _ []) in Hs; [|done]; rewrite app_nil_r in Hs.
  2: set (rest := base).
  all: destruct (split_once [ch "/"] rest) as [[authority path]|] eqn:Hp.
  1, 3: apply split_once_Some in Hp as [Hr Ha]. 3, 4: apply split_once_None in Hp as Ha; try set (authority := rest).
  all: match goal with |- context [rsplit_once at_sign ?a] => pose proof (parse_authority a) as Hau; destruct (rsplit_once at_sign a) as [[i host]|] end.
  all: destruct Hau as [Hau Hh]; unfold scheme_part, print_body; cbn [url_scheme url_path url_query url_host]; rewrite !Hau.
  all: split_and!; [|done|intros ? [= <-]; done || intros ? [=]|try done|done|done].
  all: rewrite <- ?app_assoc, ?app_nil_r; cbn [app]; rewrite <- ?Hr; by rewrite ?Hb.
Qed.
Lemma parse_entry_print entry : print_url (parse_entry entry) = entry.
Proof.
  destruct (split_once [ch "?"] entry) as [[base q]|] eqn:Hq.
  - apply split_once_Some in Hq as [-> Hq]. destruct (parse_base base (Some q) Hq) as (Hb & Hqu & _).
    unfold print_url. fold (scheme_part (parse_entry (base ++ ch "?" :: q))). by rewrite Hqu, app_assoc, Hb.
  - apply split_once_None in Hq. pose proof (parse_base entry None Hq) as Hbase. cbn zeta in Hbase. rewrite app_nil_r in Hbase.
    destruct Hbase as (Hb & Hqu & _). unfold print_url. fold (scheme_part (parse_entry entry)). by rewrite Hqu, app_assoc, Hb, app_nil_r.
Qed.
Lemma parse_entry_ok entry : edges_ok entry → entry ≠ [] → ch "," ∉ entry → url_ok (parse_entry entry).
Proof.
  intros He Hne Hc.
  assert (∃ base q, entry = base ++ match q with Some q => ch "?" :: q | None => [] end ∧ ch "?" ∉ base) as (base & q & Heq & Hq).
  { destruct (split_once [ch "?"] entry) as [[base q]|] eqn:Hq.
    - apply split_once_Some in Hq as [-> Hq]. by exists base, (Some q).
    - apply split_once_None in Hq. exists entry, None. by rewrite app_nil_r. }
  pose proof (parse_base base q Hq) as Hb. cbn zeta in Hb. rewrite <- Heq in Hb. destruct Hb as (Hb & _ & ? & ? & ? & ?).
  split; rewrite ?parse_entry_print; try done. by rewrite Hb.
Qed.

(** ** The mask is no secret *)

Lemma edges_replace a b b' c : b' ≠ [] → edges_ok b' → edges_ok (a ++ b ++ c) → edges_ok (a ++ b' ++ c).
Proof.
  intros Hne [Hh Hl] [Hha Hla]. split; intros x.
  - specialize (Hha x). rewrite !head_app in *. destruct (head a); [done|]. destruct b'; [done|]. intros [= <-]. by apply Hh.
  - specialize (Hla x). rewrite !last_app in *. destruct (last c); [done|].
    destruct (last b') eqn:Hb; [|by apply last_None in Hb]. intros [= ->]. by apply Hl.
Qed.
Lemma nonempty_replace {A} (a b c : list A) : b ≠ [] → a ++ b ++ c ≠ [].
Proof. by destruct a, b. Qed.

(** Masking the user info alone, then the query alone. *)
Definition mask_user (u : Url) : Url := mkUrl (url_scheme u) ((λ _, mask) <$> url_userinfo u) (url_host u) (url_path u) (url_query u).
Definition mask_query (u : Url) : Url := mkUrl (url_scheme u) (url_userinfo u) (url_host u) (url_path u) ((λ _, mask) <$> url_query u).
Lemma not_in_replace {A} (x : A) a b b' c : x ∉ b' → x ∉ a ++ b ++ c → x ∉ a ++ b' ++ c.
Proof. rewrite !not_elem_of_app. naive_solver. Qed.
Lemma mask_query_ok u : url_ok u → url_ok (mask_query u).
Proof.
  intros [He Hne Hc]. destruct u as [s i h p [q|]]; [|done].
  set (u := mkUrl s i h p (Some q)) in *. set (pre := scheme_part u ++ print_body u).
  assert (print_url u = pre ++ (ch "?" :: q) ++ []) as Hu by (unfold print_url, pre; by rewrite app_nil_r, app_assoc).
  assert (print_url (mask_query u) = pre ++ (ch "?" :: mask) ++ []) as Hm by (unfold print_url, pre; by rewrite app_nil_r, app_assoc).
  rewrite Hu in *. split; try done; rewrite Hm.
  - eapply edges_replace; [done| |done]. split; intros c; vm_compute; by intros [= <-].
  - by apply nonempty_replace.
  - eapply not_in_replace; [|done]. by apply (bool_decide_unpack _).
Qed.
Lemma mask_user_ok u : url_ok u → url_ok (mask_user u).
Proof.
  intros [He Hne Hc Hq Hs Hsl Ha Hh]. destruct u as [s [i|] h p q]; [|done].
  set (u := mkUrl s (Some i) h p q) in *. set (path := match p with Some p => ch "/" :: p | None => [] end).
  set (query := match q with Some q => ch "?" :: q | None => [] end).
  assert (∀ v, print_url (mkUrl s (Some v) h p q) = scheme_part u ++ (v ++ [at_sign]) ++ (h ++ path ++ query)) as Hu.
  { intros v. unfold print_url, print_body, print_authority, path, query. cbn. by rewrite <- !app_assoc. }
  assert (∀ v, print_body (mkUrl s (Some v) h p q) = (v ++ [at_sign]) ++ (h ++ path)) as Hb.
  { intros v. unfold print_body, print_authority, path. cbn. by rewrite <- !app_assoc. }
  unfold u in Hq, Hsl. rewrite Hb in Hq, Hsl. unfold u in He, Hne, Hc. rewrite Hu in He, Hne, Hc.
  change (mask_user u) with (mkUrl s (Some mask) h p q). split; rewrite ?Hu, ?Hb.
  - eapply edges_replace; [by destruct mask| |done]. split; intros c; vm_compute; by intros [= <-].
  - apply nonempty_replace. by destruct mask.
  - eapply not_in_replace; [|done]. by apply (bool_decide_unpack _).
  - eapply not_in_replace; [|done]. by apply (bool_decide_unpack _).
  - done.
  - intros Hnone. apply (split_once_extend (ch ":") (chars "//")); [by apply (bool_decide_unpack _)|].
    apply split_once_suffix in Hsl; done.
  - unfold print_authority in *. cbn in *. rewrite not_elem_of_app in *. split; [by apply (bool_decide_unpack _)|by destruct Ha].
  - done.
Qed.
Lemma masked_ok u : url_ok u → url_ok (masked u).
Proof. intros Hu. by apply mask_query_ok, mask_user_ok in Hu. Qed.
Lemma masked_masked u : masked (masked u) = masked u.
Proof. by destruct u as [s [] h p []]. Qed.

(** A text without a comma: it is blank, or a URL that is masked. *)
Lemma redact_single_cases entry : ch "," ∉ entry →
  redact_single entry = [] ∨
  ∃ u, url_ok u ∧ print_url u = trim entry ∧ redact_single entry = print_url (masked u).
Proof.
  intros Hc. destruct (decide (trim entry = [])) as [Hb|Hb].
  { left. unfold redact_single. by rewrite Hb, bool_decide_eq_true_2 by done. }
  assert (url_ok (parse_entry (trim entry))) as Hu.
  { apply parse_entry_ok; [apply trim_edges|done|]. intros Hin. by apply trim_subseteq in Hin. }
  right. eexists. split; [exact Hu|]. split; [apply parse_entry_print|].
  rewrite <- redact_single_print by done. rewrite parse_entry_print. unfold redact_single.
  by rewrite (trim_id (trim entry)) by apply trim_edges.
Qed.
Lemma redact_single_comma entry : ch "," ∉ entry → ch "," ∉ redact_single entry ∧ redact_single (redact_single entry) = redact_single entry.
Proof.
  intros Hc. destruct (redact_single_cases entry Hc) as [->|(u & Hu & _ & ->)]; [split; [apply not_elem_of_nil|done]|].
  split; [by apply url_commas, masked_ok|]. rewrite redact_single_print by by apply masked_ok. by rewrite masked_masked.
Qed.
(** The masking adds nothing but the mask. *)
Lemma masked_subset u c : c ∈ print_url (masked u) → c ∈ print_url u ∨ c ∈ mask.
Proof.
  destruct u as [s [i|] h p [q|]]; unfold print_url, print_body, print_authority; cbn; rewrite ?elem_of_app, ?elem_of_cons; naive_solver.
Qed.
Lemma redact_single_subset entry c : ch "," ∉ entry → c ∈ redact_single entry → c ∈ entry ∨ c ∈ mask.
Proof.
  intros Hc. destruct (redact_single_cases entry Hc) as [->|(u & _ & Hu & ->)]; [by intros ?%not_elem_of_nil|].
  intros [Hin|?]%masked_subset; [|by right]. left. rewrite Hu in Hin. by apply trim_subseteq.
Qed.
Lemma elem_of_join_on c d ps : c ∈ join_on d ps → c = d ∨ ∃ p, p ∈ ps ∧ c ∈ p.
Proof.
  induction ps as [|p ps IH]; cbn; [by intros ?%not_elem_of_nil|]. destruct ps as [|q ps]; [intros Hc; right; exists p; set_solver|].
  intros [Hc|[Hc|Hc]%elem_of_cons]%elem_of_app; [right; exists p; set_solver|by left|].
  destruct (IH Hc) as [?|(r & ? & ?)]; [by left|]. right. exists r. set_solver.
Qed.
Lemma split_on_comma raw p : p ∈ split_on (ch ",") raw → ch "," ∉ p.
Proof. intros Hin. by destruct (split_on_pieces _ _ _ Hin). Qed.
(** A code point of Unicode, as the characters of a text are. *)
Definition unicode (c : char) : Prop := (c < 0x110000)%N.
Lemma redact_unicode raw : Forall unicode raw → Forall unicode (redact_chars raw).
Proof.
  rewrite !Forall_forall. intros Hraw c [->|(p & (q & -> & Hq)%list_elem_of_fmap & Hc)]%elem_of_join_on; [done|].
  apply redact_single_subset in Hc as [Hc|Hc]; [apply split_on_pieces in Hq as [_ Hq]; by apply Hraw, Hq| |by eapply split_on_comma].
  revert c Hc. apply Forall_forall. by repeat constructor.
Qed.
Lemma redact_chars_idempotent raw : redact_chars (redact_chars raw) = redact_chars raw.
Proof.
  pose proof (split_on_comma raw) as Hp.
  unfold redact_chars. rewrite split_on_join.
  - rewrite <- list_fmap_compose. f_equal. apply list_fmap_ext. intros i p Hi%list_elem_of_lookup_2. exact (proj2 (redact_single_comma p (Hp p Hi))).
  - pose proof (split_on_nonempty (ch ",") raw) as Hne. by destruct (split_on _ raw).
  - apply Forall_fmap, Forall_forall. intros p Hin. exact (proj1 (redact_single_comma p (Hp p Hin))).
Qed.
Lemma redact_print_list us : us ≠ [] → Forall url_ok us → redact_chars (print_list us) = print_list (masked <$> us).
Proof.
  intros Hne Hus. unfold redact_chars, print_list. rewrite split_on_join.
  - rewrite <- !list_fmap_compose. f_equal. apply list_fmap_ext. intros i u Hi%list_elem_of_lookup_2.
    apply redact_single_print. by eapply Forall_forall.
  - by destruct us.
  - apply Forall_fmap. eapply Forall_impl; [done|]. intros u Hu. by apply url_commas.
Qed.

(** C37: Credentials do not get through the masking: of a list of servers it prints every
    URL with its user info and its query replaced by the mask, so lists that differ
    only in those look the same; and for every text, masking again changes nothing. *)
Theorem redact_hides_credentials us us' raw :
  us ≠ [] → Forall url_ok us → Forall url_ok us' → masked <$> us = masked <$> us' →
  Forall unicode (print_list us) → Forall unicode (print_list us') → Forall unicode raw →
  redact_nats_url (of_chars (print_list us)) = of_chars (print_list (masked <$> us)) ∧
  redact_nats_url (of_chars (print_list us')) = redact_nats_url (of_chars (print_list us)) ∧
  redact_nats_url (redact_nats_url (of_chars raw)) = redact_nats_url (of_chars raw).
Proof.
  intros Hne Hus Hus' Heq Hu Hu' Hraw. assert (us' ≠ []) by (by destruct us, us').
  unfold redact_nats_url. rewrite (chars_of_chars raw) by done. rewrite !chars_of_chars by (done || by apply redact_unicode).
  split; [by rewrite redact_print_list|]. split; [|by rewrite redact_chars_idempotent].
  rewrite !redact_print_list by done. by rewrite Heq.
Qed.

Definition example_url (user query : string) : Url :=
  mkUrl (Some (chars "nats")) (Some (chars user)) (chars "a:4222") None (Some (chars query)).
Ltac check_url :=
  split; [split; intros c; vm_compute; by intros [= <-]|done|by apply (bool_decide_unpack _)|by apply (bool_decide_unpack _)
         |intros scheme [= <-]; reflexivity|done|by apply (bool_decide_unpack _)|by apply (bool_decide_unpack _)].

Lemma redact_hides_credentials_witness :
  redact_nats_url (of_chars (print_list [example_url "alice:secret" "token=1"])) = "nats://***@a:4222?***" ∧
  redact_nats_url (of_chars (print_list [example_url "bob:pw" "t"])) = "nats://***@a:4222?***".
Proof.
  destruct (redact_hides_credentials [example_url "alice:secret" "token=1"] [example_url "bob:pw" "t"] (chars "a@b")) as (H & H' & _).
  1: done. 1, 2: constructor; [check_url|constructor]. 1: reflexivity. 1, 2, 3: repeat constructor.
  split; [rewrite H; reflexivity|rewrite H', H; reflexivity].
Defined.

(** A slash in the user info is not expected: the text up to the at sign stays. *)
Example slash_in_password : redact_nats_url "nats://u:a/b@host" = "nats://u:a/b@host".
Proof. reflexivity. Qed.
