(* ===== verification/Float.v ===== *)
(** * IEEE 754 binary64: Rust's [f64]

    Rust's [f64] arithmetic is IEEE 754 binary64 with round to nearest, ties to
    even.  The Standard Library's [SpecFloat] gives those operations as plain
    integer computations; this file fixes the format and adds what the
    condition language uses beyond them: [%], [fract], the [as usize] cast,
    integer conversion and the correctly rounded decimal parser. *)

From stdpp Require Import base numbers.
From Stdlib Require Import SpecFloat.
From S2P Require Import Prelude.
Local Open Scope Z_scope.

Abbreviation f64 := spec_float.

#[export] Instance comparison_eq_dec : EqDecision comparison.
Proof. solve_decision. Defined.
#[export] Instance f64_eq_dec : EqDecision f64.
Proof. solve_decision. Defined.

Definition f64_add : f64 → f64 → f64 := SFadd 53 1024.
Definition f64_sub : f64 → f64 → f64 := SFsub 53 1024.
Definition f64_mul : f64 → f64 → f64 := SFmul 53 1024.
Definition f64_div : f64 → f64 → f64 := SFdiv 53 1024.
Definition f64_neg : f64 → f64 := SFopp.
Definition f64_abs : f64 → f64 := SFabs.
(** [PartialOrd::partial_cmp]: [None] when an operand is NaN. *)
Definition f64_partial_cmp : f64 → f64 → option comparison := SFcompare.
Definition f64_eqb : f64 → f64 → bool := SFeqb.
Definition f64_ltb : f64 → f64 → bool := SFltb.

Definition f64_zero : f64 := S754_zero false.
(** [f64::EPSILON], 2^-52. *)
Definition f64_epsilon : f64 := S754_finite false (2 ^ 52)%positive (-104).

(** [n as f64] for an integer. *)
Definition f64_of_Z (z : Z) : f64 := binary_normalize 53 1024 z 0 false.

(** The correctly rounded value of [num / den]. *)
Definition f64_of_ratio (num : Z) (den : positive) : f64 :=
  match num with
  | Z0 => S754_zero false
  | Zpos n => f64_div (S754_finite false n 0) (S754_finite false den 0)
  | Zneg n => f64_div (S754_finite true n 0) (S754_finite false den 0)
  end.

(** [f64 % f64]: the exact remainder of the truncated division, with the sign
    of the dividend. *)
Definition f64_rem (a b : f64) : f64 :=
  match a, b with
  | S754_nan, _ | _, S754_nan => S754_nan
  | S754_infinity _, _ => S754_nan
  | _, S754_zero _ => S754_nan
  | _, S754_infinity _ => a
  | S754_zero _, _ => a
  | S754_finite sa ma ea, S754_finite _ mb eb =>
    let e := Z.min ea eb in
    let r := (Zpos ma * 2 ^ (ea - e)) mod (Zpos mb * 2 ^ (eb - e)) in
    match r with
    | Zpos m => binary_round 53 1024 sa m e
    | _ => S754_zero sa
    end
  end.

(** The integer part, rounded towards zero ([f64::trunc] as an integer). *)
Definition f64_trunc_Z (a : f64) : option Z :=
  match a with
  | S754_zero _ => Some 0
  | S754_finite s m e => Some (cond_Zopp s (if 0 <=? e then Zpos m * 2 ^ e else Zpos m / 2 ^ (- e)))
  | _ => None
  end.

(** [f64::fract() == 0.0]: finite with no fractional part. *)
Definition f64_is_integer (a : f64) : bool :=
  match a with
  | S754_zero _ => true
  | S754_finite _ m e => (0 <=? e) || (Zpos m mod 2 ^ (- e) =? 0)
  | _ => false
  end.

Definition usize_max : Z := 2 ^ 64 - 1.

(** [value as usize]: saturating, NaN to 0. *)
Definition f64_as_usize (a : f64) : Z :=
  match a with
  | S754_nan => 0
  | S754_infinity s => if s then 0 else usize_max
  | _ => match f64_trunc_Z a with
         | Some z => Z.max 0 (Z.min z usize_max)
         | None => 0
         end
  end.

(** ** Facts *)

Lemma binary_round_abs (s : bool) (m : positive) (e : Z) :
  f64_abs (binary_round 53 1024 s m e) = f64_abs (binary_round 53 1024 false m e).
Proof.
  unfold binary_round, binary_round_aux. destruct (shl_align _ _ _) as [mz ez].
  destruct (shr_fexp _ _ _ _ _) as [r1 e1]. destruct (shr_fexp _ _ _ _ _) as [r2 e2].
  destruct (shr_m r2); [done| |done]. by destruct (e2 <=? _).
Qed.

Lemma binary_normalize_abs_opp (z : Z) (e : Z) (sz : bool) :
  f64_abs (binary_normalize 53 1024 (- z) e sz) = f64_abs (binary_normalize 53 1024 z e sz).
Proof.
  destruct z as [|p|p]; [done|apply binary_round_abs|symmetry; apply binary_round_abs].
Qed.

(** The magnitude of a difference does not depend on the order of the operands. *)
Lemma f64_abs_sub_comm (a b : f64) : f64_abs (f64_sub a b) = f64_abs (f64_sub b a).
Proof.
  destruct a as [[]|[]| |sa ma ea], b as [[]|[]| |sb mb eb]; try done.
  unfold f64_sub, SFsub. rewrite (Z.min_comm eb ea).
  rewrite <- binary_normalize_abs_opp. f_equal. f_equal. lia.
Qed.

Lemma f64_sub_diag (s : bool) (m : positive) (e : Z) :
  f64_sub (S754_finite s m e) (S754_finite s m e) = S754_zero false.
Proof. unfold f64_sub, SFsub. by rewrite Z.sub_diag. Qed.

Lemma f64_cmp_antisym (a b : f64) :
  f64_partial_cmp b a = CompOpp <$> f64_partial_cmp a b.
Proof.
  destruct a as [[]|[]| |[] ma ea], b as [[]|[]| |[] mb eb]; try done;
    unfold f64_partial_cmp, SFcompare; cbn; rewrite (Z.compare_antisym ea eb);
    destruct (ea ?= eb); cbn; try done;
    change (Pos.compare_cont Eq mb ma) with (Pos.compare mb ma);
    change (Pos.compare_cont Eq ma mb) with (Pos.compare ma mb);
    by rewrite (Pos.compare_antisym ma mb).
Qed.

Example f64_decimal : f64_of_ratio 1 10 = S754_finite false 7205759403792794 (-56).
Proof. reflexivity. Qed.
Example f64_rem_example : f64_rem (f64_of_Z 7) (f64_of_Z 4) = f64_of_Z 3.
Proof. reflexivity. Qed.
