(* ===== verification/Json.v ===== *)
(** * JSON values ([serde_json::Value])

    Numbers keep serde's two representations (integer or [f64]); an object is
    serde's ordered map, listed by key. *)

From stdpp Require Import base list gmap strings numbers.
From Stdlib Require Import SpecFloat.
From S2P Require Import Prelude Float.

(** [serde_json::Number]: a 64-bit integer or a float. *)
Inductive Number :=
| NumInt (z : Z)
| NumFloat (f : f64).

Inductive Value :=
| VNull
| VBool (b : bool)
| VNumber (n : Number)
| VString (s : string)
| VArray (items : list Value)
| VObject (fields : list (string * Value)).

(** The variables of a token or an instance. *)
Abbreviation Vars := (gmap string Value).

(** [Number::as_f64]. *)
Definition as_f64 (n : Number) : f64 :=
  match n with
  | NumInt z => f64_of_Z z
  | NumFloat f => f
  end.

Definition number_eqb (a b : Number) : bool :=
  match a, b with
  | NumInt x, NumInt y => (x =? y)%Z
  | NumFloat x, NumFloat y => f64_eqb x y
  | _, _ => false
  end.

(** [Value]'s [PartialEq]. *)
Fixpoint value_eqb (a b : Value) {struct a} : bool :=
  let fix items_eqb (xs ys : list Value) {struct xs} : bool :=
    match xs, ys with
    | [], [] => true
    | x :: xs, y :: ys => value_eqb x y && items_eqb xs ys
    | _, _ => false
    end in
  let fix fields_eqb (xs ys : list (string * Value)) {struct xs} : bool :=
    match xs, ys with
    | [], [] => true
    | (k, x) :: xs, (k', y) :: ys => bool_decide (k = k') && value_eqb x y && fields_eqb xs ys
    | _, _ => false
    end in
  match a, b with
  | VNull, VNull => true
  | VBool x, VBool y => Bool.eqb x y
  | VNumber x, VNumber y => number_eqb x y
  | VString x, VString y => bool_decide (x = y)
  | VArray xs, VArray ys => items_eqb xs ys
  | VObject xs, VObject ys => fields_eqb xs ys
  | _, _ => false
  end.

(** [Map::get] on an object. *)
Fixpoint field_get (k : string) (fields : list (string * Value)) : option Value :=
  match fields with
  | [] => None
  | (k', v) :: rest => if decide (k = k') then Some v else field_get k rest
  end.

(** [Map::insert]: keys stay in order, an existing key is overwritten. *)
Fixpoint field_insert (k : string) (v : Value) (fields : list (string * Value))
    : list (string * Value) :=
  match fields with
  | [] => [(k, v)]
  | (k', v') :: rest =>
    if decide (k = k') then (k, v) :: rest
    else if String.ltb k k' then (k, v) :: (k', v') :: rest
    else (k', v') :: field_insert k v rest
  end.

(** [value.get(key)] on a JSON value. *)
Definition value_get (k : string) (v : Value) : option Value :=
  match v with VObject fields => field_get k fields | _ => None end.
Definition as_str (v : Value) : option string := match v with VString s => Some s | _ => None end.
(** [Value::as_u64]. *)
Definition as_u64 (v : Value) : option N :=
  match v with
  | VNumber (NumInt z) => if (0 <=? z)%Z then Some (Z.to_N z) else None
  | _ => None
  end.

(** [HashMap::extend]: the entries of [b] win. *)
Definition extend {V} (a b : gmap string V) : gmap string V := b ∪ a.

(** ** Induction over nested values *)

Section value_ind.
  Variable P : Value → Prop.
  Hypothesis Hnull : P VNull.
  Hypothesis Hbool : ∀ b, P (VBool b).
  Hypothesis Hnum : ∀ n, P (VNumber n).
  Hypothesis Hstr : ∀ s, P (VString s).
  Hypothesis Harr : ∀ items, Forall P items → P (VArray items).
  Hypothesis Hobj : ∀ fields, Forall (λ kv, P kv.2) fields → P (VObject fields).

Fixpoint Value_nested_ind (v : Value) : P v :=
  match v with
  | VNull => Hnull
  | VBool b => Hbool b
  | VNumber n => Hnum n
  | VString s => Hstr s
  | VArray items => Harr items
      ((fix go (l : list Value) : Forall P l :=
          match l with
          | [] => Forall_nil_2 P
          | x :: l => Forall_cons_2 P x l (Value_nested_ind x) (go l)
          end) items)
  | VObject fields => Hobj fields
      ((fix go (l : list (string * Value)) : Forall (λ kv, P kv.2) l :=
          match l with
          | [] => Forall_nil_2 _
          | kv :: l => Forall_cons_2 (λ kv, P kv.2) kv l (Value_nested_ind kv.2) (go l)
          end) fields)
  end.
End value_ind.

#[export] Instance Number_eq_dec : EqDecision Number.
Proof. solve_decision. Defined.

(** Leibniz equality on values is decidable (needed for records holding them). *)
Lemma Value_eq_dec_lemma (v w : Value) : {v = w} + {v ≠ w}.
Proof.
  revert v w.
  fix IH 1. intros v w.
  destruct v as [|b|n|s|items|fields], w as [|b'|n'|s'|items'|fields']; try (right; discriminate).
  - by left.
  - destruct (decide (b = b')); [left|right]; congruence.
  - destruct (decide (n = n')); [left|right]; congruence.
  - destruct (decide (s = s')); [left|right]; congruence.
  - assert ({items = items'} + {items ≠ items'}) as [->|]; [|by left|right; congruence].
    revert items'. induction items as [|x l IHl]; intros [|y l']; [by left|by right|by right|].
    destruct (IH x y) as [->|]; [|right; congruence].
    destruct (IHl l') as [->|]; [by left|right; congruence].
  - assert ({fields = fields'} + {fields ≠ fields'}) as [->|]; [|by left|right; congruence].
    revert fields'. induction fields as [|[k x] l IHl]; intros [|[k' y] l']; [by left|by right|by right|].
    destruct (decide (k = k')) as [->|]; [|right; congruence].
    destruct (IH x y) as [->|]; [|right; congruence].
    destruct (IHl l') as [->|]; [by left|right; congruence].
Defined.
#[export] Instance Value_eq_dec : EqDecision Value := Value_eq_dec_lemma.

Lemma field_get_insert_eq (k : string) (v : Value) fields :
  field_get k (field_insert k v fields) = Some v.
Proof.
  induction fields as [|[k' v'] l IH]; simpl.
  - by rewrite decide_True.
  - case_decide; simpl; [by rewrite decide_True|].
    destruct (String.ltb k k'); simpl; [by rewrite decide_True|]. by rewrite decide_False.
Qed.

Lemma field_get_insert_ne (k k' : string) (v : Value) fields :
  k ≠ k' → field_get k (field_insert k' v fields) = field_get k fields.
Proof.
  intros Hne. induction fields as [|[k2 v2] l IH]; simpl.
  - by rewrite decide_False.
  - destruct (decide (k' = k2)) as [->|]; simpl; [by rewrite !decide_False|].
    destruct (String.ltb k' k2); simpl; [by rewrite decide_False|]. by rewrite IH.
Qed.
