(* ===== verification/Domain.v ===== *)
(** * The domain model: BPMN elements, tokens, data mappings, timers, errors

    engine-core/src/domain: element.rs, flow.rs, listener.rs, multi_instance.rs,
    event_subprocess.rs, incident.rs, token.rs, data.rs, timer.rs, error.rs.
    A [Uuid] is its number; a [DateTime<Utc>] is nanoseconds since the epoch, a
    [std::time::Duration] a number of nanoseconds. *)

From stdpp Require Import base list gmap strings numbers.
From S2P Require Import Prelude Text Json.
Local Open Scope rust_scope.

Abbreviation Uuid := N.
Abbreviation DateTime := Z.
Abbreviation Duration := Z.

(** ** Timers (timer.rs) *)

Inductive TimerDefinition :=
| TimerDuration (d : Duration)
| AbsoluteDate (dt : DateTime)
| CronCycle (expression : string) (max_repetitions : option N)
| RepeatingInterval (repetitions : option N) (interval : Duration).

#[export] Instance TimerDefinition_eq_dec : EqDecision TimerDefinition.
Proof. solve_decision. Defined.

(** [chrono::Duration::MAX], [i64::MAX] milliseconds. *)
Definition chrono_max : Z := (9223372036854775807 * 1000000)%Z.
(** [DateTime::<Utc>::MAX_UTC], the last nanosecond of year 262142. *)
Definition max_utc : Z := (8210266876799 * 1000000000 + 999999999)%Z.

(** What a call gives back: a value, or a panic that unwinds the caller. *)
Inductive call (A : Type) : Type :=
| Returns (a : A)
| Panics.
Arguments Returns {A} a.
Arguments Panics {A}.

(** [chrono::Duration::from_std(d).ok()?] followed by [now + d], which panics
    when the sum is beyond the last representable instant. *)
Definition add_duration (now : DateTime) (d : Duration) : call (option DateTime) :=
  if (d <=? chrono_max)%Z then
    if (now + d <=? max_utc)%Z then Returns (Some (now + d)%Z) else Panics
  else Returns None.

(** The cron library: [expression.parse::<Cron>().ok()?] followed by
    [find_next_occurrence(&now, false).ok()]. *)
Class CronLib := { cron_next : string → DateTime → option DateTime }.
(** A reader that accepts no expression. *)
Definition no_cron : CronLib := {| cron_next := λ _ _, None |}.

(** [TimerDefinition::next_expiry]. *)
Definition next_expiry {C : CronLib} (t : TimerDefinition) (now : DateTime) : call (option DateTime) :=
  match t with
  | TimerDuration d => add_duration now d
  | AbsoluteDate dt => Returns (if (now <? dt)%Z then Some dt else None)
  | CronCycle expression _ => Returns (cron_next expression now)
  | RepeatingInterval _ interval => add_duration now interval
  end.

(** [TimerDefinition::is_recurring]. *)
Definition is_recurring (t : TimerDefinition) : bool :=
  match t with CronCycle _ _ | RepeatingInterval _ _ => true | _ => false end.

(** [TimerDefinition::initial_remaining_repetitions]. *)
Definition initial_remaining_repetitions (t : TimerDefinition) : option N :=
  match t with
  | RepeatingInterval repetitions _ => repetitions
  | CronCycle _ max_repetitions => max_repetitions
  | _ => None
  end.

(** ** Elements and flows *)

Record MultiInstanceDef := {
  is_sequential : bool;
  loop_cardinality : option string;
  collection : option string;
  element_variable : option string;
}.
#[export] Instance MultiInstanceDef_eq_dec : EqDecision MultiInstanceDef.
Proof. solve_decision. Defined.

Inductive BpmnElement :=
| StartEvent
| TimerStartEvent (timer : TimerDefinition)
| EndEvent
| TerminateEndEvent
| ServiceTask (topic : string) (multi_instance : option MultiInstanceDef)
| UserTask (assignee : string)
| ScriptTask (script : string) (multi_instance : option MultiInstanceDef)
| SendTask (message_name : string) (multi_instance : option MultiInstanceDef)
| ExclusiveGateway (default : option string)
| InclusiveGateway
| ParallelGateway
| EventBasedGateway
| ComplexGateway (join_condition : option string) (default : option string)
| TimerCatchEvent (timer : TimerDefinition)
| BoundaryTimerEvent (attached_to : string) (timer : TimerDefinition) (cancel_activity : bool)
| MessageStartEvent (message_name : string)
| MessageCatchEvent (message_name : string)
| BoundaryMessageEvent (attached_to message_name : string) (cancel_activity : bool)
| SignalStartEvent (signal_name : string)
| SignalCatchEvent (signal_name : string)
| SignalThrowEvent (signal_name : string)
| SignalEndEvent (signal_name : string)
| BoundarySignalEvent (attached_to signal_name : string) (cancel_activity : bool)
| ConditionalCatchEvent (condition : string)
| BoundaryConditionalEvent (attached_to condition : string) (cancel_activity : bool)
| BoundaryErrorEvent (attached_to : string) (error_code : option string)
| ErrorEndEvent (error_code : string)
| EscalationEndEvent (escalation_code : string)
| EscalationThrowEvent (escalation_code : string)
| BoundaryEscalationEvent (attached_to : string) (escalation_code : option string) (cancel_activity : bool)
| CompensationThrowEvent (activity_ref : option string)
| CompensationEndEvent (activity_ref : option string)
| LinkThrowEvent (target : string)
| BoundaryCompensationEvent (attached_to : string)
| CallActivity (called_element : string)
| EmbeddedSubProcess (start_node_id : string)
| SubProcessEndEvent (sub_process_id : string).
#[export] Instance BpmnElement_eq_dec : EqDecision BpmnElement.
Proof. solve_decision. Defined.

(** flow.rs. *)
Record SequenceFlow := { target : string; condition : option string }.
#[export] Instance SequenceFlow_eq_dec : EqDecision SequenceFlow.
Proof. solve_decision. Defined.
Definition flow_simple (to : string) : SequenceFlow := {| target := to; condition := None |}.
Definition flow_conditional (to cond : string) : SequenceFlow :=
  {| target := to; condition := Some cond |}.

(** listener.rs and event_subprocess.rs. *)
Inductive ListenerEvent := LStart | LEnd.
Record ExecutionListener := { l_event : ListenerEvent; l_script : string }.
Inductive ScopeEventListener :=
| ScopeTimer (timer : TimerDefinition) (is_interrupting : bool) (target_definition : string)
| ScopeMessage (message_name : string) (is_interrupting : bool) (target_definition : string)
| ScopeError (error_code : option string) (target_definition : string).
Inductive EventSubProcessTrigger :=
| TriggerTimer (timer : TimerDefinition)
| TriggerMessage (name : string)
| TriggerSignal (name : string)
| TriggerError (code : option string)
| TriggerEscalation (code : option string).
Record EventSubProcess := {
  esp_id : string;
  esp_start_node : string;
  esp_node_ids : list string;
  esp_trigger : EventSubProcessTrigger;
  esp_interrupting : bool;
}.
Record EventSubscription := {
  sub_id : Uuid;
  subprocess_id : string;
  next_due : option DateTime;
  remaining : option N;
}.

(** ** Errors (error.rs) *)

Inductive EngineError :=
| InvalidDefinition (msg : string)
| DataMappingError (msg : string)
| NoSuchNode (id : string)
| NoSuchDefinition (key : Uuid)
| NoSuchInstance (id : Uuid)
| TaskNotPending (task_id : Uuid) (actual_state : string)
| AlreadyCompleted
| TimerMismatch (expected provided : N)
| NoMatchingCondition (gateway : string)
| ServiceTaskNotFound (id : Uuid)
| ServiceTaskLocked (task_id : Uuid) (worker_id : string)
| ServiceTaskNotLocked (id : Uuid)
| DefinitionHasInstances (n : nat)
| OrphanedToken (node : string)
| PersistenceError (msg : string)
| ScriptError (msg : string)
| ExecutionLimitExceeded (msg : string)
| InstanceSuspended (id : Uuid)
| IncidentNotFound (id : Uuid)
| IncidentAlreadyResolved (id : Uuid).
#[export] Instance EngineError_eq_dec : EqDecision EngineError.
Proof. solve_decision. Defined.

Abbreviation EngineResult := (result EngineError).

(** ** Incidents (incident.rs) *)

Definition MAX_INCIDENTS_PER_INSTANCE : nat := 100.
Inductive IncidentKind := KServiceTask | KTimer | KPersistence | KBpmnError.
#[export] Instance IncidentKind_eq_dec : EqDecision IncidentKind.
Proof. solve_decision. Defined.

Record Incident := {
  inc_id : Uuid;
  inc_kind : IncidentKind;
  inc_node_id : option string;
  inc_task_id : option Uuid;
  inc_message : string;
  inc_details : option string;
  created_at : DateTime;
  last_seen_at : DateTime;
  occurrences : N;
  resolved_at : option DateTime;
  resolved_by : option string;
}.
#[export] Instance Incident_eq_dec : EqDecision Incident.
Proof. solve_decision. Defined.
