(* ===== verification/Token.v ===== *)
(** * Tokens and data mappings

    engine-core/src/domain/token.rs and data.rs: a token carries its position
    and variables; while an activity with input mappings is active it also
    carries a [DataScope], the variables to return to and the names that are
    local to the activation.  Mapping expressions are variable references and
    literals, evaluated against one snapshot. *)

From stdpp Require Import base list gmap strings.
From S2P Require Import Prelude Text Json Domain.
Local Open Scope rust_scope.

Record DataScope := {
  scope_node : string;
  original_variables : Vars;
  local_names : list string;
}.
#[export] Instance DataScope_eq_dec : EqDecision DataScope.
Proof. solve_decision. Defined.

Record Token := mkToken {
  tok_id : Uuid;
  current_node : string;
  variables : Vars;
  is_merged : bool;
  data_scope : option DataScope;
}.
#[export] Instance Token_eq_dec : EqDecision Token.
Proof. solve_decision. Defined.

Definition set_node (n : string) (t : Token) : Token :=
  mkToken (tok_id t) n (variables t) (is_merged t) (data_scope t).
Definition set_variables (vs : Vars) (t : Token) : Token :=
  mkToken (tok_id t) (current_node t) vs (is_merged t) (data_scope t).
Definition set_merged (b : bool) (t : Token) : Token :=
  mkToken (tok_id t) (current_node t) (variables t) b (data_scope t).
Definition set_scope (s : option DataScope) (t : Token) : Token :=
  mkToken (tok_id t) (current_node t) (variables t) (is_merged t) s.

(** [Token::with_variables]; the fresh id is an argument. *)
Definition with_variables (id : Uuid) (start_node : string) (vs : Vars) : Token :=
  mkToken id start_node vs false None.
(** [Token::new]. *)
Definition token_new (id : Uuid) (start_node : string) : Token := with_variables id start_node ∅.

(** The loop of [process_variables]: each local name gets its original value
    back, or disappears when it had none. *)
Definition restore_local (original : Vars) (vs : Vars) (name : string) : Vars :=
  match original !! name with
  | Some v => <[name := v]> vs
  | None => delete name vs
  end.

(** [Token::process_variables]. *)
Definition process_variables (t : Token) : Vars :=
  match data_scope t with
  | Some scope => fold_left (restore_local (original_variables scope)) (local_names scope) (variables t)
  | None => variables t
  end.

(** [Token::discard_data_scope]. *)
Definition discard_data_scope (t : Token) : Token :=
  match data_scope t with
  | Some scope => set_scope None (set_variables (original_variables scope) t)
  | None => t
  end.

(** ** Mapping expressions (data.rs) *)

(** [MapMap] lists the entries of the source's hash map in iteration order. *)
Inductive MappingValue :=
| MapLiteral (v : Value)
| MapVariable (name : string)
| MapList (values : list MappingValue)
| MapMap (entries : list (string * MappingValue)).

Record DataMapping := { map_target : string; map_value : MappingValue }.

Record ActivityMappings := {
  inputs : list DataMapping;
  outputs : list DataMapping;
  call_inputs : option (list DataMapping);
  call_outputs : option (list DataMapping);
}.

Definition missing_variable (name : string) : EngineError :=
  DataMappingError ("Data mapping: variable '" +:+ name +:+ "' is missing").
Definition bad_target (name : string) : EngineError :=
  DataMappingError ("Data mapping: empty or duplicate target '" +:+ name +:+ "'").

(** [MappingValue::evaluate]. *)
Fixpoint evaluate_mapping (m : MappingValue) (vs : Vars) : EngineResult Value :=
  match m with
  | MapLiteral v => Ok v
  | MapVariable name => ok_or (missing_variable name) (vs !! name)
  | MapList values =>
    items ←? (fix go (l : list MappingValue) : EngineResult (list Value) :=
      match l with
      | [] => Ok []
      | x :: l => v ←? evaluate_mapping x vs; rest ←? go l; Ok (v :: rest)
      end) values;
    Ok (VArray items)
  | MapMap entries =>
    fields ←? (fix go (l : list (string * MappingValue)) (acc : list (string * Value))
        : EngineResult (list (string * Value)) :=
      match l with
      | [] => Ok acc
      | (k, x) :: l => v ←? evaluate_mapping x vs; go l (field_insert k v acc)
      end) entries [];
    Ok (VObject fields)
  end.

(** The loop of [evaluate_mappings] with the results so far. *)
Fixpoint evaluate_mappings_from (mappings : list DataMapping) (source result : Vars) : EngineResult Vars :=
  match mappings with
  | [] => Ok result
  | m :: rest =>
    if is_blank (map_target m) || bool_decide (is_Some (result !! map_target m))
    then Err (bad_target (map_target m))
    else
      v ←? evaluate_mapping (map_value m) source;
      evaluate_mappings_from rest source (<[map_target m := v]> result)
  end.

(** [evaluate_mappings]. *)
Definition evaluate_mappings (mappings : list DataMapping) (source : Vars) : EngineResult Vars :=
  evaluate_mappings_from mappings source ∅.

(** ** Process variables hide the activation *)

Lemma fold_restore_lookup original names vs k :
  fold_left (restore_local original) names vs !! k =
  if decide (k ∈ names) then original !! k else vs !! k.
Proof.
  revert vs. induction names as [|n names IH]; intros vs; cbn [fold_left].
  - case_decide as Hk; [by apply not_elem_of_nil in Hk|done].
  - rewrite IH. unfold restore_local. destruct (decide (k = n)) as [->|Hne].
    + destruct (decide (n ∈ n :: names)) as [_|[]]; [|apply elem_of_cons; by left].
      case_decide; [done|]. destruct (original !! n) eqn:E; by simplify_map_eq.
    + assert (k ∈ n :: names ↔ k ∈ names) as Hiff by (rewrite elem_of_cons; naive_solver).
      rewrite (decide_ext _ _ _ _ Hiff). case_decide; [done|].
      destruct (original !! n); by simplify_map_eq.
Qed.

(** Outside the active activity a token shows every local name with its
    original value (or not at all) and every other name with its current
    value; without a scope it shows its variables. *)
Theorem process_variables_lookup (t : Token) (k : string) :
  process_variables t !! k =
  match data_scope t with
  | Some s => if decide (k ∈ local_names s) then original_variables s !! k else variables t !! k
  | None => variables t !! k
  end.
Proof. unfold process_variables. destruct (data_scope t); [apply fold_restore_lookup|done]. Qed.

(** ** Mapping phases are simultaneous *)

Lemma evaluate_mappings_from_ok mappings source result r :
  evaluate_mappings_from mappings source result = Ok r →
  NoDup (map_target <$> mappings) ∧
  (∀ m, m ∈ mappings → result !! map_target m = None ∧
     ∃ v, evaluate_mapping (map_value m) source = Ok v ∧ r !! map_target m = Some v) ∧
  (∀ k, k ∉ map_target <$> mappings → r !! k = result !! k) ∧
  (∀ m, m ∈ mappings → is_blank (map_target m) = false).
Proof.
  revert result. induction mappings as [|m ms IH]; intros result; simpl.
  - intros [= <-]. split; [constructor|]. split; [set_solver|]. split; [done|set_solver].
  - destruct (is_blank (map_target m)) eqn:Hb; [done|]. cbn [orb]. case_bool_decide as Hs; [done|].
    rewrite result_bind_Ok. intros (v & Hv & Hrec). apply IH in Hrec as (Hnd & Hin & Hout & Hbl).
    apply eq_None_not_Some in Hs.
    assert (map_target m ∉ map_target <$> ms) as Hfresh.
    { intros (m' & Heq & Hm')%list_elem_of_fmap. apply Hin in Hm' as [Hn _].
      rewrite <- Heq, lookup_insert_eq in Hn. done. }
    split; [by constructor|]. split_and!.
    + intros m' [->|Hm']%elem_of_cons.
      * split; [done|]. exists v. split; [done|]. by rewrite Hout, lookup_insert_eq.
      * destruct (Hin m' Hm') as [Hn ?]. split; [|done].
        rewrite lookup_insert_ne in Hn; [done|]. intros Heq. apply Hfresh. rewrite Heq.
        by apply list_elem_of_fmap_2.
    + intros k [Hk Hks]%not_elem_of_cons. rewrite Hout by done. by rewrite lookup_insert_ne.
    + intros m' [->|Hm']%elem_of_cons; [done|]. by apply Hbl.
Qed.

(** A mapping phase that succeeds evaluated every mapping against the one
    source snapshot, writes exactly the mappings' targets, and its targets are
    distinct and not blank; so a target written by one mapping is never seen
    by another of the same phase. *)
Theorem evaluate_mappings_ok (mappings : list DataMapping) (source r : Vars) :
  evaluate_mappings mappings source = Ok r →
  NoDup (map_target <$> mappings) ∧
  (∀ m, m ∈ mappings → is_blank (map_target m) = false) ∧
  (∀ m, m ∈ mappings → ∃ v, evaluate_mapping (map_value m) source = Ok v ∧ r !! map_target m = Some v) ∧
  (∀ k, is_Some (r !! k) ↔ k ∈ map_target <$> mappings).
Proof.
  intros H. apply evaluate_mappings_from_ok in H as (Hnd & Hin & Hout & Hbl).
  split_and!; [done|done|naive_solver|]. intros k. split.
  - intros Hs. destruct (decide (k ∈ map_target <$> mappings)) as [|Hk]; [done|].
    rewrite Hout in Hs by done. rewrite lookup_empty in Hs. by destruct Hs.
  - intros (m & -> & Hm)%list_elem_of_fmap. destruct (Hin m Hm) as (_ & v & _ & ->). done.
Qed.

Lemma evaluate_mappings_ok_witness :
  let ms := [{| map_target := "a"; map_value := MapVariable "b" |};
             {| map_target := "b"; map_value := MapLiteral VNull |}] in
  let source : Vars := {["b" := VBool true]} in
  ∃ r, evaluate_mappings ms source = Ok r ∧ NoDup (map_target <$> ms).
Proof.
  eexists. split; [vm_compute; reflexivity|].
  eapply (evaluate_mappings_ok _ {["b" := VBool true]}). vm_compute. reflexivity.
Defined.
