(* ===== verification/CondLexer.v ===== *)
(** * Condition language: wrapper removal and lexer

    engine-core/src/condition.rs: [prepare], [tokenize], [read_number],
    [read_string].  The source walks an index over the characters and adds a
    base offset for error positions; here the recursion walks the remaining
    characters and carries the absolute index [i], so an error position is
    [i + 1] as in the source.  Error texts are the constructors of [CondMsg]. *)

From stdpp Require Import base list numbers strings.
From Stdlib Require Import Ascii SpecFloat Wf_nat.
From S2P Require Import Prelude Text Float.
Local Open Scope rust_scope.

Inductive TokenKind :=
| TNumber (n : f64) | TStr (s : string) | TIdent (name : string)
| TTrue | TFalse | TNull | TOr | TAnd | TNot
| TEq | TNe | TGt | TLt | TGe | TLe
| TPlus | TMinus | TStar | TSlash | TPercent
| TLParen | TRParen | TLBracket | TRBracket | TDot | TEof.

#[export] Instance TokenKind_eq_dec : EqDecision TokenKind.
Proof. solve_decision. Defined.

Record SpannedToken := Spanned { kind : TokenKind; pos : nat }.

#[export] Instance SpannedToken_eq_dec : EqDecision SpannedToken.
Proof. solve_decision. Defined.

(** The messages of condition.rs, with the data they are formatted from.
    [OutOfFuel] is no message of the source: it marks an exhausted recursion
    bound, which the theorems exclude. *)
Inductive CondMsg :=
| MsgWrapperMustSurround | MsgExpressionEmpty | MsgSingleEquals | MsgSingleAmp | MsgSingleBar
| MsgWrapperInside | MsgUnexpectedChar (c : char)
| MsgUnterminatedEscape | MsgIncompleteUnicode | MsgInvalidUnicode (hex : list char)
| MsgInvalidCodePoint (code : N) | MsgInvalidEscape (c : char) | MsgUnterminatedString
| MsgUnexpectedToken (k : TokenKind) | MsgUnexpectedEnd | MsgExpectedRParen
| MsgExpectedField | MsgExpectedIndex | MsgIndexRange | MsgExpectedRBracket
| OutOfFuel.

Inductive CondError :=
| ErrEmpty
| ErrAt (pos : nat) (msg : CondMsg).

Abbreviation Lex := (result CondError).

(** ** Wrapper removal *)

(** The characters up to the last one that is not white space. *)
Fixpoint drop_trailing_ws (cs : list char) : list char :=
  match cs with
  | [] => []
  | c :: cs =>
    match drop_trailing_ws cs with
    | [] => if is_whitespace c then [] else [c]
    | rest => c :: rest
    end
  end.

(** Leading white space: how many characters, and what is left. *)
Fixpoint split_leading_ws (cs : list char) : nat * list char :=
  match cs with
  | [] => (0, [])
  | c :: rest =>
    if is_whitespace c then let '(n, r) := split_leading_ws rest in (S n, r) else (0, cs)
  end.

(** [prepare]: trim, and strip one wrapper that surrounds the whole expression. *)
Definition prepare (expr : string) : Lex (list char * nat) :=
  let '(start, rest) := split_leading_ws (chars expr) in
  match rest with
  | [] => Err ErrEmpty
  | _ =>
    let inner := drop_trailing_ws rest in
    match inner with
    | c0 :: c1 :: more =>
      if ((c0 =? ch "$") || (c0 =? ch "#"))%N && (c1 =? ch "{")%N then
        match last inner with
        | Some c =>
          if (c =? ch "}")%N then
            let body := take (length more - 1) more in
            if forallb is_whitespace body then Err (ErrAt (start + 3) MsgExpressionEmpty)
            else Ok (body, start + 2)
          else Err (ErrAt (start + 1) MsgWrapperMustSurround)
        | None => Err (ErrAt (start + 1) MsgWrapperMustSurround)
        end
      else Ok (inner, start)
    | _ => Ok (inner, start)
    end
  end.

(** ** Numbers and strings *)

Fixpoint span_digits (cs : list char) : list char * list char :=
  match cs with
  | c :: rest =>
    if is_ascii_digit c then let '(ds, r) := span_digits rest in (c :: ds, r) else ([], cs)
  | [] => ([], [])
  end.

Definition digit_value (c : char) : Z := Z.of_N (c - 48)%N.
Definition digits_value (ds : list char) : Z := fold_left (λ acc c, acc * 10 + digit_value c)%Z ds 0%Z.
Definition pow10 (k : nat) : positive := Nat.iter k (Pos.mul 10) 1%positive.

(** [read_number]: digits with an optional fraction; the text always parses as
    [f64], so the source's parse error cannot occur. *)
Definition read_number (cs : list char) : f64 * list char :=
  let '(ip, rest) := span_digits cs in
  match rest with
  | dot :: ((d :: _) as rest1) =>
    if (dot =? ch ".")%N && is_ascii_digit d then
      let '(fp, rest2) := span_digits rest1 in
      (f64_of_ratio (digits_value (ip ++ fp)) (pow10 (length fp)), rest2)
    else (f64_of_ratio (digits_value ip) 1, rest)
  | _ => (f64_of_ratio (digits_value ip) 1, rest)
  end.

Definition hex_digit (c : char) : option N :=
  if is_ascii_digit c then Some (c - 48)%N
  else if ((97 <=? c) && (c <=? 102))%N then Some (c - 87)%N
  else if ((65 <=? c) && (c <=? 70))%N then Some (c - 55)%N
  else None.

Fixpoint hex_value (acc : N) (cs : list char) : option N :=
  match cs with
  | [] => Some acc
  | c :: cs => match hex_digit c with Some d => hex_value (acc * 16 + d)%N cs | None => None end
  end.

(** [u32::from_str_radix(_, 16)], which accepts one leading plus sign. *)
Definition u32_from_hex (cs : list char) : option N :=
  match cs with
  | c :: ((_ :: _) as rest) => if (c =? ch "+")%N then hex_value 0 rest else hex_value 0 cs
  | [c] => if (c =? ch "+")%N then None else hex_value 0 cs
  | [] => None
  end.

(** The one-character escapes. *)
Definition simple_escape (e : char) : option char :=
  if (e =? ch "n")%N then Some 10%N
  else if (e =? ch "r")%N then Some 13%N
  else if (e =? ch "t")%N then Some 9%N
  else if (e =? ch "0")%N then Some 0%N
  else if (e =? ch "\")%N then Some (ch "\")
  else if (e =? ch "'")%N then Some (ch "'")
  else if (e =? 34)%N then Some 34%N
  else if (e =? ch "/")%N then Some (ch "/")
  else None.

(** [read_string]: from the character after the opening quote [q], which
    stands at index [start]; [i] is the index of the first character of [cs]. *)
Fixpoint read_string (q : char) (start i : nat) (out : string) (cs : list char)
    : Lex (string * nat * list char) :=
  match cs with
  | [] => Err (ErrAt (start + 1) MsgUnterminatedString)
  | c :: rest =>
    if (c =? q)%N then Ok (out, i + 1, rest)
    else if negb (c =? ch "\")%N then read_string q start (i + 1) (push out c) rest
    else
      match rest with
      | [] => Err (ErrAt (i + 1) MsgUnterminatedEscape)
      | e :: rest2 =>
        match simple_escape e with
        | Some d => read_string q start (i + 2) (push out d) rest2
        | None =>
          if (e =? ch "u")%N then
            match rest2 with
            | h1 :: h2 :: h3 :: h4 :: rest6 =>
              match u32_from_hex [h1; h2; h3; h4] with
              | Some code =>
                if is_scalar code then read_string q start (i + 6) (push out code) rest6
                else Err (ErrAt (i + 1) (MsgInvalidCodePoint code))
              | None => Err (ErrAt (i + 1) (MsgInvalidUnicode [h1; h2; h3; h4]))
              end
            | _ => Err (ErrAt (i + 1) MsgIncompleteUnicode)
            end
          else Err (ErrAt (i + 1) (MsgInvalidEscape e))
        end
      end
  end.

(** ** The token stream *)

Section lexer.
  Context {U : UnicodeData}.

Definition is_ident_start (c : char) : bool := is_alphabetic c || (c =? ch "_")%N.
Definition is_ident_continue (c : char) : bool := is_alphanumeric c || (c =? ch "_")%N.

Fixpoint span_ident (cs : list char) : list char * list char :=
  match cs with
  | c :: rest =>
    if is_ident_continue c then let '(ds, r) := span_ident rest in (c :: ds, r) else ([], cs)
  | [] => ([], [])
  end.

Definition keyword (text : string) : TokenKind :=
  if decide (text = "and") then TAnd
  else if decide (text = "or") then TOr
  else if decide (text = "not") then TNot
  else if decide (text = "true") then TTrue
  else if decide (text = "false") then TFalse
  else if decide (text = "null") then TNull
  else TIdent text.

Definition pair_token (a b : char) : option TokenKind :=
  if (a =? ch "|")%N && (b =? ch "|")%N then Some TOr
  else if (a =? ch "&")%N && (b =? ch "&")%N then Some TAnd
  else if (a =? ch "=")%N && (b =? ch "=")%N then Some TEq
  else if (a =? ch "!")%N && (b =? ch "=")%N then Some TNe
  else if (a =? ch ">")%N && (b =? ch "=")%N then Some TGe
  else if (a =? ch "<")%N && (b =? ch "=")%N then Some TLe
  else None.

Definition single_token (c : char) : option TokenKind :=
  if (c =? ch "(")%N then Some TLParen
  else if (c =? ch ")")%N then Some TRParen
  else if (c =? ch "[")%N then Some TLBracket
  else if (c =? ch "]")%N then Some TRBracket
  else if (c =? ch ".")%N then Some TDot
  else if (c =? ch "+")%N then Some TPlus
  else if (c =? ch "-")%N then Some TMinus
  else if (c =? ch "*")%N then Some TStar
  else if (c =? ch "/")%N then Some TSlash
  else if (c =? ch "%")%N then Some TPercent
  else if (c =? ch ">")%N then Some TGt
  else if (c =? ch "<")%N then Some TLt
  else if (c =? ch "!")%N then Some TNot
  else None.

(** One round of [tokenize]'s loop at a character that is no white space: the
    token, the index after it and the remaining characters. *)
Definition next_token (i : nat) (c : char) (rest : list char) : Lex (TokenKind * nat * list char) :=
  match match rest with c1 :: _ => pair_token c c1 | [] => None end with
  | Some k => Ok (k, i + 2, tail rest)
  | None =>
    match single_token c with
    | Some k => Ok (k, i + 1, rest)
    | None =>
      if (c =? 34)%N || (c =? ch "'")%N then
        '(v, i', rest') ←? read_string c i (i + 1) EmptyString rest;
        Ok (TStr v, i', rest')
      else if is_ascii_digit c then
        let '(v, rest') := read_number (c :: rest) in
        Ok (TNumber v, i + (S (length rest) - length rest'), rest')
      else if (c =? ch "=")%N then Err (ErrAt (i + 1) MsgSingleEquals)
      else if (c =? ch "&")%N then Err (ErrAt (i + 1) MsgSingleAmp)
      else if (c =? ch "|")%N then Err (ErrAt (i + 1) MsgSingleBar)
      else if ((c =? ch "$") || (c =? ch "#"))%N
              && match rest with c1 :: _ => (c1 =? ch "{")%N | [] => false end
      then Err (ErrAt (i + 1) MsgWrapperInside)
      else if is_ident_start c then
        let '(more, rest') := span_ident rest in
        Ok (keyword (of_chars (c :: more)), i + S (length more), rest')
      else Err (ErrAt (i + 1) (MsgUnexpectedChar c))
    end
  end.

(** [tokenize], with a bound on the number of rounds. *)
Fixpoint tokenize_go (fuel : nat) (i : nat) (cs : list char) : Lex (list SpannedToken) :=
  match fuel with
  | 0 => Err (ErrAt (i + 1) OutOfFuel)
  | S fuel =>
    match cs with
    | [] => Ok [Spanned TEof (i + 1)]
    | c :: rest =>
      if is_whitespace c then tokenize_go fuel (i + 1) rest
      else
        '(k, i', rest') ←? next_token i c rest;
        ts ←? tokenize_go fuel i' rest';
        Ok (Spanned k (i + 1) :: ts)
    end
  end.

Definition tokenize (cs : list char) (base : nat) : Lex (list SpannedToken) :=
  tokenize_go (S (length cs)) base cs.

(** ** Consumption: every round takes at least one character *)

#[local] Arguments u32_from_hex : simpl never.

(** A lexer error that is not an exhausted bound. *)
Definition real_error (e : CondError) : Prop :=
  match e with ErrAt _ OutOfFuel => False | _ => True end.

Lemma span_digits_length (cs : list char) :
  length (span_digits cs).1 + length (span_digits cs).2 = length cs.
Proof.
  induction cs as [|c cs IH]; simpl; [done|].
  destruct (is_ascii_digit c), (span_digits cs); simpl in *; lia.
Qed.

Lemma span_ident_length (cs : list char) :
  length (span_ident cs).1 + length (span_ident cs).2 = length cs.
Proof.
  induction cs as [|c cs IH]; simpl; [done|].
  destruct (is_ident_continue c), (span_ident cs); simpl in *; lia.
Qed.

Lemma read_number_shrinks (c : char) (rest : list char) :
  is_ascii_digit c = true → length (read_number (c :: rest)).2 ≤ length rest.
Proof.
  intros Hc. pose proof (span_digits_length rest) as Hl. unfold read_number. simpl. rewrite Hc.
  destruct (span_digits rest) as [ds [|dot [|d r2]]]; simpl in *; try lia.
  case_match; simpl; [|lia].
  pose proof (span_digits_length (d :: r2)) as Hl2. simpl in Hl2.
  destruct (is_ascii_digit d), (span_digits r2); simpl in *; lia.
Qed.

Lemma read_string_advances (q : char) (start i : nat) (out : string) (cs : list char) :
  match read_string q start i out cs with
  | Ok (_, i', rest) => length rest < length cs ∧ i' + length rest = i + length cs
  | Err e => real_error e
  end.
Proof.
  revert i out. induction cs as [cs IH] using (induction_ltof1 _ (@length char)).
  unfold ltof in IH. intros i out. destruct cs as [|c rest]; simpl; [done|].
  assert (∀ r i' o, length r < S (length rest) → i' + length r = i + S (length rest) →
    match read_string q start i' o r with
    | Ok (_, i'', rest') => length rest' < S (length rest) ∧ i'' + length rest' = i + S (length rest)
    | Err e => real_error e
    end) as Hrec.
  { intros r i' o Hr Hi. specialize (IH r ltac:(simpl; lia) i' o).
    destruct (read_string q start i' o r) as [[[v j] r']|e]; [lia|done]. }
  destruct (c =? q)%N; [simpl; lia|].
  destruct (negb _); [apply Hrec; lia|].
  destruct rest as [|e rest2]; [done|].
  destruct (simple_escape e); [apply Hrec; simpl; lia|].
  destruct (e =? _)%N; [|done].
  destruct rest2 as [|h1 [|h2 [|h3 [|h4 rest6]]]]; try done.
  destruct (u32_from_hex [h1; h2; h3; h4]) as [code|]; [|done].
  destruct (is_scalar code); [|done]. apply Hrec; simpl; lia.
Qed.

Lemma keyword_not_eof (s : string) : keyword s ≠ TEof.
Proof. unfold keyword. by repeat case_decide. Qed.

Lemma pair_token_not_eof (a b : char) : pair_token a b ≠ Some TEof.
Proof. unfold pair_token. by repeat case_match. Qed.

Lemma single_token_not_eof (c : char) : single_token c ≠ Some TEof.
Proof. unfold single_token. by repeat (destruct (_ =? _)%N; [done|]). Qed.

Lemma next_token_advances (i : nat) (c : char) (rest : list char) :
  match next_token i c rest with
  | Ok (k, i', rest') => k ≠ TEof ∧ length rest' ≤ length rest ∧ i' + length rest' = i + S (length rest)
  | Err e => real_error e
  end.
Proof.
  unfold next_token.
  destruct (match rest with c1 :: _ => pair_token c c1 | [] => None end) as [k|] eqn:Hp.
  { destruct rest as [|c1 r]; [done|]. simpl. split; [|lia].
    intros ->. by apply pair_token_not_eof in Hp. }
  clear Hp. destruct (single_token c) as [k|] eqn:Hs.
  { split; [|simpl; lia]. intros ->. by apply single_token_not_eof in Hs. }
  destruct ((c =? 34)%N || (c =? ch "'")%N).
  { pose proof (read_string_advances c i (i + 1) EmptyString rest) as Hr.
    destruct (read_string _ _ _ _ _) as [[[v j] r]|e]; simpl; [split; [done|lia]|done]. }
  destruct (is_ascii_digit c) eqn:Hd.
  { pose proof (read_number_shrinks c rest Hd).
    destruct (read_number (c :: rest)) as [v r]; simpl in *. split; [done|lia]. }
  destruct (c =? ch "=")%N; [done|]. destruct (c =? ch "&")%N; [done|].
  destruct (c =? ch "|")%N; [done|]. destruct (_ && _); [done|].
  destruct (is_ident_start c); [|done].
  pose proof (span_ident_length rest). destruct (span_ident rest) as [more r]; simpl in *.
  split; [apply keyword_not_eof|lia].
Qed.

(** ** The token stream is well formed *)

(** A stream ends in its only [Eof], which stands right after the text, and
    the positions strictly increase from [lo] on. *)
Fixpoint stream_ok (lo hi : nat) (ts : list SpannedToken) : Prop :=
  match ts with
  | [] => False
  | [t] => kind t = TEof ∧ pos t = hi ∧ lo ≤ hi
  | t :: ts => kind t ≠ TEof ∧ lo ≤ pos t ∧ pos t < hi ∧ stream_ok (S (pos t)) hi ts
  end.

Lemma stream_ok_cons lo hi t ts :
  kind t ≠ TEof → lo ≤ pos t → pos t < hi → stream_ok (S (pos t)) hi ts → stream_ok lo hi (t :: ts).
Proof. destruct ts; naive_solver. Qed.

Lemma stream_ok_weaken lo lo' hi ts : lo' ≤ lo → stream_ok lo hi ts → stream_ok lo' hi ts.
Proof. destruct ts as [|t [|t' ts]]; simpl; intuition lia. Qed.

#[local] Arguments stream_ok : simpl never.

Lemma tokenize_go_ok (fuel i : nat) (cs : list char) :
  length cs < fuel →
  match tokenize_go fuel i cs with
  | Ok ts => stream_ok (i + 1) (i + length cs + 1) ts
  | Err e => real_error e
  end.
Proof.
  revert i cs. induction fuel as [|fuel IH]; intros i cs Hlen; [lia|].
  destruct cs as [|c rest]; simpl in *; [unfold stream_ok; simpl; split_and!; [done|lia..]|].
  destruct (is_whitespace c).
  { specialize (IH (i + 1) rest ltac:(lia)).
    destruct (tokenize_go fuel (i + 1) rest) as [ts|e]; [|done].
    replace (i + S (length rest) + 1) with (i + 1 + length rest + 1) by lia.
    eapply stream_ok_weaken; [|done]. lia. }
  pose proof (next_token_advances i c rest) as Hn.
  destruct (next_token i c rest) as [[[k i'] rest']|e]; simpl; [|done].
  destruct Hn as (Hk & Hl & Hi). specialize (IH i' rest' ltac:(lia)).
  destruct (tokenize_go fuel i' rest') as [ts|e]; simpl; [|done].
  replace (i + S (length rest) + 1) with (i' + length rest' + 1) by lia.
  apply stream_ok_cons; simpl; [done|lia|lia|].
  eapply stream_ok_weaken; [|done]. lia.
Qed.

End lexer.

Section lexer_theorem.
  Context {U : UnicodeData}.

(** [tokenize] always finishes: it returns a syntax error of the source or a stream
    that ends in its only [Eof], with strictly increasing 1-based positions
    between the base offset and the end of the text. *)
Theorem tokenize_total (cs : list char) (base : nat) :
  match tokenize cs base with
  | Ok ts => stream_ok (base + 1) (base + length cs + 1) ts
  | Err e => real_error e
  end.
Proof. apply tokenize_go_ok. lia. Qed.

End lexer_theorem.
