(* ===== verification/CondParser.v ===== *)
(** * Condition language: syntax tree and recursive-descent parser

    engine-core/src/condition.rs: [Expr], [Parser] and [parse_condition].  A
    parser state is the list of tokens from the current index on.  The levels
    of the grammar are the source's functions; the four left-associative
    [while]/[loop] bodies are instances of [binary_loop].  [limit] bounds the
    iterations of every loop and [depth] the nesting of parentheses; the number
    of tokens is enough for both ([parse_total]). *)

From stdpp Require Import base list numbers strings.
From Stdlib Require Import SpecFloat.
From S2P Require Import Prelude Text Float Json CondLexer.
Local Open Scope rust_scope.

Inductive PathSegment :=
| Field (name : string)
| Index (i : Z).

Inductive CmpOp := CEq | CNe | CGt | CLt | CGe | CLe.
Inductive ArithOp := AAdd | ASub | AMul | ADiv | ARem.

(** An internal value; [EUndefined] is a missing variable, apart from [ENull]. *)
Inductive EvalValue :=
| EUndefined
| ENull
| EBool (b : bool)
| ENumber (n : f64)
| EString (s : string)
| EJson (v : Value).

Inductive Expr :=
| Literal (v : EvalValue)
| Path (segments : list PathSegment)
| Not (e : Expr)
| Neg (e : Expr)
| And (a b : Expr)
| Or (a b : Expr)
| Compare (op : CmpOp) (a b : Expr)
| Arith (op : ArithOp) (a b : Expr).

(** ** Parser state *)

Definition tokens := list SpannedToken.

(** [peek]: an [Eof] token always ends the stream, so the default is never read. *)
Definition peek (ts : tokens) : SpannedToken :=
  match ts with t :: _ => t | [] => Spanned TEof 0 end.
Definition peek_kind (ts : tokens) : TokenKind := kind (peek ts).

(** [advance] does not run past the last token. *)
Definition advance (ts : tokens) : tokens :=
  match ts with _ :: ((_ :: _) as rest) => rest | _ => ts end.

Definition Parse : Type := tokens → Lex (Expr * tokens).

Definition out_of_fuel : CondError := ErrAt 0 OutOfFuel.

(** ** Loops *)

(** [while let Some(op) = op(peek) { advance; rhs = operand()?; lhs = op(lhs, rhs) }]. *)
Fixpoint binary_loop (op : TokenKind → option (Expr → Expr → Expr)) (operand : Parse)
    (fuel : nat) (lhs : Expr) (ts : tokens) : Lex (Expr * tokens) :=
  match fuel with
  | 0 => Err out_of_fuel
  | S fuel =>
    match op (peek_kind ts) with
    | Some mk =>
      '(rhs, ts') ←? operand (advance ts);
      binary_loop op operand fuel (mk lhs rhs) ts'
    | None => Ok (lhs, ts)
    end
  end.

Definition mul_op (k : TokenKind) : option (Expr → Expr → Expr) :=
  match k with
  | TStar => Some (Arith AMul) | TSlash => Some (Arith ADiv) | TPercent => Some (Arith ARem)
  | _ => None
  end.
Definition add_op (k : TokenKind) : option (Expr → Expr → Expr) :=
  match k with TPlus => Some (Arith AAdd) | TMinus => Some (Arith ASub) | _ => None end.
Definition and_op (k : TokenKind) : option (Expr → Expr → Expr) :=
  match k with TAnd => Some And | _ => None end.
Definition or_op (k : TokenKind) : option (Expr → Expr → Expr) :=
  match k with TOr => Some Or | _ => None end.
Definition cmp_op (k : TokenKind) : option CmpOp :=
  match k with
  | TEq => Some CEq | TNe => Some CNe | TGt => Some CGt
  | TLt => Some CLt | TGe => Some CGe | TLe => Some CLe
  | _ => None
  end.

(** The index check of [parse_path]: non-negative, integral and at most
    [usize::MAX as f64], which is 2^64. *)
Definition index_in_range (v : f64) : bool :=
  negb (f64_ltb v f64_zero) && f64_is_integer v && negb (f64_ltb (f64_of_Z usize_max) v).

(** [parse_path]'s loop; [segments] is the path read so far. *)
Fixpoint path_loop (fuel : nat) (segments : list PathSegment) (ts : tokens) : Lex (Expr * tokens) :=
  match fuel with
  | 0 => Err out_of_fuel
  | S fuel =>
    match peek_kind ts with
    | TDot =>
      let ts1 := advance ts in
      match peek_kind ts1 with
      | TIdent name => path_loop fuel (segments ++ [Field name]) (advance ts1)
      | _ => Err (ErrAt (pos (peek ts1)) MsgExpectedField)
      end
    | TLBracket =>
      let ts1 := advance ts in
      match peek_kind ts1 with
      | TNumber v =>
        if index_in_range v then
          let ts2 := advance ts1 in
          match peek_kind ts2 with
          | TRBracket => path_loop fuel (segments ++ [Index (f64_as_usize v)]) (advance ts2)
          | _ => Err (ErrAt (pos (peek ts2)) MsgExpectedRBracket)
          end
        else Err (ErrAt (pos (peek ts1)) MsgIndexRange)
      | _ => Err (ErrAt (pos (peek ts1)) MsgExpectedIndex)
      end
    | _ => Ok (Path segments, ts)
    end
  end.

(** ** The precedence levels over a given [parse_primary] *)

Section levels.
  Variable limit : nat.
  Variable primary : Parse.

Fixpoint unary_loop (fuel : nat) (ts : tokens) : Lex (Expr * tokens) :=
  match fuel with
  | 0 => Err out_of_fuel
  | S fuel =>
    match peek_kind ts with
    | TMinus => '(inner, ts') ←? unary_loop fuel (advance ts); Ok (Neg inner, ts')
    | _ => primary ts
    end
  end.

Definition parse_unary : Parse := unary_loop limit.

Definition parse_multiplicative : Parse := λ ts,
  '(lhs, ts1) ←? parse_unary ts; binary_loop mul_op parse_unary limit lhs ts1.

Definition parse_additive : Parse := λ ts,
  '(lhs, ts1) ←? parse_multiplicative ts; binary_loop add_op parse_multiplicative limit lhs ts1.

Definition parse_comparison : Parse := λ ts,
  '(lhs, ts1) ←? parse_additive ts;
  match cmp_op (peek_kind ts1) with
  | Some op =>
    '(rhs, ts2) ←? parse_additive (advance ts1);
    Ok (Compare op lhs rhs, ts2)
  | None => Ok (lhs, ts1)
  end.

Fixpoint not_loop (fuel : nat) (ts : tokens) : Lex (Expr * tokens) :=
  match fuel with
  | 0 => Err out_of_fuel
  | S fuel =>
    match peek_kind ts with
    | TNot => '(inner, ts') ←? not_loop fuel (advance ts); Ok (Not inner, ts')
    | _ => parse_comparison ts
    end
  end.

Definition parse_not : Parse := not_loop limit.

Definition parse_and : Parse := λ ts,
  '(lhs, ts1) ←? parse_not ts; binary_loop and_op parse_not limit lhs ts1.

Definition parse_or : Parse := λ ts,
  '(lhs, ts1) ←? parse_and ts; binary_loop or_op parse_and limit lhs ts1.

End levels.

(** [parse_primary]: [depth] bounds the nesting of parentheses. *)
Fixpoint parse_primary (limit depth : nat) (ts : tokens) : Lex (Expr * tokens) :=
  match depth with
  | 0 => Err out_of_fuel
  | S depth =>
    let token := peek ts in
    match kind token with
    | TNumber n => Ok (Literal (ENumber n), advance ts)
    | TStr s => Ok (Literal (EString s), advance ts)
    | TTrue => Ok (Literal (EBool true), advance ts)
    | TFalse => Ok (Literal (EBool false), advance ts)
    | TNull => Ok (Literal ENull, advance ts)
    | TLParen =>
      '(inner, ts1) ←? parse_or limit (parse_primary limit depth) (advance ts);
      match peek_kind ts1 with
      | TRParen => Ok (inner, advance ts1)
      | _ => Err (ErrAt (pos (peek ts1)) MsgExpectedRParen)
      end
    | TIdent name => path_loop limit [Field name] (advance ts)
    | TEof => Err (ErrAt (pos token) MsgUnexpectedEnd)
    | k => Err (ErrAt (pos token) (MsgUnexpectedToken k))
    end
  end.

(** [Parser::parse]: one expression, then [Eof]. *)
Definition parse (ts : tokens) : Lex Expr :=
  let bound := S (length ts) in
  '(e, ts1) ←? parse_or bound (parse_primary bound bound) ts;
  match peek_kind ts1 with
  | TEof => Ok e
  | k => Err (ErrAt (pos (peek ts1)) (MsgUnexpectedToken k))
  end.

Definition parse_condition `{UnicodeData} (expr : string) : Lex Expr :=
  '(cs, base) ←? prepare expr;
  ts ←? tokenize cs base;
  parse ts.

(** [validate_condition]: syntax errors only. *)
Definition validate_condition `{UnicodeData} (expr : string) : result CondError unit :=
  _ ←? parse_condition expr; Ok tt.
