(* ===== verification/ProcessDef.v ===== *)
(** * Process definitions: structure, validation, graph queries, builder

    engine-core/src/domain/definition.rs.  [ProcessDefinition::new] is the
    gatekeeper of the engine: it checks the graph and rejects it with an error.
    A [HashMap] is a [gmap]; a loop over it walks [map_to_list].  The order of
    a real hash map is arbitrary, so the theorems state facts that hold for
    every order (acceptance, membership, counts). *)

From stdpp Require Import base list gmap strings.
From S2P Require Import Prelude Text Json CondLexer CondParser Domain Token.
Local Open Scope rust_scope.

Inductive ProcessDefinition := mkDefinition {
  def_key : Uuid;
  def_id : string;
  version : Z;
  nodes : gmap string BpmnElement;
  flows : gmap string (list SequenceFlow);
  listeners : gmap string (list ExecutionListener);
  event_listeners : list ScopeEventListener;
  event_subprocesses : list EventSubProcess;
  sub_processes : list ProcessDefinition;
  data_variables : list string;
  variable_defaults : Vars;
  data_mappings : gmap string ActivityMappings;
}.

(** ** Classification of elements (the [matches!] patterns of the source) *)

Definition is_start (e : BpmnElement) : bool :=
  match e with
  | StartEvent | TimerStartEvent _ | MessageStartEvent _ | SignalStartEvent _ => true
  | _ => false
  end.
Definition is_end (e : BpmnElement) : bool :=
  match e with
  | EndEvent | ErrorEndEvent _ | EscalationEndEvent _ | CompensationEndEvent _
  | TerminateEndEvent | SubProcessEndEvent _ | SignalEndEvent _ => true
  | _ => false
  end.
(** The element a boundary event hangs on. *)
Definition attached (e : BpmnElement) : option string :=
  match e with
  | BoundaryTimerEvent a _ _ | BoundaryMessageEvent a _ _ | BoundaryErrorEvent a _
  | BoundaryEscalationEvent a _ _ | BoundarySignalEvent a _ _
  | BoundaryConditionalEvent a _ _ | BoundaryCompensationEvent a => Some a
  | _ => None
  end.
(** Elements that may have no outgoing flow. *)
Definition may_stop (e : BpmnElement) : bool :=
  is_end e || match e with EmbeddedSubProcess _ | BoundaryCompensationEvent _ => true | _ => false end.
Definition is_gateway (e : BpmnElement) : bool :=
  match e with
  | ExclusiveGateway _ | InclusiveGateway | ParallelGateway | EventBasedGateway
  | ComplexGateway _ _ => true
  | _ => false
  end.
Definition is_event_based (e : BpmnElement) : bool :=
  match e with EventBasedGateway => true | _ => false end.
Definition is_group_catch (e : BpmnElement) : bool :=
  match e with MessageCatchEvent _ | TimerCatchEvent _ | SignalCatchEvent _ => true | _ => false end.

(** ** Graph queries *)

(** [next_nodes] on the two maps of a definition. *)
Definition outgoing (fl : gmap string (list SequenceFlow)) (id : string) : list SequenceFlow :=
  default [] (fl !! id).
Definition all_flows (fl : gmap string (list SequenceFlow)) : list SequenceFlow :=
  mjoin ((map_to_list fl).*2).
Definition incoming_count (fl : gmap string (list SequenceFlow)) (id : string) : nat :=
  count (λ sf, bool_decide (target sf = id)) (all_flows fl).

Definition get_node (d : ProcessDefinition) (id : string) : option BpmnElement := nodes d !! id.
Definition next_nodes (d : ProcessDefinition) (id : string) : list SequenceFlow := outgoing (flows d) id.
(** [next_node]: the target of a single outgoing flow. *)
Definition next_node (d : ProcessDefinition) (id : string) : option string :=
  match next_nodes d id with [sf] => Some (target sf) | _ => None end.
Definition incoming_flow_count (d : ProcessDefinition) (id : string) : nat := incoming_count (flows d) id.
Definition is_join_gateway (d : ProcessDefinition) (id : string) : bool := 2 <=? incoming_flow_count d id.
Definition is_split_gateway (d : ProcessDefinition) (id : string) : bool :=
  match nodes d !! id with
  | Some e => is_gateway e && (2 <=? length (next_nodes d id))
  | None => false
  end.

Definition event_subprocess_node (d : ProcessDefinition) (id : string) : bool :=
  existsb (λ h, existsb (λ n, bool_decide (n = id)) (esp_node_ids h)) (event_subprocesses d).
Definition event_subprocess_by_id (d : ProcessDefinition) (id : string) : option EventSubProcess :=
  List.find (λ h, bool_decide (esp_id h = id)) (event_subprocesses d).

(** [start_event]: starts of event sub-processes do not count. *)
Definition start_event (d : ProcessDefinition) : option (string * BpmnElement) :=
  find_map (λ '(id, e),
    if event_subprocess_node d id then None else if is_start e then Some (id, e) else None)
    (map_to_list (nodes d)).

(** ** Validation *)

Section validation.
  Variable ns : gmap string BpmnElement.
  Variable fl : gmap string (list SequenceFlow).

Definition has_node (id : string) : bool := bool_decide (is_Some (ns !! id)).
Definition elements : list BpmnElement := (map_to_list ns).*2.

Definition check_starts : EngineResult unit :=
  _ ←? guard (negb (count is_start elements =? 0)) (InvalidDefinition "No start event defined");
  guard (count is_start elements <=? 1) (InvalidDefinition "Multiple start events are not supported").

Definition check_ends : EngineResult unit :=
  guard (negb (count is_end elements =? 0)) (InvalidDefinition "No end event defined").

Definition check_flow (entry : string * list SequenceFlow) : EngineResult unit :=
  _ ←? guard (has_node entry.1) (NoSuchNode entry.1);
  for_each (λ sf, guard (has_node (target sf)) (NoSuchNode (target sf))) entry.2.

Definition check_boundary (entry : string * BpmnElement) : EngineResult unit :=
  match attached entry.2 with
  | Some a => guard (has_node a) (InvalidDefinition
      ("Boundary event '" +:+ entry.1 +:+ "' attached to missing node '" +:+ a +:+ "'"))
  | None => Ok tt
  end.

Definition check_outgoing (entry : string * BpmnElement) : EngineResult unit :=
  if may_stop entry.2 then Ok tt
  else guard (negb (length (outgoing fl entry.1) =? 0)) (InvalidDefinition
    ("Node '" +:+ entry.1 +:+ "' has no outgoing sequence flow")).

Definition check_group_target (gw : string) (sf : SequenceFlow) : EngineResult unit :=
  match ns !! target sf with
  | Some e => guard (is_group_catch e) (InvalidDefinition
      ("EventBasedGateway '" +:+ gw +:+ "' can only connect to MessageCatchEvent, SignalCatchEvent or TimerCatchEvent targets; conditional catch events are not supported here. Node '"
         +:+ target sf +:+ "' is invalid."))
  | None => Ok tt
  end.

Definition check_gateway (entry : string * BpmnElement) : EngineResult unit :=
  _ ←? (if is_gateway entry.2 then
          guard (negb ((length (outgoing fl entry.1) <? 2) && (incoming_count fl entry.1 <? 2)))
            (InvalidDefinition ("Gateway '" +:+ entry.1 +:+ "' must have at least 2 incoming or 2 outgoing flows"))
        else Ok tt);
  if is_event_based entry.2 then for_each (check_group_target entry.1) (outgoing fl entry.1) else Ok tt.

(** The checks of [ProcessDefinition::new], in the source's order. *)
Definition validate : EngineResult unit :=
  _ ←? check_starts;
  _ ←? check_ends;
  _ ←? for_each check_flow (map_to_list fl);
  _ ←? for_each check_boundary (map_to_list ns);
  _ ←? for_each check_outgoing (map_to_list ns);
  for_each check_gateway (map_to_list ns).

(** What a deployable graph looks like. *)
Record well_formed : Prop := {
  wf_start : ∃ id e, ns !! id = Some e ∧ is_start e = true ∧
    ∀ id' e', ns !! id' = Some e' → is_start e' = true → id' = id;
  wf_end : ∃ id e, ns !! id = Some e ∧ is_end e = true;
  wf_flows : ∀ from outs, fl !! from = Some outs →
    is_Some (ns !! from) ∧ ∀ sf, sf ∈ outs → is_Some (ns !! target sf);
  wf_boundary : ∀ id e a, ns !! id = Some e → attached e = Some a → is_Some (ns !! a);
  wf_outgoing : ∀ id e, ns !! id = Some e → may_stop e = false → outgoing fl id ≠ [];
  wf_gateway : ∀ id e, ns !! id = Some e → is_gateway e = true →
    2 ≤ length (outgoing fl id) ∨ 2 ≤ incoming_count fl id;
  wf_event_group : ∀ id, ns !! id = Some EventBasedGateway →
    ∀ sf, sf ∈ outgoing fl id → ∃ e, ns !! target sf = Some e ∧ is_group_catch e = true;
}.

Lemma has_node_true id : has_node id = true ↔ is_Some (ns !! id).
Proof. unfold has_node. by rewrite bool_decide_eq_true. Qed.

Lemma count_elements (f : BpmnElement → bool) :
  count f elements = count (λ entry : string * BpmnElement, f entry.2) (map_to_list ns).
Proof.
  unfold elements, count. induction (map_to_list ns) as [|[k e] l IH]; [done|].
  rewrite fmap_cons. cbn [List.filter snd]. destruct (f e); cbn [length]; congruence.
Qed.

Lemma count_elements_pos (f : BpmnElement → bool) :
  0 < count f elements ↔ ∃ id e, ns !! id = Some e ∧ f e = true.
Proof.
  rewrite count_elements, count_pos. split.
  - intros ([id e] & Hin%elem_of_map_to_list & Hf). eauto.
  - intros (id & e & Hin & Hf). exists (id, e). by rewrite elem_of_map_to_list.
Qed.

Lemma check_starts_Ok :
  check_starts = Ok tt ↔ ∃ id e, ns !! id = Some e ∧ is_start e = true ∧
    ∀ id' e', ns !! id' = Some e' → is_start e' = true → id' = id.
Proof.
  unfold check_starts. rewrite result_bind_Ok.
  assert (count is_start elements ≤ 1 ↔
    ∀ x y : string * BpmnElement, x ∈ map_to_list ns → y ∈ map_to_list ns →
      is_start x.2 = true → is_start y.2 = true → x = y) as Hle.
  { rewrite count_elements. apply (count_le_1 (λ entry, is_start entry.2)). apply NoDup_map_to_list. }
  split.
  - intros ([] & H0%guard_Ok & H1%guard_Ok). apply negb_true_iff, Nat.eqb_neq in H0.
    apply Nat.leb_le in H1. destruct (proj1 (count_elements_pos is_start)) as (id & e & He & Hs); [lia|].
    exists id, e. split_and!; [done..|]. intros id' e' He' Hs'.
    rewrite Hle in H1. specialize (H1 (id', e') (id, e)).
    rewrite !elem_of_map_to_list in H1. by injection (H1 He' He Hs' Hs).
  - intros (id & e & He & Hs & Huniq). exists tt. rewrite !guard_Ok, negb_true_iff, Nat.eqb_neq, Nat.leb_le.
    split.
    + enough (0 < count is_start elements) by lia. apply count_elements_pos. eauto.
    + apply Hle. intros [i x] [j y] Hx%elem_of_map_to_list Hy%elem_of_map_to_list Hsx Hsy.
      simpl in *. assert (i = id) as -> by eauto. assert (j = id) as -> by eauto. congruence.
Qed.

Lemma check_gateway_Ok id e :
  (∀ sf, sf ∈ outgoing fl id → is_Some (ns !! target sf)) →
  check_gateway (id, e) = Ok tt ↔
  (is_gateway e = true → 2 ≤ length (outgoing fl id) ∨ 2 ≤ incoming_count fl id) ∧
  (e = EventBasedGateway → ∀ sf, sf ∈ outgoing fl id →
     ∃ x, ns !! target sf = Some x ∧ is_group_catch x = true).
Proof.
  intros Hflows. unfold check_gateway. rewrite result_bind_Ok. cbn [fst snd].
  assert ((if is_event_based e then for_each (check_group_target id) (outgoing fl id) else Ok tt) = Ok tt ↔
    (e = EventBasedGateway → ∀ sf, sf ∈ outgoing fl id →
     ∃ x, ns !! target sf = Some x ∧ is_group_catch x = true)) as Hev.
  { destruct (decide (e = EventBasedGateway)) as [->|Hne].
    - cbn [is_event_based]. rewrite for_each_Ok. unfold check_group_target. split.
      + intros H _ sf Hsf. specialize (H sf Hsf). destruct (Hflows sf Hsf) as [x Hx].
        rewrite Hx in H |- *. apply guard_Ok in H. eauto.
      + intros H sf Hsf. destruct (H eq_refl sf Hsf) as (x & -> & Hc). by apply guard_Ok.
    - replace (is_event_based e) with false by (by destruct e). naive_solver. }
  destruct (is_gateway e).
  - split.
    + intros ([] & Hg%guard_Ok & H2). split; [|by apply (proj1 Hev)]. intros _.
      apply negb_true_iff, andb_false_iff in Hg. rewrite !Nat.ltb_ge in Hg. done.
    + intros [Hg H2]. exists tt. split; [|by apply (proj2 Hev)]. apply guard_Ok, negb_true_iff, andb_false_iff.
      rewrite !Nat.ltb_ge. by apply Hg.
  - split; [intros ([] & _ & H2); split; [done|by apply (proj1 Hev)]|].
    intros [_ H2]. exists tt. split; [done|by apply (proj2 Hev)].
Qed.

Lemma flows_Ok :
  for_each check_flow (map_to_list fl) = Ok tt ↔
  ∀ from outs, fl !! from = Some outs →
    is_Some (ns !! from) ∧ ∀ sf, sf ∈ outs → is_Some (ns !! target sf).
Proof.
  rewrite for_each_Ok. unfold check_flow. split.
  - intros H from outs Hf. specialize (H (from, outs)). rewrite elem_of_map_to_list in H.
    specialize (H Hf). apply result_bind_Ok in H as ([] & Hg%guard_Ok%has_node_true & H).
    split; [done|]. rewrite for_each_Ok in H. intros sf Hsf. apply has_node_true.
    by eapply guard_Ok, H.
  - intros H [from outs] Hin%elem_of_map_to_list. destruct (H _ _ Hin) as [Hn Hs].
    apply result_bind_Ok. exists tt. split; [by apply guard_Ok, has_node_true|].
    apply for_each_Ok. intros sf Hsf. apply guard_Ok, has_node_true. by apply Hs.
Qed.

Lemma outgoing_elem sf id : sf ∈ outgoing fl id → ∃ outs, fl !! id = Some outs ∧ sf ∈ outs.
Proof. unfold outgoing. destruct (fl !! id); simpl; [eauto|]. by intros ?%not_elem_of_nil. Qed.

Lemma validate_Ok : validate = Ok tt ↔ well_formed.
Proof.
  unfold validate. rewrite !result_bind_Ok. split.
  - intros ([] & Hst & H). rewrite !result_bind_Ok in H. destruct H as ([] & Hen & H).
    rewrite !result_bind_Ok in H. destruct H as ([] & Hfl & H).
    rewrite !result_bind_Ok in H. destruct H as ([] & Hbo & H).
    rewrite !result_bind_Ok in H. destruct H as ([] & Hou & Hga).
    rewrite flows_Ok in Hfl. rewrite for_each_Ok in Hbo, Hou, Hga.
    assert (∀ id e, ns !! id = Some e → check_gateway (id, e) = Ok tt) as Hgate.
    { intros id e Hid. apply Hga. by apply elem_of_map_to_list. }
    assert (∀ id sf, sf ∈ outgoing fl id → is_Some (ns !! target sf)) as Htarget.
    { intros id sf (outs & Ho & Hsf)%outgoing_elem. by eapply Hfl. }
    split.
    + by apply check_starts_Ok.
    + apply guard_Ok, negb_true_iff, Nat.eqb_neq in Hen. apply (count_elements_pos is_end). lia.
    + done.
    + intros id e a Hid Ha. specialize (Hbo (id, e)). rewrite elem_of_map_to_list in Hbo.
      specialize (Hbo Hid). unfold check_boundary in Hbo. cbn in Hbo. rewrite Ha in Hbo.
      by apply guard_Ok, has_node_true in Hbo.
    + intros id e Hid Hm. specialize (Hou (id, e)). rewrite elem_of_map_to_list in Hou.
      specialize (Hou Hid). unfold check_outgoing in Hou. cbn in Hou. rewrite Hm in Hou.
      apply guard_Ok in Hou. by destruct (outgoing fl id).
    + intros id e Hid Hg. by apply (proj1 (check_gateway_Ok id e (Htarget id)) (Hgate id e Hid)).
    + intros id Hid. by apply (proj1 (check_gateway_Ok id _ (Htarget id)) (Hgate id _ Hid)).
  - intros [Hst Hen Hfl Hbo Hou Hga Hev]. exists tt. split; [by apply check_starts_Ok|].
    apply result_bind_Ok. exists tt. split.
    { apply guard_Ok, negb_true_iff, Nat.eqb_neq. apply (count_elements_pos is_end) in Hen. lia. }
    apply result_bind_Ok. exists tt. split; [by apply flows_Ok|].
    apply result_bind_Ok. exists tt. split.
    { apply for_each_Ok. intros [id e] Hid%elem_of_map_to_list. unfold check_boundary. cbn.
      destruct (attached e) eqn:Ha; [|done]. apply guard_Ok, has_node_true. by eapply Hbo. }
    apply result_bind_Ok. exists tt. split.
    { apply for_each_Ok. intros [id e] Hid%elem_of_map_to_list. unfold check_outgoing. cbn.
      destruct (may_stop e) eqn:Hm; [done|]. apply guard_Ok. specialize (Hou id e Hid Hm).
      by destruct (outgoing fl id). }
    apply for_each_Ok. intros [id e] Hid%elem_of_map_to_list. apply check_gateway_Ok.
    + intros sf (outs & Ho & Hsf)%outgoing_elem. by eapply Hfl.
    + split; [by apply Hga|]. intros ->. by apply Hev.
Qed.

End validation.

(** [ProcessDefinition::new]; the fresh key is an argument. *)
Definition definition_new (key : Uuid) (id : string) (version : Z)
    (ns : gmap string BpmnElement) (fl : gmap string (list SequenceFlow))
    (ls : gmap string (list ExecutionListener)) (els : list ScopeEventListener)
    (subs : list ProcessDefinition) : EngineResult ProcessDefinition :=
  _ ←? validate ns fl;
  Ok {| def_key := key; def_id := id; version := version; nodes := ns; flows := fl;
        listeners := ls; event_listeners := els; event_subprocesses := [];
        sub_processes := subs; data_variables := []; variable_defaults := ∅;
        data_mappings := ∅ |}.

Lemma definition_new_accepts key id v ns fl ls els subs :
  (∃ d, definition_new key id v ns fl ls els subs = Ok d) ↔ well_formed ns fl.
Proof.
  unfold definition_new. rewrite <- validate_Ok. split.
  - intros [d H]. apply result_bind_Ok in H as ([] & H & _). done.
  - intros H. rewrite H. simpl. eauto.
Qed.

Lemma definition_new_fields key id v ns fl ls els subs d :
  definition_new key id v ns fl ls els subs = Ok d →
  well_formed ns fl ∧ nodes d = ns ∧ flows d = fl ∧ event_subprocesses d = [] ∧ def_key d = key.
Proof.
  unfold definition_new. intros H. apply result_bind_Ok in H as ([] & Hv%validate_Ok & [= <-]). done.
Qed.

(** [ProcessDefinition::new] accepts a graph exactly when it is well formed (one
    start, an end, no dangling flow or boundary event, no dead end, gateways
    that branch or merge, event gateways that lead to catch events) and then
    keeps its nodes and flows; every other graph is an error. *)
Theorem definition_new_spec key id v ns fl ls els subs :
  match definition_new key id v ns fl ls els subs with
  | Ok d => well_formed ns fl ∧ nodes d = ns ∧ flows d = fl ∧ def_key d = key
  | Err _ => ¬ well_formed ns fl
  end.
Proof.
  destruct (definition_new _ _ _ _ _ _ _ _) as [d|e] eqn:Hd.
  - by apply definition_new_fields in Hd as (? & ? & ? & _ & ?).
  - intros Hwf. apply (definition_new_accepts key id v _ _ ls els subs) in Hwf as [d Hd']. congruence.
Qed.

(** A new definition has a start event for the engine, and it is the only start
    event of the graph. *)
Theorem start_event_unique key id v ns fl ls els subs d :
  definition_new key id v ns fl ls els subs = Ok d →
  ∃ sid e, start_event d = Some (sid, e) ∧ nodes d !! sid = Some e ∧
    ∀ id' e', nodes d !! id' = Some e' → is_start e' = true → id' = sid.
Proof.
  intros (Hwf & <- & _ & Hsub & _)%definition_new_fields. destruct Hwf as [(sid & e & He & Hs & Hu) _ _ _ _ _ _].
  unfold start_event, event_subprocess_node. rewrite Hsub. simpl.
  destruct (find_map _ _) as [[sid' e']|] eqn:Hf.
  - apply find_map_Some in Hf as ([k x] & Hin%elem_of_map_to_list & Hx).
    destruct (is_start x) eqn:Hsx; simplify_eq.
    exists sid', e'. split_and!; [done..|]. intros id' e2 He2 Hs2.
    rewrite (Hu sid' e' Hin Hsx). by eapply Hu.
  - rewrite find_map_None in Hf. specialize (Hf (sid, e)). simpl in Hf.
    rewrite Hs, elem_of_map_to_list in Hf. by specialize (Hf He).
Qed.

(** ** Condition expressions are checked before the graph is built *)

Section conditions.
  Context {U : UnicodeData}.

(** [validate_condition(c).map_err(..)]; the message names the place, the text
    of the syntax error is not rendered. *)
Definition check_condition (place : string) (c : string) : EngineResult unit :=
  map_err (λ _, InvalidDefinition place) (validate_condition c).

Definition check_flow_condition (source : string) (sf : SequenceFlow) : EngineResult unit :=
  match condition sf with
  | Some c => check_condition
      ("Invalid condition on sequence flow '" +:+ source +:+ "' -> '" +:+ target sf +:+ "'") c
  | None => Ok tt
  end.

Definition check_node_conditions (entry : string * BpmnElement) : EngineResult unit :=
  _ ←? match entry.2 with
       | ComplexGateway (Some c) _ => check_condition
           ("Invalid join condition on complex gateway '" +:+ entry.1 +:+ "'") c
       | _ => Ok tt
       end;
  match entry.2 with
  | ConditionalCatchEvent c | BoundaryConditionalEvent _ c _ => check_condition
      ("Invalid condition on conditional event '" +:+ entry.1 +:+ "'") c
  | _ => Ok tt
  end.

(** [validate_condition_expressions]. *)
Definition validate_condition_expressions (ns : gmap string BpmnElement)
    (fl : gmap string (list SequenceFlow)) : EngineResult unit :=
  _ ←? for_each (λ '(source, outs), for_each (check_flow_condition source) outs) (map_to_list fl);
  for_each check_node_conditions (map_to_list ns).

(** The conditions an element carries. *)
Definition element_condition (e : BpmnElement) : option string :=
  match e with
  | ComplexGateway c _ => c
  | ConditionalCatchEvent c | BoundaryConditionalEvent _ c _ => Some c
  | _ => None
  end.

Lemma check_condition_Ok place c : check_condition place c = Ok tt ↔ validate_condition c = Ok tt.
Proof. unfold check_condition. by destruct (validate_condition c) as [[]|]. Qed.

Lemma validate_condition_expressions_Ok ns fl :
  validate_condition_expressions ns fl = Ok tt ↔
  (∀ from outs sf c, fl !! from = Some outs → sf ∈ outs → condition sf = Some c →
     validate_condition c = Ok tt) ∧
  (∀ id e c, ns !! id = Some e → element_condition e = Some c → validate_condition c = Ok tt).
Proof.
  unfold validate_condition_expressions. rewrite result_bind_Ok. split.
  - intros ([] & Hf & Hn). rewrite for_each_Ok in Hf. rewrite for_each_Ok in Hn. split.
    + intros from outs sf c Ho Hsf Hc. specialize (Hf (from, outs)).
      rewrite elem_of_map_to_list in Hf. specialize (Hf Ho). cbn in Hf.
      rewrite for_each_Ok in Hf. specialize (Hf sf Hsf). unfold check_flow_condition in Hf.
      rewrite Hc in Hf. by apply check_condition_Ok in Hf.
    + intros id e c Hid Hc. specialize (Hn (id, e)). rewrite elem_of_map_to_list in Hn.
      specialize (Hn Hid). apply result_bind_Ok in Hn as ([] & H1 & H2). cbn in H1, H2.
      destruct e; simplify_eq/=; by apply check_condition_Ok in H1 || by apply check_condition_Ok in H2.
  - intros [Hf Hn]. exists tt. split; apply for_each_Ok.
    + intros [from outs] Ho%elem_of_map_to_list. apply for_each_Ok. intros sf Hsf.
      unfold check_flow_condition. destruct (condition sf) eqn:Hc; [|done].
      apply check_condition_Ok. by eapply Hf.
    + intros [id e] Hid%elem_of_map_to_list. apply result_bind_Ok. exists tt. cbn.
      assert (∀ c, element_condition e = Some c → validate_condition c = Ok tt) as He by eauto.
      split; destruct e as [| | | | | | | | | | | |[c|] ?| | | | | | | | | | | | | | | | | | | | | | | |];
        try done; apply check_condition_Ok; by apply He.
Qed.

(** ** The builder *)

Record ProcessDefinitionBuilder := mkBuilder {
  b_id : string;
  b_key : option Uuid;
  b_version : Z;
  b_nodes : gmap string BpmnElement;
  b_flows : gmap string (list SequenceFlow);
  b_listeners : gmap string (list ExecutionListener);
  b_event_listeners : list ScopeEventListener;
  b_sub_processes : list ProcessDefinition;
}.

Definition builder_new (id : string) : ProcessDefinitionBuilder := mkBuilder id None 1 ∅ ∅ ∅ [] [].
Definition b_with_key (key : Uuid) (b : ProcessDefinitionBuilder) : ProcessDefinitionBuilder :=
  mkBuilder (b_id b) (Some key) (b_version b) (b_nodes b) (b_flows b) (b_listeners b) (b_event_listeners b) (b_sub_processes b).
Definition b_with_version (v : Z) (b : ProcessDefinitionBuilder) : ProcessDefinitionBuilder :=
  mkBuilder (b_id b) (b_key b) v (b_nodes b) (b_flows b) (b_listeners b) (b_event_listeners b) (b_sub_processes b).
Definition b_node (id : string) (e : BpmnElement) (b : ProcessDefinitionBuilder) : ProcessDefinitionBuilder :=
  mkBuilder (b_id b) (b_key b) (b_version b) (<[id := e]> (b_nodes b)) (b_flows b) (b_listeners b)
    (b_event_listeners b) (b_sub_processes b).
(** [entry(key).or_default().push(x)]. *)
Definition push_at {V} (k : string) (x : V) (m : gmap string (list V)) : gmap string (list V) :=
  <[k := default [] (m !! k) ++ [x]]> m.
Definition b_push_flow (from : string) (sf : SequenceFlow) (b : ProcessDefinitionBuilder) : ProcessDefinitionBuilder :=
  mkBuilder (b_id b) (b_key b) (b_version b) (b_nodes b) (push_at from sf (b_flows b)) (b_listeners b)
    (b_event_listeners b) (b_sub_processes b).
Definition b_flow (from to : string) : ProcessDefinitionBuilder → ProcessDefinitionBuilder :=
  b_push_flow from (flow_simple to).
Definition b_conditional_flow (from to cond : string) : ProcessDefinitionBuilder → ProcessDefinitionBuilder :=
  b_push_flow from (flow_conditional to cond).
Definition b_listener (id : string) (ev : ListenerEvent) (script : string) (b : ProcessDefinitionBuilder)
    : ProcessDefinitionBuilder :=
  mkBuilder (b_id b) (b_key b) (b_version b) (b_nodes b) (b_flows b)
    (push_at id {| l_event := ev; l_script := script |} (b_listeners b))
    (b_event_listeners b) (b_sub_processes b).
Definition b_scope_event (l : ScopeEventListener) (b : ProcessDefinitionBuilder) : ProcessDefinitionBuilder :=
  mkBuilder (b_id b) (b_key b) (b_version b) (b_nodes b) (b_flows b) (b_listeners b)
    (b_event_listeners b ++ [l]) (b_sub_processes b).
Definition b_sub_process (s : ProcessDefinition) (b : ProcessDefinitionBuilder) : ProcessDefinitionBuilder :=
  mkBuilder (b_id b) (b_key b) (b_version b) (b_nodes b) (b_flows b) (b_listeners b)
    (b_event_listeners b) (b_sub_processes b ++ [s]).

(** [ProcessDefinitionBuilder::build]; [fresh] is the key [new] generates. *)
Definition build (fresh : Uuid) (b : ProcessDefinitionBuilder) : EngineResult ProcessDefinition :=
  _ ←? validate_condition_expressions (b_nodes b) (b_flows b);
  definition_new (default fresh (b_key b)) (b_id b) (b_version b) (b_nodes b) (b_flows b)
    (b_listeners b) (b_event_listeners b) (b_sub_processes b).

Lemma build_accepts (fresh : Uuid) (b : ProcessDefinitionBuilder) :
  (∃ d, build fresh b = Ok d) ↔
  well_formed (b_nodes b) (b_flows b) ∧
  (∀ from outs sf c, b_flows b !! from = Some outs → sf ∈ outs → condition sf = Some c →
     ∃ e, parse_condition c = Ok e) ∧
  (∀ id el c, b_nodes b !! id = Some el → element_condition el = Some c →
     ∃ e, parse_condition c = Ok e).
Proof.
  assert (∀ c, validate_condition c = Ok tt ↔ ∃ e, parse_condition c = Ok e) as Hv.
  { intros c. unfold validate_condition. destruct (parse_condition c); simpl; naive_solver. }
  unfold build. split.
  - intros [d H]. apply result_bind_Ok in H as ([] & [Hf Hn]%validate_condition_expressions_Ok & Hd).
    split; [by apply definition_new_fields in Hd as [? _]|]. split; intros; apply Hv; eauto.
  - intros (Hwf & Hf & Hn).
    destruct (proj2 (definition_new_accepts (default fresh (b_key b)) (b_id b) (b_version b) _ _
      (b_listeners b) (b_event_listeners b) (b_sub_processes b)) Hwf) as [d Hd].
    exists d. apply result_bind_Ok. exists tt. split; [|done].
    apply validate_condition_expressions_Ok. split; intros; apply Hv; eauto.
Qed.


End conditions.

(** ** A small graph: a task between start and end, and a parallel block *)

Definition example_builder : ProcessDefinitionBuilder :=
  b_flow "start" "fork" $ b_flow "fork" "a" $ b_flow "fork" "b" $ b_flow "a" "join" $ b_flow "b" "join" $
  b_flow "join" "end" $ b_node "start" StartEvent $ b_node "fork" ParallelGateway $
  b_node "a" (UserTask "u") $ b_node "b" (UserTask "v") $ b_node "join" ParallelGateway $
  b_node "end" EndEvent $ builder_new "example".

Definition example_definition : ProcessDefinition :=
  {| def_key := 1; def_id := "example"; version := 1; nodes := b_nodes example_builder;
     flows := b_flows example_builder; listeners := ∅; event_listeners := [];
     event_subprocesses := []; sub_processes := []; data_variables := [];
     variable_defaults := ∅; data_mappings := ∅ |}.

Lemma example_new :
  definition_new 1 "example" 1 (b_nodes example_builder) (b_flows example_builder) ∅ [] [] = Ok example_definition.
Proof. vm_compute. reflexivity. Qed.

Lemma start_event_unique_witness :
  ∃ sid e, start_event example_definition = Some (sid, e) ∧ nodes example_definition !! sid = Some e ∧
    ∀ id' e', nodes example_definition !! id' = Some e' → is_start e' = true → id' = sid.
Proof. apply (start_event_unique _ _ _ _ _ _ _ _ _ example_new). Defined.
