(* ===== verification/MessageRouting.v ===== *)
(** * Collaborations and pinned message routes

    engine-core/src/domain/collaboration.rs and the compilation of routes in
    engine-core/src/engine/message_routing.rs.  A deployed collection carries its
    collaborations as JSON; every message flow between two pools becomes a route
    that names the key and the version of both definitions.  Reading the stored
    JSON is serde's work, the operation of the class [CollaborationReader]. *)

From stdpp Require Import base list gmap strings.
From S2P Require Import Prelude Text Json Domain Token ProcessDef.
Local Open Scope rust_scope.

(** ** Collaboration metadata *)

Record Participant := mkParticipant {
  part_id : string;
  part_process_id : option string;
  part_executable : bool;
}.
Record MessageEndpoint := mkEndpoint {
  me_participant_id : string;
  me_process_id : string;
  me_element_id : string;
}.
Record MessageFlow := mkMessageFlow {
  mf_id : string;
  mf_message_id : string;
  mf_message_name : string;
  mf_source : MessageEndpoint;
  mf_target : MessageEndpoint;
}.
Record Collaboration := mkCollaboration {
  col_id : string;
  participants : list Participant;
  message_flows : list MessageFlow;
}.

Record DefinitionCollection := mkCollection {
  dc_id : Uuid;
  dc_definitions : list ProcessDefinition;
  dc_xml : string;
  dc_collaborations : Value;
  dc_deleted : list Uuid;
}.

(** [serde_json::from_value::<Vec<Collaboration>>]: the collaborations or the text
    of serde's error. *)
Class CollaborationReader := { read_collaborations : Value → result string (list Collaboration) }.

(** ** Routes *)

Record DeployedMessageEndpoint := mkDeployed {
  dm_definition_key : Uuid;
  dm_version : Z;
  dm_participant_id : string;
  dm_process_id : string;
  dm_element_id : string;
}.
Record PinnedMessageRoute := mkRoute {
  rt_collection_id : Uuid;
  rt_collaboration_id : string;
  rt_flow_id : string;
  rt_message_id : string;
  rt_message_name : string;
  rt_source : DeployedMessageEndpoint;
  rt_target : DeployedMessageEndpoint;
}.

(** [invalid]. *)
Definition routing_error (msg : string) : EngineError := InvalidDefinition ("Internal message routing: " +:+ msg).

(** Whether the participant of an endpoint takes part with its process. *)
Definition plays (ep : MessageEndpoint) (p : Participant) : bool :=
  bool_decide (part_id p = me_participant_id ep) && part_executable p
  && bool_decide (part_process_id p = Some (me_process_id ep)).

(** An element that can send, or receive, the message. *)
Definition endpoint_valid (source : bool) (message : string) (node : BpmnElement) : bool :=
  match node with
  | SendTask name multi => source && bool_decide (multi = None) && bool_decide (name = message)
  | MessageStartEvent name | MessageCatchEvent name | BoundaryMessageEvent _ name _ =>
    negb source && bool_decide (name = message)
  | _ => false
  end.
(** A boundary event on a multi-instance activity. *)
Definition multi_instance_host (d : ProcessDefinition) (node : BpmnElement) : bool :=
  match node with
  | BoundaryMessageEvent attached_to _ _ =>
    match nodes d !! attached_to with
    | Some (ServiceTask _ (Some _)) | Some (ScriptTask _ (Some _)) => true
    | _ => false
    end
  | _ => false
  end.

Definition pin_endpoint (c : DefinitionCollection) (col : Collaboration) (ep : MessageEndpoint) (message : string)
    (source : bool) : EngineResult DeployedMessageEndpoint :=
  if existsb (plays ep) (participants col) then
    d ←? ok_or (routing_error ("missing process '" +:+ me_process_id ep +:+ "'"))
           (List.find (λ d, bool_decide (def_id d = me_process_id ep)) (dc_definitions c));
    node ←? ok_or (routing_error "missing endpoint element") (nodes d !! me_element_id ep);
    if negb (endpoint_valid source message node) || multi_instance_host d node then
      Err (routing_error "unsupported or mismatched endpoint")
    else Ok (mkDeployed (def_key d) (version d) (me_participant_id ep) (me_process_id ep) (me_element_id ep))
  else Err (routing_error "endpoint is not an executable participant").

(** ** Compilation *)

(** [HashSet::insert]: whether the element is new, and the set with it. *)
Definition set_insert {A} `{Countable A} (x : A) (s : gset A) : bool * gset A :=
  (negb (bool_decide (x ∈ s)), {[x]} ∪ s).

(** The loop over the definitions: neither an id nor a key occurs twice.  The sets
    are only used until the first repetition, so it is of no matter that the key
    is not inserted for a repeated id. *)
Fixpoint check_definitions (ids : gset string) (keys : gset Uuid) (ds : list ProcessDefinition) : EngineResult unit :=
  match ds with
  | [] => Ok tt
  | d :: ds =>
    let '(fresh_id, ids) := set_insert (def_id d) ids in
    let '(fresh_key, keys) := set_insert (def_key d) keys in
    if fresh_id && fresh_key then check_definitions ids keys ds
    else Err (routing_error "duplicate collection definition")
  end.

(** The loop over the participants, with the ids seen so far in the whole record.
    The code keeps the participants' ids in a second set too; it is a part of the
    first one, so its test never decides. *)
Fixpoint check_participants (ids processes : gset string) (ps : list Participant) : EngineResult (gset string) :=
  match ps with
  | [] => Ok ids
  | p :: ps =>
    let '(fresh_id, ids) := set_insert (part_id p) ids in
    let '(fresh_process, processes) :=
      match part_process_id p with
      | Some process => set_insert process processes
      | None => (true, processes)
      end in
    if negb (is_blank (part_id p)) && fresh_id && fresh_process then check_participants ids processes ps
    else Err (routing_error "duplicate or empty participant")
  end.

(** One message flow. *)
Definition compile_flow (c : DefinitionCollection) (col : Collaboration) (f : MessageFlow) : EngineResult PinnedMessageRoute :=
  source ←? pin_endpoint c col (mf_source f) (mf_message_name f) true;
  target ←? pin_endpoint c col (mf_target f) (mf_message_name f) false;
  if bool_decide (dm_definition_key source = dm_definition_key target) then
    Err (routing_error "flow endpoints must be in distinct pools")
  else Ok (mkRoute (dc_id c) (col_id col) (mf_id f) (mf_message_id f) (mf_message_name f) source target).

Fixpoint compile_flows (c : DefinitionCollection) (col : Collaboration) (ids : gset string) (fs : list MessageFlow)
    : EngineResult (gset string * list PinnedMessageRoute) :=
  match fs with
  | [] => Ok (ids, [])
  | f :: fs =>
    let '(fresh_id, ids) := set_insert (mf_id f) ids in
    if is_blank (mf_id f) || negb fresh_id || is_blank (mf_message_id f) || is_blank (mf_message_name f) then
      Err (routing_error "invalid flow identity")
    else
      route ←? compile_flow c col f;
      '(ids, routes) ←? compile_flows c col ids fs;
      Ok (ids, route :: routes)
  end.

Fixpoint compile_collaborations (c : DefinitionCollection) (ids : gset string) (cols : list Collaboration)
    : EngineResult (list PinnedMessageRoute) :=
  match cols with
  | [] => Ok []
  | col :: cols =>
    let '(fresh_id, ids) := set_insert (col_id col) ids in
    if is_blank (col_id col) || negb fresh_id then Err (routing_error "invalid collaboration ID")
    else
      ids ←? check_participants ids ∅ (participants col);
      '(ids, routes) ←? compile_flows c col ids (message_flows col);
      rest ←? compile_collaborations c ids cols;
      Ok (routes ++ rest)
  end.

(** [compile_routes]. *)
Definition compile_routes `{CollaborationReader} (c : DefinitionCollection) : EngineResult (list PinnedMessageRoute) :=
  cols ←? map_err (λ msg, routing_error ("invalid stored collaboration metadata: " +:+ msg))
            (read_collaborations (dc_collaborations c));
  _ ←? check_definitions ∅ ∅ (dc_definitions c);
  compile_collaborations c ∅ cols.

(** ** What a compiled route promises *)

(** The endpoint names a definition of the collection, by key and version, and an
    element of it that sends (or receives) the message. *)
Definition pinned (c : DefinitionCollection) (source : bool) (message : string) (ep : DeployedMessageEndpoint) : Prop :=
  ∃ d node, d ∈ dc_definitions c ∧ def_key d = dm_definition_key ep ∧ version d = dm_version ep ∧
    def_id d = dm_process_id ep ∧ nodes d !! dm_element_id ep = Some node ∧
    endpoint_valid source message node = true ∧ multi_instance_host d node = false.
Definition route_ok (c : DefinitionCollection) (r : PinnedMessageRoute) : Prop :=
  rt_collection_id r = dc_id c ∧ pinned c true (rt_message_name r) (rt_source r) ∧
  pinned c false (rt_message_name r) (rt_target r) ∧
  dm_definition_key (rt_source r) ≠ dm_definition_key (rt_target r).

Lemma pin_endpoint_ok c col ep message source e :
  pin_endpoint c col ep message source = Ok e → pinned c source message e.
Proof.
  unfold pin_endpoint. destruct (existsb _ _); [|done].
  intros (d & Hd & (node & Hnode & H)%result_bind_Ok)%result_bind_Ok.
  destruct (List.find _ _) as [d'|] eqn:Hfind; [|done]. injection Hd as ->.
  destruct (nodes d !! me_element_id ep) as [node'|] eqn:Hn; [|done]. injection Hnode as ->.
  destruct (endpoint_valid source message node) eqn:Hv, (multi_instance_host d node) eqn:Hm; try done.
  injection H as <-. apply find_some in Hfind as [Hin Hid]. apply bool_decide_eq_true in Hid.
  exists d, node. split; [by apply list_elem_of_In|]. done.
Qed.

Lemma compile_flow_ok c col f r :
  compile_flow c col f = Ok r → route_ok c r ∧ rt_flow_id r = mf_id f.
Proof.
  unfold compile_flow. intros (s & Hs & (t & Ht & H)%result_bind_Ok)%result_bind_Ok.
  case_bool_decide; [done|]. injection H as <-. split; [|done].
  split; [done|]. split; [by eapply pin_endpoint_ok|]. split; [by eapply pin_endpoint_ok|done].
Qed.

(** The ids of a part are new, distinct and recorded. *)
Definition recorded (ids ids' : gset string) (new : list string) : Prop :=
  ids ⊆ ids' ∧ NoDup new ∧ ∀ x, x ∈ new → x ∉ ids ∧ x ∈ ids'.

Lemma recorded_nil ids ids' : ids ⊆ ids' → recorded ids ids' [].
Proof. intros H. split; [done|]. split; [constructor|]. set_solver. Qed.
Lemma recorded_app ids ids1 ids2 l l' : recorded ids ids1 l → recorded ids1 ids2 l' → recorded ids ids2 (l ++ l').
Proof.
  intros (H1 & Hl & Hin) (H2 & Hl' & Hin'). split; [set_solver|]. split.
  - apply NoDup_app. split; [done|]. split; [|done]. intros x Hx Hx'. destruct (Hin x Hx), (Hin' x Hx'). done.
  - intros x [Hx|Hx]%elem_of_app; [destruct (Hin x Hx)|destruct (Hin' x Hx)]; set_solver.
Qed.
Lemma recorded_cons ids ids' x l : x ∉ ids → recorded ({[x]} ∪ ids) ids' l → recorded ids ids' (x :: l).
Proof.
  intros Hx. apply (recorded_app ids ({[x]} ∪ ids) ids' [x]). split; [set_solver|]. split; [apply NoDup_singleton|set_solver].
Qed.

Lemma check_participants_ok ids processes ps ids' : check_participants ids processes ps = Ok ids' → ids ⊆ ids'.
Proof.
  revert ids processes. induction ps as [|p ps IH]; intros ids processes; [by intros [= <-]|].
  cbn [check_participants set_insert]. destruct (part_process_id p); cbn [set_insert];
    (destruct (_ && _); [|done]); intros H%IH; set_solver.
Qed.

Lemma compile_flows_ok c col ids fs ids' rs :
  compile_flows c col ids fs = Ok (ids', rs) →
  recorded ids ids' (mf_id <$> fs) ∧ Forall (route_ok c) rs ∧ rt_flow_id <$> rs = mf_id <$> fs.
Proof.
  revert ids ids' rs. induction fs as [|f fs IH]; intros ids ids' rs; cbn [compile_flows set_insert].
  - intros [= <- <-]. split; [by apply recorded_nil|done].
  - destruct (is_blank (mf_id f)); [done|]. case_bool_decide as Hx; cbn [orb negb]; [done|].
    destruct (_ || _); [done|]. intros (r & Hr & ([ids1 rs1] & H & [= <- <-])%result_bind_Ok)%result_bind_Ok.
    apply IH in H as (Hrec & Hok & Heq). apply compile_flow_ok in Hr as [Hrok Hid].
    split; [by apply recorded_cons|]. split; [by constructor|]. cbn. by rewrite Heq, Hid.
Qed.

Lemma compile_collaborations_ok c ids cols rs :
  compile_collaborations c ids cols = Ok rs →
  ∃ ids', recorded ids ids' (rt_flow_id <$> rs) ∧ Forall (route_ok c) rs ∧
    rt_flow_id <$> rs = mf_id <$> concat (message_flows <$> cols).
Proof.
  revert ids rs. induction cols as [|col cols IH]; intros ids rs; cbn [compile_collaborations set_insert].
  - intros [= <-]. exists ids. split; [by apply recorded_nil|done].
  - destruct (is_blank _); [done|]. case_bool_decide; cbn [orb negb]; [done|].
    intros (ids1 & Hp & ([ids2 routes] & Hf & (rest & Hrest & [= <-])%result_bind_Ok)%result_bind_Ok)%result_bind_Ok.
    apply check_participants_ok in Hp. apply compile_flows_ok in Hf as (Hrec & Hok & Heq).
    apply IH in Hrest as (ids' & Hrec' & Hok' & Heq'). exists ids'. rewrite fmap_app. split_and!.
    + apply (recorded_app ids ids1 ids' []); [apply recorded_nil; set_solver|]. rewrite Heq. by eapply recorded_app.
    + by apply Forall_app.
    + cbn. by rewrite fmap_app, Heq, Heq'.
Qed.

Lemma check_definitions_ok ids keys ds :
  check_definitions ids keys ds = Ok tt →
  NoDup (def_id <$> ds) ∧ NoDup (def_key <$> ds) ∧ ∀ d, d ∈ ds → def_id d ∉ ids ∧ def_key d ∉ keys.
Proof.
  revert ids keys. induction ds as [|d ds IH]; intros ids keys; cbn [check_definitions set_insert].
  - intros _. split_and!; [constructor..|]. intros d Hd. by apply not_elem_of_nil in Hd.
  - do 2 (case_bool_decide; [done|]). cbn [negb andb]. intros (Hi & Hk & Hd)%IH. cbn. split_and!.
    + apply NoDup_cons. split; [|done]. intros (d' & Heq & Hd')%list_elem_of_fmap. apply Hd in Hd'. set_solver.
    + apply NoDup_cons. split; [|done]. intros (d' & Heq & Hd')%list_elem_of_fmap. apply Hd in Hd'. set_solver.
    + intros d' [->|Hd']%elem_of_cons; [done|]. apply Hd in Hd'. set_solver.
Qed.

(** Every message flow of an accepted collection becomes exactly one route, in the
    order of the document: it names by key and version two different definitions
    of this collection, its source element sends the message and its target
    element receives it, and no flow id is used twice. *)
Theorem compile_routes_sound `{CollaborationReader} c rs :
  compile_routes c = Ok rs →
  Forall (route_ok c) rs ∧ NoDup (rt_flow_id <$> rs) ∧ NoDup (def_key <$> dc_definitions c) ∧
  ∃ cols, read_collaborations (dc_collaborations c) = Ok cols ∧
    rt_flow_id <$> rs = mf_id <$> concat (message_flows <$> cols).
Proof.
  unfold compile_routes. intros (cols & Hcols & ([] & Hd & Hrs)%result_bind_Ok)%result_bind_Ok.
  apply check_definitions_ok in Hd as (_ & Hkeys & _). apply compile_collaborations_ok in Hrs as (ids' & Hrec & Hok & Heq).
  split; [done|]. split; [apply Hrec|]. split; [done|]. exists cols. split; [|done].
  destruct (read_collaborations _); [|done]. by injection Hcols as ->.
Qed.

(** ** What the compiler accepts *)

(** The ids a collaboration introduces. *)
Definition collaboration_ids (col : Collaboration) : list string :=
  col_id col :: (part_id <$> participants col) ++ (mf_id <$> message_flows col).
(** A flow whose texts are not blank and whose endpoints can be pinned. *)
Definition routable (c : DefinitionCollection) (col : Collaboration) (f : MessageFlow) : Prop :=
  is_blank (mf_id f) = false ∧ is_blank (mf_message_id f) = false ∧ is_blank (mf_message_name f) = false ∧
  ∃ r, compile_flow c col f = Ok r.
Record valid_collaboration (c : DefinitionCollection) (col : Collaboration) : Prop := {
  vc_id : is_blank (col_id col) = false;
  vc_participants : ∀ p, p ∈ participants col → is_blank (part_id p) = false;
  vc_processes : NoDup (omap part_process_id (participants col));
  vc_flows : ∀ f, f ∈ message_flows col → routable c col f;
}.

Lemma check_definitions_accepts ids keys ds :
  NoDup (def_id <$> ds) → NoDup (def_key <$> ds) → (∀ d, d ∈ ds → def_id d ∉ ids ∧ def_key d ∉ keys) →
  check_definitions ids keys ds = Ok tt.
Proof.
  revert ids keys. induction ds as [|d ds IH]; intros ids keys Hi Hk Hf; [done|]. cbn [check_definitions set_insert].
  rewrite fmap_cons in Hi. rewrite fmap_cons in Hk. apply NoDup_cons in Hi as [Hid Hi], Hk as [Hkd Hk].
  destruct (Hf d ltac:(by left)). rewrite !bool_decide_eq_false_2 by done. apply IH; [done..|].
  intros d' Hd'. destruct (Hf d' ltac:(by right)). rewrite !elem_of_union, !elem_of_singleton.
  split; intros [Heq|?]; try done; [apply Hid|apply Hkd]; rewrite <- Heq; by apply list_elem_of_fmap_2.
Qed.

Lemma check_participants_accepts ids processes ps :
  (∀ p, p ∈ ps → is_blank (part_id p) = false) → NoDup (part_id <$> ps) → (∀ x, x ∈ part_id <$> ps → x ∉ ids) →
  NoDup (omap part_process_id ps) → (∀ x, x ∈ omap part_process_id ps → x ∉ processes) →
  check_participants ids processes ps = Ok (list_to_set (part_id <$> ps) ∪ ids).
Proof.
  revert ids processes. induction ps as [|p ps IH]; intros ids processes Hb Hi Hf Hp Hpf; cbn [check_participants].
  { f_equal. set_solver. }
  rewrite fmap_cons in *. apply NoDup_cons in Hi as [Hid Hi]. unfold set_insert.
  rewrite (Hb p) by (by left). rewrite (bool_decide_eq_false_2 (part_id p ∈ ids)) by (apply Hf; by left).
  assert (∀ x, x ∈ part_id <$> ps → x ∉ {[part_id p]} ∪ ids) as Hf'.
  { intros x Hx [->%elem_of_singleton|Hin]%elem_of_union; [done|]. apply (Hf x); [by right|done]. }
  assert (∀ processes', check_participants ({[part_id p]} ∪ ids) processes' ps
            = Ok (list_to_set (part_id <$> ps) ∪ ({[part_id p]} ∪ ids)) →
          check_participants ({[part_id p]} ∪ ids) processes' ps = Ok (list_to_set (part_id p :: (part_id <$> ps)) ∪ ids)) as Hset.
  { intros processes' ->. f_equal. set_solver. }
  cbn [omap list_omap] in Hp, Hpf. destruct (part_process_id p) as [process|].
  - apply NoDup_cons in Hp as [Hpn Hp]. rewrite bool_decide_eq_false_2 by (apply Hpf; by left).
    cbn [negb andb]. apply Hset, IH; [by intros; apply Hb; right|done..|].
    intros x Hx [->%elem_of_singleton|Hin]%elem_of_union; [done|]. apply (Hpf x); [by right|done].
  - cbn [negb andb]. apply Hset, IH; [by intros; apply Hb; right|done..].
Qed.

Lemma compile_flows_accepts c col ids fs :
  (∀ f, f ∈ fs → routable c col f) → NoDup (mf_id <$> fs) → (∀ x, x ∈ mf_id <$> fs → x ∉ ids) →
  ∃ rs, compile_flows c col ids fs = Ok (list_to_set (mf_id <$> fs) ∪ ids, rs).
Proof.
  revert ids. induction fs as [|f fs IH]; intros ids Hr Hn Hf; cbn [compile_flows].
  { exists []. do 2 f_equal. set_solver. }
  rewrite fmap_cons in *. apply NoDup_cons in Hn as [Hid Hn]. unfold set_insert.
  destruct (Hr f ltac:(by left)) as (-> & -> & -> & r & ->). rewrite bool_decide_eq_false_2 by (apply Hf; by left).
  destruct (IH ({[mf_id f]} ∪ ids)) as [rs Hrs]; [by intros; apply Hr; right|done| |].
  { intros x Hx [->%elem_of_singleton|Hin]%elem_of_union; [done|]. apply (Hf x); [by right|done]. }
  exists (r :: rs). cbn [negb orb result_bind]. rewrite Hrs. cbn [result_bind]. do 2 f_equal. set_solver.
Qed.

Lemma compile_collaborations_accepts c ids cols :
  (∀ col, col ∈ cols → valid_collaboration c col) → NoDup (concat (collaboration_ids <$> cols)) →
  (∀ x, x ∈ concat (collaboration_ids <$> cols) → x ∉ ids) → ∃ rs, compile_collaborations c ids cols = Ok rs.
Proof.
  revert ids. induction cols as [|col cols IH]; intros ids Hv Hn Hf; [by exists []|].
  rewrite fmap_cons in *. cbn [concat] in Hn, Hf. apply NoDup_app in Hn as (Hcol & Hdis & Hn).
  destruct (Hv col ltac:(by left)) as [Hid Hps Hpr Hfl]. unfold collaboration_ids in Hcol.
  apply NoDup_cons in Hcol as [Hfresh Hcol]. apply NoDup_app in Hcol as (Hnp & Hpf & Hnf).
  assert (∀ x, x ∈ collaboration_ids col → x ∉ ids) as Hnew by (intros x Hx; apply Hf, elem_of_app; by left).
  unfold collaboration_ids in Hnew, Hdis. cbn [compile_collaborations]. unfold set_insert. rewrite Hid.
  rewrite bool_decide_eq_false_2 by (apply Hnew; by left). cbn [negb orb].
  rewrite check_participants_accepts; [|done..| | |]; [|set_solver|done|set_solver].
  cbn [result_bind].
  destruct (compile_flows_accepts c col (list_to_set (part_id <$> participants col) ∪ ({[col_id col]} ∪ ids)) (message_flows col))
    as [rs ->]; [done..|set_solver|]. cbn [result_bind].
  edestruct (IH (list_to_set (mf_id <$> message_flows col) ∪ (list_to_set (part_id <$> participants col) ∪ ({[col_id col]} ∪ ids))))
    as [rest ->]; [by intros; apply Hv; right|done| |by eexists].
  intros x Hx. assert (x ∉ col_id col :: (part_id <$> participants col) ++ (mf_id <$> message_flows col)) as Hno
    by (intros Hin; by apply (Hdis x)).
  rewrite not_elem_of_cons, not_elem_of_app in Hno. rewrite !not_elem_of_union, not_elem_of_singleton, !elem_of_list_to_set.
  destruct_and!. split_and!; try done. apply Hf, elem_of_app. by right.
Qed.
