(* ===== verification/Runtime.v ===== *)
(** * The run-time data model and the bounded logs of an instance

    engine-core/src/domain/file_ref.rs (a variable holds a file as a JSON object with
    the type "file"; the time of the upload is the text of a clock, an argument of
    [file_new]) and engine-core/src/runtime: pending.rs, instance.rs, constants.rs.  An instance
    keeps its audit log and its incidents in bounded lists: the log keeps the
    newest entries, the incident list drops resolved incidents first. *)

From stdpp Require Import base list gmap strings numbers pretty.
From S2P Require Import Prelude Json Domain Text Token.
Local Open Scope rust_scope.

Record FileReference := mkFile {
  object_key : string;
  filename : string;
  mime_type : string;
  size_bytes : N;
  uploaded_at : string;
}.

(** [FileReference::new]. *)
Definition file_new (instance_id : Uuid) (var_name name mime : string) (size : N) (uploaded : string) : FileReference :=
  mkFile ("file:" +:+ pretty instance_id +:+ "-" +:+ var_name +:+ "-" +:+ name) name mime size uploaded.

(** [to_variable_value]: the fields of the object in the order of its keys. *)
Definition to_variable_value (f : FileReference) : Value :=
  VObject [("filename", VString (filename f)); ("mime_type", VString (mime_type f));
           ("object_key", VString (object_key f)); ("size_bytes", VNumber (NumInt (Z.of_N (size_bytes f))));
           ("type", VString "file"); ("uploaded_at", VString (uploaded_at f))].

(** [from_variable_value]: every field must be there with its type; further fields
    are ignored. *)
Definition from_variable_value (v : Value) : option FileReference :=
  if decide (value_get "type" v ≫= as_str = Some "file"%string) then
    key ← value_get "object_key" v ≫= as_str;
    name ← value_get "filename" v ≫= as_str;
    mime ← value_get "mime_type" v ≫= as_str;
    size ← value_get "size_bytes" v ≫= as_u64;
    uploaded ← value_get "uploaded_at" v ≫= as_str;
    Some (mkFile key name mime size uploaded)
  else None.

(** A reference survives being stored as a variable. *)
Lemma file_reference_roundtrip f : from_variable_value (to_variable_value f) = Some f.
Proof.
  assert (as_u64 (VNumber (NumInt (Z.of_N (size_bytes f)))) = Some (size_bytes f)) as Hsize.
  { unfold as_u64. destruct (Z.leb_spec 0 (Z.of_N (size_bytes f))); [|lia]. by rewrite N2Z.id. }
  unfold from_variable_value, to_variable_value. rewrite decide_True by done.
  change (value_get "size_bytes" _ ≫= as_u64) with (as_u64 (VNumber (NumInt (Z.of_N (size_bytes f))))).
  rewrite Hsize. by destruct f.
Qed.

(** What is read from a value says what the value holds: two values with the same
    reference agree on the five fields. *)
Lemma from_variable_value_fields v f :
  from_variable_value v = Some f →
  value_get "type" v ≫= as_str = Some "file"%string ∧ value_get "object_key" v ≫= as_str = Some (object_key f) ∧
  value_get "filename" v ≫= as_str = Some (filename f) ∧ value_get "mime_type" v ≫= as_str = Some (mime_type f) ∧
  value_get "size_bytes" v ≫= as_u64 = Some (size_bytes f) ∧ value_get "uploaded_at" v ≫= as_str = Some (uploaded_at f).
Proof.
  unfold from_variable_value. destruct (decide _) as [Ht|]; [|done]. intros H.
  repeat (apply bind_Some in H as (? & ? & H)). injection H as <-. done.
Qed.

(** ** The run-time data model and the bounded logs of an instance *)

(** ** Pending work (pending.rs) *)

Record PendingUserTask := {
  ut_task_id : Uuid;
  ut_instance_id : Uuid;
  ut_node_id : string;
  ut_assignee : string;
  ut_token_id : Uuid;
  ut_created_at : DateTime;
  ut_business_key : option string;
}.

Record PendingServiceTask := mkServiceTask {
  st_id : Uuid;
  st_instance_id : Uuid;
  st_definition_key : Uuid;
  st_node_id : string;
  st_topic : string;
  st_token_id : Uuid;
  st_business_key : option string;
  st_variables_snapshot : Vars;
  st_created_at : DateTime;
  st_worker_id : option string;
  st_lock_expiration : option DateTime;
  st_retries : Z;
  st_error_message : option string;
  st_error_details : option string;
}.

Record PendingTimer := mkTimer {
  pt_id : Uuid;
  pt_instance_id : Uuid;
  pt_node_id : string;
  pt_expires_at : DateTime;
  pt_token_id : Uuid;
  pt_timer_def : option TimerDefinition;
  pt_remaining_repetitions : option N;
}.

Record PendingMessageCatch := {
  mc_id : Uuid;
  mc_instance_id : Uuid;
  mc_node_id : string;
  mc_message_name : string;
  mc_token_id : Uuid;
}.

Record PendingSignalCatch := {
  sc_id : Uuid;
  sc_instance_id : Uuid;
  sc_node_id : string;
  sc_signal_name : string;
  sc_token_id : Uuid;
}.

Record PendingConditionalCatch := {
  cc_id : Uuid;
  cc_instance_id : Uuid;
  cc_node_id : string;
  cc_condition : string;
  cc_token_id : Uuid;
  cc_last_result : bool;
}.

(** ** What a step asks the executor to do (instance.rs) *)

Inductive NextAction :=
| Continue (t : Token)
| ContinueMultiple (ts : list Token)
| WaitForUser (p : PendingUserTask)
| WaitForServiceTask (p : PendingServiceTask)
| WaitForJoin (gateway_id : string) (t : Token)
| WaitForTimer (p : PendingTimer)
| WaitForMessage (p : PendingMessageCatch)
| WaitForSignal (p : PendingSignalCatch)
| WaitForCondition (p : PendingConditionalCatch)
| WaitForEventGroup (actions : list NextAction)
| Complete
| ErrorEnd (error_code : string)
| EscalationEnd (escalation_code : string)
| SpawnAndContinue (main : Token) (spawned : list Token)
| InterruptScope (t : Token)
| Terminate
| WaitForCallActivity (called_element : string) (t : Token)
| MultiInstanceFork (node_id : string) (ts : list Token)
| MultiInstanceNext (node_id : string) (t : Token).

Record MultiInstanceProgress := {
  mi_node_id : string;
  mi_total : nat;
  mi_completed : nat;
  mi_sequential_token : option Token;
  mi_items : list (option Value);
}.

Inductive InstanceState :=
| Running
| WaitingOnUserTask (task_id : Uuid)
| WaitingOnServiceTask (task_id : Uuid)
| WaitingOnTimer (timer_id : Uuid)
| WaitingOnMessage (message_id : Uuid)
| WaitingOnSignal (catch_id : Uuid)
| WaitingOnCondition (catch_id : Uuid)
| WaitingOnEventBasedGateway
| ParallelExecution (active_token_count : nat)
| WaitingOnCallActivity (sub_instance_id : Uuid) (t : Token)
| Completed
| CompletedWithError (error_code : string)
| Suspended (previous_state : InstanceState).
#[export] Instance InstanceState_eq_dec : EqDecision InstanceState.
Proof. solve_decision. Defined.

Record ActiveToken := mkActive {
  at_token : Token;
  at_fork_id : option string;
  at_branch_index : nat;
  at_completed : bool;
}.

Record JoinBarrier := mkBarrier {
  gateway_node_id : string;
  expected_count : nat;
  arrived_tokens : list Token;
}.

Record CompensationRecord := { activity_id : string; handler_node_id : string }.
Record OutstandingCall := { oc_node_id : string; oc_token : Token }.

Record ProcessInstance := mkInstance {
  pi_id : Uuid;
  pi_definition_key : Uuid;
  pi_business_key : string;
  pi_parent : option Uuid;
  pi_state : InstanceState;
  pi_current_node : string;
  pi_audit_log : list string;
  pi_variables : Vars;
  pi_tokens : gmap Uuid Token;
  pi_active_tokens : list ActiveToken;
  pi_join_barriers : gmap string JoinBarrier;
  pi_multi_instance_state : gmap string MultiInstanceProgress;
  pi_compensation_log : list CompensationRecord;
  pi_outstanding_calls : gmap Uuid OutstandingCall;
  pi_started_at : option DateTime;
  pi_completed_at : option DateTime;
  pi_incidents : list Incident;
  pi_event_subscriptions : list EventSubscription;
  pi_event_handler_tokens : gmap Uuid string;
  pi_event_scope : bool;
}.
#[export] Instance ProcessInstance_settable : Settable ProcessInstance := λ r,
  mkInstance (pi_id r) (pi_definition_key r) (pi_business_key r) (pi_parent r) (pi_state r) (pi_current_node r)
    (pi_audit_log r) (pi_variables r) (pi_tokens r) (pi_active_tokens r) (pi_join_barriers r)
    (pi_multi_instance_state r) (pi_compensation_log r) (pi_outstanding_calls r) (pi_started_at r)
    (pi_completed_at r) (pi_incidents r) (pi_event_subscriptions r) (pi_event_handler_tokens r) (pi_event_scope r).

#[export] Instance Incident_settable : Settable Incident := λ r,
  Build_Incident (inc_id r) (inc_kind r) (inc_node_id r) (inc_task_id r) (inc_message r) (inc_details r)
    (created_at r) (last_seen_at r) (occurrences r) (resolved_at r) (resolved_by r).

(** ** The audit log *)

(** [get_file_reference] and [file_variable_names]. *)
Definition get_file_reference (name : string) (i : ProcessInstance) : option FileReference :=
  pi_variables i !! name ≫= from_variable_value.
Definition file_variable_names (i : ProcessInstance) : list string :=
  (List.filter (λ kv, bool_decide (is_Some (from_variable_value kv.2))) (map_to_list (pi_variables i))).*1.

Definition MAX_AUDIT_LOG_ENTRIES : nat := 200.

(** [if log.len() > MAX { log.drain(0..log.len() - MAX) }]. *)
Definition trim_audit_log (log : list string) : list string :=
  if MAX_AUDIT_LOG_ENTRIES <? length log then drop (length log - MAX_AUDIT_LOG_ENTRIES) log else log.

Definition push_audit_log (entry : string) (i : ProcessInstance) : ProcessInstance :=
  i <| pi_audit_log := trim_audit_log (pi_audit_log i ++ [entry]) |>.
(** The caller's vector is left empty. *)
Definition append_audit_log (entries : list string) (i : ProcessInstance) : ProcessInstance * list string :=
  (i <| pi_audit_log := trim_audit_log (pi_audit_log i ++ entries) |>, []).

(** ** Incidents *)

Definition u32_max : N := 4294967295.
Definition saturating_add_u32 (a b : N) : N := (a + b) `min` u32_max.

(** An open incident of the same kind and assignment. *)
Definition same_open (kind : IncidentKind) (node : option string) (task : option Uuid) (x : Incident) : bool :=
  bool_decide (resolved_at x = None) && bool_decide (inc_kind x = kind)
  && bool_decide (inc_node_id x = node) && bool_decide (inc_task_id x = task).

(** [iter().enumerate().filter(p).min_by_key(created_at)]: the index of the first
    entry with the smallest key; [best] is the minimum so far. *)
Fixpoint min_by_created (p : Incident → bool) (l : list Incident) (index : nat)
    (best : option (nat * DateTime)) : option nat :=
  match l with
  | [] => fst <$> best
  | x :: l =>
    let best' :=
      if p x then
        match best with
        | Some (_, k) => if (created_at x <? k)%Z then Some (index, created_at x) else best
        | None => Some (index, created_at x)
        end
      else best in
    min_by_created p l (S index) best'
  end.

Definition is_resolved (x : Incident) : bool := bool_decide (is_Some (resolved_at x)).

(** The index [trim_incidents] removes. *)
Definition victim (l : list Incident) : option nat :=
  match min_by_created is_resolved l 0 None with
  | Some i => Some i
  | None => min_by_created (λ _, true) l 0 None
  end.

(** The loop of [trim_incidents]; every round removes one incident, so the
    length of the list is enough fuel. *)
Fixpoint trim_loop (fuel : nat) (l : list Incident) : list Incident :=
  match fuel with
  | 0 => l
  | S fuel =>
    if MAX_INCIDENTS_PER_INSTANCE <? length l then
      match victim l with
      | Some i => trim_loop fuel (delete i l)
      | None => l
      end
    else l
  end.
Definition trim_incidents (l : list Incident) : list Incident := trim_loop (length l) l.

(** [iter_mut().find(p)] followed by an update of the entry found. *)
Fixpoint update_first {A} (p : A → bool) (f : A → A) (l : list A) : list A :=
  match l with
  | [] => []
  | x :: l => if p x then f x :: l else x :: update_first p f l
  end.

Definition touch (now : DateTime) (message : string) (details : option string) (x : Incident) : Incident :=
  x <| occurrences := saturating_add_u32 (occurrences x) 1 |> <| last_seen_at := now |>
    <| inc_message := message |>
    <| inc_details := match details with Some _ => details | None => inc_details x end |>.

(** [push_or_touch_incident]; [now] and the fresh id are arguments. *)
Definition push_or_touch_incident (now : DateTime) (fresh : Uuid) (kind : IncidentKind)
    (node : option string) (task : option Uuid) (message : string) (details : option string)
    (i : ProcessInstance) : Uuid * ProcessInstance :=
  match List.find (same_open kind node task) (pi_incidents i) with
  | Some x =>
    (inc_id x, i <| pi_incidents ::= update_first (same_open kind node task) (touch now message details) |>)
  | None =>
    (fresh, i <| pi_incidents := trim_incidents (pi_incidents i ++
       [Build_Incident fresh kind node task message details now now 1 None None]) |>)
  end.

(** ** The audit log is a window *)

(** The newest [n] entries. *)
Definition lastn {A} (n : nat) (l : list A) : list A := drop (length l - n) l.

Lemma trim_audit_log_lastn log : trim_audit_log log = lastn MAX_AUDIT_LOG_ENTRIES log.
Proof.
  unfold trim_audit_log, lastn. destruct (Nat.ltb_spec MAX_AUDIT_LOG_ENTRIES (length log)); [done|].
  replace (length log - MAX_AUDIT_LOG_ENTRIES) with 0 by lia. done.
Qed.

Lemma lastn_length {A} n (l : list A) : length (lastn n l) = n `min` length l.
Proof. unfold lastn. rewrite length_drop. lia. Qed.

Lemma lastn_all {A} n (l : list A) : length l ≤ n → lastn n l = l.
Proof. intros. unfold lastn. by replace (length l - n) with 0 by lia. Qed.

Lemma lastn_app {A} n (l k : list A) : lastn n (lastn n l ++ k) = lastn n (l ++ k).
Proof.
  unfold lastn. rewrite !length_app, length_drop.
  destruct (decide (length l ≤ n)).
  - replace (length l - n) with 0 by lia. rewrite drop_0. do 2 f_equal. lia.
  - rewrite <- (drop_app_le l k (length l - n)) by lia. rewrite drop_drop. f_equal. lia.
Qed.

Lemma push_audit_log_eq e i :
  pi_audit_log (push_audit_log e i) = lastn MAX_AUDIT_LOG_ENTRIES (pi_audit_log i ++ [e]).
Proof. apply trim_audit_log_lastn. Qed.

(** The audit log keeps exactly the newest 200 entries: pushing entries one by one
    and appending them in one call leave the same log, the last entries of
    everything that was ever written. *)
Theorem audit_log_newest (i : ProcessInstance) (entries : list string) :
  length (pi_audit_log i) ≤ MAX_AUDIT_LOG_ENTRIES →
  let all := lastn MAX_AUDIT_LOG_ENTRIES (pi_audit_log i ++ entries) in
  pi_audit_log (fold_left (flip push_audit_log) entries i) = all ∧
  pi_audit_log (append_audit_log entries i).1 = all ∧ length all ≤ MAX_AUDIT_LOG_ENTRIES.
Proof.
  intros Hlen all. split_and!; [|apply trim_audit_log_lastn|subst all; rewrite lastn_length; lia].
  subst all. revert i Hlen. induction entries as [|e es IH]; intros i Hlen; cbn [fold_left].
  - by rewrite app_nil_r, lastn_all.
  - unfold flip at 2. rewrite IH; rewrite push_audit_log_eq.
    + by rewrite lastn_app, <- app_assoc.
    + rewrite lastn_length. lia.
Qed.

(** ** Trimming incidents *)

Definition is_min (p : Incident → bool) (l : list Incident) (best : option (nat * DateTime)) : Prop :=
  match best with
  | Some (i, k) => ∃ x, l !! i = Some x ∧ p x = true ∧ created_at x = k ∧
      ∀ j y, l !! j = Some y → p y = true → (k ≤ created_at y)%Z ∧ (j < i → (k < created_at y)%Z)
  | None => ∀ x, x ∈ l → p x = false
  end.

Lemma is_min_snoc p l x best :
  is_min p l best →
  is_min p (l ++ [x])
    (if p x then
       match best with
       | Some (_, k) => if (created_at x <? k)%Z then Some (length l, created_at x) else best
       | None => Some (length l, created_at x)
       end
     else best).
Proof.
  assert (∀ j y, (l ++ [x]) !! j = Some y → l !! j = Some y ∧ j < length l ∨ j = length l ∧ y = x) as Hsnoc.
  { intros j y [Hj|[Hle Hj]]%lookup_app_Some; [left; split; [done|by eapply lookup_lt_Some]|].
    apply list_lookup_singleton_Some in Hj as [? ->]. right. split; [lia|done]. }
  destruct best as [[i k]|]; cbn.
  - intros (z & Hz & Hp & <- & Hmin). pose proof (lookup_lt_Some _ _ _ Hz) as Hlt.
    assert (is_min p (l ++ [x]) (Some (i, created_at z)) ∨ p x = true ∧ (created_at x < created_at z)%Z) as Hcase.
    { destruct (decide (p x = true ∧ (created_at x < created_at z)%Z)) as [|Hn]; [by right|left].
      exists z. split; [by apply lookup_app_l_Some|]. split_and!; [done..|]. intros j y Hj Hy.
      destruct (Hsnoc _ _ Hj) as [[Hj' _]|[-> ->]]; [by apply Hmin|]. split; [|lia].
      destruct (Z_lt_le_dec (created_at x) (created_at z)); [|done]. exfalso. by apply Hn. }
    destruct (p x) eqn:Hpx; [|destruct Hcase as [|[? _]]; done].
    destruct (Z.ltb_spec (created_at x) (created_at z)) as [Hlt'|]; [|destruct Hcase as [|[_ ?]]; [done|lia]].
    exists x. split; [by apply list_lookup_middle|]. split_and!; [done..|]. intros j y Hj Hy.
    destruct (Hsnoc _ _ Hj) as [[Hj' ?]|[-> ->]]; [|split; lia].
    destruct (Hmin _ _ Hj' Hy). split; lia.
  - intros Hnone. destruct (p x) eqn:Hpx; cbn.
    + exists x. split; [by apply list_lookup_middle|]. split_and!; [done..|]. intros j y Hj Hy.
      destruct (Hsnoc _ _ Hj) as [[Hj' _]|[-> ->]]; [|split; lia].
      apply list_elem_of_lookup_2 in Hj'. rewrite (Hnone _ Hj') in Hy. done.
    + intros y [Hy| ->%list_elem_of_singleton]%elem_of_app; [by apply Hnone|done].
Qed.

Lemma min_by_created_min p l pre best :
  is_min p pre best →
  ∃ b, is_min p (pre ++ l) b ∧ min_by_created p l (length pre) best = fst <$> b.
Proof.
  revert pre best. induction l as [|x l IH]; intros pre best Hb; cbn.
  - rewrite app_nil_r. eauto.
  - destruct (IH (pre ++ [x]) _ (is_min_snoc p pre x best Hb)) as (b & Hb' & Heq).
    rewrite <- app_assoc in Hb'. rewrite length_app, Nat.add_comm in Heq. cbn in Heq. eauto.
Qed.

Lemma min_by_created_Some p l i :
  min_by_created p l 0 None = Some i → ∃ x, l !! i = Some x ∧ p x = true ∧
    ∀ j y, l !! j = Some y → p y = true → (created_at x ≤ created_at y)%Z ∧ (j < i → (created_at x < created_at y)%Z).
Proof.
  destruct (min_by_created_min p l [] None) as (b & Hb & Heq); [by intros x ?%not_elem_of_nil|].
  cbn in Hb, Heq. rewrite Heq. destruct b as [[i' k]|]; [|done]. intros [= ->].
  destruct Hb as (x & ? & ? & <- & ?). eauto.
Qed.

Lemma min_by_created_None p l : min_by_created p l 0 None = None → ∀ x, x ∈ l → p x = false.
Proof.
  destruct (min_by_created_min p l [] None) as (b & Hb & Heq); [by intros x ?%not_elem_of_nil|].
  cbn in Hb, Heq. rewrite Heq. by destruct b as [[]|].
Qed.

Lemma victim_Some l i :
  victim l = Some i → ∃ x, l !! i = Some x ∧ (is_resolved x = false → ∀ y, y ∈ l → is_resolved y = false) ∧
    ∀ j y, l !! j = Some y → is_resolved x = is_resolved y →
      (created_at x ≤ created_at y)%Z ∧ (j < i → (created_at x < created_at y)%Z).
Proof.
  unfold victim. destruct (min_by_created is_resolved l 0 None) as [i'|] eqn:Hres.
  - intros [= ->]. apply min_by_created_Some in Hres as (x & Hx & Hp & Hmin).
    exists x. split_and!; [done|congruence|]. intros j y Hj Heq. apply Hmin; congruence.
  - pose proof (min_by_created_None _ _ Hres) as Hnone. intros (x & Hx & _ & Hmin)%min_by_created_Some.
    exists x. split_and!; [done|done|]. intros j y Hj _. by apply Hmin.
Qed.

Definition is_open (x : Incident) : bool := bool_decide (resolved_at x = None).
Lemma is_open_resolved x : is_resolved x = negb (is_open x).
Proof. unfold is_resolved, is_open. by destruct (resolved_at x). Qed.

(** What [trim_incidents] does to a list: [dropped] is what it removed. *)
Record trimmed (l l' dropped : list Incident) : Prop := {
  trimmed_perm : l ≡ₚ dropped ++ l';
  trimmed_sublist : l' `sublist_of` l;
  trimmed_length : length l' = MAX_INCIDENTS_PER_INSTANCE `min` length l;
  trimmed_open : count is_open l' = MAX_INCIDENTS_PER_INSTANCE `min` count is_open l;
  trimmed_oldest : ∀ x y, x ∈ dropped → y ∈ l' → is_open x = is_open y → (created_at x ≤ created_at y)%Z;
}.

Lemma trim_loop_trimmed fuel l : length l ≤ fuel → ∃ dropped, trimmed l (trim_loop fuel l) dropped.
Proof.
  assert (∀ l, length l ≤ MAX_INCIDENTS_PER_INSTANCE → trimmed l l []) as Hdone.
  { intros l' Hl'. pose proof (count_le_length is_open l'). split; [done|done|lia|lia|set_solver]. }
  revert l. induction fuel as [|fuel IH]; intros l Hl; cbn [trim_loop].
  { exists []. apply Hdone. lia. }
  destruct (Nat.ltb_spec MAX_INCIDENTS_PER_INSTANCE (length l)) as [Hgt|]; [|by exists []; apply Hdone].
  destruct (victim l) as [i|] eqn:Hv.
  - apply victim_Some in Hv as (x & Hx & Hall & Hmin).
    pose proof (delete_Permutation l i x Hx) as Hperm.
    destruct (IH (delete i l)) as (dropped & [Hp Hs Hlen Ho Hold]).
    { apply Permutation_length in Hperm. cbn in Hperm. lia. }
    pose proof (Permutation_length Hperm) as Hlp. cbn in Hlp.
    exists (x :: dropped). split.
    + rewrite Hperm at 1. by rewrite Hp at 1.
    + etrans; [apply Hs|]. apply sublist_delete.
    + lia.
    + rewrite Ho. rewrite (count_Permutation is_open _ _ Hperm), count_cons.
      destruct (is_open x) eqn:Hox; [|done].
      rewrite is_open_resolved, Hox in Hall. specialize (Hall eq_refl).
      assert (count is_open (delete i l) = length (delete i l)) as ->; [|lia].
      apply count_all. intros y Hy. specialize (Hall y). rewrite Hperm, elem_of_cons, is_open_resolved in Hall.
      destruct (is_open y); [done|]. by discriminate Hall; right.
    + intros a b [->|Ha]%elem_of_cons Hb Hab.
      * assert (b ∈ l) as [j Hj]%list_elem_of_lookup.
        { eapply sublist_subseteq; [|exact Hb]. etrans; [apply Hs|apply sublist_delete]. }
        eapply Hmin; [done|]. by rewrite !is_open_resolved, Hab.
      * by apply Hold.
  - exfalso. unfold victim in Hv. destruct (min_by_created is_resolved l 0 None); [done|].
    destruct l as [|x l]; [cbn in Hgt; lia|]. apply min_by_created_None with (x := x) in Hv; [done|set_solver].
Qed.

(** [trim_incidents] ends with at most 100 incidents, in their old order; it drops
    open incidents only when there are more than 100 of them, and of each
    class (open, resolved) the oldest ones. *)
Theorem trim_incidents_spec (l : list Incident) : ∃ dropped, trimmed l (trim_incidents l) dropped.
Proof. by apply trim_loop_trimmed. Qed.

(** ** Recording an incident *)

(** At most 100 incidents, and at most one open incident per kind and assignment. *)
Definition incidents_ok (l : list Incident) : Prop :=
  length l ≤ MAX_INCIDENTS_PER_INSTANCE ∧ ∀ kind node task, count (same_open kind node task) l ≤ 1.

(** The newest open incident survives a trim. *)
Lemma trim_snoc l x :
  length l ≤ MAX_INCIDENTS_PER_INSTANCE → is_open x = true →
  (∀ y, y ∈ l → (created_at y ≤ created_at x)%Z) →
  ∃ l', trim_incidents (l ++ [x]) = l' ++ [x] ∧ l' `sublist_of` l ∧
    length (l' ++ [x]) ≤ MAX_INCIDENTS_PER_INSTANCE.
Proof.
  intros Hlen Hopen Hold. unfold trim_incidents. rewrite length_app, Nat.add_comm. cbn [length plus trim_loop].
  destruct (Nat.ltb_spec MAX_INCIDENTS_PER_INSTANCE (length (l ++ [x]))) as [Hgt|]; [|by exists l].
  rewrite length_app in Hgt. cbn in Hgt. destruct (victim (l ++ [x])) as [i|] eqn:Hv.
  - apply victim_Some in Hv as (z & Hz & Hall & Hmin). pose proof (lookup_lt_Some _ _ _ Hz) as Hi.
    rewrite length_app in Hi. cbn in Hi. assert (i < length l) as Hil.
    { destruct (decide (i = length l)) as [->|]; [exfalso|lia].
      rewrite list_lookup_middle in Hz by done. injection Hz as ->.
      destruct l as [|y l]; [cbn in Hgt; unfold MAX_INCIDENTS_PER_INSTANCE in Hgt; lia|].
      assert (is_resolved z = false) as Hrz by (by rewrite is_open_resolved, Hopen).
      destruct (Hmin 0 y) as [_ Hlt]; [done|rewrite Hrz; symmetry; apply Hall; [done|set_solver]|].
      specialize (Hlt ltac:(cbn; lia)). specialize (Hold y ltac:(set_solver)). lia. }
    rewrite delete_take_drop, take_app_le, drop_app_le by lia. rewrite app_assoc, <- delete_take_drop.
    assert (length (delete i l) < MAX_INCIDENTS_PER_INSTANCE).
    { rewrite length_delete by (by apply lookup_lt_is_Some). lia. }
    exists (delete i l). split_and!; [|apply sublist_delete|rewrite length_app; cbn; lia].
    destruct (length l); [done|]. cbn [trim_loop].
    destruct (Nat.ltb_spec MAX_INCIDENTS_PER_INSTANCE (length (delete i l ++ [x]))) as [Hg|]; [|done].
    rewrite length_app in Hg. cbn in Hg. lia.
  - exists l. split; [done|]. split; [done|]. exfalso. unfold victim in Hv.
    destruct (min_by_created is_resolved (l ++ [x]) 0 None); [done|].
    apply min_by_created_None with (x := x) in Hv; [done|set_solver].
Qed.

Lemma count_sublist {A} (f : A → bool) l k : l `sublist_of` k → count f l ≤ count f k.
Proof. induction 1; rewrite ?count_cons; [done|lia|destruct (f _); lia]. Qed.

Lemma update_first_find {A} (p : A → bool) (g : A → A) l x :
  List.find p l = Some x → p x = true ∧ g x ∈ update_first p g l ∧ length (update_first p g l) = length l.
Proof.
  induction l as [|y l IH]; cbn; [done|]. destruct (p y) eqn:Hp.
  - intros [= ->]. split; [done|]. split; [set_solver|done].
  - intros (? & ? & Hlen)%IH. split; [done|]. split; [set_solver|cbn; by rewrite Hlen].
Qed.

Lemma update_first_count {A} (f p : A → bool) (g : A → A) l :
  (∀ x, f (g x) = f x) → count f (update_first p g l) = count f l.
Proof.
  intros Hg. induction l as [|y l IH]; [done|]. cbn [update_first]. destruct (p y); rewrite !count_cons, ?Hg; lia.
Qed.

Lemma update_first_length {A} (p : A → bool) (g : A → A) l : length (update_first p g l) = length l.
Proof. induction l as [|y l IH]; [done|]. cbn. destruct (p y); cbn; lia. Qed.
Lemma update_first_count_le {A} (f p : A → bool) (g : A → A) l :
  (∀ x, f (g x) = false) → count f (update_first p g l) ≤ count f l.
Proof.
  intros Hg. induction l as [|y l IH]; [done|]. cbn [update_first]. destruct (p y); rewrite !count_cons, ?Hg; lia.
Qed.

(** Recording an incident keeps the list within its bound and free of duplicate
    open incidents, and the returned id names an open incident of that kind
    and assignment that carries the new message; a clock that does not run
    backwards never lets the new incident be the one that is dropped. *)
Theorem push_or_touch_incident_spec now fresh kind node task message details (i : ProcessInstance) :
  incidents_ok (pi_incidents i) → (∀ x, x ∈ pi_incidents i → (created_at x ≤ now)%Z) →
  let '(id, i') := push_or_touch_incident now fresh kind node task message details i in
  incidents_ok (pi_incidents i') ∧
  ∃ x, x ∈ pi_incidents i' ∧ inc_id x = id ∧ same_open kind node task x = true ∧
    inc_message x = message ∧ last_seen_at x = now.
Proof.
  intros [Hlen Huniq] Hnow. unfold push_or_touch_incident.
  destruct (List.find (same_open kind node task) (pi_incidents i)) as [x|] eqn:Hf; cbn.
  - apply (update_first_find _ (touch now message details)) in Hf as (Hp & Hin & Hl). split.
    + split; [by rewrite Hl|]. intros k n t. by rewrite update_first_count.
    + exists (touch now message details x). by repeat split.
  - set (x := Build_Incident fresh kind node task message details now now 1 None None).
    destruct (trim_snoc (pi_incidents i) x) as (l' & -> & Hs & Hl); [done..|].
    assert (same_open kind node task x = true) as Hx.
    { unfold same_open, x. cbn. by rewrite !bool_decide_true. }
    split; [|exists x; split; [set_solver|done]]. split; [done|]. intros k n t.
    rewrite count_app, count_cons. pose proof (count_sublist (same_open k n t) _ _ Hs).
    specialize (Huniq k n t). change (count (same_open k n t) []) with 0.
    destruct (same_open k n t x) eqn:Hk; [|lia].
    assert (k = kind ∧ n = node ∧ t = task) as (-> & -> & ->).
    { unfold same_open, x in Hk. cbn in Hk. rewrite !andb_true_iff, !bool_decide_eq_true in Hk. naive_solver. }
    enough (count (same_open kind node task) (pi_incidents i) = 0) by lia.
    apply count_none. intros y Hy. by eapply find_none; [|apply list_elem_of_In].
Qed.

(** ** A concrete instance *)

Definition example_instance : ProcessInstance :=
  mkInstance 7 1 "key" None Running "start" [] ∅ ∅ [] ∅ ∅ [] ∅ None None [] [] ∅ false.

Lemma audit_log_newest_witness :
  length (pi_audit_log example_instance) ≤ MAX_AUDIT_LOG_ENTRIES ∧
  pi_audit_log (fold_left (flip push_audit_log) ["a"; "b"] example_instance) = ["a"; "b"].
Proof.
  split; [vm_compute; lia|].
  destruct (audit_log_newest example_instance ["a"; "b"]) as [H _]; [vm_compute; lia|]. exact H.
Defined.

Lemma push_or_touch_incident_spec_witness :
  incidents_ok (pi_incidents (push_or_touch_incident 5 9 KTimer None None "boom" None example_instance).2).
Proof.
  refine (proj1 (push_or_touch_incident_spec 5 9 KTimer None None "boom" None example_instance _ _)).
  - split; [vm_compute; lia|]. intros; vm_compute; lia.
  - intros x Hx. by apply not_elem_of_nil in Hx.
Defined.
