(* ===== verification/History.v ===== *)
(** * The history of an instance

    engine-core/src/history/mod.rs: the entries the engine appends to an
    instance's history and the difference between two states of an instance that
    an entry carries.  Large values are shortened before they are stored.

    A history entry shows its difference as English text; the text is kept here
    as the list of sentences it is joined from ([HumanText]), since rendering
    JSON and [Debug] text is the work of serde_json and the standard library.
    Likewise [HistoryDiff::status] holds the two states instead of their [Debug]
    text. *)

From stdpp Require Import base list gmap strings pretty.
From Stdlib Require Import Ascii.
From Stdlib Require String.
From S2P Require Import Prelude Text Float Json Domain Token Runtime.
Local Open Scope rust_scope.

Inductive ActorType := ActorEngine | ActorUser | ActorServiceWorker | ActorTimer | ActorListener.
#[export] Instance ActorType_eq_dec : EqDecision ActorType.
Proof. solve_decision. Defined.

Inductive HistoryEventType :=
| InstanceStarted | InstanceCompleted | InstanceDeleted | TaskCompleted | VariableUpdated | GatewayTaken
| ListenerExecuted | TokenAdvanced | TokenForked | TokenJoined | BranchCompleted | HistoryError
| CallActivityStarted | CallActivityCompleted | InstanceWasSuspended | InstanceResumed | TokenMoved
| EscalationThrown | CompensationTriggered | SignalCaught | SignalThrown | ConditionalCaught | InstanceMigrated.
#[export] Instance HistoryEventType_eq_dec : EqDecision HistoryEventType.
Proof. solve_decision. Defined.

(** [human_description]. *)
Definition human_description (ev : HistoryEventType) : string :=
  match ev with
  | InstanceStarted => "Process instance started"
  | InstanceCompleted => "Process instance completed"
  | InstanceDeleted => "Process instance was deleted"
  | TaskCompleted => "Task was completed"
  | VariableUpdated => "Variable was updated"
  | GatewayTaken => "Gateway path was taken"
  | ListenerExecuted => "Execution listener finished"
  | TokenAdvanced => "Token advanced to the next node"
  | TokenForked => "Token forked into multiple branches"
  | TokenJoined => "Multiple tokens joined into one"
  | BranchCompleted => "Branch execution completed"
  | HistoryError => "An execution error occurred"
  | CallActivityStarted => "Call activity started"
  | CallActivityCompleted => "Call activity completed"
  | InstanceWasSuspended => "Process instance was suspended"
  | InstanceResumed => "Process instance was resumed"
  | TokenMoved => "Token was manually moved to a different node"
  | EscalationThrown => "An escalation was thrown"
  | CompensationTriggered => "Compensation was triggered"
  | SignalCaught => "A signal was caught"
  | SignalThrown => "A signal was thrown"
  | ConditionalCaught => "A conditional event was caught"
  | InstanceMigrated => "Process instance was migrated to a new definition"
  end.

Record VariableDiff := mkVarDiff {
  vd_added : Vars;
  vd_removed : list string;
  vd_changed : gmap string (Value * Value);
}.

(** The sentences of a difference. *)
Inductive HumanText :=
| StatusChangedTo (s : InstanceState)
| AdvancedFromTo (old new : string)
| VariableChanged (k : string) (old new : Value)
| VariableWasRemoved (k : string)
| VariableWasAdded (k : string) (v : Value)
| FileUploaded (filename : string) (size : N).

Record HistoryDiff := mkDiff {
  hd_variables : option VariableDiff;
  hd_status : option (InstanceState * InstanceState);
  hd_current_node : option (string * string);
  hd_human_readable : option (list HumanText);
}.
Definition empty_diff : HistoryDiff := mkDiff None None None None.

Definition is_empty (d : HistoryDiff) : bool :=
  match hd_variables d, hd_status d, hd_current_node d, hd_human_readable d with
  | None, None, None, None => true
  | _, _, _, _ => false
  end.

(** The description of an entry: the caller's text, or the text of the difference. *)
Inductive Description := Given (s : string) | Rendered (texts : list HumanText).

Record HistoryEntry := mkEntry {
  he_id : Uuid;
  he_instance_id : Uuid;
  he_timestamp : DateTime;
  he_event_type : HistoryEventType;
  he_node_id : option string;
  he_description : Description;
  he_actor_type : ActorType;
  he_actor_id : option string;
  he_diff : option HistoryDiff;
  he_context : Vars;
  he_metadata : option Value;
  he_definition_version : option Z;
  he_snapshot : option ProcessInstance;
}.
#[export] Instance HistoryEntry_settable : Settable HistoryEntry := λ r,
  mkEntry (he_id r) (he_instance_id r) (he_timestamp r) (he_event_type r) (he_node_id r) (he_description r)
    (he_actor_type r) (he_actor_id r) (he_diff r) (he_context r) (he_metadata r)
    (he_definition_version r) (he_snapshot r).

(** [HistoryEntry::new]; the id and the clock are arguments. *)
Definition entry_new (id : Uuid) (now : DateTime) (instance_id : Uuid) (ev : HistoryEventType)
    (description : string) (actor : ActorType) (actor_id : option string) : HistoryEntry :=
  mkEntry id instance_id now ev None (Given description) actor actor_id None ∅ None None None.
Definition with_node (node_id : string) (x : HistoryEntry) : HistoryEntry :=
  x <| he_node_id := Some node_id |>.
Definition with_diff (d : HistoryDiff) (x : HistoryEntry) : HistoryEntry :=
  if is_empty d then x
  else
    let x := match hd_human_readable d with
             | Some texts => x <| he_description := Rendered texts |>
             | None => x
             end in
    x <| he_diff := Some d |>.
Definition with_metadata (meta : Value) (x : HistoryEntry) : HistoryEntry := x <| he_metadata := Some meta |>.
Definition with_context (k : string) (v : Value) (x : HistoryEntry) : HistoryEntry := x <| he_context ::= <[k := v]> |>.
(** [is_snapshot] is set together with the snapshot. *)
Definition with_snapshot (i : ProcessInstance) (x : HistoryEntry) : HistoryEntry :=
  x <| he_snapshot := Some i |>.

(** ** Shortening values *)

(** [str::is_char_boundary]: the start of a character or the end of the text. *)
Definition is_continuation (a : ascii) : bool :=
  ((0x80 <=? N_of_ascii a) && (N_of_ascii a <? 0xC0))%N.
Definition is_char_boundary (s : string) (i : nat) : bool :=
  match String.get i s with
  | Some a => negb (is_continuation a)
  | None => i =? String.length s
  end.

(** [while boundary > 0 && !s.is_char_boundary(boundary) { boundary -= 1; }]. *)
Fixpoint boundary_below (s : string) (boundary : nat) : nat :=
  match boundary with
  | 0 => 0
  | S b => if is_char_boundary s boundary then boundary else boundary_below s b
  end.

Definition truncate_value_for_diff (v : Value) : Value :=
  match v with
  | VString s =>
    if 1024 <? String.length s then
      let head := String.substring 0 (boundary_below s 1024) s in
      VString (head +:+ "... <truncated " +:+ pretty (length (chars s) - length (chars head)) +:+ " chars>")
    else v
  | VArray a =>
    if 128 <? length a then VString ("<Large Array: " +:+ pretty (length a) +:+ " elements>") else v
  | _ => v
  end.

Definition format_file_human_text (v : Value) : option HumanText :=
  if decide (value_get "type" v ≫= as_str = Some "file"%string) then
    Some (FileUploaded (default "unknown"%string (value_get "filename" v ≫= as_str))
            (default 0%N (value_get "size_bytes" v ≫= as_u64)))
  else None.

(** ** The difference of two states *)

Record DiffSnapshot := mkSnapshot {
  ds_state : InstanceState;
  ds_current_node : string;
  ds_variables : Vars;
}.
Definition from_instance (i : ProcessInstance) : DiffSnapshot :=
  mkSnapshot (pi_state i) (pi_current_node i) (pi_variables i).

(** The changed variable [k], when the two values differ. *)
Definition changed_entry (v_old v_new : Value) : option (Value * Value) :=
  if value_eqb v_old v_new then None else Some (truncate_value_for_diff v_old, truncate_value_for_diff v_new).

Definition changed_vars (old new : Vars) : gmap string (Value * Value) :=
  map_imap (λ k v_old, new !! k ≫= changed_entry v_old) old.
Definition removed_vars (old new : Vars) : list string :=
  (map_to_list (old ∖ new)).*1.
Definition added_vars (old new : Vars) : Vars := truncate_value_for_diff <$> (new ∖ old).

(** The sentence the first loop adds for a variable of the old state. *)
Definition old_text (new : Vars) (kv : string * Value) : list HumanText :=
  let '(k, v_old) := kv in
  match new !! k with
  | Some v_new =>
    if value_eqb v_old v_new then []
    else
      match format_file_human_text v_new with
      | Some t => [t]
      | None => [VariableChanged k (truncate_value_for_diff v_old) (truncate_value_for_diff v_new)]
      end
  | None => [VariableWasRemoved k]
  end.
(** The sentence the second loop adds for a variable of the new state. *)
Definition new_text (old : Vars) (kv : string * Value) : list HumanText :=
  let '(k, v_new) := kv in
  match old !! k with
  | Some _ => []
  | None =>
    match format_file_human_text v_new with
    | Some t => [t]
    | None => [VariableWasAdded k (truncate_value_for_diff v_new)]
    end
  end.

Definition calculate_diff_from_snapshot (old : DiffSnapshot) (new : ProcessInstance) : HistoryDiff :=
  let status := if decide (ds_state old = pi_state new) then None else Some (ds_state old, pi_state new) in
  let node := if decide (ds_current_node old = pi_current_node new) then None
              else Some (ds_current_node old, pi_current_node new) in
  let vars := mkVarDiff (added_vars (ds_variables old) (pi_variables new))
                (removed_vars (ds_variables old) (pi_variables new))
                (changed_vars (ds_variables old) (pi_variables new)) in
  let texts :=
    (if status then [StatusChangedTo (pi_state new)] else [])
    ++ (if node then [AdvancedFromTo (ds_current_node old) (pi_current_node new)] else [])
    ++ concat (old_text (pi_variables new) <$> map_to_list (ds_variables old))
    ++ concat (new_text (ds_variables old) <$> map_to_list (pi_variables new)) in
  mkDiff
    (if bool_decide (vd_added vars = ∅) && bool_decide (vd_removed vars = []) && bool_decide (vd_changed vars = ∅)
     then None else Some vars)
    status node
    (match texts with [] => None | _ => Some texts end).
Definition calculate_diff (old new : ProcessInstance) : HistoryDiff :=
  calculate_diff_from_snapshot (from_instance old) new.

(** ** Shortening never splits a character *)

(** A character starts with a byte that is no continuation byte and goes on with
    continuation bytes only. *)
Lemma encode_char_bytes (c : char) :
  (c < 0x110000)%N →
  ∃ a rest, encode_char c = String a rest ∧ is_continuation a = false ∧
    (∀ i b, String.get i rest = Some b → is_continuation b = true) ∧ String.length rest ≤ 3.
Proof.
  intros Hc. unfold encode_char.
  destruct (base64_digits c) as (q1&q2&q3&r0&r1&r2&->&->&->&->&->&->&?&?&?&?&?&?).
  assert (∀ r, (r < 64)%N → is_continuation (byte_of (0x80 + r)) = true) as Hcont.
  { intros r Hr. unfold is_continuation. rewrite N_of_byte_of by lia. rewrite andb_true_iff, N.leb_le, N.ltb_lt. lia. }
  assert (∀ q, (q < 0x80 ∨ 0xC0 <= q ∧ q < 256)%N → is_continuation (byte_of q) = false) as Hlead.
  { intros q Hq. unfold is_continuation. rewrite N_of_byte_of by lia. rewrite andb_false_iff, N.leb_gt, N.ltb_ge. lia. }
  destruct (N.ltb_spec c 0x80); [|destruct (N.ltb_spec c 0x800); [|destruct (N.ltb_spec c 0x10000)]].
  all: eexists _, _; split; [reflexivity|]; split; [apply Hlead; lia|]; split; [|cbn; lia].
  all: intros i b; repeat (destruct i as [|i]; cbn; [intros [= <-]; by apply Hcont|]); by intros [=].
Qed.

Lemma string_get_app_l i (a b : string) : i < String.length a → String.get i (a +:+ b) = String.get i a.
Proof. revert i. induction a as [|x a IH]; intros i Hi; [cbn in Hi; lia|]. destruct i; [done|]. cbn in Hi. apply IH. lia. Qed.
Lemma string_get_app_r i (a b : string) : String.get (String.length a + i) (a +:+ b) = String.get i b.
Proof. by induction a. Qed.
Lemma string_length_app (a b : string) : String.length (a +:+ b) = String.length a + String.length b.
Proof. induction a as [|x a IH]; [done|]. rewrite string_app_cons. cbn [String.length]. by rewrite IH. Qed.
Lemma string_substring_app (a b : string) : String.substring 0 (String.length a) (a +:+ b) = a.
Proof.
  induction a as [|x a IH]; [by destruct b|].
  rewrite string_app_cons. cbn [String.length String.substring]. by rewrite IH.
Qed.
Lemma string_get_length i (s : string) : i < String.length s → is_Some (String.get i s).
Proof. revert i. induction s as [|x s IH]; intros [|i]; cbn; [lia|lia|done|]. intros. apply IH. lia. Qed.

Lemma of_chars_app (a b : list char) : of_chars (a ++ b) = (of_chars a +:+ of_chars b)%string.
Proof. induction a as [|c a IH]; [done|]. cbn [of_chars app]. by rewrite IH, string_app_assoc. Qed.

(** The character that holds the byte at a position. *)
Lemma locate_byte (cs : list char) (p : nat) :
  p < String.length (of_chars cs) →
  ∃ pre c post k, cs = pre ++ c :: post ∧ p = String.length (of_chars pre) + k ∧ k < String.length (encode_char c).
Proof.
  revert p. induction cs as [|c cs IH]; cbn [of_chars]; intros p; [cbn; lia|].
  rewrite string_length_app. destruct (decide (p < String.length (encode_char c))) as [|Hge]; intros Hp.
  - exists [], c, cs, p. split_and!; done.
  - destruct (IH (p - String.length (encode_char c))) as (pre & c' & post & k & -> & Heq & Hk); [lia|].
    exists (c :: pre), c', post, k. cbn [of_chars]. rewrite string_length_app. split_and!; [done|lia|done].
Qed.

(** The loop stops at the start of the character that holds the limit. *)
Lemma boundary_below_of_chars (pre post : list char) (c : char) (k : nat) :
  (c < 0x110000)%N → k < String.length (encode_char c) →
  boundary_below (of_chars (pre ++ c :: post)) (String.length (of_chars pre) + k) = String.length (of_chars pre).
Proof.
  intros (a & rest & Henc & Ha & Hrest & _)%encode_char_bytes. set (s := of_chars _).
  assert (∀ j, String.get (String.length (of_chars pre) + j) s = String.get j (encode_char c +:+ of_chars post)) as Hget.
  { intros j. unfold s. rewrite of_chars_app. apply string_get_app_r. }
  rewrite Henc in Hget |- *. induction k as [|k IH]; intros Hk.
  - rewrite Nat.add_0_r. destruct (String.length (of_chars pre)) as [|n] eqn:Hlen; [done|]. cbn [boundary_below].
    unfold is_char_boundary. specialize (Hget 0). rewrite Nat.add_0_r in Hget.
    rewrite Hget, string_app_cons. cbn [String.get]. by rewrite Ha.
  - rewrite Nat.add_succ_r. cbn [boundary_below]. unfold is_char_boundary at 1.
    rewrite <- Nat.add_succ_r, Hget, string_get_app_l by done. cbn [String.length String.get] in Hk |- *.
    destruct (string_get_length k rest) as [b Hb]; [lia|]. rewrite Hb, (Hrest _ _ Hb). apply IH. cbn. lia.
Qed.

(** The result of shortening a text of more than 1024 bytes is a prefix of whole
    characters, between 1021 and 1024 bytes long, followed by the number of
    characters left out. *)
Theorem truncate_string_spec (cs : list char) :
  Forall (λ c, (c < 0x110000)%N) cs → 1024 < String.length (of_chars cs) →
  ∃ pre post, cs = pre ++ post ∧ String.length (of_chars pre) ≤ 1024 < String.length (of_chars pre) + 4 ∧
    truncate_value_for_diff (VString (of_chars cs)) =
    VString (of_chars pre +:+ "... <truncated " +:+ pretty (length post) +:+ " chars>").
Proof.
  intros Hcs Hlen. destruct (locate_byte cs 1024 Hlen) as (pre & c & post & k & -> & Heq & Hk).
  pose proof Hcs as [Hpre [Hc Hpost]%Forall_cons]%Forall_app.
  destruct (encode_char_bytes c Hc) as (a & rest & Henc & _ & _ & Hr).
  exists pre, (c :: post). split; [done|]. split.
  { rewrite Henc in Hk. cbn in Hk. lia. }
  unfold truncate_value_for_diff. apply Nat.ltb_lt in Hlen. rewrite Hlen. cbv zeta. do 2 f_equal.
  - rewrite Heq, boundary_below_of_chars by done. rewrite of_chars_app. apply string_substring_app.
  - rewrite Heq, boundary_below_of_chars, of_chars_app, string_substring_app by done.
    rewrite <- of_chars_app, !chars_of_chars by done. rewrite length_app. by replace (_ + _ - _) with (length (c :: post)) by lia.
Qed.

(** ** What a difference records *)

(** Two variables are the same for [PartialEq]. *)
Definition same_value (a b : option Value) : Prop :=
  match a, b with
  | Some v, Some w => value_eqb v w = true
  | None, None => True
  | _, _ => False
  end.

Lemma changed_vars_lookup old new k :
  changed_vars old new !! k = (v ← old !! k; w ← new !! k; changed_entry v w).
Proof. unfold changed_vars. by rewrite map_lookup_imap. Qed.
Lemma added_vars_lookup old new k :
  added_vars old new !! k = match old !! k with Some _ => None | None => truncate_value_for_diff <$> new !! k end.
Proof.
  unfold added_vars. rewrite lookup_fmap, lookup_difference. by destruct (old !! k).
Qed.
Lemma removed_vars_elem old new k : k ∈ removed_vars old new ↔ is_Some (old !! k) ∧ new !! k = None.
Proof.
  unfold removed_vars. rewrite list_elem_of_fmap. split.
  - intros ([k' v] & -> & Hk). apply elem_of_map_to_list, lookup_difference_Some in Hk as [? ?]. eauto.
  - intros [[v ?] ?]. exists (k, v). split; [done|]. by apply elem_of_map_to_list, lookup_difference_Some.
Qed.

(** Nothing is recorded about the variables exactly when none of them differ. *)
Lemma no_var_diff old new :
  (added_vars old new = ∅ ∧ removed_vars old new = [] ∧ changed_vars old new = ∅) ↔
  ∀ k, same_value (old !! k) (new !! k).
Proof.
  split.
  - intros (Ha & Hr & Hc) k.
    assert (added_vars old new !! k = None) as Hak by (by rewrite Ha).
    assert (changed_vars old new !! k = None) as Hck by (by rewrite Hc).
    assert (k ∉ removed_vars old new) as Hrk by (rewrite Hr; set_solver).
    rewrite added_vars_lookup in Hak. rewrite changed_vars_lookup in Hck. rewrite removed_vars_elem in Hrk.
    destruct (old !! k) as [v|], (new !! k) as [w|]; cbn in *; try done; [|naive_solver].
    unfold changed_entry in Hck. by destruct (value_eqb v w).
  - intros H. split_and!.
    + apply map_empty. intros k. rewrite added_vars_lookup. specialize (H k).
      by destruct (old !! k), (new !! k).
    + apply elem_of_nil_inv. intros k (Hk & Hn)%removed_vars_elem. specialize (H k). rewrite Hn in H.
      destruct Hk as [v Hv]. by rewrite Hv in H.
    + apply map_empty. intros k. rewrite changed_vars_lookup. specialize (H k).
      destruct (old !! k), (new !! k); try done. cbn in *. unfold changed_entry. by rewrite H.
Qed.

Lemma no_texts old new :
  (∀ k, same_value (old !! k) (new !! k)) →
  concat (old_text new <$> map_to_list old) = [] ∧ concat (new_text old <$> map_to_list new) = [].
Proof.
  intros H. split; apply concat_nil_Forall, Forall_fmap, Forall_forall; intros [k v] Hk%elem_of_map_to_list;
    specialize (H k); rewrite Hk in H; cbn in *.
  - destruct (new !! k); [|done]. by rewrite H.
  - by destruct (old !! k).
Qed.

(** The difference of two states is empty exactly when the state, the current node and
    every variable are the same. *)
Theorem calculate_diff_empty (old new : ProcessInstance) :
  is_empty (calculate_diff old new) = true ↔
  pi_state old = pi_state new ∧ pi_current_node old = pi_current_node new ∧
  ∀ k, same_value (pi_variables old !! k) (pi_variables new !! k).
Proof.
  rewrite <- no_var_diff. unfold is_empty, calculate_diff, calculate_diff_from_snapshot, from_instance.
  cbn [hd_variables hd_status hd_current_node hd_human_readable ds_state
    ds_current_node ds_variables vd_added vd_removed vd_changed].
  split.
  - destruct (bool_decide_reflect (added_vars (pi_variables old) (pi_variables new) = ∅)); [|done].
    destruct (bool_decide_reflect (removed_vars (pi_variables old) (pi_variables new) = [])); [|done].
    destruct (bool_decide_reflect (changed_vars (pi_variables old) (pi_variables new) = ∅)); [|done].
    cbn [andb]. case_decide; [|done]. case_decide; done.
  - intros (Hs & Hn & Hv). pose proof Hv as (Ha & Hr & Hc). rewrite Ha, Hr, Hc, !bool_decide_true by done.
    rewrite !decide_True by done. rewrite no_var_diff in Hv. apply no_texts in Hv as [-> ->]. done.
Qed.

(** ** Replaying a difference *)

(** The variables after the recorded change. *)
Definition apply_var_diff (d : VariableDiff) (vars : Vars) : Vars :=
  vd_added d ∪ ((snd <$> vd_changed d) ∪ filter (λ kv, kv.1 ∉ vd_removed d) vars).
Definition apply_diff (d : HistoryDiff) (s : DiffSnapshot) : DiffSnapshot :=
  mkSnapshot (from_option snd (ds_state s) (hd_status d)) (from_option snd (ds_current_node s) (hd_current_node d))
    (from_option apply_var_diff id (hd_variables d) (ds_variables s)).

Definition untruncated (v : Value) : Prop := truncate_value_for_diff v = v.

Lemma apply_var_diff_spec old new k :
  (∀ v, new !! k = Some v → untruncated v) →
  let vars := apply_var_diff (mkVarDiff (added_vars old new) (removed_vars old new) (changed_vars old new)) old in
  vars !! k = new !! k ∨ same_value (vars !! k) (new !! k).
Proof.
  intros Hnew. unfold apply_var_diff. cbn [vd_added vd_removed vd_changed].
  rewrite !lookup_union, added_vars_lookup, lookup_fmap, changed_vars_lookup, map_lookup_filter.
  destruct (old !! k) as [v|] eqn:Hold, (new !! k) as [w|] eqn:Hn; cbn.
  - unfold changed_entry. specialize (Hnew w eq_refl). unfold untruncated in Hnew.
    rewrite option_guard_True by (rewrite removed_vars_elem; naive_solver).
    destruct (value_eqb v w) eqn:E; cbn; [by right|]. rewrite Hnew. by left.
  - rewrite option_guard_False by (rewrite removed_vars_elem; naive_solver). by left.
  - rewrite (Hnew w eq_refl). by left.
  - by left.
Qed.


(** ** Concrete runs *)

Lemma truncate_string_spec_witness :
  let cs := 97%N :: repeat 233%N 600 in
  ∃ pre post, cs = pre ++ post ∧ String.length (of_chars pre) ≤ 1024 < String.length (of_chars pre) + 4 ∧
    truncate_value_for_diff (VString (of_chars cs)) =
    VString (of_chars pre +:+ "... <truncated " +:+ pretty (length post) +:+ " chars>").
Proof.
  intros cs. apply (truncate_string_spec cs).
  - apply (bool_decide_eq_true_1 _). vm_compute. reflexivity.
  - apply Nat.ltb_lt. vm_compute. reflexivity.
Defined.

