(* ===== verification/Persistence.v ===== *)
(** * The persistence port and the in-memory store

    engine-core/src/port/persistence.rs and engine-core/src/adapter/in_memory.rs
    (which persistence-memory/src/lib.rs re-exports).  The trait
    [WorkflowPersistence] is a class of operations on a type of stores; the
    in-memory store is its reference instance, and [PersistenceLaws] relates any
    other store to it: a write that succeeds has the effect it has on the
    in-memory store, a write that fails may have had it or not. *)

From Stdlib Require Import Ascii.
From stdpp Require Import base list gmap strings pretty sorting.
From S2P Require Import Prelude Text Json Domain Token ProcessDef MessageRouting Runtime History.
Local Open Scope rust_scope.

(** ** Queries and monitoring data (port/persistence.rs) *)

Record CompletedInstanceQuery := mkCompletedQuery {
  cq_definition_key : option Uuid;
  cq_business_key : option string;
  cq_from : option DateTime;
  cq_to : option DateTime;
  cq_state_filter : option string;
  cq_limit : option nat;
  cq_offset : option nat;
}.

Record HistoryQuery := mkHistoryQuery {
  hq_instance_id : Uuid;
  hq_event_types : option (list HistoryEventType);
  hq_node_id : option string;
  hq_actor_type : option ActorType;
  hq_from : option DateTime;
  hq_to : option DateTime;
  hq_limit : option nat;
  hq_offset : option nat;
}.

Record BucketEntry := mkBucketEntry {
  be_key : string;
  be_size_bytes : option N;
  be_created_at : option DateTime;
}.
Record BucketEntryDetail := mkBucketDetail {
  bd_key : string;
  bd_data : string;
  bd_encoding : string;
}.
Definition default_encoding : string := "utf8".
Record BucketInfo := mkBucket {
  bi_name : string;
  bi_type : string;
  bi_entries : nat;
  bi_size_bytes : nat;
}.
Record StorageInfo := mkStorageInfo {
  si_backend_name : string;
  si_version : string;
  si_host : string;
  si_port : Z;
  si_memory_bytes : nat;
  si_storage_bytes : nat;
  si_streams : nat;
  si_consumers : nat;
  si_buckets : list BucketInfo;
}.

(** [Uuid::parse_str]: the id or the text of the error; the text of an id is read
    back. *)
Class UuidText := {
  parse_uuid : string → result string Uuid;
  parse_uuid_text : ∀ u, parse_uuid (pretty u) = Ok u;
}.

(** ** The in-memory store *)

Record InMemoryPersistence := mkMemory {
  m_collections : gmap Uuid DefinitionCollection;
  m_tokens : gmap string (list Token);
  m_instances : gmap Uuid ProcessInstance;
  m_definitions : gmap Uuid ProcessDefinition;
  m_user_tasks : gmap Uuid PendingUserTask;
  m_service_tasks : gmap Uuid PendingServiceTask;
  m_timers : gmap Uuid PendingTimer;
  m_message_catches : gmap Uuid PendingMessageCatch;
  m_signal_catches : gmap Uuid PendingSignalCatch;
  m_conditional_catches : gmap Uuid PendingConditionalCatch;
  m_files : gmap string (list Byte.byte);
  m_bpmn_xmls : gmap string string;
  m_history : gmap Uuid (list HistoryEntry);
  m_completed_instances : gmap Uuid ProcessInstance;
}.
#[export] Instance InMemoryPersistence_settable : Settable InMemoryPersistence := λ r,
  mkMemory (m_collections r) (m_tokens r) (m_instances r) (m_definitions r) (m_user_tasks r) (m_service_tasks r)
    (m_timers r) (m_message_catches r) (m_signal_catches r) (m_conditional_catches r) (m_files r) (m_bpmn_xmls r)
    (m_history r) (m_completed_instances r).
Definition mem_new : InMemoryPersistence := mkMemory ∅ ∅ ∅ ∅ ∅ ∅ ∅ ∅ ∅ ∅ ∅ ∅ ∅ ∅.

Local Abbreviation Mem := InMemoryPersistence.
Local Abbreviation values m := ((map_to_list m).*2).

Definition token_key (instance_id token_id : Uuid) : string := "token-" +:+ pretty instance_id +:+ "-" +:+ pretty token_id.
Definition mem_save_token (instance_id : Uuid) (t : Token) (s : Mem) : Mem :=
  s <| m_tokens ::= <[token_key instance_id (tok_id t) := [t]]> |>.
Definition mem_load_tokens (instance_id : Uuid) (s : Mem) : list Token :=
  let prefix := "token-" +:+ pretty instance_id +:+ "-" in
  concat (List.filter (λ kv, String.prefix prefix kv.1) (map_to_list (m_tokens s))).*2.
Definition mem_delete_token (instance_id token_id : Uuid) (s : Mem) : Mem :=
  s <| m_tokens ::= delete (token_key instance_id token_id) |>.

Definition mem_save_instance (i : ProcessInstance) (s : Mem) : Mem := s <| m_instances ::= <[pi_id i := i]> |>.
Definition mem_list_instances (s : Mem) : list ProcessInstance := values (m_instances s).
Definition mem_save_definition (d : ProcessDefinition) (s : Mem) : Mem := s <| m_definitions ::= <[def_key d := d]> |>.
Definition mem_list_definitions (s : Mem) : list ProcessDefinition := values (m_definitions s).

(** A member of a collection that has not been deleted from it. *)
Definition live_member (c : DefinitionCollection) (key : Uuid) : bool :=
  existsb (λ d, bool_decide (def_key d = key) && negb (existsb (λ k, bool_decide (k = def_key d)) (dc_deleted c)))
    (dc_definitions c).
(** The deleted mark of [delete_definition]. *)
Definition mark_deleted (key : Uuid) (c : DefinitionCollection) : DefinitionCollection :=
  if existsb (λ d, bool_decide (def_key d = key)) (dc_definitions c) && negb (existsb (λ k, bool_decide (k = key)) (dc_deleted c))
  then mkCollection (dc_id c) (dc_definitions c) (dc_xml c) (dc_collaborations c) (dc_deleted c ++ [key])
  else c.

Definition mem_save_definition_collection (c : DefinitionCollection) (s : Mem) : Mem :=
  s <| m_collections ::= <[dc_id c := c]> |>.
Definition collection_lt (c c' : DefinitionCollection) : bool := (dc_id c <? dc_id c')%N.
Definition mem_list_definition_collections (s : Mem) : list DefinitionCollection :=
  sort_by collection_lt (values (m_collections s)).

Definition mem_save_user_task (p : PendingUserTask) (s : Mem) : Mem := s <| m_user_tasks ::= <[ut_task_id p := p]> |>.
Definition mem_delete_user_task (id : Uuid) (s : Mem) : Mem := s <| m_user_tasks ::= delete id |>.
Definition mem_list_user_tasks (s : Mem) : list PendingUserTask := values (m_user_tasks s).
Definition mem_save_service_task (p : PendingServiceTask) (s : Mem) : Mem := s <| m_service_tasks ::= <[st_id p := p]> |>.
Definition mem_delete_service_task (id : Uuid) (s : Mem) : Mem := s <| m_service_tasks ::= delete id |>.
Definition mem_list_service_tasks (s : Mem) : list PendingServiceTask := values (m_service_tasks s).
Definition mem_save_timer (p : PendingTimer) (s : Mem) : Mem := s <| m_timers ::= <[pt_id p := p]> |>.
Definition mem_delete_timer (id : Uuid) (s : Mem) : Mem := s <| m_timers ::= delete id |>.
Definition mem_list_timers (s : Mem) : list PendingTimer := values (m_timers s).
Definition mem_save_message_catch (p : PendingMessageCatch) (s : Mem) : Mem := s <| m_message_catches ::= <[mc_id p := p]> |>.
Definition mem_delete_message_catch (id : Uuid) (s : Mem) : Mem := s <| m_message_catches ::= delete id |>.
Definition mem_list_message_catches (s : Mem) : list PendingMessageCatch := values (m_message_catches s).
Definition mem_save_signal_catch (p : PendingSignalCatch) (s : Mem) : Mem := s <| m_signal_catches ::= <[sc_id p := p]> |>.
Definition mem_delete_signal_catch (id : Uuid) (s : Mem) : Mem := s <| m_signal_catches ::= delete id |>.
Definition mem_list_signal_catches (s : Mem) : list PendingSignalCatch := values (m_signal_catches s).
Definition mem_save_conditional_catch (p : PendingConditionalCatch) (s : Mem) : Mem :=
  s <| m_conditional_catches ::= <[cc_id p := p]> |>.
Definition mem_delete_conditional_catch (id : Uuid) (s : Mem) : Mem := s <| m_conditional_catches ::= delete id |>.
Definition mem_list_conditional_catches (s : Mem) : list PendingConditionalCatch := values (m_conditional_catches s).

Definition mem_save_file (object_key : string) (data : list Byte.byte) (s : Mem) : Mem :=
  s <| m_files ::= <[object_key := data]> |>.
Definition mem_load_file (object_key : string) (s : Mem) : EngineResult (list Byte.byte) :=
  ok_or (PersistenceError "File not found") (m_files s !! object_key).
Definition mem_delete_file (object_key : string) (s : Mem) : Mem := s <| m_files ::= delete object_key |>.

Definition mem_save_bpmn_xml (key xml : string) (s : Mem) : Mem := s <| m_bpmn_xmls ::= <[key := xml]> |>.
Definition mem_list_bpmn_xml_ids (s : Mem) : list string := (map_to_list (m_bpmn_xmls s)).*1.

(** *** History *)

Definition mem_append_history_entry (x : HistoryEntry) (s : Mem) : Mem :=
  s <| m_history ::= (λ h, <[he_instance_id x := default [] (h !! he_instance_id x) ++ [x]]> h) |>.

Definition opt_test {A} (o : option A) (f : A → bool) : bool := match o with Some a => f a | None => true end.
(** The [retain]s of [query_history]. *)
Definition history_matches (q : HistoryQuery) (x : HistoryEntry) : bool :=
  opt_test (hq_event_types q) (λ types, existsb (λ t, bool_decide (t = he_event_type x)) types)
  && opt_test (hq_node_id q) (λ node, bool_decide (he_node_id x = Some node))
  && opt_test (hq_actor_type q) (λ actor, bool_decide (he_actor_type x = actor))
  && opt_test (hq_from q) (λ from, (from <=? he_timestamp x)%Z)
  && opt_test (hq_to q) (λ to, (he_timestamp x <=? to)%Z).
Definition history_lt (x y : HistoryEntry) : bool := (he_timestamp x <? he_timestamp y)%Z.
(** [skip(offset)] and [truncate(limit)]. *)
Definition page_of {A} (offset limit : option nat) (l : list A) : list A :=
  let l := match offset with Some n => drop n l | None => l end in
  match limit with Some n => take n l | None => l end.
Definition mem_query_history (q : HistoryQuery) (s : Mem) : list HistoryEntry :=
  page_of (hq_offset q) (hq_limit q)
    (sort_by history_lt (List.filter (history_matches q) (default [] (m_history s !! hq_instance_id q)))).

(** *** Archive *)

Definition mem_save_completed_instance (i : ProcessInstance) (s : Mem) : Mem :=
  s <| m_completed_instances ::= <[pi_id i := i]> |>.

Definition completed_matches (q : CompletedInstanceQuery) (i : ProcessInstance) : bool :=
  opt_test (cq_definition_key q) (λ key, bool_decide (pi_definition_key i = key))
  && opt_test (cq_business_key q) (λ key, str_contains key (pi_business_key i))
  && opt_test (cq_from q) (λ from, opt_test (pi_completed_at i) (λ at_, (from <=? at_)%Z))
  && opt_test (cq_to q) (λ to, opt_test (pi_completed_at i) (λ at_, (at_ <=? to)%Z))
  && opt_test (cq_state_filter q) (λ f,
       if bool_decide (f = "completed") then match pi_state i with Completed => true | _ => false end
       else if bool_decide (f = "error") then match pi_state i with CompletedWithError _ => true | _ => false end
       else true).
(** [Option]'s order, [None] first; the archive lists the latest first. *)
Definition opt_lt (a b : option DateTime) : bool :=
  match a, b with
  | Some a, Some b => (a <? b)%Z
  | None, Some _ => true
  | _, None => false
  end.
Definition completed_lt (i j : ProcessInstance) : bool := opt_lt (pi_completed_at j) (pi_completed_at i).
Definition mem_query_completed_instances (q : CompletedInstanceQuery) (s : Mem) : list ProcessInstance :=
  page_of (cq_offset q) (cq_limit q)
    (sort_by completed_lt (List.filter (completed_matches q) (values (m_completed_instances s)))).

(** *** Monitoring *)

Definition sum_lengths {A} (m : gmap Uuid (list A)) : nat := foldr (λ l n, length l + n) 0 (values m).
Definition mem_get_storage_info (s : Mem) : option StorageInfo :=
  let kv name n bytes := mkBucket name "kv" n (n * bytes) in
  let i_len := size (m_instances s) in
  let f_len := size (m_files s) in
  Some (mkStorageInfo "InMemoryPersistence" "1.0.0" "localhost" 0 (f_len * 1024 + i_len * 512) 0 0 0
    [kv "instances" i_len 512; kv "definitions" (size (m_definitions s)) 256; kv "user_tasks" (size (m_user_tasks s)) 128;
     kv "service_tasks" (size (m_service_tasks s)) 128; kv "timers" (size (m_timers s)) 128;
     kv "messages" (size (m_message_catches s)) 128; kv "pending_signal_catches" (size (m_signal_catches s)) 128;
     kv "pending_conditional_catches" (size (m_conditional_catches s)) 192;
     mkBucket "bpmn_xml" "object_store" (size (m_bpmn_xmls s)) 0; mkBucket "instance_files" "object_store" f_len 0;
     mkBucket "history" "stream" (sum_lengths (m_history s)) 0]).
Definition mem_get_bucket_entries (bucket_name : string) (offset limit : nat) (s : Mem) : EngineResult (list BucketEntry) :=
  Err (PersistenceError "Bucket browsing not implemented for in-memory persistence").
Definition mem_get_bucket_entry_detail (bucket_name key : string) (s : Mem) : EngineResult BucketEntryDetail :=
  Err (PersistenceError "Bucket detail browsing not implemented for in-memory persistence").

(** *** Operations on the text of an id *)

Section text_ids.
  Context {T : UuidText}.

Definition mem_delete_instance (id : string) (s : Mem) : Mem :=
  match parse_uuid id with Ok uid => s <| m_instances ::= delete uid |> | Err _ => s end.
Definition mem_delete_definition (key : string) (s : Mem) : Mem :=
  match parse_uuid key with
  | Ok uid => s <| m_collections ::= fmap (mark_deleted uid) |> <| m_definitions ::= delete uid |>
  | Err _ => s
  end.
Definition mem_load_bpmn_xml (key : string) (s : Mem) : EngineResult string :=
  match
    match parse_uuid key with
    | Ok uid => List.find (λ c, live_member c uid) (values (m_collections s))
    | Err _ => None
    end
  with
  | Some c => Ok (dc_xml c)
  | None =>
    ok_or (NoSuchDefinition (match parse_uuid key with Ok uid => uid | Err _ => 0%N end)) (m_bpmn_xmls s !! key)
  end.
Definition mem_get_completed_instance (id : string) (s : Mem) : EngineResult (option ProcessInstance) :=
  uid ←? map_err PersistenceError (parse_uuid id);
  Ok (m_completed_instances s !! uid).
End text_ids.

(** ** The port *)

(** A write answers and leaves a store; a read answers. *)
Definition Write (St : Type) : Type := St → EngineResult unit * St.
Definition Read (St A : Type) : Type := St → EngineResult A.

Class WorkflowPersistence (St : Type) := {
  save_token : Uuid → Token → Write St;
  load_tokens : Uuid → Read St (list Token);
  delete_token : Uuid → Uuid → Write St;
  save_instance : ProcessInstance → Write St;
  stored_instances : Read St (list ProcessInstance);
  delete_stored_instance : string → Write St;
  save_definition : ProcessDefinition → Write St;
  stored_definitions : Read St (list ProcessDefinition);
  delete_stored_definition : string → Write St;
  save_definition_collection : DefinitionCollection → Write St;
  list_definition_collections : Read St (list DefinitionCollection);
  save_user_task : PendingUserTask → Write St;
  delete_user_task : Uuid → Write St;
  list_user_tasks : Read St (list PendingUserTask);
  save_service_task : PendingServiceTask → Write St;
  delete_service_task : Uuid → Write St;
  list_service_tasks : Read St (list PendingServiceTask);
  save_timer : PendingTimer → Write St;
  delete_timer : Uuid → Write St;
  list_timers : Read St (list PendingTimer);
  save_message_catch : PendingMessageCatch → Write St;
  delete_message_catch : Uuid → Write St;
  list_message_catches : Read St (list PendingMessageCatch);
  save_signal_catch : PendingSignalCatch → Write St;
  delete_signal_catch : Uuid → Write St;
  list_signal_catches : Read St (list PendingSignalCatch);
  save_conditional_catch : PendingConditionalCatch → Write St;
  delete_conditional_catch : Uuid → Write St;
  list_conditional_catches : Read St (list PendingConditionalCatch);
  save_file : string → list Byte.byte → Write St;
  load_file : string → Read St (list Byte.byte);
  delete_file : string → Write St;
  save_bpmn_xml : string → string → Write St;
  load_bpmn_xml : string → Read St string;
  list_bpmn_xml_ids : Read St (list string);
  get_storage_info : Read St (option StorageInfo);
  append_history_entry : HistoryEntry → Write St;
  query_history : HistoryQuery → Read St (list HistoryEntry);
  save_completed_instance : ProcessInstance → Write St;
  query_completed_instances : CompletedInstanceQuery → Read St (list ProcessInstance);
  get_completed_instance : string → Read St (option ProcessInstance);
  get_bucket_entries : string → nat → nat → Read St (list BucketEntry);
  get_bucket_entry_detail : string → string → Read St BucketEntryDetail;
}.

Definition always {St} (f : St → St) : Write St := λ s, (Ok tt, f s).
Definition answer {St A} (f : St → A) : Read St A := λ s, Ok (f s).

#[export] Instance InMemoryPersistence_port {T : UuidText} : WorkflowPersistence Mem := {
  save_token i t := always (mem_save_token i t);
  load_tokens i := answer (mem_load_tokens i);
  delete_token i t := always (mem_delete_token i t);
  save_instance i := always (mem_save_instance i);
  stored_instances := answer mem_list_instances;
  delete_stored_instance id := always (mem_delete_instance id);
  save_definition d := always (mem_save_definition d);
  stored_definitions := answer mem_list_definitions;
  delete_stored_definition key := always (mem_delete_definition key);
  save_definition_collection c := always (mem_save_definition_collection c);
  list_definition_collections := answer mem_list_definition_collections;
  save_user_task p := always (mem_save_user_task p);
  delete_user_task id := always (mem_delete_user_task id);
  list_user_tasks := answer mem_list_user_tasks;
  save_service_task p := always (mem_save_service_task p);
  delete_service_task id := always (mem_delete_service_task id);
  list_service_tasks := answer mem_list_service_tasks;
  save_timer p := always (mem_save_timer p);
  delete_timer id := always (mem_delete_timer id);
  list_timers := answer mem_list_timers;
  save_message_catch p := always (mem_save_message_catch p);
  delete_message_catch id := always (mem_delete_message_catch id);
  list_message_catches := answer mem_list_message_catches;
  save_signal_catch p := always (mem_save_signal_catch p);
  delete_signal_catch id := always (mem_delete_signal_catch id);
  list_signal_catches := answer mem_list_signal_catches;
  save_conditional_catch p := always (mem_save_conditional_catch p);
  delete_conditional_catch id := always (mem_delete_conditional_catch id);
  list_conditional_catches := answer mem_list_conditional_catches;
  save_file k data := always (mem_save_file k data);
  load_file := mem_load_file;
  delete_file k := always (mem_delete_file k);
  save_bpmn_xml k xml := always (mem_save_bpmn_xml k xml);
  load_bpmn_xml := mem_load_bpmn_xml;
  list_bpmn_xml_ids := answer mem_list_bpmn_xml_ids;
  get_storage_info := answer mem_get_storage_info;
  append_history_entry x := always (mem_append_history_entry x);
  query_history q := answer (mem_query_history q);
  save_completed_instance i := always (mem_save_completed_instance i);
  query_completed_instances q := answer (mem_query_completed_instances q);
  get_completed_instance := mem_get_completed_instance;
  get_bucket_entries := mem_get_bucket_entries;
  get_bucket_entry_detail := mem_get_bucket_entry_detail;
}.

(** ** Stores that behave like the in-memory one *)

(** What a write promises, read through the contents of the store: success means
    the effect took place, failure leaves open whether it did. *)
Definition writes {St} (contents : St → Mem) (f : Mem → Mem) (w : Write St) : Prop :=
  ∀ s, match w s with
       | (Ok _, s') => contents s' = f (contents s)
       | (Err _, s') => contents s' = contents s ∨ contents s' = f (contents s)
       end.

(** The writes the engine retries. *)
Class PersistenceLaws (St : Type) {W : WorkflowPersistence St} := {
  contents : St → Mem;
  save_instance_writes i : writes contents (mem_save_instance i) (save_instance i);
  save_definition_writes d : writes contents (mem_save_definition d) (save_definition d);
  save_user_task_writes p : writes contents (mem_save_user_task p) (save_user_task p);
  delete_user_task_writes id : writes contents (mem_delete_user_task id) (delete_user_task id);
  save_service_task_writes p : writes contents (mem_save_service_task p) (save_service_task p);
  delete_service_task_writes id : writes contents (mem_delete_service_task id) (delete_service_task id);
  save_timer_writes p : writes contents (mem_save_timer p) (save_timer p);
  delete_timer_writes id : writes contents (mem_delete_timer id) (delete_timer id);
  save_message_catch_writes p : writes contents (mem_save_message_catch p) (save_message_catch p);
  delete_message_catch_writes id : writes contents (mem_delete_message_catch id) (delete_message_catch id);
  save_signal_catch_writes p : writes contents (mem_save_signal_catch p) (save_signal_catch p);
  delete_signal_catch_writes id : writes contents (mem_delete_signal_catch id) (delete_signal_catch id);
  save_conditional_catch_writes p : writes contents (mem_save_conditional_catch p) (save_conditional_catch p);
  delete_conditional_catch_writes id : writes contents (mem_delete_conditional_catch id) (delete_conditional_catch id);
  (** An appended entry is not confirmed. *)
  append_history_entry_sends x s :
    let s' := (append_history_entry x s).2 in
    contents s' = contents s ∨ contents s' = mem_append_history_entry x (contents s);
}.

#[export] Instance InMemoryPersistence_laws {T : UuidText} : PersistenceLaws Mem.
Proof. refine {| contents := λ s, s |}; try done. intros x s. by right. Defined.

(** ** What the in-memory store answers *)

Definition not_later (x y : HistoryEntry) : Prop := (he_timestamp x ≤ he_timestamp y)%Z.
#[local] Instance not_later_trans : Transitive not_later.
Proof. intros x y z. unfold not_later. lia. Qed.
Lemma not_later_lt x y : not_later x y ↔ history_lt y x = false.
Proof. unfold not_later, history_lt. by rewrite Z.ltb_ge. Qed.
Lemma history_lt_not_later x y : history_lt x y = true → not_later x y.
Proof. unfold not_later, history_lt. rewrite Z.ltb_lt. lia. Qed.

(** A history query answers with a page of the entries of its instance that pass
    all given filters, in the order of time; entries of the same time keep the
    order in which they were appended. *)
Theorem query_history_spec q s :
  let all := List.filter (history_matches q) (default [] (m_history s !! hq_instance_id q)) in
  ∃ sorted, mem_query_history q s = page_of (hq_offset q) (hq_limit q) sorted ∧ sorted ≡ₚ all ∧
    StronglySorted not_later sorted ∧
    ∀ at_, List.filter (λ x, (he_timestamp x =? at_)%Z) sorted = List.filter (λ x, (he_timestamp x =? at_)%Z) all.
Proof.
  intros all. exists (sort_by history_lt all). split; [done|]. split; [apply sort_by_perm|].
  split; [apply sort_by_sorted; [apply _|apply not_later_lt|apply history_lt_not_later]|].
  intros at_. apply (sort_by_stable _ not_later); [apply not_later_lt|apply history_lt_not_later|].
  intros x y. rewrite !Z.eqb_eq. unfold not_later. lia.
Qed.

Lemma existsb_elem `{EqDecision A} (x : A) l : existsb (λ y, bool_decide (y = x)) l = true ↔ x ∈ l.
Proof.
  rewrite existsb_exists. split.
  - intros (y & Hy%list_elem_of_In & ->%bool_decide_eq_true). done.
  - intros Hx. exists x. split; [by apply list_elem_of_In|by apply bool_decide_eq_true].
Qed.
Lemma existsb_key k l : existsb (λ d, bool_decide (def_key d = k)) l = true ↔ k ∈ def_key <$> l.
Proof. rewrite <- existsb_elem. induction l as [|d l IH]; [done|]. cbn. by rewrite !orb_true_iff, IH. Qed.
Lemma live_member_spec c k : live_member c k = true ↔ k ∈ def_key <$> dc_definitions c ∧ k ∉ dc_deleted c.
Proof.
  unfold live_member. rewrite existsb_exists, list_elem_of_fmap. setoid_rewrite andb_true_iff.
  setoid_rewrite negb_true_iff. setoid_rewrite <- not_true_iff_false. setoid_rewrite existsb_elem.
  setoid_rewrite bool_decide_eq_true. setoid_rewrite <- list_elem_of_In. naive_solver.
Qed.
Lemma mark_deleted_definitions key c : dc_definitions (mark_deleted key c) = dc_definitions c.
Proof. unfold mark_deleted. by case_match. Qed.
Lemma mark_deleted_deleted key c k :
  k ∈ dc_deleted (mark_deleted key c) ↔ k ∈ dc_deleted c ∨ k = key ∧ k ∈ def_key <$> dc_definitions c.
Proof.
  unfold mark_deleted. destruct (_ && _) eqn:H; cbn.
  - apply andb_true_iff in H as [Hin%existsb_key _]. set_solver.
  - apply andb_false_iff in H as [Hin%not_true_iff_false|Hin%negb_false_iff%existsb_elem]; [|set_solver].
    rewrite existsb_key in Hin. set_solver.
Qed.
Lemma live_member_marked key c k : live_member (mark_deleted key c) k = true ↔ live_member c k = true ∧ k ≠ key.
Proof. rewrite !live_member_spec, mark_deleted_definitions, mark_deleted_deleted. naive_solver. Qed.

(** A deleted member of a collection stays deleted: no stored collection offers it
    any more, neither its XML nor the definition, and no other member of any
    collection is affected. *)
Theorem deleted_members_stay_deleted {T : UuidText} key s :
  let s' := mem_delete_definition (pretty key) s in
  mem_load_bpmn_xml (pretty key) s' = ok_or (NoSuchDefinition key) (m_bpmn_xmls s !! pretty key) ∧
  m_definitions s' = delete key (m_definitions s) ∧
  ∀ id, match m_collections s' !! id, m_collections s !! id with
        | Some c', Some c => ∀ k, live_member c' k = true ↔ live_member c k = true ∧ k ≠ key
        | None, None => True
        | _, _ => False
        end.
Proof.
  intros s'. unfold s', mem_delete_definition, mem_load_bpmn_xml. rewrite parse_uuid_text.
  set (s1 := s <| m_collections ::= fmap (mark_deleted key) |> <| m_definitions ::= delete key |>).
  change (m_collections s1) with (mark_deleted key <$> m_collections s). change (m_bpmn_xmls s1) with (m_bpmn_xmls s).
  split; [|split; [done|]].
  - destruct (List.find _ _) as [c|] eqn:Hfind; [exfalso|done]. apply find_some in Hfind as [Hin%list_elem_of_In Hlive].
    apply list_elem_of_fmap in Hin as ([id c'] & -> & Hc%elem_of_map_to_list). cbn in Hlive.
    apply lookup_fmap_Some in Hc as (c & <- & _). by apply live_member_marked in Hlive as [_ Hne].
  - intros id. rewrite lookup_fmap. destruct (m_collections s !! id) as [c|]; [|done]. intros k. apply live_member_marked.
Qed.

(** ** Ids as decimal numbers *)

Fixpoint decimal (acc : N) (s : string) : option N :=
  match s with
  | EmptyString => Some acc
  | String a s =>
    let d := N_of_ascii a in
    if (48 <=? d)%N && (d <=? 57)%N then decimal (acc * 10 + (d - 48)) s else None
  end.
Lemma digit_char d : (d < 10)%N → N_of_ascii (pretty_N_char d) = (48 + d)%N.
Proof.
  intros. assert (d = 0 ∨ d = 1 ∨ d = 2 ∨ d = 3 ∨ d = 4 ∨ d = 5 ∨ d = 6 ∨ d = 7 ∨ d = 8 ∨ d = 9)%N by lia.
  by destruct_or!; subst.
Qed.
Lemma decimal_pretty_go (x : N) s : decimal 0 (pretty_N_go x s) = decimal x s.
Proof.
  revert s. induction (N.lt_wf_0 x) as [x _ IH]; intros s. destruct (decide (x = 0)%N) as [->|Hx]; [by rewrite pretty_N_go_0|].
  rewrite pretty_N_go_step by lia. rewrite IH by (apply N.div_lt; lia). cbn [decimal].
  rewrite digit_char by (apply N.mod_lt; lia).
  assert (x mod 10 < 10)%N as Hm by (by apply N.mod_lt).
  pose proof (N.div_mod x 10 ltac:(done)) as Hdiv. generalize dependent (x mod 10)%N. intros y Hm Hdiv. clear IH.
  destruct (N.leb_spec 48 (48 + y)); [|lia]. destruct (N.leb_spec (48 + y) 57); [|lia]. cbn [andb]. f_equal. lia.
Qed.
Lemma decimal_pretty (u : Uuid) : decimal 0 (pretty u) = Some u.
Proof.
  unfold pretty, pretty_N. destruct (decide (u = 0)%N) as [->|]; [done|]. apply decimal_pretty_go.
Qed.
#[export] Instance decimal_ids : UuidText := {
  parse_uuid s := ok_or "invalid id" (decimal 0 s);
  parse_uuid_text u := f_equal (ok_or "invalid id") (decimal_pretty u);
}.
