(* ===== verification/ModelCheck.v ===== *)
(** * Model checking at deployment

    engine-server/src/server/model_check.rs: the settings, the report, and the checker
    that runs at most one analysis at a time.  The analyzer (rust_bpmn_analyzer) is the
    class [Analyzer]; a binary built without the Cargo feature model-check has none.
    A check runs beside other requests, so the checker is a state that steps: a check
    asks for the permit, its request stops waiting, the analysis ends. *)

From stdpp Require Import base list gmap strings pretty.
From S2P Require Import Prelude Text TextSplit.
Local Open Scope rust_scope.

Definition DEFAULT_MODEL_CHECK_TIMEOUT_MS : N := 2000.

Inductive ModelCheckMode := Off | Warn | Enforce.
#[export] Instance ModelCheckMode_eq : EqDecision ModelCheckMode.
Proof. solve_decision. Defined.

(** [ModelCheckMode::parse] and [parse_timeout_ms]. *)
Definition is_one_of (options : list string) (s : string) : bool := existsb (String.eqb s) options.
Definition mode_parse (value : option string) : ModelCheckMode :=
  match (λ v, to_ascii_lowercase (trim_str v)) <$> value with
  | Some v => if is_one_of ["warn"; "true"; "on"; "1"] v then Warn else if String.eqb v "enforce" then Enforce else Off
  | None => Off
  end.
Definition parse_timeout_ms (value : option string) : N :=
  match value ≫= (λ raw, parse_u64 (trim_str raw)) with
  | Some ms => if (0 <? ms)%N then ms else DEFAULT_MODEL_CHECK_TIMEOUT_MS
  | None => DEFAULT_MODEL_CHECK_TIMEOUT_MS
  end.

(** ** Reports *)

Inductive ModelCheckStatus := Passed | Violations | Skipped | Inconclusive | Failed | Unavailable.
#[export] Instance ModelCheckStatus_eq : EqDecision ModelCheckStatus.
Proof. solve_decision. Defined.
Record Violation := mkViolation { v_property : string; v_elements : list string }.
Record ModelCheckReport := mkReport {
  mr_status : ModelCheckStatus;
  mr_violations : list Violation;
  mr_reason : option string;
}.
Definition with_reason (status : ModelCheckStatus) (reason : string) : ModelCheckReport := mkReport status [] (Some reason).
Definition violation_text (v : Violation) : string :=
  match v_elements v with
  | [] => v_property v
  | elements => v_property v +:+ " (" +:+ join ", " elements +:+ ")"
  end.
Definition summary (r : ModelCheckReport) : string := join "; " (violation_text <$> mr_violations r).
Definition error_detail (r : ModelCheckReport) : string :=
  let findings := summary r in
  if String.eqb findings "" then default "model check rejected the deploy" (mr_reason r) else findings.

(** ** The checker *)

(** [guard] is the number of permits of the semaphore. *)
Record ModelChecker := mkChecker { mk_mode : ModelCheckMode; mk_timeout : N; mk_guard : nat }.
Definition checker_new (mode : ModelCheckMode) (timeout_ms : N) : ModelChecker :=
  mkChecker mode (if (timeout_ms =? 0)%N then DEFAULT_MODEL_CHECK_TIMEOUT_MS else timeout_ms) 1.
(** The timeout is a [Duration] made from milliseconds. *)
Definition timeout_ms (c : ModelChecker) : N := N.min (mk_timeout c) u64_max.
Definition rejects_deploy (c : ModelChecker) (r : ModelCheckReport) : bool :=
  match mk_mode c with
  | Enforce => match mr_status r with Violations | Unavailable => true | _ => false end
  | _ => false
  end.

(** [run_blocking] in its parts.  The permit is asked for without waiting. *)
Definition try_acquire_owned (c : ModelChecker) : option ModelChecker :=
  match mk_guard c with
  | 0 => None
  | S n => Some (mkChecker (mk_mode c) (mk_timeout c) n)
  end.
Definition release (c : ModelChecker) : ModelChecker := mkChecker (mk_mode c) (mk_timeout c) (S (mk_guard c)).
Definition busy_report : ModelCheckReport := with_reason Skipped "another model check is still running".
(** The blocking task: a panic of the analyzer is caught. *)
Definition task_report (analysis : option ModelCheckReport) : ModelCheckReport :=
  match analysis with Some r => r | None => with_reason Failed "analyzer panicked" end.
(** How the wait for the task ends. *)
Inductive Waited :=
| TaskEnded (r : ModelCheckReport)
| TaskLost (join_err : string)
| TimedOut.
Definition waited_report (c : ModelChecker) (w : Waited) : ModelCheckReport :=
  match w with
  | TaskEnded r => r
  | TaskLost join_err => with_reason Failed ("analyzer task failed: " +:+ join_err)
  | TimedOut => with_reason Inconclusive ("analysis exceeded " +:+ pretty (timeout_ms c) +:+ " ms")
  end.

(** ** The analyzer *)

Inductive Property := Safeness | OptionToComplete | ProperCompletion | NoDeadActivities.
Record PropertyResult := mkResult { pr_property : Property; pr_fulfilled : bool; pr_elements : list string }.
Class Analyzer := {
  AnalyzedModel : Type;
  (** The model, or the elements that are not supported. *)
  read_bpmn_from_string : string → result (list string) AnalyzedModel;
  run_with_por : AnalyzedModel → list Property → list PropertyResult;
}.
Definition property_name (p : Property) : string :=
  match p with
  | Safeness => "safeness"
  | OptionToComplete => "option_to_complete"
  | ProperCompletion => "proper_completion"
  | NoDeadActivities => "no_dead_activities"
  end.
(** [analyze_bpmn]; [expand_empty_elements] is its argument. *)
Definition analyze_bpmn `{Analyzer} (expand_empty_elements : string → result string string) (xml : string) : ModelCheckReport :=
  match expand_empty_elements xml with
  | Err error => with_reason Skipped ("could not prepare XML for analysis: " +:+ error)
  | Ok xml =>
    match read_bpmn_from_string xml with
    | Err unsupported =>
      with_reason Skipped ("model contains elements the analyzer does not support: " +:+ join ", " unsupported)
    | Ok model =>
      let checked := run_with_por model [Safeness; OptionToComplete; ProperCompletion; NoDeadActivities] in
      let violations := (λ r, mkViolation (property_name (pr_property r)) (pr_elements r))
                          <$> List.filter (λ r, negb (pr_fulfilled r)) checked in
      mkReport (match violations with [] => Passed | _ => Violations end) violations None
    end
  end.
(** [check]: off, without an analyzer, or the report of the run. *)
Definition unavailable_report : ModelCheckReport :=
  with_reason Unavailable "engine-server was built without the model-check Cargo feature".
Definition check (compiled : bool) (run : ModelCheckReport) (c : ModelChecker) : option ModelCheckReport :=
  match mk_mode c with
  | Off => None
  | _ => Some (if compiled then run else unavailable_report)
  end.

(** ** Checks beside each other *)

(** Running analyses and waiting requests, by the number of the check; the answers
    given so far. *)
Record Checks := mkChecks {
  ck_checker : ModelChecker;
  ck_running : gset nat;
  ck_waiting : gset nat;
  ck_answers : list (nat * ModelCheckReport);
}.
Inductive check_step (s : Checks) : Checks → Prop :=
| StepBusy n :
    n ∉ ck_running s → n ∉ ck_waiting s → try_acquire_owned (ck_checker s) = None →
    check_step s (mkChecks (ck_checker s) (ck_running s) (ck_waiting s) (ck_answers s ++ [(n, busy_report)]))
| StepStart n c :
    n ∉ ck_running s → n ∉ ck_waiting s → try_acquire_owned (ck_checker s) = Some c →
    check_step s (mkChecks c ({[n]} ∪ ck_running s) ({[n]} ∪ ck_waiting s) (ck_answers s))
| StepTimeout n :
    n ∈ ck_waiting s →
    check_step s (mkChecks (ck_checker s) (ck_running s) (ck_waiting s ∖ {[n]})
                    (ck_answers s ++ [(n, waited_report (ck_checker s) TimedOut)]))
| StepCancel n :
    (** The client went away: nobody waits any more. *)
    n ∈ ck_waiting s →
    check_step s (mkChecks (ck_checker s) (ck_running s) (ck_waiting s ∖ {[n]}) (ck_answers s))
| StepEnd n analysis :
    n ∈ ck_running s →
    check_step s (mkChecks (release (ck_checker s)) (ck_running s ∖ {[n]}) (ck_waiting s ∖ {[n]})
                    (ck_answers s ++ if bool_decide (n ∈ ck_waiting s)
                                     then [(n, waited_report (ck_checker s) (TaskEnded (task_report analysis)))] else [])).
Inductive reached (c : ModelChecker) : Checks → Prop :=
| reached_new : reached c (mkChecks c ∅ ∅ [])
| reached_step s s' : reached c s → check_step s s' → reached c s'.

Record checks_ok (mode : ModelCheckMode) (timeout : N) (s : Checks) : Prop := {
  ok_settings : mk_mode (ck_checker s) = mode ∧ mk_timeout (ck_checker s) = timeout;
  ok_permit : mk_guard (ck_checker s) + size (ck_running s) = 1;
  ok_waiting : ck_waiting s ⊆ ck_running s;
  ok_verdicts : ∀ n r, (n, r) ∈ ck_answers s → r = busy_report ∨ mr_status r = Inconclusive ∨ ∃ analysis, r = task_report analysis;
}.
Lemma checks_ok_reached mode ms s : reached (checker_new mode ms) s → checks_ok mode (mk_timeout (checker_new mode ms)) s.
Proof.
  induction 1 as [|s s' _ [[Hm Ht] Hp Hw Hv] Hstep]; [split; cbn; [done|by rewrite size_empty|done|by intros n r ?%not_elem_of_nil]|].
  destruct Hstep as [n Hr Hn Hg|n c Hr Hn Hg|n Hn|n Hn|n analysis Hn].
  - split; cbn; try done. intros k r [Hk|[= -> ->]%list_elem_of_singleton]%elem_of_app; [by eapply Hv|by left].
  - unfold try_acquire_owned in Hg. destruct (mk_guard (ck_checker s)) as [|g] eqn:Hgd; [done|]. injection Hg as <-.
    split; cbn; try done; [|set_solver]. rewrite size_union, size_singleton by set_solver. lia.
  - split; cbn; try done; [set_solver|].
    intros k r [Hk|[= -> ->]%list_elem_of_singleton]%elem_of_app; [by eapply Hv|by right; left].
  - split; cbn; try done. set_solver.
  - assert (size (ck_running s ∖ {[n]}) = size (ck_running s) - 1) as Hsz
      by (rewrite size_difference, size_singleton by set_solver; done).
    assert (size (ck_running s) ≠ 0) by (intros He%size_empty_iff; set_solver).
    split; cbn; try done; [lia|set_solver|].
    intros k r [Hk|Hk]%elem_of_app; [by eapply Hv|]. destruct (bool_decide _); [|by apply not_elem_of_nil in Hk].
    apply list_elem_of_singleton in Hk as [= -> ->]. right. right. by exists analysis.
Qed.

(** C35: At most one analysis runs, in whatever order checks arrive, time out, are
    cancelled and end: a check is turned away as busy only while another one runs,
    also when nobody waits for that one any more, and when the running one has ended
    the next check starts.  Every answer is that of the analysis, busy, or a timeout. *)
Theorem one_analysis_at_a_time mode ms s :
  reached (checker_new mode ms) s →
  size (ck_running s) ≤ 1 ∧ ck_waiting s ⊆ ck_running s ∧
  (try_acquire_owned (ck_checker s) = None ↔ ∃ n, ck_running s = {[n]}) ∧
  (∀ n s', n ∈ ck_running s → check_step s s' → n ∉ ck_running s' → try_acquire_owned (ck_checker s') ≠ None) ∧
  (∀ n r, (n, r) ∈ ck_answers s → r = busy_report ∨ mr_status r = Inconclusive ∨ ∃ analysis, r = task_report analysis).
Proof.
  intros Hs. pose proof (checks_ok_reached _ _ _ Hs) as [_ Hp Hw Hv].
  assert (∀ s, mk_guard (ck_checker s) + size (ck_running s) = 1 →
    (try_acquire_owned (ck_checker s) = None ↔ ∃ n, ck_running s = {[n]})) as Hiff.
  { intros t Ht. unfold try_acquire_owned. destruct (mk_guard (ck_checker t)) as [|g].
    - split; [|done]. intros _. apply size_1_elem_of in Ht as [n Hn]. exists n. by apply leibniz_equiv.
    - split; [done|]. intros [n Hn]. rewrite Hn, size_singleton in Ht. lia. }
  split; [lia|]. split; [done|]. split; [by apply Hiff|]. split; [|done].
  intros n s' Hn Hstep Hn' Hnone. pose proof (checks_ok_reached _ _ _ (reached_step _ _ _ Hs Hstep)) as [_ Hp' _ _].
  apply (Hiff s' Hp') in Hnone as [k Hk].
  assert (k ∈ ck_running s') as Hin by (rewrite Hk; by apply elem_of_singleton).
  assert (size (ck_running s) = 1) as [x Hx]%size_1_elem_of.
  { assert (size (ck_running s) ≠ 0) by (intros He%size_empty_iff; by apply He in Hn). lia. }
  apply leibniz_equiv in Hx. destruct Hstep as [| | | |m analysis Hm]; cbn [ck_running] in *.
  1, 3, 4: by apply Hn'. 1: apply Hn', elem_of_union; by right.
  rewrite Hx in *. apply elem_of_difference in Hin as [Hin Hkm]. rewrite elem_of_singleton in *. congruence.
Qed.

(** The first request gives up after its time, the second is turned away while the
    analysis of the first still runs. *)
Definition example_started : Checks := mkChecks (mkChecker Warn 5 0) ({[0]} ∪ ∅) ({[0]} ∪ ∅) [].
Definition example_timeout : Checks :=
  mkChecks (mkChecker Warn 5 0) ({[0]} ∪ ∅) (({[0]} ∪ ∅) ∖ {[0]}) [(0, waited_report (mkChecker Warn 5 0) TimedOut)].
Definition example_checks : Checks :=
  mkChecks (mkChecker Warn 5 0) ({[0]} ∪ ∅) (({[0]} ∪ ∅) ∖ {[0]})
    [(0, waited_report (mkChecker Warn 5 0) TimedOut); (1, busy_report)].
Lemma example_reached : reached (checker_new Warn 5) example_checks.
Proof.
  apply (reached_step _ example_timeout); [|by apply (StepBusy example_timeout 1); apply (bool_decide_unpack _)].
  apply (reached_step _ example_started); [|by apply (StepTimeout example_started 0), (bool_decide_unpack _)].
  eapply reached_step; [apply reached_new|]. by apply (StepStart (mkChecks (checker_new Warn 5) ∅ ∅ []) 0); try apply (bool_decide_unpack _).
Qed.
Lemma one_analysis_at_a_time_witness :
  size (ck_running example_checks) ≤ 1 ∧ try_acquire_owned (ck_checker example_checks) = None.
Proof.
  destruct (one_analysis_at_a_time Warn 5 example_checks example_reached) as (H & _ & Hb & _).
  split; [exact H|]. apply Hb. exists 0. reflexivity.
Defined.
