(* ===== verification/BpmnModels.v ===== *)
(** * The elements of a BPMN document

    bpmn-parser/src/models.rs: the values serde builds from the XML text.  Every
    attribute and child element the parser reads is a field; fields the source
    marks as dead code (names, formats, visual elements) are left out.  The two
    views the code takes of a text with quick-xml, the stream of reader events and
    the deserialized document, are the operations of the class [XmlLib]. *)

From stdpp Require Import base list gmap strings.
From S2P Require Import Prelude Text Json Domain.

(** ** Expressions, listeners, loops *)

Record BpmnTextValue := mkText { tv_value : option string }.
Record BpmnConditionExpression := mkCondition { ce_value : string }.
Record BpmnScript := mkScript { sc_content : string }.
Record BpmnExecutionListener := mkXmlListener { el_event : string; el_script : option BpmnScript }.
Record BpmnExtensionElements := mkExtensions { execution_listeners : list BpmnExecutionListener }.
Record BpmnLoopCardinality := mkCardinality { lc_value : option string }.
Record BpmnMultiInstanceLoopCharacteristics := mkLoop {
  mi_is_sequential : option bool;
  mi_loop_cardinality : option BpmnLoopCardinality;
  mi_collection : option string;
  mi_element_variable : option string;
}.

(** ** Global definitions *)

Record BpmnMessage := mkMessage { msg_id : string; msg_name : string }.
Record BpmnSignalDef := mkSignal { sig_id : string; sig_name : string }.
Record BpmnErrorDef := mkError { err_id : string; err_name : option string; err_code : option string }.
Record BpmnEscalationDef := mkEscalation { esc_id : string; esc_name : option string; esc_code : option string }.

(** ** Event definitions *)

Record BpmnTimerEventDefinition := mkTimerDef {
  time_duration : option BpmnTextValue;
  time_date : option BpmnTextValue;
  time_cycle : option BpmnTextValue;
}.
Record BpmnMessageEventDefinition := mkMessageDef { message_ref : option string }.
Record BpmnSignalEventDefinition := mkSignalDef { signal_ref : option string }.
Record BpmnConditionalEventDefinition := mkConditionalDef { cd_condition : option BpmnConditionExpression }.
Record BpmnErrorEventDefinition := mkErrorDef { error_ref : option string }.
Record BpmnEscalationEventDefinition := mkEscalationDef { escalation_ref : option string }.
Record BpmnCompensateEventDefinition := mkCompensateDef { activity_ref : option string }.
Record BpmnLinkEventDefinition := mkLinkDef { link_name : string }.
(** [BpmnCancelEventDefinition] and [IgnoredElement] hold nothing the parser reads. *)
Inductive BpmnCancelEventDefinition := CancelDefinition.
Inductive IgnoredElement := Ignored.
Record BpmnTransaction := mkTransaction { tx_id : option string }.

(** ** Events *)

Record BpmnStartEvent := mkStart {
  se_id : string;
  se_is_interrupting : option bool;
  se_extensions : option BpmnExtensionElements;
  se_timer : option BpmnTimerEventDefinition;
  se_message : option BpmnMessageEventDefinition;
  se_signal : option BpmnSignalEventDefinition;
  se_conditional : option BpmnConditionalEventDefinition;
  se_error : option BpmnErrorEventDefinition;
  se_escalation : option BpmnEscalationEventDefinition;
}.
Record BpmnEndEvent := mkEnd {
  ee_id : string;
  ee_extensions : option BpmnExtensionElements;
  ee_error : option BpmnErrorEventDefinition;
  ee_signal : option BpmnSignalEventDefinition;
  ee_escalation : option BpmnEscalationEventDefinition;
  ee_compensate : option BpmnCompensateEventDefinition;
  ee_terminate : option IgnoredElement;
  ee_cancel : option BpmnCancelEventDefinition;
}.
Record BpmnIntermediateThrowEvent := mkThrow {
  it_id : string;
  it_extensions : option BpmnExtensionElements;
  it_message : option BpmnMessageEventDefinition;
  it_signal : option BpmnSignalEventDefinition;
  it_escalation : option BpmnEscalationEventDefinition;
  it_compensate : option BpmnCompensateEventDefinition;
  it_link : option BpmnLinkEventDefinition;
}.
Record BpmnIntermediateCatchEvent := mkCatch {
  ic_id : string;
  ic_extensions : option BpmnExtensionElements;
  ic_timer : option BpmnTimerEventDefinition;
  ic_message : option BpmnMessageEventDefinition;
  ic_signal : option BpmnSignalEventDefinition;
  ic_link : option BpmnLinkEventDefinition;
  ic_conditional : option BpmnConditionalEventDefinition;
}.
Record BpmnBoundaryEvent := mkBoundary {
  be_id : string;
  be_attached_to_ref : string;
  be_cancel_activity : option bool;
  be_timer : option BpmnTimerEventDefinition;
  be_error : option BpmnErrorEventDefinition;
  be_message : option BpmnMessageEventDefinition;
  be_signal : option BpmnSignalEventDefinition;
  be_escalation : option BpmnEscalationEventDefinition;
  be_compensate : option BpmnCompensateEventDefinition;
  be_cancel : option BpmnCancelEventDefinition;
  be_conditional : option BpmnConditionalEventDefinition;
}.

(** ** Tasks, gateways, flows *)

Record BpmnServiceTask := mkServiceTask {
  st_id : string;
  st_extensions : option BpmnExtensionElements;
  st_handler : option string;
  st_topic : option string;
  st_camunda_topic : option string;
  st_multi_instance : option BpmnMultiInstanceLoopCharacteristics;
}.
Record BpmnUserTask := mkUserTask {
  ut_id : string;
  ut_extensions : option BpmnExtensionElements;
  ut_assignee : option string;
  ut_camunda_assignee : option string;
  ut_multi_instance : option BpmnMultiInstanceLoopCharacteristics;
}.
Record BpmnScriptContent := mkScriptContent { ct_content : option string }.
Record BpmnScriptTask := mkScriptTask {
  xt_id : string;
  xt_extensions : option BpmnExtensionElements;
  xt_data_script : option string;
  xt_script : option BpmnScriptContent;
  xt_multi_instance : option BpmnMultiInstanceLoopCharacteristics;
}.
Record BpmnSendTask := mkSendTask {
  nt_id : string;
  nt_extensions : option BpmnExtensionElements;
  nt_name : option string;
  nt_message_ref : option string;
  nt_message : option BpmnMessageEventDefinition;
  nt_multi_instance : option BpmnMultiInstanceLoopCharacteristics;
}.
Record BpmnReceiveTask := mkReceiveTask {
  rv_id : string;
  rv_extensions : option BpmnExtensionElements;
  rv_message_ref : option string;
  rv_instantiate : option string;
  rv_message : option BpmnMessageEventDefinition;
  rv_multi_instance : option BpmnMultiInstanceLoopCharacteristics;
}.
Record BpmnGenericTask := mkGenericTask { gt_id : string }.
Record BpmnCallActivity := mkCallActivity {
  ca_id : string;
  ca_called_element : option string;
  ca_extensions : option BpmnExtensionElements;
}.
Record BpmnExclusiveGateway := mkExclusive {
  xg_id : string;
  xg_extensions : option BpmnExtensionElements;
  xg_default : option string;
}.
Record BpmnComplexGateway := mkComplex {
  cg_id : string;
  cg_extensions : option BpmnExtensionElements;
  cg_default : option string;
  cg_activation_condition : option BpmnConditionExpression;
}.
Record BpmnGateway := mkGateway {
  gw_id : string;
  gw_extensions : option BpmnExtensionElements;
  gw_instantiate : option string;
  gw_event_gateway_type : option string;
}.
Record BpmnSequenceFlow := mkFlow {
  fl_id : string;
  source_ref : string;
  target_ref : string;
  fl_condition : option BpmnConditionExpression;
}.

(** ** Scopes *)

(** The elements a process and a sub-process both hold.  models.rs writes the
    same fields in [BpmnProcess] and in [BpmnSubProcess]. *)
Record BpmnScope := mkScope {
  sp_id : string;
  sp_extensions : option BpmnExtensionElements;
  sp_transaction : option BpmnTransaction;
  sp_start_events : list BpmnStartEvent;
  sp_end_events : list BpmnEndEvent;
  sp_service_tasks : list BpmnServiceTask;
  sp_user_tasks : list BpmnUserTask;
  sp_sequence_flows : list BpmnSequenceFlow;
  sp_boundary_events : list BpmnBoundaryEvent;
  sp_generic_tasks : list BpmnGenericTask;
  sp_script_tasks : list BpmnScriptTask;
  sp_send_tasks : list BpmnSendTask;
  sp_receive_tasks : list BpmnReceiveTask;
  sp_manual_tasks : list BpmnUserTask;
  sp_business_rule_tasks : list BpmnServiceTask;
  sp_call_activities : list BpmnCallActivity;
  sp_exclusive_gateways : list BpmnExclusiveGateway;
  sp_parallel_gateways : list BpmnGateway;
  sp_inclusive_gateways : list BpmnGateway;
  sp_event_based_gateways : list BpmnGateway;
  sp_complex_gateways : list BpmnComplexGateway;
  sp_throw_events : list BpmnIntermediateThrowEvent;
  sp_catch_events : list BpmnIntermediateCatchEvent;
}.

(** [BpmnSubProcess]; sub-processes nest. *)
Inductive BpmnSubProcess := mkSubProcess {
  sub_scope : BpmnScope;
  triggered_by_event : option bool;
  sub_sub_processes : list BpmnSubProcess;
}.
Record BpmnProcess := mkProcess {
  proc_scope : BpmnScope;
  is_executable : option bool;
  proc_sub_processes : list BpmnSubProcess;
}.
Record BpmnDefinitions := mkDefinitions {
  processes : list BpmnProcess;
  messages : list BpmnMessage;
  signals : list BpmnSignalDef;
  errors : list BpmnErrorDef;
  escalations : list BpmnEscalationDef;
}.

Definition proc_id (p : BpmnProcess) : string := sp_id (proc_scope p).

(** Induction on the nesting of sub-processes. *)
Lemma BpmnSubProcess_nested_ind (P : BpmnSubProcess → Prop) :
  (∀ s t subs, Forall P subs → P (mkSubProcess s t subs)) → ∀ sp, P sp.
Proof.
  intros H. fix IH 1. intros [s t subs]. apply H. clear H. revert subs.
  fix IHl 1. intros [|sp subs]; constructor; [apply IH|apply IHl].
Qed.

(** ** quick-xml *)

(** The version named in a call of [normalized_value]. *)
Inductive XmlVersion := DefaultVersion | Implicit1_0.
(** An attribute of a tag: its name with and without the prefix, and its value. *)
Record XmlAttr := mkAttr {
  at_key : string;
  at_local_name : string;
  at_value : XmlVersion → result string string;
}.
(** [BytesStart]: the local name and the attributes; an attribute that cannot be
    read is an error. *)
Record XmlElement := mkElement { xe_local_name : string; xe_attributes : list (result string XmlAttr) }.
Inductive XmlEvent :=
| XStart (element : XmlElement)
| XEmpty (element : XmlElement)
| XEnd (local_name : string)
| XText (text : string)
| XCData (text : string)
| XGeneralRef (name : string)
| XOther.
(** What [read_event] answers until it fails ([Some error]) or reaches the end of
    the text; every event comes with the position of the reader behind it. *)
Record XmlStream := mkStream { xs_events : list (XmlEvent * N); xs_error : option string }.

Class XmlLib := {
  (** [Reader::from_str], with the option [expand_empty_elements]. *)
  read_stream : bool → string → XmlStream;
  (** [quick_xml::de::from_str]. *)
  xml_from_str : string → result string BpmnDefinitions;
  (** [quick_xml::escape::unescape]. *)
  xml_unescape : string → result string string;
  (** [serde_json::from_str]. *)
  json_from_str : string → result string Value;
}.
