(* ===== verification/BpmnTree.v ===== *)
(** * The element tree of a document

    bpmn-parser/src/data.rs, [Node] and [tree]: the reader's events folded into a
    tree that keeps nested values and the text of every element.  The stack of
    open elements is a list with the innermost first; the document itself is the
    nameless element at its bottom. *)

From stdpp Require Import base list gmap strings.
From S2P Require Import Prelude Text Json Domain BpmnModels.
Local Open Scope rust_scope.

Inductive Node := mkNode {
  n_name : string;
  n_attrs : gmap string string;
  n_text : string;
  n_children : list Node;
}.
Definition default_node : Node := mkNode "" ∅ "" [].

Lemma Node_nested_ind (P : Node → Prop) :
  (∀ name attrs text children, Forall P children → P (mkNode name attrs text children)) → ∀ n, P n.
Proof.
  intros H. fix IH 1. intros [name attrs text children]. apply H. clear H. revert children.
  fix IHl 1. intros [|n children]; constructor; [apply IH|apply IHl].
Qed.

(** [invalid] of data.rs. *)
Definition data_error (message : string) : EngineError := InvalidDefinition ("Data mapping: " +:+ message).

(** [Node::attr], [Node::children], [Node::id]. *)
Definition attr (n : Node) (name : string) : option string := n_attrs n !! name.
Definition children (n : Node) (name : string) : list Node :=
  List.filter (λ c, String.eqb (n_name c) name) (n_children n).
Definition node_id (n : Node) : EngineResult string :=
  ok_or (data_error "data element requires an id") (attr n "id").

(** The attributes under their full names; the last of a name wins. *)
Definition read_attr (attrs : gmap string string) (a : result string XmlAttr) : EngineResult (gmap string string) :=
  a ←? map_err data_error a;
  value ←? map_err data_error (at_value a Implicit1_0);
  Ok (<[at_key a := value]> attrs).
Definition read_attrs (element : XmlElement) : EngineResult (gmap string string) :=
  try_fold read_attr ∅ (xe_attributes element).
Definition start_node (element : XmlElement) : EngineResult Node :=
  attrs ←? read_attrs element; Ok (mkNode (xe_local_name element) attrs "" []).

Definition push_child (child n : Node) : Node :=
  mkNode (n_name n) (n_attrs n) (n_text n) (n_children n ++ [child]).
Definition push_text (text : string) (stack : list Node) : EngineResult (list Node) :=
  match stack with
  | n :: stack => Ok (mkNode (n_name n) (n_attrs n) (n_text n +:+ text) (n_children n) :: stack)
  | [] => Err (data_error "text outside document")
  end.
(** [stack.last_mut()?.children.push(node)]. *)
Definition attach (node : Node) (stack : list Node) : EngineResult (list Node) :=
  match stack with
  | n :: stack => Ok (push_child node n :: stack)
  | [] => Err (data_error "unbalanced XML")
  end.

Section tree.
  Context {L : XmlLib}.

Definition tree_event (stack : list Node) (event : XmlEvent * N) : EngineResult (list Node) :=
  match event.1 with
  | XStart element => node ←? start_node element; Ok (node :: stack)
  | XEmpty element => node ←? start_node element; attach node stack
  | XEnd _ =>
    match stack with
    | node :: stack => attach node stack
    | [] => Err (data_error "unbalanced XML")
    end
  | XText text | XCData text => push_text text stack
  | XGeneralRef name =>
    decoded ←? map_err data_error (xml_unescape ("&" +:+ name +:+ ";"));
    push_text decoded stack
  | XOther => Ok stack
  end.
(** The loop over the events; a read error ends it. *)
Definition tree_of (stream : XmlStream) : EngineResult Node :=
  stack ←? try_fold tree_event [default_node] (xs_events stream);
  match xs_error stream, stack with
  | Some err, _ => Err (data_error err)
  | None, node :: _ => Ok node
  | None, [] => Err (data_error "unbalanced XML")
  end.
Definition tree (xml : string) : EngineResult Node := tree_of (read_stream true xml).

(** ** Round trip *)

(** The events of an element: its tag with its attributes, its text, its children,
    its end; the positions are of no matter. *)
Definition attr_item (kv : string * string) : result string XmlAttr := Ok (mkAttr kv.1 kv.1 (λ _, Ok kv.2)).
Fixpoint node_events (n : Node) : list (XmlEvent * N) :=
  (XStart (mkElement (n_name n) (attr_item <$> map_to_list (n_attrs n))), 0%N)
  :: (XText (n_text n), 0%N)
  :: (fix go (l : list Node) := match l with [] => [] | c :: l => node_events c ++ go l end) (n_children n)
  ++ [(XEnd (n_name n), 0%N)].
Definition forest_events (l : list Node) : list (XmlEvent * N) :=
  (fix go (l : list Node) := match l with [] => [] | c :: l => node_events c ++ go l end) l.

Lemma try_fold_app {E A X} (f : A → X → result E A) acc l k :
  try_fold f acc (l ++ k) = (acc ←? try_fold f acc l; try_fold f acc k).
Proof. revert acc. induction l as [|x l IH]; intros acc; simpl; [done|]. destruct (f acc x); simpl; [apply IH|done]. Qed.

Lemma read_attrs_items l acc :
  try_fold read_attr acc (attr_item <$> l) = Ok (foldl (λ m (kv : string * string), <[kv.1 := kv.2]> m) acc l).
Proof. revert acc. induction l as [|[k v] l IH]; intros acc; simpl; [done|apply IH]. Qed.

Lemma foldl_insert_map (l : list (string * string)) (acc : gmap string string) :
  NoDup l.*1 → foldl (λ m kv, <[kv.1 := kv.2]> m) acc l = list_to_map l ∪ acc.
Proof.
  revert acc. induction l as [|[k v] l IH]; intros acc; simpl; [by rewrite map_empty_union|].
  intros [Hk Hnd]%NoDup_cons. rewrite IH by done. rewrite <- insert_union_l.
  rewrite insert_union_r; [done|]. by apply not_elem_of_list_to_map_1.
Qed.

Lemma start_node_element name attrs :
  start_node (mkElement name (attr_item <$> map_to_list attrs)) = Ok (mkNode name attrs "" []).
Proof.
  unfold start_node, read_attrs. simpl. rewrite read_attrs_items. simpl.
  rewrite foldl_insert_map by apply NoDup_fst_map_to_list.
  by rewrite list_to_map_to_list, map_union_empty.
Qed.

Lemma forest_events_tree l top stack :
  Forall (λ n, ∀ top stack, try_fold tree_event (top :: stack) (node_events n) = Ok (push_child n top :: stack)) l →
  try_fold tree_event (top :: stack) (forest_events l) = Ok (foldl (flip push_child) top l :: stack).
Proof.
  intros H. revert top. induction H as [|n l Hn H IH]; intros top; [done|].
  change (forest_events (n :: l)) with (node_events n ++ forest_events l).
  rewrite try_fold_app, Hn. apply IH.
Qed.

Lemma foldl_push_child n l :
  foldl (flip push_child) n l = mkNode (n_name n) (n_attrs n) (n_text n) (n_children n ++ l).
Proof.
  revert n. induction l as [|c l IH]; intros n; cbn [foldl]; [rewrite app_nil_r; by destruct n|].
  rewrite IH. unfold flip, push_child. simpl. by rewrite <- app_assoc.
Qed.

Lemma node_events_tree n top stack :
  try_fold tree_event (top :: stack) (node_events n) = Ok (push_child n top :: stack).
Proof.
  revert top stack. induction n as [name attrs text cs IH] using Node_nested_ind. intros top stack.
  change (node_events (mkNode name attrs text cs)) with
    ((XStart (mkElement name (attr_item <$> map_to_list attrs)), 0%N) :: (XText text, 0%N)
      :: forest_events cs ++ [(XEnd name, 0%N)]).
  cbn [try_fold]. unfold tree_event at 1. cbn [fst].
  rewrite start_node_element. cbn [result_bind]. unfold tree_event at 1. cbn [fst push_text result_bind].
  rewrite try_fold_app, forest_events_tree by done. cbn [result_bind try_fold].
  rewrite foldl_push_child. simpl. by rewrite string_app_nil_l.
Qed.

(** Round trip: the reader's events of an element, with any nesting, attributes
    and text, are read back as the only child of the document. *)
Theorem tree_roundtrip (n : Node) : tree_of (mkStream (node_events n) None) = Ok (mkNode "" ∅ "" [n]).
Proof. unfold tree_of. cbn [xs_events xs_error]. by rewrite node_events_tree. Qed.

End tree.
