(* ===== verification/XmlRewrite.v ===== *)
(** * XML rewritten for the analyzer

    The two passes that copy a document event by event before it is analyzed:
    [expand_empty_elements] of engine-server/src/server/model_check.rs and
    [isolate_process] of engine-server/src/server/deploy.rs.  quick-xml's reader and
    writer are the class [XmlCopy]: events with all their text, what an event is, and
    the text of a list of events. *)

From stdpp Require Import base list gmap strings.
From S2P Require Import Prelude Text TextSplit Json Domain BpmnModels BpmnTree.
Local Open Scope rust_scope.

Class XmlCopy := {
  RawEvent : Type;
  view : RawEvent → XmlEvent;
  (** [Reader::from_str] read to the end of the text or an error. *)
  read_raw : string → list RawEvent * option string;
  (** [Event::Start(start)] and [Event::End(start.to_end())] of an empty element. *)
  as_start : RawEvent → RawEvent;
  as_end : RawEvent → RawEvent;
  (** [write_event] for each event, and [String::from_utf8] of the result. *)
  write_raw : list RawEvent → result string string;
}.
(** The tags made of an empty element are those of the element. *)
Class XmlCopyLaws `{XmlCopy} := {
  view_as_start e x : view e = XEmpty x → view (as_start e) = XStart x;
  view_as_end e x : view e = XEmpty x → view (as_end e) = XEnd (xe_local_name x);
}.

Section rewrite.
  Context `{XmlCopy}.

(** ** Empty elements *)

Definition expand_event (e : RawEvent) : list RawEvent :=
  match view e with XEmpty _ => [as_start e; as_end e] | _ => [e] end.
Definition expand_empty_elements (xml : string) : result string string :=
  let '(events, error) := read_raw xml in
  match error with
  | Some error => Err error
  | None => write_raw (mjoin (expand_event <$> events))
  end.

(** Expanding does not change the model: no empty element is left, and the tree that is
    read from the events is the same. *)
Definition viewed (e : RawEvent) : XmlEvent * N := (view e, 0%N).
Lemma expand_event_tree `{!XmlCopyLaws} `{XmlLib} stack e :
  try_fold tree_event stack (viewed <$> expand_event e) = tree_event stack (viewed e).
Proof.
  unfold expand_event, viewed. destruct (view e) eqn:He.
  2: { cbn. rewrite (view_as_start _ _ He), (view_as_end _ _ He). unfold tree_event. cbn.
       destruct (start_node element) as [node|]; [|done]. cbn. by destruct (attach node stack). }
  all: cbn [fmap list_fmap try_fold]; rewrite He; by destruct (tree_event stack _).
Qed.
Lemma expand_same_tree `{!XmlCopyLaws} `{XmlLib} stack events :
  Forall (λ e, ∀ x, view e ≠ XEmpty x) (mjoin (expand_event <$> events)) ∧
  try_fold tree_event stack (viewed <$> mjoin (expand_event <$> events)) = try_fold tree_event stack (viewed <$> events).
Proof.
  revert stack. induction events as [|e events IH]; intros stack; [done|]. cbn [fmap list_fmap mjoin list_join].
  rewrite Forall_app. split; [split; [|apply IH, stack]|].
  - unfold expand_event. destruct (view e) eqn:He; repeat constructor; try (intros x; congruence).
    + intros x. by rewrite (view_as_start _ _ He).
    + intros x. by rewrite (view_as_end _ _ He).
  - rewrite fmap_app, try_fold_app, expand_event_tree. cbn. destruct (tree_event stack (viewed e)) as [stack'|]; [apply IH|done].
Qed.

(** ** One process *)

(** The id of a process tag: the last attribute of that name; an attribute that cannot
    be read is an error. *)
Definition select_attribute (process_id : string) (selected : bool) (a : result string XmlAttr) : result string bool :=
  a ←? a;
  if String.eqb (at_key a) "id" then value ←? at_value a DefaultVersion; Ok (String.eqb value process_id) else Ok selected.
Definition remove_element (process_id : string) (element : XmlElement) : result string bool :=
  let name := xe_local_name element in
  if String.eqb name "process" then
    selected ←? try_fold (select_attribute process_id) false (xe_attributes element);
    Ok (negb selected)
  else Ok (String.eqb name "collaboration" || String.eqb name "BPMNDiagram").

(** The depth, the depth whose end tag ends the omission, the events written. *)
Record Isolation := mkIsolation { iso_depth : nat; iso_skip : option nat; iso_written : list RawEvent }.
(** One round of the loop; an end tag without a start is an underflow of the depth. *)
Definition isolate_event (process_id : string) (st : Isolation) (e : RawEvent) : result string (call Isolation) :=
  let 'mkIsolation depth skip written := st in
  let omit := bool_decide (is_Some skip) in
  let finish (omit : bool) (skip : option nat) :=
    let written := if omit then written else written ++ [e] in
    match view e with
    | XStart _ => Returns (mkIsolation (S depth) skip written)
    | XEnd _ =>
      match depth with
      | 0 => Panics
      | S depth => Returns (mkIsolation depth (if bool_decide (skip = Some depth) then None else skip) written)
      end
    | _ => Returns (mkIsolation depth skip written)
    end in
  match view e with
  | XStart element | XEmpty element =>
    if depth =? 1 then
      remove ←? remove_element process_id element;
      if remove then Ok (finish true (match view e with XStart _ => Some depth | _ => skip end))
      else Ok (finish omit skip)
    else Ok (finish omit skip)
  | _ => Ok (finish omit skip)
  end.
Fixpoint isolate_loop (process_id : string) (st : Isolation) (events : list RawEvent) : result string (call Isolation) :=
  match events with
  | [] => Ok (Returns st)
  | e :: events =>
    r ←? isolate_event process_id st e;
    match r with Returns st => isolate_loop process_id st events | Panics => Ok Panics end
  end.
(** The reader's error is met when the events before it are done. *)
Definition isolate_process (xml process_id : string) : result string (call string) :=
  let '(events, error) := read_raw xml in
  r ←? isolate_loop process_id (mkIsolation 0 None []) events;
  match r, error with
  | Panics, _ => Ok Panics
  | Returns _, Some error => Err error
  | Returns st, None => text ←? write_raw (iso_written st); Ok (Returns text)
  end.

(** ** Documents as trees *)

(** An event that is no tag or a tag without content, or an element with its tags. *)
Inductive XTree :=
| XLeaf (e : RawEvent)
| XElem (start : RawEvent) (children : list XTree) (stop : RawEvent).
Lemma XTree_nested_ind (P : XTree → Prop) :
  (∀ e, P (XLeaf e)) → (∀ start children stop, Forall P children → P (XElem start children stop)) → ∀ t, P t.
Proof.
  intros Hl He. fix IH 1. intros [e|start children stop]; [apply Hl|]. apply He. clear He. revert children.
  fix IHl 1. intros [|t children]; constructor; [apply IH|apply IHl].
Qed.
Fixpoint tree_raw (t : XTree) : list RawEvent :=
  match t with
  | XLeaf e => [e]
  | XElem start children stop => start :: mjoin (tree_raw <$> children) ++ [stop]
  end.
Definition forest_raw (l : list XTree) : list RawEvent := mjoin (tree_raw <$> l).
Definition is_leaf (e : RawEvent) : bool := match view e with XStart _ | XEnd _ => false | _ => true end.
Inductive tree_ok : XTree → Prop :=
| leaf_ok e : is_leaf e = true → tree_ok (XLeaf e)
| elem_ok start children stop x name :
    view start = XStart x → view stop = XEnd name → Forall tree_ok children → tree_ok (XElem start children stop).

(** ** Omitting, copying, choosing *)

Section walk.
  Context (pid : string).

Lemma isolate_loop_app st l k :
  isolate_loop pid st (l ++ k) =
  (r ←? isolate_loop pid st l; match r with Returns st => isolate_loop pid st k | Panics => Ok Panics end).
Proof.
  revert st. induction l as [|e l IH]; intros st; cbn; [done|].
  destruct (isolate_event pid st e) as [[st'|]|]; cbn; [apply IH|done..].
Qed.
(** A walk that ends at the depth it started from. *)
Definition walks (depth : nat) (skip : option nat) (events written : list RawEvent) : Prop :=
  ∀ w, isolate_loop pid (mkIsolation depth skip w) events = Ok (Returns (mkIsolation depth skip (w ++ written))).
Lemma walks_nil depth skip : walks depth skip [] [].
Proof. intros w. cbn. by rewrite app_nil_r. Qed.
Lemma walks_app depth skip l l' k k' : walks depth skip l l' → walks depth skip k k' → walks depth skip (l ++ k) (l' ++ k').
Proof. intros Hl Hk w. rewrite isolate_loop_app, Hl. cbn. by rewrite Hk, app_assoc. Qed.
Lemma walks_forest depth skip (f : XTree → list RawEvent) l :
  Forall (λ t, walks depth skip (tree_raw t) (f t)) l → walks depth skip (forest_raw l) (mjoin (f <$> l)).
Proof. induction 1 as [|t l Ht _ IH]; [apply walks_nil|]. by apply walks_app. Qed.

Lemma walks_leaf depth skip e :
  is_leaf e = true → depth ≠ 1 → walks depth skip [e] (if skip then [] else [e]).
Proof.
  intros He Hd w. cbn. unfold isolate_event. unfold is_leaf in He.
  destruct (view e) as [x|x|x|x|x|x|]; try done; rewrite ?(proj2 (Nat.eqb_neq depth 1) Hd); cbn;
    destruct skip; cbn; rewrite ?app_nil_r; done.
Qed.
(** The tags of an element around a walk one level deeper. *)
Lemma walks_elem depth skip start x l l' stop name :
  depth ≠ 1 → skip ≠ Some depth → view start = XStart x → view stop = XEnd name → walks (S depth) skip l l' →
  walks depth skip (start :: l ++ [stop]) (if skip then l' else start :: l' ++ [stop]).
Proof.
  intros Hd Hsk Hs He Hl w. cbn [isolate_loop]. unfold isolate_event at 1. rewrite Hs, (proj2 (Nat.eqb_neq depth 1) Hd). cbn.
  rewrite isolate_loop_app, Hl. cbn. unfold isolate_event. rewrite He. cbn. rewrite bool_decide_eq_false_2 by done.
  destruct skip; cbn; by rewrite <- ?app_assoc.
Qed.
Lemma join_nothing (l : list XTree) : mjoin ((λ _, []) <$> l) = ([] : list RawEvent).
Proof. by induction l. Qed.
(** Below the children of the root: omitted or copied whole. *)
Lemma walks_tree t depth skip :
  2 ≤ depth → (∀ d, skip = Some d → d = 1) → tree_ok t → walks depth skip (tree_raw t) (if skip then [] else tree_raw t).
Proof.
  intros Hd Hsk. revert depth Hd. induction t as [e|start children stop IH] using XTree_nested_ind; intros depth Hd Hok;
    inversion Hok as [? He|? ? ? x name Hs He Hc]; subst.
  { apply walks_leaf; [done|lia]. }
  assert (walks (S depth) skip (forest_raw children) (mjoin ((λ t, if skip then [] else tree_raw t) <$> children))) as Hw.
  { apply walks_forest. rewrite Forall_forall in IH, Hc |- *. intros t Ht. apply IH; [done|lia|by apply Hc]. }
  eapply walks_elem in Hw; [|lia|destruct skip as [d|]; [intros [= ->]; specialize (Hsk depth eq_refl); lia|done]|exact Hs|exact He].
  cbn [tree_raw]. destruct skip; [|done]. by rewrite join_nothing in Hw.
Qed.

(** ** The children of the root *)

Definition keeps (t : XTree) : result string bool :=
  let tag e := match view e with XStart x | XEmpty x => remove ←? remove_element pid x; Ok (negb remove) | _ => Ok true end in
  match t with XLeaf e => tag e | XElem start _ _ => tag start end.
Fixpoint kept (l : list XTree) : result string (list XTree) :=
  match l with
  | [] => Ok []
  | t :: l => keep ←? keeps t; l ←? kept l; Ok (if keep then t :: l else l)
  end.

Lemma isolate_child t w : tree_ok t →
  isolate_loop pid (mkIsolation 1 None w) (tree_raw t) =
  (keep ←? keeps t; Ok (Returns (mkIsolation 1 None (w ++ if keep then tree_raw t else [])))).
Proof.
  intros Hok. destruct Hok as [e He|start children stop x name Hs He Hc].
  - unfold is_leaf in He. cbn. unfold isolate_event. destruct (view e) as [x|x|x|x|x|x|]; try done.
    cbn. destruct (remove_element pid x) as [[]|]; cbn; by rewrite ?app_nil_r.
  - cbn [tree_raw isolate_loop]. unfold isolate_event at 1. cbn [keeps]. rewrite Hs. cbn.
    destruct (remove_element pid x) as [remove|]; [|done].
    assert (∀ skip, (∀ d, skip = Some d → d = 1) →
      walks 2 skip (forest_raw children) (mjoin ((λ t, if skip then [] else tree_raw t) <$> children))) as Hw.
    { intros skip Hsk. apply walks_forest. rewrite Forall_forall in Hc |- *. intros t Ht. apply walks_tree; auto. }
    destruct remove; cbn; rewrite isolate_loop_app.
    + rewrite (Hw (Some 1)) by (by intros d [= <-]). cbn. unfold isolate_event. rewrite He. cbn.
      by rewrite join_nothing, app_nil_r.
    + rewrite (Hw None) by done. cbn. unfold isolate_event. rewrite He. cbn. by rewrite <- !app_assoc.
Qed.
Lemma isolate_children l w : Forall tree_ok l →
  isolate_loop pid (mkIsolation 1 None w) (forest_raw l) =
  (l ←? kept l; Ok (Returns (mkIsolation 1 None (w ++ forest_raw l)))).
Proof.
  intros Hl. revert w. induction Hl as [|t l Ht Hl IH]; intros w; [cbn; by rewrite app_nil_r|].
  change (forest_raw (t :: l)) with (tree_raw t ++ forest_raw l). rewrite isolate_loop_app, isolate_child by done. cbn [kept].
  destruct (keeps t) as [keep|]; [|done]. cbn. rewrite IH. destruct (kept l) as [l'|]; [|done]. cbn.
  destruct keep; cbn; rewrite ?app_nil_r; [|done]. by rewrite <- app_assoc.
Qed.
Lemma isolate_leaves l w : Forall (λ e, is_leaf e = true) l →
  isolate_loop pid (mkIsolation 0 None w) l = Ok (Returns (mkIsolation 0 None (w ++ l))).
Proof.
  intros Hl. revert w. induction Hl as [|e l He Hl IH]; intros w; [cbn; by rewrite app_nil_r|].
  pose proof (walks_leaf 0 None e He ltac:(done) w) as Hw. change (e :: l) with ([e] ++ l). rewrite isolate_loop_app, Hw. cbn.
  rewrite IH. by rewrite <- app_assoc.
Qed.
End walk.

(** The analyzer sees the chosen process alone: of a document the copy keeps what is
    around the root, the root's tags and, whole and in order, those of its children that
    are no other process, no collaboration and no diagram; the depth never underflows
    and the only errors are those of the reader, the writer and the attributes of a
    process tag. *)
Theorem isolate_keeps_chosen_process xml pid before start children stop after x name error :
  read_raw xml = (before ++ (start :: forest_raw children ++ [stop]) ++ after, error) →
  Forall (λ e, is_leaf e = true) before → Forall (λ e, is_leaf e = true) after →
  view start = XStart x → view stop = XEnd name → Forall tree_ok children →
  isolate_process xml pid =
  (l ←? kept pid children;
   match error with
   | Some error => Err error
   | None => text ←? write_raw (before ++ (start :: forest_raw l ++ [stop]) ++ after); Ok (Returns text)
   end).
Proof.
  intros Hread Hb Ha Hs He Hc. unfold isolate_process. rewrite Hread, isolate_loop_app, isolate_leaves by done. cbn [result_bind app].
  cbn [isolate_loop]. unfold isolate_event at 1. rewrite Hs. cbn. rewrite <- app_assoc, isolate_loop_app, isolate_children by done.
  destruct (kept pid children) as [l|]; [|done]. cbn. unfold isolate_event. rewrite He. cbn. rewrite isolate_leaves by done. cbn.
  destruct error; [done|]. by rewrite <- !app_assoc.
Qed.
End rewrite.

(** ** A document with two pools *)

(** Events without their text; what is written names the tags. *)
Definition tag_name (e : XmlEvent) : string :=
  match e with
  | XStart x => "<" +:+ xe_local_name x +:+ ">"
  | XEmpty x => "<" +:+ xe_local_name x +:+ "/>"
  | XEnd name => "</" +:+ name +:+ ">"
  | _ => ""
  end.
Definition pool (id : string) : XmlElement :=
  mkElement "process" [Ok (mkAttr "id" "id" (λ _, Ok id))].
Definition plain (name : string) : XmlElement := mkElement name [].
Definition two_pools : list XmlEvent :=
  [XStart (plain "definitions"); XEmpty (plain "message"); XStart (pool "A"); XEmpty (plain "task"); XEnd "process";
   XEmpty (plain "collaboration"); XStart (pool "B"); XEmpty (plain "userTask"); XEnd "process"; XEnd "definitions"].
#[local] Instance pools_copy : XmlCopy := {
  view := id;
  read_raw _ := (two_pools, None);
  as_start e := match e with XEmpty x => XStart x | _ => e end;
  as_end e := match e with XEmpty x => XEnd (xe_local_name x) | _ => e end;
  write_raw l := Ok (join "" (tag_name <$> l));
}.
Definition empty_tag (x : XmlElement) : XTree (H := pools_copy) := XLeaf (H := pools_copy) (XEmpty x).
Definition pool_tag (id : string) (inner : XmlElement) : XTree (H := pools_copy) :=
  XElem (H := pools_copy) (XStart (pool id)) [empty_tag inner] (XEnd "process").
Lemma pool_tag_ok id inner : tree_ok (pool_tag id inner).
Proof. econstructor; [done..|]. by repeat constructor. Qed.

Lemma isolate_keeps_chosen_process_witness :
  isolate_process (H := pools_copy) "" "B" = Ok (Returns "<definitions><message/><process><userTask/></process></definitions>").
Proof.
  rewrite (isolate_keeps_chosen_process (H := pools_copy) "" "B" [] (XStart (plain "definitions"))
    [empty_tag (plain "message"); pool_tag "A" (plain "task"); empty_tag (plain "collaboration"); pool_tag "B" (plain "userTask")]
    (XEnd "definitions") [] (plain "definitions") "definitions" None); try done.
  repeat constructor; apply pool_tag_ok.
Defined.
