(* ===== verification/LogBuffer.v ===== *)
(** * The log of the server

    engine-server/src/log_buffer.rs, the reading side of log_nats.rs, and
    server/logs.rs: a buffer of the newest entries, kept in a file of JSON lines that
    is compacted now and then, or sent to NATS instead.  The file is its list of lines
    ([None]: a line that is no text); whether a file operation succeeds is an argument.
    A push holds the lock while it changes the buffer and appends to the file, and
    compacts the file after it has released the lock: the two parts are operations of
    their own, so that pushes can be interleaved. *)

From stdpp Require Import base list gmap strings pretty countable.
From S2P Require Import Prelude Text TextSplit Runtime Persistence.
Local Open Scope rust_scope.

Definition MAX_ENTRIES : nat := 5000.
Definition COMPACT_AFTER : nat := 500.

Record LogEntry := mkLog {
  le_timestamp : string;
  le_level : string;
  le_target : string;
  le_message : string;
}.
(** The JSON line of an entry (serde_json): it is read back and not blank. *)
Class LogJson := {
  entry_line : LogEntry → string;
  line_entry : string → option LogEntry;
  line_entry_line e : line_entry (entry_line e) = Some e;
  entry_line_text e : is_blank (entry_line e) = false;
}.
(** [str::to_uppercase] and [str::to_lowercase], by the tables of Unicode. *)
Class CaseTables := { to_uppercase : string → string; to_lowercase : string → string }.

(** The state behind the lock: the path is the one file. *)
Record InnerBuffer := mkBuffer {
  ib_entries : list LogEntry;
  (** Lines written since the last compaction, when a file is used. *)
  ib_persist : option nat;
  (** Whether a sender to NATS is set. *)
  ib_nats : bool;
}.
#[export] Instance InnerBuffer_settable : Settable InnerBuffer := λ r, mkBuffer (ib_entries r) (ib_persist r) (ib_nats r).
Definition LogFile : Type := option (list (option string)).

(** [VecDeque]: the oldest entry makes room. *)
Definition push_back (entries : list LogEntry) (e : LogEntry) : list LogEntry :=
  (if MAX_ENTRIES <=? length entries then tail entries else entries) ++ [e].

Section buffer.
  Context `{LogJson}.

(** ** The file *)

(** [lines().map_while(Result::ok)]. *)
Fixpoint readable (lines : list (option string)) : list string :=
  match lines with Some line :: lines => line :: readable lines | _ => [] end.
Definition load_line (entries : list LogEntry) (line : string) : list LogEntry :=
  if is_blank line then entries
  else match line_entry line with Some e => push_back entries e | None => entries end.
Definition load_entries_from_file (file : LogFile) : list LogEntry :=
  match file with
  | None => []
  | Some lines => fold_left load_line (readable lines) []
  end.
Definition append_entry_to_file (opened : bool) (e : LogEntry) (file : LogFile) : LogFile :=
  if opened then Some (default [] file ++ [Some (entry_line e)]) else file.
(** A temporary file that replaces the old one. *)
Definition compact_file (created : bool) (entries : list LogEntry) (file : LogFile) : LogFile :=
  if created then Some ((λ e, Some (entry_line e)) <$> entries) else file.

(** ** The buffer *)

Definition buffer_new : InnerBuffer := mkBuffer [] None false.
Definition new_with_persistence (file : LogFile) : InnerBuffer := mkBuffer (load_entries_from_file file) (Some 0) false.
(** [enable_nats], and [populate] with the entries of NATS. *)
Definition enable_nats (b : InnerBuffer) : InnerBuffer := b <| ib_persist := None |> <| ib_nats := true |>.
Definition populate (entries : list LogEntry) (b : InnerBuffer) : InnerBuffer :=
  b <| ib_entries := fold_left push_back entries [] |>.

(** [push] under the lock: the buffer, the file, the snapshot to compact the file with,
    the entry for NATS. *)
Definition push_locked (opened : bool) (e : LogEntry) (b : InnerBuffer) (file : LogFile)
    : InnerBuffer * LogFile * option (list LogEntry) * option LogEntry :=
  let entries := push_back (ib_entries b) e in
  if ib_nats b then (b <| ib_entries := entries |>, file, None, Some e)
  else
    match ib_persist b with
    | None => (b <| ib_entries := entries |>, file, None, None)
    | Some written =>
      let file := append_entry_to_file opened e file in
      if COMPACT_AFTER <=? S written then (mkBuffer entries (Some 0) false, file, Some entries, None)
      else (mkBuffer entries (Some (S written)) false, file, None, None)
    end.
Definition push_unlocked (created : bool) (snapshot : option (list LogEntry)) (file : LogFile) : LogFile :=
  match snapshot with Some entries => compact_file created entries file | None => file end.
(** [push] alone. *)
Definition push_log (io : bool) (st : InnerBuffer * LogFile) (e : LogEntry) : InnerBuffer * LogFile :=
  let '(b, file, snapshot, _) := push_locked io e st.1 st.2 in (b, push_unlocked io snapshot file).

(** ** Reading *)

(** A level by its verbosity. *)
Inductive Level := ERROR | WARN | INFO | DEBUG | TRACE.
Definition verbosity (l : Level) : nat := match l with ERROR => 0 | WARN => 1 | INFO => 2 | DEBUG => 3 | TRACE => 4 end.
Definition parse_level `{CaseTables} (s : string) : option Level :=
  let s := to_uppercase s in
  if String.eqb s "ERROR" then Some ERROR
  else if String.eqb s "WARN" then Some WARN
  else if String.eqb s "INFO" then Some INFO
  else if String.eqb s "DEBUG" then Some DEBUG
  else if String.eqb s "TRACE" then Some TRACE
  else None.
Definition level_matches `{CaseTables} (min_level : Level) (e : LogEntry) : bool :=
  verbosity (default TRACE (parse_level (le_level e))) <=? verbosity min_level.
Definition search_matches `{CaseTables} (search_lower : option string) (e : LogEntry) : bool :=
  match search_lower with
  | Some q => str_contains q (to_lowercase (le_message e)) || str_contains q (to_lowercase (le_target e))
  | None => true
  end.
Definition log_entries `{CaseTables} (level_filter search : option string) (b : InnerBuffer) : list LogEntry :=
  let min_level := default TRACE (level_filter ≫= parse_level) in
  let search_lower := to_lowercase <$> search in
  List.filter (search_matches search_lower) (List.filter (level_matches min_level) (ib_entries b)).
(** server/logs.rs: the newest first, at most [limit]. *)
Definition get_logs `{CaseTables} (level search : option string) (limit : option nat) (b : InnerBuffer) : list LogEntry :=
  take (default 500 limit `min` 5000) (rev (log_entries level search b)).

(** [NatsLogSink::load_recent]; [messages] is what the stream answers, if it does. *)
Definition load_recent {Payload} (from_slice : Payload → result string LogEntry)
    (messages : result string (list (result string Payload))) (n : nat) : list LogEntry :=
  match messages with
  | Err _ => []
  | Ok messages =>
    let entries := omap (λ m, match m with
      | Ok payload => match from_slice payload with Ok e => Some e | Err _ => None end
      | Err _ => None
      end) messages in
    if n <? length entries then drop (length entries - n) entries else entries
  end.
(** [attach_nats_sink]. *)
Definition attach_nats_sink (recent : list LogEntry) (b : InnerBuffer) : InnerBuffer * nat :=
  (enable_nats (populate recent b), length recent).

(** ** The buffer holds the newest entries, and so does the file *)

Lemma push_back_lastn l e : length l ≤ MAX_ENTRIES → push_back l e = lastn MAX_ENTRIES (l ++ [e]).
Proof.
  intros Hl. unfold push_back. destruct (Nat.leb_spec MAX_ENTRIES (length l)) as [H1|H1].
  - assert (length l = MAX_ENTRIES) as Heq by lia. unfold lastn. rewrite length_app, Heq. cbn [length].
    replace (MAX_ENTRIES + 1 - MAX_ENTRIES) with 1 by lia. rewrite drop_app_le by (rewrite Heq; unfold MAX_ENTRIES; lia).
    by destruct l.
  - rewrite lastn_all; [done|]. rewrite length_app. cbn [length]. lia.
Qed.
Lemma push_back_length l e : length l ≤ MAX_ENTRIES → length (push_back l e) ≤ MAX_ENTRIES.
Proof. intros Hl. rewrite push_back_lastn, lastn_length by done. lia. Qed.
Lemma push_all_lastn es l : length l ≤ MAX_ENTRIES → fold_left push_back es l = lastn MAX_ENTRIES (l ++ es).
Proof.
  revert l. induction es as [|e es IH]; intros l Hl; cbn [fold_left]; [by rewrite app_nil_r, lastn_all|].
  rewrite IH by by apply push_back_length. rewrite push_back_lastn by done. by rewrite lastn_app, <- app_assoc.
Qed.

(** The entries of the lines that can be read. *)
Definition parsed (lines : list (option string)) : list LogEntry :=
  omap (λ line, if is_blank line then None else line_entry line) (readable lines).
Lemma load_lines_push lines l :
  fold_left load_line lines l = fold_left push_back (omap (λ line, if is_blank line then None else line_entry line) lines) l.
Proof.
  revert l. induction lines as [|line lines IH]; intros l; cbn [fold_left omap list_omap]; [done|]. rewrite IH. unfold load_line.
  destruct (is_blank line); [done|]. by destruct (line_entry line).
Qed.
Lemma load_parsed file : load_entries_from_file file = lastn MAX_ENTRIES (parsed (default [] file)).
Proof.
  destruct file as [lines|]; cbn [default load_entries_from_file]; [|by rewrite lastn_all by apply Nat.le_0_l].
  rewrite load_lines_push. by rewrite push_all_lastn by apply Nat.le_0_l.
Qed.
Lemma readable_all lines line : Forall is_Some lines → readable (lines ++ [Some line]) = readable lines ++ [line].
Proof. induction 1 as [|x lines [y ->] _ IH]; cbn; [done|]. by rewrite IH. Qed.
Lemma parsed_append lines e : Forall is_Some lines → parsed (lines ++ [Some (entry_line e)]) = parsed lines ++ [e].
Proof. intros Hl. unfold parsed. rewrite readable_all, omap_app by done. cbn. by rewrite entry_line_text, line_entry_line. Qed.
Lemma parsed_snapshot es : parsed ((λ e, Some (entry_line e)) <$> es) = es.
Proof.
  unfold parsed. induction es as [|e es IH]; cbn; [done|]. rewrite entry_line_text, line_entry_line. by rewrite IH.
Qed.

(** What holds between two pushes: the file would be read back as the buffer, and it has
    at most [bound] lines and those written since the last compaction. *)
Record mirrored (bound : nat) (all : list LogEntry) (st : InnerBuffer * LogFile) : Prop := {
  mir_nats : ib_nats st.1 = false;
  mir_entries : ib_entries st.1 = lastn MAX_ENTRIES all;
  mir_readable : Forall is_Some (default [] st.2);
  mir_loaded : lastn MAX_ENTRIES (parsed (default [] st.2)) = ib_entries st.1;
  mir_lines : ∃ written, ib_persist st.1 = Some written ∧ written < COMPACT_AFTER ∧ length (default [] st.2) ≤ bound + written;
}.
Lemma push_mirrored bound all st e :
  MAX_ENTRIES ≤ bound → mirrored bound all st → mirrored bound (all ++ [e]) (push_log true st e).
Proof.
  intros Hb [Hn He Hr Hl (w & Hw & Hlt & Hlen)]. destruct st as [b file]. cbn [fst snd] in *.
  assert (push_back (ib_entries b) e = lastn MAX_ENTRIES (all ++ [e])) as Hpush.
  { rewrite push_back_lastn; rewrite He; [by rewrite lastn_app|]. rewrite lastn_length. lia. }
  unfold push_log, push_locked. cbn [fst snd]. rewrite Hn, Hw, Hpush.
  destruct (Nat.leb_spec COMPACT_AFTER (S w)); split; cbn [fst snd ib_nats ib_entries ib_persist push_unlocked compact_file append_entry_to_file default id]; try done.
  - apply Forall_fmap, Forall_true. intros x. cbn. eauto.
  - rewrite parsed_snapshot, lastn_all; [done|]. rewrite lastn_length. lia.
  - exists 0. split; [done|]. rewrite length_fmap, lastn_length. lia.
  - apply Forall_app. split; [done|]. repeat constructor. eauto.
  - rewrite parsed_append by done. by rewrite <- lastn_app, Hl, He, lastn_app.
  - exists (S w). split; [done|]. rewrite length_app. cbn [length]. lia.
Qed.
Lemma pushes_mirrored bound es all st :
  MAX_ENTRIES ≤ bound → mirrored bound all st → mirrored bound (all ++ es) (fold_left (push_log true) es st).
Proof.
  intros Hb. revert all st. induction es as [|e es IH]; intros all st Hst; cbn [fold_left]; [by rewrite app_nil_r|].
  replace (all ++ e :: es) with ((all ++ [e]) ++ es) by by rewrite <- app_assoc. by apply IH, push_mirrored.
Qed.

End buffer.

(** ** A concrete log *)

Definition entry_fields (e : LogEntry) : string * string * (string * string) :=
  (le_timestamp e, le_level e, (le_target e, le_message e)).
Definition numbered_line (e : LogEntry) : string := "#" +:+ pretty (Npos (encode (entry_fields e))).
Definition numbered_entry (line : string) : option LogEntry :=
  match line with
  | String _ digits =>
    match decimal 0 digits with
    | Some (Npos n) => (λ '(t, l, (g, m)), mkLog t l g m) <$> decode n
    | _ => None
    end
  | EmptyString => None
  end.
Lemma numbered_line_entry e : numbered_entry (numbered_line e) = Some e.
Proof.
  unfold numbered_entry, numbered_line. rewrite string_app_cons, string_app_nil_l, decimal_pretty, decode_encode. by destruct e.
Qed.
#[local] Instance numbered_json : LogJson := {
  entry_line := numbered_line;
  line_entry := numbered_entry;
  line_entry_line := numbered_line_entry;
  entry_line_text e := eq_refl;
}.
Definition info (message : string) : LogEntry := mkLog "" "INFO" "server" message.


(** Two pushes at once, of which the first one compacts: it writes the snapshot it took
    under the lock after the second has appended its line, which the file loses. *)
Lemma compaction_loses_line :
  let '(b, file, snapshot, _) := push_locked true (info "a") (mkBuffer [] (Some 499) false) None in
  let '(b, file, snapshot', _) := push_locked true (info "b") b file in
  let file := push_unlocked true snapshot (push_unlocked true snapshot' file) in
  ib_entries b = [info "a"; info "b"] ∧ load_entries_from_file file = [info "a"].
Proof. vm_compute. split; reflexivity. Qed.
