(* ===== verification/Registry.v ===== *)
(** * The definition registry and deployment

    engine-core/src/engine/registry.rs and definition_ops.rs.  The registry maps
    keys to definitions; several keys may hold versions of one BPMN process.
    The concurrent map is a [gmap]: every operation here runs under the
    deployment lock or is one atomic map operation. *)

From stdpp Require Import base list gmap strings sorting.
From S2P Require Import Prelude Text Json Domain Token ProcessDef.
Local Open Scope rust_scope.

Abbreviation DefinitionRegistry := (gmap Uuid ProcessDefinition).

#[export] Instance ProcessDefinition_settable : Settable ProcessDefinition := λ r,
  mkDefinition (def_key r) (def_id r) (version r) (nodes r) (flows r) (listeners r) (event_listeners r)
    (event_subprocesses r) (sub_processes r) (data_variables r) (variable_defaults r) (data_mappings r).

(** ** Queries *)

(** The entries of one BPMN process. *)
Definition versions_of (reg : DefinitionRegistry) (bpmn_id : string) : list (Uuid * ProcessDefinition) :=
  List.filter (λ kd, bool_decide (def_id kd.2 = bpmn_id)) (map_to_list reg).

(** [iter().max()]. *)
Definition max_version (l : list Z) : option Z :=
  fold_left (λ acc v, match acc with Some m => Some (Z.max m v) | None => Some v end) l None.

Definition highest_version (reg : DefinitionRegistry) (bpmn_id : string) : option Z :=
  max_version ((λ kd, version kd.2) <$> versions_of reg bpmn_id).

(** [max_by_key]: the last of the greatest entries. *)
Definition max_by_version (l : list (Uuid * ProcessDefinition)) : option (Uuid * ProcessDefinition) :=
  fold_left (λ acc kd,
    match acc with
    | Some best => if (version kd.2 <? version best.2)%Z then acc else Some kd
    | None => Some kd
    end) l None.
Definition find_latest_by_bpmn_id (reg : DefinitionRegistry) (bpmn_id : string) : option (Uuid * ProcessDefinition) :=
  max_by_version (versions_of reg bpmn_id).

Definition version_lt (x y : Uuid * ProcessDefinition) : bool := (version x.2 <? version y.2)%Z.
Definition all_versions_of (reg : DefinitionRegistry) (bpmn_id : string) : list (Uuid * ProcessDefinition) :=
  sort_by version_lt (versions_of reg bpmn_id).

(** [list_definition_versions]. *)
Definition list_definition_versions (reg : DefinitionRegistry) (bpmn_id : string) : list (Uuid * Z * nat) :=
  (λ '(k, d), (k, version d, size (nodes d))) <$> all_versions_of reg bpmn_id.

(** [insert_collection]: later entries win. *)
Definition insert_collection (reg : DefinitionRegistry) (ds : list ProcessDefinition) : DefinitionRegistry :=
  fold_left (λ reg d, <[def_key d := d]> reg) ds reg.

(** ** Deployment *)

(** [i32] addition; the release build wraps. *)
Definition i32_max : Z := 2147483647.
Definition wrap_i32 (z : Z) : Z := ((z + 2147483648) mod 4294967296 - 2147483648)%Z.

(** [normalize_definition] on the version number. *)
Definition next_version (highest : option Z) (given : Z) : Z :=
  match highest with Some h => wrap_i32 (h + 1) | None => given end.

(** [deploy_definition_inner]: the definition with its version set to [given],
    then its sub-processes, each given the new version.  The result lists the
    keys handed to [persist_definition], in order. *)
Fixpoint deploy_inner (d : ProcessDefinition) (given : Z) (reg : DefinitionRegistry)
    : DefinitionRegistry * list Uuid * (Uuid * Z) :=
  let v := next_version (highest_version reg (def_id d)) given in
  let reg := <[def_key d := d <| version := v |> <| sub_processes := [] |>]> reg in
  let '(reg, persisted) :=
    (fix go (subs : list ProcessDefinition) (reg : DefinitionRegistry) (persisted : list Uuid) :=
      match subs with
      | [] => (reg, persisted)
      | s :: subs => let '(reg, p, _) := deploy_inner s v reg in go subs reg (persisted ++ p)
      end) (sub_processes d) reg [] in
  (reg, persisted ++ [def_key d], (def_key d, v)).

(** [deploy_definition]. *)
Definition deploy_definition (d : ProcessDefinition) (reg : DefinitionRegistry)
    : DefinitionRegistry * list Uuid * (Uuid * Z) := deploy_inner d (version d) reg.

Definition duplicate_id (id : string) : EngineError :=
  InvalidDefinition ("Duplicate deployed process ID '" +:+ id +:+ "'").

(** [flatten]: a process before its sub-processes; the [n]-th definition gets
    the [n]-th fresh key. *)
Fixpoint flatten (reg : DefinitionRegistry) (ids : nat → Uuid) (d : ProcessDefinition) (given : Z)
    (out : list ProcessDefinition) : EngineResult (list ProcessDefinition) :=
  if existsb (λ p, bool_decide (def_id p = def_id d)) out then Err (duplicate_id (def_id d))
  else
    let v := next_version (highest_version reg (def_id d)) given in
    (fix go (subs : list ProcessDefinition) (out : list ProcessDefinition) :=
      match subs with
      | [] => Ok out
      | s :: subs => out ←? flatten reg ids s v out; go subs out
      end) (sub_processes d)
        (out ++ [d <| version := v |> <| def_key := ids (length out) |> <| sub_processes := [] |>]).

Fixpoint flatten_all (reg : DefinitionRegistry) (ids : nat → Uuid) (ds : list ProcessDefinition)
    (out : list ProcessDefinition) : EngineResult (list ProcessDefinition) :=
  match ds with
  | [] => Ok out
  | d :: ds => out ←? flatten reg ids d (version d) out; flatten_all reg ids ds out
  end.

(** The definitions [deploy_collection] commits and then publishes. *)
Definition collection_definitions (reg : DefinitionRegistry) (ids : nat → Uuid) (ds : list ProcessDefinition)
    : EngineResult (list ProcessDefinition) :=
  match ds with
  | [] => Err (InvalidDefinition "Collection has no executable processes")
  | _ => flatten_all reg ids ds []
  end.

(** ** Queries are right *)

Lemma elem_of_versions_of reg bpmn_id k d :
  (k, d) ∈ versions_of reg bpmn_id ↔ reg !! k = Some d ∧ def_id d = bpmn_id.
Proof.
  unfold versions_of. rewrite list_elem_of_In, filter_In, <- list_elem_of_In, elem_of_map_to_list.
  by rewrite bool_decide_eq_true.
Qed.

Lemma max_version_spec l :
  match max_version l with Some m => m ∈ l ∧ ∀ v, v ∈ l → (v ≤ m)%Z | None => l = [] end.
Proof.
  induction l as [|x l IH] using rev_ind; [done|]. unfold max_version in *. rewrite fold_left_app. cbn.
  destruct (fold_left _ l None) as [m|].
  - destruct IH as [Hm Hmax]. split.
    + destruct (Z.max_spec m x) as [[_ ->]|[_ ->]]; set_solver.
    + intros v [Hv| ->%list_elem_of_singleton]%elem_of_app; [specialize (Hmax v Hv)|]; lia.
  - subst l. split; [set_solver|]. intros v ->%list_elem_of_singleton. lia.
Qed.

Lemma max_by_version_spec l :
  match max_by_version l with
  | Some best => best ∈ l ∧ ∀ x, x ∈ l → (version x.2 ≤ version best.2)%Z
  | None => l = []
  end.
Proof.
  induction l as [|x l IH] using rev_ind; [done|]. unfold max_by_version in *. rewrite fold_left_app. cbn.
  destruct (fold_left _ l None) as [best|].
  - destruct IH as [Hb Hmax]. destruct (Z.ltb_spec (version x.2) (version best.2)).
    + split; [set_solver|]. intros y [Hy| ->%list_elem_of_singleton]%elem_of_app; [by apply Hmax|lia].
    + split; [set_solver|]. intros y [Hy| ->%list_elem_of_singleton]%elem_of_app; [|lia].
      specialize (Hmax y Hy). lia.
  - subst l. split; [set_solver|]. by intros v ->%list_elem_of_singleton.
Qed.

Lemma highest_version_spec reg bpmn_id :
  match highest_version reg bpmn_id with
  | Some h => (∃ k d, reg !! k = Some d ∧ def_id d = bpmn_id ∧ version d = h) ∧
              ∀ k d, reg !! k = Some d → def_id d = bpmn_id → (version d ≤ h)%Z
  | None => ∀ k d, reg !! k = Some d → def_id d ≠ bpmn_id
  end.
Proof.
  unfold highest_version. pose proof (max_version_spec ((λ kd, version kd.2) <$> versions_of reg bpmn_id)) as H.
  destruct (max_version _) as [h|].
  - destruct H as [([k d] & -> & Hin%elem_of_versions_of)%list_elem_of_fmap Hmax]. split; [naive_solver|].
    intros k' d' Hk' Hd'. apply Hmax, list_elem_of_fmap. exists (k', d'). by rewrite elem_of_versions_of.
  - intros k d Hk Hd. apply fmap_nil_inv in H. apply (not_elem_of_nil (k, d)).
    rewrite <- H. by apply elem_of_versions_of.
Qed.

(** The latest version of a BPMN process is one of its deployed definitions with
    the highest version number, and there is none exactly when the process has
    no definition. *)
Theorem find_latest_by_bpmn_id_spec reg bpmn_id :
  match find_latest_by_bpmn_id reg bpmn_id with
  | Some (k, d) => reg !! k = Some d ∧ def_id d = bpmn_id ∧ highest_version reg bpmn_id = Some (version d)
  | None => ∀ k d, reg !! k = Some d → def_id d ≠ bpmn_id
  end.
Proof.
  unfold find_latest_by_bpmn_id. pose proof (max_by_version_spec (versions_of reg bpmn_id)) as H.
  destruct (max_by_version _) as [[k d]|].
  - destruct H as [[Hk Hd]%elem_of_versions_of Hmax]. split_and!; [done..|].
    pose proof (highest_version_spec reg bpmn_id) as Hh. destruct (highest_version reg bpmn_id) as [h|].
    + destruct Hh as [(k' & d' & Hk' & Hd' & <-) Hle]. f_equal.
      specialize (Hle _ _ Hk Hd). specialize (Hmax (k', d')). rewrite elem_of_versions_of in Hmax.
      specialize (Hmax (conj Hk' Hd')). cbn in Hmax. lia.
    + by destruct (Hh _ _ Hk).
  - intros k d Hk Hd. apply (not_elem_of_nil (k, d)). rewrite <- H. by apply elem_of_versions_of.
Qed.

Definition version_le (x y : Uuid * ProcessDefinition) : Prop := (version x.2 ≤ version y.2)%Z.

Lemma sort_by_version_spec l : sort_by version_lt l ≡ₚ l ∧ StronglySorted version_le (sort_by version_lt l).
Proof.
  split; [apply sort_by_perm|]. apply sort_by_sorted; unfold version_lt, version_le.
  - intros x y z. lia.
  - intros x y. by rewrite Z.ltb_ge.
  - intros x y. rewrite Z.ltb_lt. lia.
Qed.

(** Listing the versions of a process gives each of its definitions once, in
    ascending version order. *)
Theorem all_versions_of_spec reg bpmn_id :
  StronglySorted version_le (all_versions_of reg bpmn_id) ∧ NoDup (all_versions_of reg bpmn_id).*1 ∧
  ∀ k d, (k, d) ∈ all_versions_of reg bpmn_id ↔ reg !! k = Some d ∧ def_id d = bpmn_id.
Proof.
  unfold all_versions_of. destruct (sort_by_version_spec (versions_of reg bpmn_id)) as [Hp Hs].
  split; [done|]. rewrite Hp. split; [|intros; by rewrite Hp, elem_of_versions_of].
  unfold versions_of. pose proof (NoDup_fst_map_to_list reg) as Hnd. revert Hnd.
  induction (map_to_list reg) as [|[k d] l IH]; cbn; [done|]. intros [Hk Hl]%NoDup_cons.
  case_bool_decide; cbn; [|by apply IH]. apply NoDup_cons. split; [|by apply IH].
  intros ([k' d'] & -> & [Hin%list_elem_of_In _]%list_elem_of_In%filter_In)%list_elem_of_fmap.
  apply Hk. by apply (list_elem_of_fmap_2 fst _ (k', d')).
Qed.

(** ** Deployment numbers versions *)

Definition ProcessDefinition_tree_ind (P : ProcessDefinition → Prop)
    (step : ∀ d, Forall P (sub_processes d) → P d) : ∀ d, P d :=
  fix F d : P d :=
    step d (match d with
            | mkDefinition _ _ _ _ _ _ _ _ subs _ _ _ =>
              (fix G (l : list ProcessDefinition) : Forall P l :=
                match l with [] => Forall_nil_2 _ | x :: l => Forall_cons_2 _ _ _ (F x) (G l) end) subs
            end).

(** The number of definitions of a process with its sub-processes. *)
Fixpoint tree_size (d : ProcessDefinition) : nat :=
  S ((fix go (l : list ProcessDefinition) := match l with [] => 0 | s :: l => tree_size s + go l end) (sub_processes d)).
Definition forest_size (l : list ProcessDefinition) : nat :=
  foldr (λ s n, tree_size s + n) 0 l.
Lemma tree_size_eq d : tree_size d = S (forest_size (sub_processes d)).
Proof. by destruct d. Qed.

(** No two definitions of a process have the same version, and [n] more
    deployments do not exceed the version type. *)
Definition versions_unique (reg : DefinitionRegistry) : Prop :=
  ∀ k1 k2 d1 d2, reg !! k1 = Some d1 → reg !! k2 = Some d2 → def_id d1 = def_id d2 →
    version d1 = version d2 → k1 = k2.
Definition version_room (n : nat) (reg : DefinitionRegistry) : Prop :=
  ∀ k d, reg !! k = Some d → (- i32_max ≤ version d ≤ i32_max - Z.of_nat n)%Z.

(** The loop over the sub-processes. *)
Definition deploy_subs (v : Z) : list ProcessDefinition → DefinitionRegistry → list Uuid →
    DefinitionRegistry * list Uuid :=
  fix go subs reg persisted :=
    match subs with
    | [] => (reg, persisted)
    | s :: subs => let '(reg, p, _) := deploy_inner s v reg in go subs reg (persisted ++ p)
    end.
Lemma deploy_inner_eq d given reg :
  deploy_inner d given reg =
  let v := next_version (highest_version reg (def_id d)) given in
  let '(reg', persisted) :=
    deploy_subs v (sub_processes d) (<[def_key d := d <| version := v |> <| sub_processes := [] |>]> reg) [] in
  (reg', persisted ++ [def_key d], (def_key d, v)).
Proof. by destruct d. Qed.

Lemma wrap_i32_small z : (- i32_max ≤ z ≤ i32_max)%Z → wrap_i32 z = z.
Proof. unfold wrap_i32, i32_max. intros. rewrite Z.mod_small; lia. Qed.

(** One registration: the new version is above every other of its process. *)
Lemma insert_version n given reg d d' :
  versions_unique reg → version_room (S n) reg → (- i32_max ≤ given ≤ i32_max - Z.of_nat n)%Z →
  let v := next_version (highest_version reg (def_id d)) given in
  def_id d' = def_id d → version d' = v →
  versions_unique (<[def_key d := d']> reg) ∧ version_room n (<[def_key d := d']> reg) ∧
  (- i32_max ≤ v ≤ i32_max - Z.of_nat n)%Z ∧
  ∀ k x, reg !! k = Some x → def_id x = def_id d → (version x < v)%Z.
Proof.
  intros Hu Hr Hg v Hid Hv. pose proof (highest_version_spec reg (def_id d)) as Hh.
  assert ((- i32_max ≤ v ≤ i32_max - Z.of_nat n)%Z ∧
    ∀ k x, reg !! k = Some x → def_id x = def_id d → (version x < v)%Z) as [Hrange Habove].
  { subst v. unfold next_version. destruct (highest_version reg (def_id d)) as [h|]; [|naive_solver].
    destruct Hh as [(k & x & Hk & Hx & <-) Hmax]. pose proof (Hr _ _ Hk).
    rewrite wrap_i32_small by lia. split; [lia|]. intros k' x' Hk' Hx'. specialize (Hmax _ _ Hk' Hx'). lia. }
  split; [|split; [|by split]].
  - intros k1 k2 d1 d2 H1 H2 Hids Hvs. rewrite lookup_insert_Some in H1, H2.
    destruct H1 as [[<- <-]|[Hne1 H1]], H2 as [[<- <-]|[Hne2 H2]]; [done| | |by eapply Hu].
    + specialize (Habove _ _ H2). rewrite <- Hids in Habove. specialize (Habove Hid). lia.
    + specialize (Habove _ _ H1). rewrite Hids in Habove. specialize (Habove Hid). lia.
  - intros k x [[<- <-]|[_ Hx]]%lookup_insert_Some; [by rewrite Hv|]. specialize (Hr _ _ Hx). lia.
Qed.

(** What deploying keeps, with [n] deployments left. *)
Definition deploys (n : nat) (d : ProcessDefinition) : Prop :=
  ∀ given reg, versions_unique reg → version_room (n + tree_size d) reg →
    (- i32_max ≤ given ≤ i32_max - Z.of_nat (n + tree_size d))%Z →
    versions_unique (deploy_inner d given reg).1.1 ∧ version_room n (deploy_inner d given reg).1.1.

Lemma deploy_subs_keeps n v subs reg persisted :
  (∀ m, Forall (deploys m) subs) → versions_unique reg → version_room (n + forest_size subs) reg →
  (- i32_max ≤ v ≤ i32_max - Z.of_nat (n + forest_size subs))%Z →
  versions_unique (deploy_subs v subs reg persisted).1 ∧ version_room n (deploy_subs v subs reg persisted).1.
Proof.
  revert reg persisted. induction subs as [|s subs IH]; intros reg persisted Hs Hu Hr Hv;
    cbn [deploy_subs].
  - change (forest_size []) with 0 in Hr. by rewrite Nat.add_0_r in Hr.
  - change (forest_size (s :: subs)) with (tree_size s + forest_size subs) in *.
    assert (deploys (n + forest_size subs) s) as Hd by (by apply (Forall_inv (Hs _))).
    destruct (Hd v reg) as [Hu' Hr'];
      [done|by replace (n + forest_size subs + tree_size s) with (n + (tree_size s + forest_size subs)) by lia|lia|].
    destruct (deploy_inner s v reg) as [[reg' p] r]. cbn in Hu', Hr'.
    apply IH; [|done|done|lia]. intros m. apply (Forall_inv_tail (Hs m)).
Qed.

Lemma deploys_all d : ∀ n, deploys n d.
Proof.
  induction d as [d IH] using ProcessDefinition_tree_ind. intros n given reg Hu Hr Hg.
  rewrite tree_size_eq in Hr, Hg. rewrite deploy_inner_eq. cbn zeta.
  set (v := next_version _ given). set (d' := d <| version := v |> <| sub_processes := [] |>).
  destruct (insert_version (n + forest_size (sub_processes d)) given reg d d') as (Hu' & Hr' & Hv & _);
    [done|by rewrite <- Nat.add_succ_r|lia|done|done|].
  destruct (deploy_subs_keeps n v (sub_processes d) (<[def_key d := d']> reg) []) as [Hu2 Hr2]; [|done..|].
  { intros m. eapply Forall_impl; [exact IH|]. auto. }
  destruct (deploy_subs v _ _ _). done.
Qed.

(** Deploying a process (with its sub-processes) never gives two definitions of
    one process the same version, as long as the version numbers have room. *)
Theorem deploy_definition_versions d reg :
  versions_unique reg → version_room (tree_size d) reg →
  (- i32_max ≤ version d ≤ i32_max - Z.of_nat (tree_size d))%Z →
  versions_unique (deploy_definition d reg).1.1.
Proof. intros. by eapply (deploys_all d 0). Qed.

(** Deploying the same definition value again replaces the deployed one under its
    key: the registry still has one entry, now with the next version number,
    and the earlier version cannot be looked up any more. *)
Theorem redeploy_replaces d :
  sub_processes d = [] → (- i32_max ≤ version d < i32_max)%Z →
  let reg := (deploy_definition d (deploy_definition d ∅).1.1).1.1 in
  reg = {[def_key d := d <| version := (version d + 1)%Z |>]}.
Proof.
  intros Hs Hv. unfold deploy_definition. rewrite deploy_inner_eq, Hs. cbn -[wrap_i32].
  rewrite deploy_inner_eq, Hs. cbn -[wrap_i32 highest_version]. rewrite insert_insert_eq.
  replace (highest_version _ _) with (Some (version d)).
  - cbn -[wrap_i32]. rewrite wrap_i32_small by lia. by destruct d; cbn in *; subst.
  - unfold highest_version, versions_of. rewrite insert_empty, map_to_list_singleton. cbn.
    by rewrite bool_decide_true.
Qed.

Lemma deploy_definition_versions_witness :
  versions_unique (deploy_definition example_definition ∅).1.1.
Proof.
  apply (deploy_definition_versions example_definition ∅);
    [intros ? ? ? ? H; by rewrite lookup_empty in H|intros ? ? H; by rewrite lookup_empty in H|vm_compute; split; discriminate].
Defined.

Lemma redeploy_replaces_witness :
  (deploy_definition example_definition (deploy_definition example_definition ∅).1.1).1.1 =
  {[1%N := example_definition <| version := 2%Z |>]}.
Proof. apply (redeploy_replaces example_definition); [reflexivity|vm_compute; split; [discriminate|reflexivity]]. Defined.

(** ** Collections *)

(** The process ids of a definition and its sub-processes, parents first. *)
Fixpoint tree_ids (d : ProcessDefinition) : list string :=
  def_id d :: (fix go (l : list ProcessDefinition) := match l with [] => [] | s :: l => tree_ids s ++ go l end) (sub_processes d).
Definition forest_ids (l : list ProcessDefinition) : list string := mjoin (tree_ids <$> l).
Lemma tree_ids_eq d : tree_ids d = def_id d :: forest_ids (sub_processes d).
Proof.
  destruct d as [? ? ? ? ? ? ? ? subs ? ? ?]. cbn. f_equal. unfold forest_ids.
  induction subs as [|s subs IH]; [done|]. cbn. by rewrite IH.
Qed.

Section flatten.
  Variable reg : DefinitionRegistry.
  Variable ids : nat → Uuid.

Definition flatten_subs (v : Z) : list ProcessDefinition → list ProcessDefinition → EngineResult (list ProcessDefinition) :=
  fix go subs out :=
    match subs with
    | [] => Ok out
    | s :: subs => out ←? flatten reg ids s v out; go subs out
    end.
Lemma flatten_eq d given out :
  flatten reg ids d given out =
  if existsb (λ p, bool_decide (def_id p = def_id d)) out then Err (duplicate_id (def_id d))
  else
    let v := next_version (highest_version reg (def_id d)) given in
    flatten_subs v (sub_processes d)
      (out ++ [d <| version := v |> <| def_key := ids (length out) |> <| sub_processes := [] |>]).
Proof. by destruct d. Qed.

(** Keys are the fresh ones, in order. *)
Definition fresh_keys (out : list ProcessDefinition) : Prop := def_key <$> out = ids <$> seq 0 (length out).

(** What appending the processes [names] to [out] gives. *)
Definition appends (names : list string) (out : list ProcessDefinition)
    (r : EngineResult (list ProcessDefinition)) : Prop :=
  match r with
  | Ok out' => def_id <$> out' = (def_id <$> out) ++ names ∧ NoDup (def_id <$> out') ∧ fresh_keys out'
  | Err _ => ¬ NoDup ((def_id <$> out) ++ names)
  end.

Lemma appends_bind names names' out r k :
  appends names out r →
  (∀ out', NoDup (def_id <$> out') → fresh_keys out' → appends names' out' (k out')) →
  appends (names ++ names') out (result_bind r k).
Proof.
  intros Hr Hk. unfold appends in *. rewrite !app_assoc. destruct r as [out'|e]; cbn.
  - destruct Hr as (<- & Hnd & Hf). specialize (Hk out' Hnd Hf). by destruct (k out').
  - intros [H _]%NoDup_app. done.
Qed.

Lemma flatten_appends d : ∀ given out,
  NoDup (def_id <$> out) → fresh_keys out → appends (tree_ids d) out (flatten reg ids d given out).
Proof.
  induction d as [d IH] using ProcessDefinition_tree_ind. intros given out Hnd Hf.
  rewrite flatten_eq, tree_ids_eq. destruct (existsb _ out) eqn:He.
  { apply existsb_exists in He as (p & Hp%list_elem_of_In & Heq%bool_decide_eq_true). cbn.
    intros (_ & Hd & _)%NoDup_app. apply (Hd (def_id d)); [rewrite <- Heq; by apply list_elem_of_fmap_2|set_solver]. }
  cbn zeta. set (d' := d <| version := _ |> <| def_key := _ |> <| sub_processes := [] |>).
  assert (NoDup (def_id <$> out ++ [d'])) as Hnd'.
  { rewrite fmap_app. apply NoDup_app. split_and!; [done| |apply NoDup_singleton].
    intros x Hx. cbn. intros ->%list_elem_of_singleton. apply list_elem_of_fmap in Hx as (p & Hid & Hp).
    apply (not_true_iff_false (existsb (λ p, bool_decide (def_id p = def_id d)) out)); [done|].
    apply existsb_exists. exists p. by rewrite <- list_elem_of_In, bool_decide_eq_true. }
  assert (fresh_keys (out ++ [d'])) as Hf'.
  { unfold fresh_keys in *. by rewrite length_app, Nat.add_1_r, seq_S, !fmap_app, Hf. }
  remember (out ++ [d']) as out' eqn:Hout'.
  change (def_id d :: forest_ids (sub_processes d)) with ([def_id d] ++ forest_ids (sub_processes d)).
  cut (appends (forest_ids (sub_processes d)) out' (flatten_subs (version d') (sub_processes d) out')).
  { unfold appends. rewrite app_assoc. replace ((def_id <$> out) ++ [def_id d]) with (def_id <$> out') by (by rewrite Hout', fmap_app). done. }
  clear Hout' Hf Hnd He. revert out' Hnd' Hf'. induction (sub_processes d) as [|s subs IHs]; intros out' Hnd' Hf'; cbn [flatten_subs].
  - cbn. by rewrite app_nil_r.
  - apply Forall_cons in IH as [Hs Hsubs]. change (forest_ids (s :: subs)) with (tree_ids s ++ forest_ids subs).
    apply appends_bind; [by apply Hs|]. by apply IHs.
Qed.

Lemma flatten_all_appends ds : ∀ out,
  NoDup (def_id <$> out) → fresh_keys out → appends (forest_ids ds) out (flatten_all reg ids ds out).
Proof.
  induction ds as [|d ds IH]; intros out Hnd Hf; cbn [flatten_all].
  - cbn. by rewrite app_nil_r.
  - change (forest_ids (d :: ds)) with (tree_ids d ++ forest_ids ds).
    apply appends_bind; [by apply flatten_appends|done].
Qed.
End flatten.

Lemma collection_definitions_keys reg ids ds out :
  collection_definitions reg ids ds = Ok out → def_key <$> out = ids <$> seq 0 (length out).
Proof.
  unfold collection_definitions. destruct ds as [|d ds]; [done|]. intros H.
  pose proof (flatten_all_appends reg ids (d :: ds) [] (NoDup_nil_2) eq_refl) as Happ. rewrite H in Happ. apply Happ.
Qed.

(** A collection is flattened parents first; it is accepted exactly when it has a
    process and no process id occurs twice in it, and every definition of an
    accepted collection has its own fresh key. *)
Theorem collection_definitions_spec reg ids ds :
  match collection_definitions reg ids ds with
  | Ok out => ds ≠ [] ∧ NoDup (forest_ids ds) ∧ def_id <$> out = forest_ids ds ∧
              def_key <$> out = ids <$> seq 0 (length out)
  | Err _ => ds = [] ∨ ¬ NoDup (forest_ids ds)
  end.
Proof.
  unfold collection_definitions. destruct ds as [|d ds]; [by left|].
  pose proof (flatten_all_appends reg ids (d :: ds) [] (NoDup_nil_2) eq_refl) as H.
  destruct (flatten_all reg ids (d :: ds) []) as [out|e]; cbn [appends] in H.
  - destruct H as (Hids & Hnd & Hf). cbn [fmap list_fmap app] in Hids. rewrite <- Hids. done.
  - by right.
Qed.
