(* ===== verification/Index.v ===== *)
(** * Secondary indexes

    engine-core/src/engine/topic_index.rs and timer_index.rs keep an index beside
    the map that is the single source of truth: service tasks by topic, timers
    by due time.  The class [Index] states what an index promises; the store of
    a map with its index is proved consistent against it, and the two indexes
    are its instances. *)

From stdpp Require Import base list gmap strings sorting.
From S2P Require Import Prelude Text Json Domain Token Runtime.
Local Open Scope rust_scope.

(** ** The interface *)

Class IndexOps (I K : Type) := {
  idx_empty : I;
  idx_insert : K → Uuid → I → I;
  idx_remove : K → Uuid → I → I;
  idx_has : I → K → Uuid → Prop;
  idx_ok : I → Prop;
}.

Class Index (I K : Type) {IO : IndexOps I K} : Prop := {
  idx_ok_empty : idx_ok idx_empty;
  idx_ok_insert k u i : idx_ok i → idx_ok (idx_insert k u i);
  idx_ok_remove k u i : idx_ok i → idx_ok (idx_remove k u i);
  idx_has_empty k u : ¬ idx_has idx_empty k u;
  idx_has_insert k u i k' u' : idx_has (idx_insert k u i) k' u' ↔ (k' = k ∧ u' = u) ∨ idx_has i k' u';
  idx_has_remove k u i k' u' : idx_has (idx_remove k u i) k' u' ↔ ¬ (k' = k ∧ u' = u) ∧ idx_has i k' u';
}.

(** What the primary map holds: entries with an id and the key they are indexed by. *)
Class Keyed (V K : Type) := { entry_id : V → Uuid; entry_key : V → K }.

Record Store (I V : Type) := mkStore { primary : gmap Uuid V; index : I }.
Arguments mkStore {I V} primary index.
Arguments primary {I V} s.
Arguments index {I V} s.

Section store.
  Context {I K V : Type} {KE : EqDecision K} {IO : IndexOps I K} {IX : Index I K} {KV : Keyed V K}.

Definition store_empty : Store I V := mkStore ∅ idx_empty.

(** First the map, then the index. *)
Definition store_insert (v : V) (s : Store I V) : Store I V :=
  mkStore (<[entry_id v := v]> (primary s)) (idx_insert (entry_key v) (entry_id v) (index s)).

Definition unindex (i : I) (v : V) : I := idx_remove (entry_key v) (entry_id v) i.

(** [DashMap::remove_if], then the index. *)
Definition store_remove_if (u : Uuid) (f : V → bool) (s : Store I V) : option V * Store I V :=
  match primary s !! u with
  | Some v => if f v then (Some v, mkStore (delete u (primary s)) (unindex (index s) v)) else (None, s)
  | None => (None, s)
  end.
Definition store_remove (u : Uuid) (s : Store I V) : option V * Store I V := store_remove_if u (λ _, true) s.

(** [DashMap::retain], collecting what is dropped, then the index. *)
Definition dropped (keep : V → bool) (s : Store I V) : list V :=
  List.filter (λ v, negb (keep v)) ((map_to_list (primary s)).*2).
Definition store_retain (keep : V → bool) (s : Store I V) : Store I V :=
  mkStore (filter (λ kv : Uuid * V, keep kv.2 = true) (primary s)) (fold_left unindex (dropped keep s) (index s)).

(** [get_mut]: an entry is changed in place. *)
Definition store_modify (u : Uuid) (f : V → V) (s : Store I V) : Store I V :=
  mkStore (alter f u (primary s)) (index s).

(** The index holds exactly the entries of the map. *)
Record consistent (s : Store I V) : Prop := {
  cons_ok : idx_ok (index s);
  cons_id : ∀ u v, primary s !! u = Some v → entry_id v = u;
  cons_exact : ∀ k u, idx_has (index s) k u ↔ ∃ v, primary s !! u = Some v ∧ entry_key v = k;
}.

Lemma store_empty_consistent : consistent store_empty.
Proof.
  split; [apply idx_ok_empty|intros u v; cbn; by rewrite lookup_empty|].
  intros k u. cbn. split; [by intros ?%idx_has_empty|]. intros (v & H & _). by rewrite lookup_empty in H.
Qed.

Lemma store_insert_consistent v s :
  consistent s → (∀ old, primary s !! entry_id v = Some old → entry_key old = entry_key v) →
  consistent (store_insert v s).
Proof.
  intros [Hok Hid Hex] Hold. split; cbn.
  - by apply idx_ok_insert.
  - intros u x [[<- <-]|[_ Hx]]%lookup_insert_Some; [done|by apply Hid].
  - intros k u. rewrite idx_has_insert, Hex. destruct (decide (u = entry_id v)) as [->|Hne].
    + rewrite lookup_insert_eq. split; [|naive_solver].
      intros [[-> _]|(x & Hx & <-)]; [by eauto|]. rewrite (Hold _ Hx). by eauto.
    + rewrite lookup_insert_ne by done. naive_solver.
Qed.

Lemma store_remove_if_consistent u f s : consistent s → consistent (store_remove_if u f s).2.
Proof.
  intros [Hok Hid Hex]. unfold store_remove_if. destruct (primary s !! u) as [v|] eqn:Hv; [|done].
  destruct (f v); [|done]. assert (entry_id v = u) as Hvu by (by apply Hid). split; cbn; unfold unindex.
  - by apply idx_ok_remove.
  - intros u' x [_ Hx]%lookup_delete_Some. by apply Hid.
  - intros k u'. rewrite idx_has_remove, Hex, Hvu. destruct (decide (u' = u)) as [->|Hne].
    + rewrite lookup_delete_eq. split; [|by intros (? & ? & _)]. intros [Hn (x & Hx & <-)]. simplify_eq.
      exfalso. by apply Hn.
    + rewrite lookup_delete_ne by done. naive_solver.
Qed.

Lemma fold_unindex_has (l : list V) i k u :
  idx_has (fold_left unindex l i) k u ↔ idx_has i k u ∧ ¬ ∃ v, v ∈ l ∧ entry_key v = k ∧ entry_id v = u.
Proof.
  revert i. induction l as [|v l IH]; intros i; cbn [fold_left].
  - split; [|tauto]. intros H. split; [done|]. by intros (v & ?%not_elem_of_nil & _).
  - rewrite IH. unfold unindex. rewrite idx_has_remove. setoid_rewrite elem_of_cons. naive_solver.
Qed.

Lemma fold_unindex_ok (l : list V) i : idx_ok i → idx_ok (fold_left unindex l i).
Proof. revert i. induction l; cbn; [done|]. intros. by apply IHl, idx_ok_remove. Qed.

Lemma elem_of_dropped keep s v :
  v ∈ dropped keep s ↔ keep v = false ∧ ∃ u, primary s !! u = Some v.
Proof.
  unfold dropped. rewrite list_elem_of_In, filter_In, <- list_elem_of_In, list_elem_of_fmap, negb_true_iff.
  split.
  - intros (([u x] & -> & Hin%elem_of_map_to_list) & ?). eauto.
  - intros (? & u & Hu). split; [|done]. exists (u, v). by rewrite elem_of_map_to_list.
Qed.

Lemma store_retain_consistent keep s : consistent s → consistent (store_retain keep s).
Proof.
  intros [Hok Hid Hex]. split; cbn.
  - by apply fold_unindex_ok.
  - intros u v [Hv _]%map_lookup_filter_Some. by apply Hid.
  - intros k u. rewrite fold_unindex_has, Hex. setoid_rewrite elem_of_dropped.
    setoid_rewrite map_lookup_filter_Some. cbn. split.
    + intros [(v & Hv & <-) Hn]. exists v. split; [split; [done|]|done].
      destruct (keep v) eqn:Hk; [done|]. exfalso. apply Hn. eauto 10.
    + intros (v & [Hv Hk] & <-). split; [eauto|]. intros (x & (Hkx & u' & Hx) & _ & Hxu).
      assert (u' = u) as -> by (by rewrite <- Hxu; symmetry; apply Hid). congruence.
Qed.

Lemma store_modify_consistent u f s :
  (∀ v, entry_id (f v) = entry_id v ∧ entry_key (f v) = entry_key v) →
  consistent s → consistent (store_modify u f s).
Proof.
  intros Hf [Hok Hid Hex]. split; cbn; [done| |].
  - intros u' v. destruct (decide (u = u')) as [->|]; [|rewrite lookup_alter_ne by done; apply Hid].
    rewrite lookup_alter_eq. intros (x & Hx & ->)%fmap_Some. rewrite (proj1 (Hf x)). by apply Hid.
  - intros k u'. rewrite Hex. destruct (decide (u = u')) as [->|]; [|by rewrite lookup_alter_ne].
    rewrite lookup_alter_eq. destruct (primary s !! u') as [x|]; cbn; [|naive_solver].
    split; intros (? & [= <-] & <-); eexists; (split; [done|]); by rewrite (proj2 (Hf x)).
Qed.

(** The weaker half of [consistent], which survives stale index entries: every
    entry of the map is found through the index. *)
Record covers (s : Store I V) : Prop := {
  cov_ok : idx_ok (index s);
  cov_id : ∀ u v, primary s !! u = Some v → entry_id v = u;
  cov_has : ∀ u v, primary s !! u = Some v → idx_has (index s) (entry_key v) u;
}.

Lemma consistent_covers s : consistent s → covers s.
Proof. intros [Hok Hid Hex]. split; [done|done|]. intros u v Hv. apply Hex. eauto. Qed.

Lemma store_insert_covers v s : covers s → covers (store_insert v s).
Proof.
  intros [Hok Hid Hhas]. split; cbn; [by apply idx_ok_insert| |].
  - intros u x [[<- <-]|[_ Hx]]%lookup_insert_Some; [done|by apply Hid].
  - intros u x Hx. rewrite idx_has_insert. apply lookup_insert_Some in Hx as [[<- <-]|[_ Hx]]; auto.
Qed.

Lemma store_remove_if_covers u f s : covers s → covers (store_remove_if u f s).2.
Proof.
  intros [Hok Hid Hhas]. unfold store_remove_if. destruct (primary s !! u) as [v|] eqn:Hv; [|done].
  destruct (f v); [|done]. split; cbn; unfold unindex.
  - by apply idx_ok_remove.
  - intros u' x [_ Hx]%lookup_delete_Some. by apply Hid.
  - intros u' x [Hne Hx]%lookup_delete_Some. rewrite idx_has_remove, (Hid _ _ Hv). split; [naive_solver|by apply Hhas].
Qed.

Lemma store_retain_covers keep s : covers s → covers (store_retain keep s).
Proof.
  intros [Hok Hid Hhas]. split; cbn.
  - by apply fold_unindex_ok.
  - intros u v [Hv _]%map_lookup_filter_Some. by apply Hid.
  - intros u v [Hv Hk]%map_lookup_filter_Some. cbn in Hk. rewrite fold_unindex_has. split; [by apply Hhas|].
    intros (x & (Hkx & u' & Hx)%elem_of_dropped & _ & Hxu). rewrite (Hid _ _ Hx) in Hxu. subst u'. congruence.
Qed.

(** Entries change in place, or vanish from the map only. *)
Lemma store_fmap_covers f s :
  (∀ v, entry_id (f v) = entry_id v ∧ entry_key (f v) = entry_key v) →
  covers s → covers (mkStore (f <$> primary s) (index s)).
Proof.
  intros Hf [Hok Hid Hhas]. split; cbn; [done| |]; intros u v; rewrite lookup_fmap;
    intros (x & Hx & ->)%fmap_Some; destruct (Hf x) as [Hi Hk]; rewrite ?Hi, ?Hk; auto.
Qed.
Lemma store_modify_covers u f s :
  (∀ v, entry_id (f v) = entry_id v ∧ entry_key (f v) = entry_key v) → covers s → covers (store_modify u f s).
Proof.
  intros Hf [Hok Hid Hhas]. split; cbn; [done| |]; intros u' v; destruct (decide (u = u')) as [->|];
    rewrite ?lookup_alter_eq, ?lookup_alter_ne by done; try apply Hid; try apply Hhas;
    intros (x & Hx & ->)%fmap_Some; destruct (Hf x) as [Hi Hk]; rewrite ?Hi, ?Hk; auto.
Qed.
Lemma store_drop_covers u s : covers s → covers (mkStore (delete u (primary s)) (index s)).
Proof. intros [Hok Hid Hhas]. split; cbn; [done| |]; intros u' v [_ ?]%lookup_delete_Some; auto. Qed.

(** Every history of the store: new entries have new ids. *)
Inductive store_step : Store I V → Store I V → Prop :=
| step_insert v s : primary s !! entry_id v = None → store_step s (store_insert v s)
| step_remove u f s : store_step s (store_remove_if u f s).2
| step_retain keep s : store_step s (store_retain keep s)
| step_modify u f s : (∀ v, entry_id (f v) = entry_id v ∧ entry_key (f v) = entry_key v) →
    store_step s (store_modify u f s).

Lemma reachable_consistent s : rtc store_step store_empty s → consistent s.
Proof.
  intros H. remember store_empty as s0. assert (consistent s0) as H0 by (subst; apply store_empty_consistent).
  clear Heqs0. induction H as [|x y z Hxy _ IH]; [done|]. apply IH. destruct Hxy.
  - apply store_insert_consistent; [done|congruence].
  - by apply store_remove_if_consistent.
  - by apply store_retain_consistent.
  - by apply store_modify_consistent.
Qed.
End store.

#[export] Hint Resolve store_empty_consistent store_remove_if_consistent store_retain_consistent
  store_modify_consistent reachable_consistent consistent_covers store_insert_covers store_remove_if_covers
  store_retain_covers store_drop_covers : rust.
