(* ===== verification/TopicIndex.v ===== *)
(** * Pending service tasks by topic

    engine-core/src/engine/topic_index.rs.  The topic index is an instance of
    [Index]; the pending service tasks with it are a [Store]. *)

From stdpp Require Import base list gmap strings.
From S2P Require Import Prelude Text Json Domain Token Runtime Index.
Local Open Scope rust_scope.

Abbreviation TopicIndex := (gmap string (gset Uuid)).

(** [insert]. *)
Definition topic_insert (topic : string) (id : Uuid) (idx : TopicIndex) : TopicIndex :=
  <[topic := {[id]} ∪ default ∅ (idx !! topic)]> idx.

(** [remove]: an empty topic is dropped. *)
Definition topic_remove (topic : string) (id : Uuid) (idx : TopicIndex) : TopicIndex :=
  match idx !! topic with
  | Some ids =>
    let ids := ids ∖ {[id]} in
    if bool_decide (ids = ∅) then delete topic idx else <[topic := ids]> idx
  | None => idx
  end.

(** [candidate_ids]: the inner loop over one set, then the loop over topics. *)
Fixpoint collect_ids (topic : string) (ids : list Uuid) (seen : gset Uuid) (out : list (string * Uuid))
    : gset Uuid * list (string * Uuid) :=
  match ids with
  | [] => (seen, out)
  | id :: ids =>
    if bool_decide (id ∈ seen) then collect_ids topic ids seen out
    else collect_ids topic ids ({[id]} ∪ seen) (out ++ [(topic, id)])
  end.
Fixpoint candidate_loop (idx : TopicIndex) (topics : list string) (seen : gset Uuid) (out : list (string * Uuid))
    : list (string * Uuid) :=
  match topics with
  | [] => out
  | topic :: topics =>
    match idx !! topic with
    | Some ids => let '(seen, out) := collect_ids topic (elements ids) seen out in candidate_loop idx topics seen out
    | None => candidate_loop idx topics seen out
    end
  end.
Definition candidate_ids (idx : TopicIndex) (topics : list string) : list (string * Uuid) :=
  candidate_loop idx topics ∅ [].

(** ** The instance of the interface *)

Lemma exists_elem_cons {A} (P : A → Prop) x l : (∃ y, y ∈ x :: l ∧ P y) ↔ P x ∨ ∃ y, y ∈ l ∧ P y.
Proof. setoid_rewrite elem_of_cons. naive_solver. Qed.

Lemma exists_Some_eq {A} (P : A → Prop) (a : A) : (∃ x, Some a = Some x ∧ P x) ↔ P a.
Proof. naive_solver. Qed.

#[export] Instance topic_ops : IndexOps TopicIndex string := {
  idx_empty := ∅;
  idx_insert := topic_insert;
  idx_remove := topic_remove;
  idx_has idx topic id := ∃ ids, idx !! topic = Some ids ∧ id ∈ ids;
  idx_ok idx := ∀ topic ids, idx !! topic = Some ids → ids ≠ ∅;
}.

#[export] Instance topic_index : Index TopicIndex string.
Proof.
  split.
  - intros topic ids. cbn. by rewrite lookup_empty.
  - intros topic id idx Hok topic' ids. cbn. unfold topic_insert.
    intros [[<- <-]|[_ Hi]]%lookup_insert_Some; [set_solver|by eapply Hok].
  - intros topic id idx Hok topic' ids. cbn. unfold topic_remove.
    destruct (idx !! topic) as [old|] eqn:Ho; [|apply Hok]. case_bool_decide as He.
    + intros [_ Hi]%lookup_delete_Some. by eapply Hok.
    + intros [[<- <-]|[_ Hi]]%lookup_insert_Some; [done|by eapply Hok].
  - intros topic id (ids & Hi & _). cbn in Hi. by rewrite lookup_empty in Hi.
  - intros topic id idx topic' id'. cbn. unfold topic_insert. destruct (decide (topic' = topic)) as [->|Hne].
    + rewrite lookup_insert_eq, exists_Some_eq, elem_of_union, elem_of_singleton.
      destruct (idx !! topic) as [ids|]; cbn; rewrite ?exists_Some_eq; [tauto|set_solver].
    + rewrite lookup_insert_ne by done. naive_solver.
  - intros topic id idx topic' id'. cbn. unfold topic_remove.
    destruct (idx !! topic) as [ids|] eqn:Ho; [|naive_solver].
    destruct (decide (topic' = topic)) as [->|Hne]; case_bool_decide as He.
    + rewrite lookup_delete_eq, Ho, exists_Some_eq. split; [by intros (? & ? & _)|]. set_solver.
    + rewrite lookup_insert_eq, Ho, !exists_Some_eq, elem_of_difference, elem_of_singleton. tauto.
    + rewrite lookup_delete_ne by done. naive_solver.
    + rewrite lookup_insert_ne by done. naive_solver.
Qed.

#[export] Instance service_task_keyed : Keyed PendingServiceTask string :=
  {| entry_id := st_id; entry_key := st_topic |}.

(** ** The engine's operations *)

Abbreviation ServiceTasks := (Store TopicIndex PendingServiceTask).

Definition insert_pending_service_task (task : PendingServiceTask) (s : ServiceTasks) : ServiceTasks :=
  store_insert task s.
Definition remove_pending_service_task (id : Uuid) (s : ServiceTasks) : option PendingServiceTask * ServiceTasks :=
  store_remove id s.
Definition remove_pending_service_task_if (id : Uuid) (f : PendingServiceTask → bool) (s : ServiceTasks)
    : option PendingServiceTask * ServiceTasks := store_remove_if id f s.
Definition clear_pending_service_tasks_for_instance (instance_id : Uuid) (s : ServiceTasks) : ServiceTasks :=
  store_retain (λ t, negb (bool_decide (st_instance_id t = instance_id))) s.

(** ** Candidates *)

Lemma collect_ids_spec topic ids seen out seen' out' :
  collect_ids topic ids seen out = (seen', out') →
  (∀ x, x ∈ seen ↔ x ∈ out.*2) → NoDup out.*2 →
  (∀ x, x ∈ seen' ↔ x ∈ out'.*2) ∧ NoDup out'.*2 ∧
  (∀ x, x ∈ out'.*2 ↔ x ∈ out.*2 ∨ x ∈ ids) ∧ (∀ p, p ∈ out' → p ∈ out ∨ p.1 = topic ∧ p.2 ∈ ids).
Proof.
  revert seen out. induction ids as [|id ids IH]; intros seen out; cbn [collect_ids].
  - intros [= <- <-] Hseen Hnd. set_solver.
  - case_bool_decide as Hin; intros Hc Hseen Hnd.
    + destruct (IH _ _ Hc Hseen Hnd) as (? & ? & Hout & Hp). split_and!; [done..| |set_solver].
      intros x. rewrite Hout, elem_of_cons. rewrite Hseen in Hin. naive_solver.
    + destruct (IH _ _ Hc) as (? & ? & Hout & Hp).
      * intros x. rewrite fmap_app, elem_of_app, elem_of_union, elem_of_singleton, Hseen. set_solver.
      * rewrite fmap_app. apply NoDup_app. rewrite Hseen in Hin. split_and!; [done|set_solver|apply NoDup_singleton].
      * split_and!; [done..| |].
        -- intros x. rewrite Hout, fmap_app. set_solver.
        -- intros p [[?|Hq]%elem_of_app|?]%Hp; [by left| |set_solver].
           apply list_elem_of_singleton in Hq as ->. right. set_solver.
Qed.

Lemma candidate_loop_spec idx topics seen out :
  (∀ x, x ∈ seen ↔ x ∈ out.*2) → NoDup out.*2 →
  let c := candidate_loop idx topics seen out in
  NoDup c.*2 ∧ (∀ x, x ∈ c.*2 ↔ x ∈ out.*2 ∨ ∃ topic, topic ∈ topics ∧ idx_has idx topic x) ∧
  (∀ p, p ∈ c → p ∈ out ∨ p.1 ∈ topics ∧ idx_has idx p.1 p.2).
Proof.
  revert seen out. induction topics as [|topic topics IH]; intros seen out Hseen Hnd; cbn [candidate_loop].
  - split_and!; [done| |by left]. intros x. split; [by left|]. intros [?|(? & ?%not_elem_of_nil & _)]; done.
  - assert (∀ x, idx_has idx topic x ↔ ∃ ids, idx !! topic = Some ids ∧ x ∈ elements ids) as Hhas.
    { intros x. cbn. by setoid_rewrite elem_of_elements. }
    destruct (idx !! topic) as [ids|].
    + destruct (collect_ids topic (elements ids) seen out) as [seen' out'] eqn:Hc.
      apply collect_ids_spec in Hc as (Hs' & Hnd' & Hout & Hp); [|done..].
      destruct (IH _ _ Hs' Hnd') as (H1 & H2 & H3). split_and!; [done| |].
      * intros x. rewrite H2, Hout, exists_elem_cons, Hhas, exists_Some_eq. tauto.
      * intros p [[?|[-> Hin]]%Hp|[??]]%H3; [by left|right|set_solver].
        split; [set_solver|]. apply Hhas. eauto.
    + destruct (IH _ _ Hseen Hnd) as (H1 & H2 & H3). split_and!; [done| |].
      * intros x. rewrite H2, exists_elem_cons, Hhas. naive_solver.
      * intros p [?|[??]]%H3; [by left|right]. set_solver.
Qed.

Lemma candidate_ids_consistent (s : ServiceTasks) (topics : list string) :
  consistent s →
  let c := candidate_ids (index s) topics in
  NoDup c.*2 ∧
  (∀ id, id ∈ c.*2 ↔ ∃ task, primary s !! id = Some task ∧ st_topic task ∈ topics) ∧
  (∀ topic id, (topic, id) ∈ c → ∃ task, primary s !! id = Some task ∧ st_topic task = topic).
Proof.
  intros [_ _ Hex]. unfold candidate_ids.
  destruct (candidate_loop_spec (index s) topics ∅ []) as (H1 & H2 & H3); [set_solver|constructor|].
  split_and!; [done| |].
  - intros id. rewrite H2. setoid_rewrite Hex. cbn. set_solver.
  - intros topic id [?%not_elem_of_nil|[_ Hh%Hex]]%H3; done.
Qed.

(** After any history of insertions (of new ids), removals, conditional removals,
    clean-ups of an instance and in-place updates, the candidates of a list of
    topics are exactly the pending service tasks of those topics: none is
    missed, none is stale, and none occurs twice, even when a topic is repeated. *)
Theorem candidate_ids_exact (s : ServiceTasks) (topics : list string) :
  rtc store_step store_empty s →
  let c := candidate_ids (index s) topics in
  NoDup c.*2 ∧
  (∀ id, id ∈ c.*2 ↔ ∃ task, primary s !! id = Some task ∧ st_topic task ∈ topics) ∧
  (∀ topic id, (topic, id) ∈ c → ∃ task, primary s !! id = Some task ∧ st_topic task = topic).
Proof. intros Hr. by apply candidate_ids_consistent, reachable_consistent. Qed.

(** ** A concrete history *)

Definition example_task (id : Uuid) (topic : string) : PendingServiceTask :=
  mkServiceTask id 7 1 "task" topic 3 None ∅ 0 None None 3 None None.
Definition example_tasks : ServiceTasks :=
  (remove_pending_service_task 10 (insert_pending_service_task (example_task 11 "mail")
     (insert_pending_service_task (example_task 10 "mail") store_empty))).2.

Lemma candidate_ids_exact_witness :
  candidate_ids (index example_tasks) ["mail"; "mail"] = [("mail", 11%N)] ∧
  NoDup (candidate_ids (index example_tasks) ["mail"; "mail"]).*2.
Proof.
  split; [vm_compute; reflexivity|].
  refine (proj1 (candidate_ids_exact example_tasks ["mail"; "mail"] _)).
  eapply rtc_l; [apply (step_insert (example_task 10 "mail")); vm_compute; reflexivity|].
  eapply rtc_l; [apply (step_insert (example_task 11 "mail")); vm_compute; reflexivity|].
  eapply rtc_l; [apply (step_remove 10 (λ _, true))|]. reflexivity.
Defined.
