(* ===== verification/TimerIndex.v ===== *)
(** * Pending timers by due time

    engine-core/src/engine/timer_index.rs.  The [BTreeMap] keyed by (due, id) is
    the list of its keys in ascending order; it is an instance of [Index], and
    the pending timers with it are a [Store].  [sleep_deadline] and
    [wait_for_timer_work] decide how long the scheduler sleeps. *)

From stdpp Require Import base list gmap strings sorting.
From S2P Require Import Prelude Text Json Domain Token Runtime Index.
Local Open Scope rust_scope.

Abbreviation TimerDueIndex := (list (DateTime * Uuid)).

(** The order of the keys: by due time, then by id. *)
Definition key_lt (a b : DateTime * Uuid) : Prop := (a.1 < b.1)%Z ∨ a.1 = b.1 ∧ (a.2 < b.2)%N.
Definition key_ltb (a b : DateTime * Uuid) : bool :=
  (a.1 <? b.1)%Z || (a.1 =? b.1)%Z && (a.2 <? b.2)%N.

(** [insert] and [remove] of the ordered map. *)
Fixpoint due_insert_key (k : DateTime * Uuid) (idx : TimerDueIndex) : TimerDueIndex :=
  match idx with
  | [] => [k]
  | x :: idx =>
    if key_ltb k x then k :: x :: idx
    else if key_ltb x k then x :: due_insert_key k idx
    else x :: idx
  end.
Definition due_insert (due : DateTime) (id : Uuid) (idx : TimerDueIndex) : TimerDueIndex :=
  due_insert_key (due, id) idx.
Definition due_remove (due : DateTime) (id : Uuid) (idx : TimerDueIndex) : TimerDueIndex :=
  List.filter (λ k, negb (bool_decide (k = (due, id)))) idx.

(** [Uuid::from_u128(u128::MAX)]. *)
Definition uuid_max : Uuid := 340282366920938463463374607431768211455.

(** [due_ids]: the range up to and including [(now, MAX)]. *)
Definition due_ids (idx : TimerDueIndex) (now : DateTime) : list Uuid :=
  (List.filter (λ k, negb (key_ltb (now, uuid_max) k)) idx).*2.

(** [next_due_after]: the first key strictly after [(now, MAX)]. *)
Definition next_due_after (idx : TimerDueIndex) (now : DateTime) : option DateTime :=
  fst <$> List.find (key_ltb (now, uuid_max)) idx.

(** ** Orders *)

Lemma key_ltb_lt a b : key_ltb a b = true ↔ key_lt a b.
Proof.
  unfold key_ltb, key_lt. rewrite orb_true_iff, andb_true_iff, Z.ltb_lt, Z.eqb_eq, N.ltb_lt. done.
Qed.

Lemma key_ltb_ge a b : key_ltb a b = false ↔ ¬ key_lt a b.
Proof. rewrite <- key_ltb_lt. by destruct (key_ltb a b). Qed.

Lemma key_lt_total a b : key_lt a b ∨ a = b ∨ key_lt b a.
Proof. destruct a as [t u], b as [t' u']. unfold key_lt. cbn.
  destruct (Z.lt_trichotomy t t') as [|[->|]]; [tauto| |tauto].
  destruct (N.lt_trichotomy u u') as [|[->|]]; tauto.
Qed.

#[export] Instance key_lt_trans : Transitive key_lt.
Proof. intros [] [] []. unfold key_lt. cbn. lia. Qed.

Lemma due_insert_elem k idx x : x ∈ due_insert_key k idx ↔ x = k ∨ x ∈ idx.
Proof.
  induction idx as [|y idx IH]; cbn [due_insert_key]; [set_solver|].
  destruct (key_ltb k y) eqn:H1; [set_solver|]. destruct (key_ltb y k) eqn:H2.
  - rewrite !elem_of_cons, IH. tauto.
  - rewrite key_ltb_ge in H1, H2. destruct (key_lt_total k y) as [?|[->|?]]; [tauto| |tauto]. set_solver.
Qed.

Lemma due_insert_sorted k idx :
  StronglySorted key_lt idx → StronglySorted key_lt (due_insert_key k idx).
Proof.
  induction 1 as [|y idx Hs IH Hy]; cbn [due_insert_key]; [by repeat constructor|].
  destruct (key_ltb k y) eqn:H1.
  - apply key_ltb_lt in H1. constructor; [by constructor|]. constructor; [done|].
    eapply Forall_impl; [exact Hy|]. intros z ?. by trans y.
  - destruct (key_ltb y k) eqn:H2; [|by constructor]. apply key_ltb_lt in H2. constructor; [done|].
    rewrite Forall_forall in Hy |- *. intros z [->|?]%due_insert_elem; [done|by apply Hy].
Qed.

Lemma elem_of_filter_bool {A} (p : A → bool) l x : x ∈ List.filter p l ↔ x ∈ l ∧ p x = true.
Proof. by rewrite list_elem_of_In, filter_In, <- list_elem_of_In. Qed.

Lemma filter_sorted {A} (R : A → A → Prop) (p : A → bool) l :
  StronglySorted R l → StronglySorted R (List.filter p l).
Proof.
  induction 1 as [|x l Hl IH Hx]; cbn; [constructor|]. destruct (p x); [|done]. constructor; [done|].
  rewrite Forall_forall in Hx |- *. intros y [? _]%elem_of_filter_bool. by apply Hx.
Qed.

(** ** The instance of the interface *)

#[export] Instance due_ops : IndexOps TimerDueIndex DateTime := {
  idx_empty := [];
  idx_insert := due_insert;
  idx_remove := due_remove;
  idx_has idx due id := (due, id) ∈ idx;
  idx_ok := StronglySorted key_lt;
}.

#[export] Instance due_index : Index TimerDueIndex DateTime.
Proof.
  split; cbn.
  - constructor.
  - intros. by apply due_insert_sorted.
  - intros. by apply filter_sorted.
  - intros k u. apply not_elem_of_nil.
  - intros. unfold due_insert. rewrite due_insert_elem. naive_solver.
  - intros. unfold due_remove. rewrite elem_of_filter_bool, negb_true_iff, bool_decide_eq_false. naive_solver.
Qed.

#[export] Instance timer_keyed : Keyed PendingTimer DateTime :=
  {| entry_id := pt_id; entry_key := pt_expires_at |}.

(** ** The engine's operations *)

Abbreviation Timers := (Store TimerDueIndex PendingTimer).

Definition insert_pending_timer (timer : PendingTimer) (s : Timers) : Timers := store_insert timer s.
Definition remove_pending_timer (id : Uuid) (s : Timers) : option PendingTimer * Timers := store_remove id s.
Definition retain_pending_timers (keep : PendingTimer → bool) (s : Timers) : Timers := store_retain keep s.

Definition is_suspended (st : InstanceState) : bool := match st with Suspended _ => true | _ => false end.

(** The loops of [has_actionable_due_timer] and of the first half of
    [process_timers]: a due timer of an instance that is not suspended. *)
Definition actionable (instances : gmap Uuid ProcessInstance) (s : Timers) (now : DateTime) (id : Uuid) : bool :=
  match primary s !! id with
  | Some timer =>
    if (now <? pt_expires_at timer)%Z then false
    else
      match instances !! pt_instance_id timer with
      | Some i => negb (is_suspended (pi_state i))
      | None => true
      end
  | None => false
  end.
Definition has_actionable_due_timer (instances : gmap Uuid ProcessInstance) (s : Timers) (now : DateTime) : bool :=
  existsb (actionable instances s now) (due_ids (index s) now).
Definition expired_timers (instances : gmap Uuid ProcessInstance) (s : Timers) (now : DateTime) : list Uuid :=
  List.filter (actionable instances s now) (due_ids (index s) now).

(** Instants are nanoseconds since an origin; [instant_max] is the largest one
    the platform represents. *)
Definition checked_add (instant_max origin d : Z) : option Z :=
  if (origin + d <=? instant_max)%Z then Some (origin + d)%Z else None.

(** [sleep_deadline]; the current instant is an argument. *)
Definition sleep_deadline (instant_max origin : Z) (due : option DateTime) (now : DateTime) (max_idle : Duration) : Z :=
  let idle_at := default origin (checked_add instant_max origin max_idle) in
  match due with
  | None => idle_at
  | Some due =>
    if (due <=? now)%Z then origin
    else if (due - now <? 0)%Z then idle_at
    else default idle_at (checked_add instant_max origin ((due - now) `min` max_idle)%Z)
  end.

(** [wait_for_timer_work]: the instant at which it returns.  A notification wakes it early;
    it is registered before the index is read, so none is lost. *)
Definition wait_for_timer_work (instances : gmap Uuid ProcessInstance) (s : Timers) (instant_max origin : Z) (now : DateTime)
    (max_idle : Duration) (notified : option Z) : Z :=
  if has_actionable_due_timer instances s now then origin
  else
    let deadline := sleep_deadline instant_max origin (next_due_after (index s) now) now max_idle in
    from_option (Z.min deadline) deadline notified.

(** ** Properties *)

(** The ids of the timers are 128-bit numbers. *)
Definition valid_ids (s : Timers) : Prop := ∀ u t, primary s !! u = Some t → (u ≤ uuid_max)%N.

Lemma key_le_now now due id : (id ≤ uuid_max)%N → key_ltb (now, uuid_max) (due, id) = false ↔ (due ≤ now)%Z.
Proof. intros. rewrite key_ltb_ge. unfold key_lt. cbn. lia. Qed.

Lemma due_ids_elem s now id :
  consistent s → valid_ids s →
  id ∈ due_ids (index s) now ↔ ∃ t, primary s !! id = Some t ∧ (pt_expires_at t ≤ now)%Z.
Proof.
  intros [_ _ Hex] Hv. unfold due_ids. rewrite list_elem_of_fmap. cbn in Hex. split.
  - intros ([due id'] & -> & [Hin Hn%negb_true_iff]%elem_of_filter_bool).
    apply Hex in Hin as (t & Ht & <-). exists t. split; [done|]. eapply (key_le_now now); [|done]. by eapply Hv.
  - intros (t & Ht & Hle). exists (pt_expires_at t, id). split; [done|]. apply elem_of_filter_bool.
    split; [apply Hex; eauto|]. apply negb_true_iff, key_le_now; [by eapply Hv|done].
Qed.

Lemma due_keys_sorted s now :
  consistent s → StronglySorted key_lt (List.filter (λ k, negb (key_ltb (now, uuid_max) k)) (index s)).
Proof. intros [Hok _ _]. by apply filter_sorted. Qed.

(** After any history of the timer store the due timers are exactly the pending
    ones whose time has come, each once, earliest first. *)
Theorem due_ids_exact (s : Timers) (now : DateTime) :
  rtc store_step store_empty s → valid_ids s →
  (∀ id, id ∈ due_ids (index s) now ↔ ∃ t, primary s !! id = Some t ∧ (pt_expires_at t ≤ now)%Z) ∧
  NoDup (due_ids (index s) now) ∧
  (∀ i j x y, i < j → due_ids (index s) now !! i = Some x → due_ids (index s) now !! j = Some y →
     ∃ tx ty, primary s !! x = Some tx ∧ primary s !! y = Some ty ∧ (pt_expires_at tx ≤ pt_expires_at ty)%Z).
Proof.
  intros Hr Hv. assert (consistent s) as Hc by eauto with rust typeclass_instances. split; [intros; by apply due_ids_elem|].
  pose proof (due_keys_sorted s now Hc) as Hs. destruct Hc as [_ _ Hex]. cbn in Hex.
  unfold due_ids. set (l := List.filter _ _) in *.
  assert (∀ k, k ∈ l → ∃ t, primary s !! k.2 = Some t ∧ pt_expires_at t = k.1) as Hl.
  { intros [due id] [Hin _]%elem_of_filter_bool. by apply Hex. }
  clearbody l. split.
  - induction Hs as [|k l Hs IH Hk]; [constructor|]. rewrite fmap_cons. constructor; [|apply IH; set_solver].
    intros (k' & Heq & Hk')%list_elem_of_fmap. rewrite Forall_forall in Hk. specialize (Hk k' Hk').
    destruct (Hl k) as (t & Ht & Hd); [set_solver|]. destruct (Hl k') as (t' & Ht' & Hd'); [set_solver|].
    rewrite Heq in Ht. assert (t = t') as -> by congruence. unfold key_lt in Hk. rewrite Heq in Hk. lia.
  - intros i j x y Hij. rewrite !list_lookup_fmap. intros (kx & Hx & ->)%fmap_Some (ky & Hy & ->)%fmap_Some.
    assert (key_lt kx ky) as Hlt.
    { clear Hl. revert i j Hij Hx Hy. induction Hs as [|k l Hs IH Hk]; intros [|i] [|j] Hij Hx Hy; try lia; try done.
      - injection Hx as ->. rewrite Forall_forall in Hk. apply Hk. by eapply list_elem_of_lookup_2.
      - apply (IH i j); [lia|done..]. }
    destruct (Hl kx) as (tx & ? & Hdx); [by eapply list_elem_of_lookup_2|].
    destruct (Hl ky) as (ty & ? & Hdy); [by eapply list_elem_of_lookup_2|].
    exists tx, ty. split_and!; [done..|]. unfold key_lt in Hlt. lia.
Qed.

Lemma find_sorted_min (p : DateTime * Uuid → bool) l :
  StronglySorted key_lt l →
  match List.find p l with
  | Some k => k ∈ l ∧ p k = true ∧ ∀ x, x ∈ l → p x = true → x = k ∨ key_lt k x
  | None => ∀ x, x ∈ l → p x = false
  end.
Proof.
  induction 1 as [|y l Hl IH Hy]; cbn; [set_solver|]. rewrite Forall_forall in Hy.
  destruct (p y) eqn:Hp.
  - split_and!; [set_solver|done|]. intros x [->|?]%elem_of_cons _; [by left|right; by apply Hy].
  - destruct (List.find p l) as [k|]; [|set_solver]. destruct IH as (? & ? & Hmin).
    split_and!; [set_solver|done|]. intros x [->|?]%elem_of_cons ?; [congruence|by apply Hmin].
Qed.

Lemma next_due_after_spec s now :
  consistent s → valid_ids s →
  match next_due_after (index s) now with
  | Some due => (now < due)%Z ∧ (∃ u t, primary s !! u = Some t ∧ pt_expires_at t = due) ∧
      ∀ u t, primary s !! u = Some t → (now < pt_expires_at t)%Z → (due ≤ pt_expires_at t)%Z
  | None => ∀ u t, primary s !! u = Some t → (pt_expires_at t ≤ now)%Z
  end.
Proof.
  intros [Hok _ Hex] Hv. cbn in Hok, Hex. unfold next_due_after.
  pose proof (find_sorted_min (key_ltb (now, uuid_max)) (index s) Hok) as Hmin.
  assert (∀ u t, primary s !! u = Some t →
    (pt_expires_at t, u) ∈ index s ∧ (key_ltb (now, uuid_max) (pt_expires_at t, u) = false ↔ (pt_expires_at t ≤ now)%Z)) as Hkey.
  { intros u t Ht. split; [apply Hex; eauto|]. apply key_le_now. by eapply Hv. }
  destruct (List.find _ _) as [[due u]|]; cbn.
  - destruct Hmin as (Hin & Hp & Hmin). apply Hex in Hin as (t & Ht & <-). destruct (Hkey _ _ Ht) as [_ Hlt].
    split; [|split; [by eauto|]].
    + apply Z.nle_gt. rewrite <- Hlt. congruence.
    + intros u' t' Ht' Hlt'. destruct (Hkey _ _ Ht') as [Hin' Hk'].
      assert (key_ltb (now, uuid_max) (pt_expires_at t', u') = true) as Hp'.
      { destruct (key_ltb _ (_, u')); [done|]. pose proof (proj1 Hk' eq_refl). lia. }
      destruct (Hmin _ Hin' Hp') as [[= -> ->]|Hd]; [done|]. unfold key_lt in Hd. cbn in Hd. lia.
  - intros u t Ht. destruct (Hkey _ _ Ht) as [Hin Hk]. apply Hk. by apply Hmin.
Qed.

(** The timer scheduler sleeps at most [max_idle], never past the due time of a
    timer that is still in the future, and never for no time at all, so it
    neither misses a timer nor spins. *)
Theorem sleep_deadline_spec (s : Timers) (now : DateTime) (instant_max origin : Z) (max_idle : Duration) :
  rtc store_step store_empty s → valid_ids s → (0 < max_idle)%Z → (origin + max_idle ≤ instant_max)%Z →
  let wake := sleep_deadline instant_max origin (next_due_after (index s) now) now max_idle in
  (origin < wake ≤ origin + max_idle)%Z ∧
  ∀ u t, primary s !! u = Some t → (now < pt_expires_at t)%Z → (wake - origin ≤ pt_expires_at t - now)%Z.
Proof.
  intros Hr Hv Hidle Hmax wake. assert (consistent s) as Hc by eauto with rust typeclass_instances.
  pose proof (next_due_after_spec s now Hc Hv) as Hn. subst wake. unfold sleep_deadline, checked_add.
  assert ((origin + max_idle <=? instant_max)%Z = true) as Hle by lia. rewrite Hle. cbn [default from_option].
  destruct (next_due_after (index s) now) as [due|].
  - destruct Hn as (Hlt & _ & Hall).
    assert ((due <=? now)%Z = false) as -> by lia. assert ((due - now <? 0)%Z = false) as -> by lia.
    assert ((origin + (due - now) `min` max_idle <=? instant_max)%Z = true) as -> by lia.
    cbn. split; [lia|]. intros u t Ht Hf. specialize (Hall u t Ht Hf). lia.
  - cbn. split; [lia|]. intros u t Ht Hf. specialize (Hn u t Ht). lia.
Qed.

(** The scheduler goes straight to work exactly when some pending timer is due and
    its instance is not suspended; those are the timers the round fires. *)
Theorem has_actionable_due_timer_spec instances (s : Timers) now :
  rtc store_step store_empty s → valid_ids s →
  let fires id := ∃ t, primary s !! id = Some t ∧ (pt_expires_at t ≤ now)%Z ∧
    ∀ i, instances !! pt_instance_id t = Some i → is_suspended (pi_state i) = false in
  (∀ id, id ∈ expired_timers instances s now ↔ fires id) ∧
  (has_actionable_due_timer instances s now = true ↔ ∃ id, fires id).
Proof.
  intros Hr Hv fires. assert (consistent s) as Hc by eauto with rust typeclass_instances.
  assert (∀ id, id ∈ due_ids (index s) now ∧ actionable instances s now id = true ↔ fires id) as Hf.
  { intros id. rewrite due_ids_elem by done. unfold actionable, fires. split.
    - intros [(t & Ht & Hle) Ha]. rewrite Ht in Ha. exists t. split_and!; [done..|]. intros i Hi.
      destruct (Z.ltb_spec now (pt_expires_at t)); [done|]. rewrite Hi in Ha. by apply negb_true_iff in Ha.
    - intros (t & Ht & Hle & Hs). split; [by eauto|]. rewrite Ht.
      destruct (Z.ltb_spec now (pt_expires_at t)); [lia|].
      destruct (instances !! pt_instance_id t) as [i|]; [|done]. by rewrite (Hs i eq_refl). }
  split.
  - intros id. unfold expired_timers. rewrite elem_of_filter_bool. apply Hf.
  - unfold has_actionable_due_timer. rewrite existsb_exists. split.
    + intros (id & Hin%list_elem_of_In & Ha). exists id. by apply Hf.
    + intros (id & [Hin Ha]%Hf). exists id. by rewrite <- list_elem_of_In.
Qed.

(** The wait of the scheduler ends at once when there is work, and otherwise not before
    something happened and not after the first timer of the future is due. *)
Lemma wait_for_timer_work_spec instances (s : Timers) now instant_max origin max_idle notified :
  rtc store_step store_empty s → valid_ids s → (0 < max_idle)%Z → (origin + max_idle ≤ instant_max)%Z →
  (∀ at_, notified = Some at_ → origin ≤ at_)%Z →
  let wake := wait_for_timer_work instances s instant_max origin now max_idle notified in
  (origin ≤ wake ≤ origin + max_idle)%Z ∧
  ((∃ id, id ∈ expired_timers instances s now) → wake = origin) ∧
  ((∀ id, id ∉ expired_timers instances s now) → notified = None → (origin < wake)%Z) ∧
  ∀ u t, primary s !! u = Some t → (now < pt_expires_at t)%Z → (wake - origin ≤ pt_expires_at t - now)%Z.
Proof.
  intros Hr Hv Hidle Hmax Hn wake. destruct (sleep_deadline_spec s now instant_max origin max_idle Hr Hv Hidle Hmax) as [Hb Ht].
  assert (has_actionable_due_timer instances s now = true ↔ ∃ id, id ∈ expired_timers instances s now) as Ha.
  { destruct (has_actionable_due_timer_spec instances s now Hr Hv) as [H1 H2]. rewrite H2. split; intros [id H]; exists id; by apply H1. }
  subst wake. unfold wait_for_timer_work. destruct (has_actionable_due_timer instances s now).
  - split; [lia|]. split; [done|]. split; [|intros; lia]. intros Hnone. destruct (proj1 Ha eq_refl) as [id Hid]. by apply Hnone in Hid.
  - set (deadline := sleep_deadline _ _ _ _ _) in *.
    assert (origin ≤ from_option (Z.min deadline) deadline notified ≤ deadline)%Z as Hw.
    { destruct notified as [at_|]; cbn; [specialize (Hn at_ eq_refl)|]; lia. }
    split; [lia|]. split; [intros H; by apply Ha in H|]. split; [intros _ ->; cbn; lia|]. intros u t Hu Hf. specialize (Ht u t Hu Hf). lia.
Qed.

(** ** A concrete history *)

Definition example_timer (id : Uuid) (due : DateTime) : PendingTimer := mkTimer id 7 "timer" due 3 None None.
Definition example_timers : Timers :=
  insert_pending_timer (example_timer 11 50) (insert_pending_timer (example_timer 10 90) store_empty).
Lemma example_timers_reachable : rtc store_step store_empty example_timers.
Proof.
  eapply rtc_l; [apply (step_insert (example_timer 10 90)); vm_compute; reflexivity|].
  eapply rtc_l; [apply (step_insert (example_timer 11 50)); vm_compute; reflexivity|]. reflexivity.
Qed.
Lemma example_timers_valid : valid_ids example_timers.
Proof.
  intros u t H. apply elem_of_map_to_list in H. vm_compute in H.
  repeat (apply elem_of_cons in H as [[= -> _]|H]; [vm_compute; discriminate|]). by apply not_elem_of_nil in H.
Qed.

Lemma due_ids_exact_witness :
  due_ids (index example_timers) 60 = [11%N] ∧ NoDup (due_ids (index example_timers) 60).
Proof.
  split; [vm_compute; reflexivity|].
  exact (proj1 (proj2 (due_ids_exact example_timers 60 example_timers_reachable example_timers_valid))).
Defined.

Lemma sleep_deadline_spec_witness :
  (5 < sleep_deadline 1000 5 (next_due_after (index example_timers) 60) 60 100 ≤ 5 + 100)%Z.
Proof.
  refine (proj1 (sleep_deadline_spec example_timers 60 1000 5 100 example_timers_reachable example_timers_valid _ _)); lia.
Defined.

Lemma has_actionable_due_timer_spec_witness :
  has_actionable_due_timer ∅ example_timers 60 = true ↔
  ∃ id t, primary example_timers !! id = Some t ∧ (pt_expires_at t ≤ 60)%Z ∧
    ∀ i, (∅ : gmap Uuid ProcessInstance) !! pt_instance_id t = Some i → is_suspended (pi_state i) = false.
Proof.
  exact (proj2 (has_actionable_due_timer_spec ∅ example_timers 60 example_timers_reachable example_timers_valid)).
Defined.
