(* ===== verification/Engine.v ===== *)
(** * The engine's state and its effects

    engine-core/src/engine/mod.rs ([WorkflowEngine]), instance_store.rs, events.rs
    and the requests of persistence_ops.rs.  An operation of the engine is a state
    transformer [M A] over the engine's maps that returns a value or a [Fault];
    what it changed before a fault stays changed.  Calls to the persistence port,
    the history and the event channel are recorded in [e_trace], in order.
    [Utc::now()] reads [e_now]; [Uuid::new_v4()] takes the next number of a supply,
    so ids do not repeat.  Each instance has its own lock and an operation is
    modelled as running alone.  A persistence store is configured; whether it
    answers, the inline retries and the limit on the payload of one save are
    the store's side of a request. *)

From stdpp Require Import base list gmap strings pretty.
From S2P Require Import Prelude Text Json Domain Token ProcessDef MessageRouting Runtime History Registry Index TopicIndex TimerIndex.
Local Open Scope rust_scope.

(** [EngineEvent]. *)
Inductive EngineEvent := InstanceChanged | TaskChanged | DefinitionChanged.

Inductive Effect :=
| PersistInstance (id : Uuid)
| PersistUserTask (id : Uuid)
| PersistServiceTask (id : Uuid)
| PersistTimer (id : Uuid)
| PersistMessageCatch (id : Uuid)
| PersistSignalCatch (id : Uuid)
| PersistConditionalCatch (id : Uuid)
| DeleteInstance (id : Uuid)
| DeleteUserTask (id : Uuid)
| DeleteServiceTask (id : Uuid)
| DeleteTimer (id : Uuid)
| DeleteMessageCatch (id : Uuid)
| DeleteSignalCatch (id : Uuid)
| DeleteConditionalCatch (id : Uuid)
| ArchiveInstance (id : Uuid)
| PersistDefinition (key : Uuid)
| DeleteDefinition (key : Uuid)
| PersistCollection (id : Uuid)
| DeleteFile (object_key : string)
| NotifyServiceTasks
| EmitEvent (ev : EngineEvent)
| History (entry : HistoryEntry).

(** [WorkflowEngine]: the fields the modelled operations use, then the clock,
    the supply of ids and the trace. *)
Record Engine := mkEngine {
  e_definitions : DefinitionRegistry;
  e_instances : gmap Uuid ProcessInstance;
  e_user_tasks : gmap Uuid PendingUserTask;
  e_service_tasks : ServiceTasks;
  e_task_handlers : gset string;
  e_inflight : gset Uuid;
  e_timers : Timers;
  e_message_catches : gmap Uuid PendingMessageCatch;
  e_signal_catches : gmap Uuid PendingSignalCatch;
  e_conditional_catches : gmap Uuid PendingConditionalCatch;
  e_routes : gmap Uuid (list PinnedMessageRoute);
  e_now : DateTime;
  e_uuid : Uuid;
  e_trace : list Effect;
}.
#[export] Instance Engine_settable : Settable Engine := λ r,
  mkEngine (e_definitions r) (e_instances r) (e_user_tasks r) (e_service_tasks r) (e_task_handlers r) (e_inflight r)
    (e_timers r) (e_message_catches r) (e_signal_catches r) (e_conditional_catches r) (e_routes r) (e_now r) (e_uuid r)
    (e_trace r).

(** [EngineError]'s [Display]. *)
Definition error_text (err : EngineError) : string :=
  match err with
  | InvalidDefinition msg => "Invalid definition: " +:+ msg
  | DataMappingError msg => "Data mapping failed: " +:+ msg
  | NoSuchNode id => "No such node: " +:+ id
  | NoSuchDefinition key => "No such definition: " +:+ pretty key
  | NoSuchInstance id => "No such instance: " +:+ pretty id
  | TaskNotPending task_id state =>
    "Task '" +:+ pretty task_id +:+ "' is not pending (current state: " +:+ state +:+ ")"
  | AlreadyCompleted => "Process instance has already completed"
  | TimerMismatch expected provided =>
    "Timer mismatch: expected " +:+ pretty expected +:+ "s, got " +:+ pretty provided +:+ "s"
  | NoMatchingCondition gateway => "No matching condition at gateway '" +:+ gateway +:+ "'"
  | ServiceTaskNotFound id => "Service task not found: " +:+ pretty id
  | ServiceTaskLocked task_id worker =>
    "Service task '" +:+ pretty task_id +:+ "' is locked by worker '" +:+ worker +:+ "'"
  | ServiceTaskNotLocked id => "Service task '" +:+ pretty id +:+ "' is not locked"
  | DefinitionHasInstances n => "Cannot delete definition: " +:+ pretty n +:+ " instances still exist"
  | OrphanedToken node =>
    "Orphaned token: node '" +:+ node +:+ "' has no entry in the target definition and no mapping"
  | PersistenceError msg => "Persistence error: " +:+ msg
  | ScriptError msg => "Script error: " +:+ msg
  | ExecutionLimitExceeded msg => "Execution limit exceeded: " +:+ msg
  | InstanceSuspended id => "Instance '" +:+ pretty id +:+ "' is suspended"
  | IncidentNotFound id => "Incident not found: " +:+ pretty id
  | IncidentAlreadyResolved id => "Incident already resolved: " +:+ pretty id
  end.

(** ** The monad *)

(** Why an operation did not return a value: an error it returned, a panic, a wait
    for a lock it holds itself, or a nesting of executor calls deeper than the
    bound of the model. *)
Inductive Fault :=
| Throws (err : EngineError)
| Panicked
| Blocked
| OutOfFuel.
Coercion Throws : EngineError >-> Fault.

Definition M (A : Type) : Type := Engine → result Fault A * Engine.

#[export] Instance M_ret : MRet M := λ _ a e, (Ok a, e).
#[export] Instance M_bind : MBind M := λ _ _ k m e,
  match m e with
  | (Ok a, e') => k a e'
  | (Err err, e') => (Err err, e')
  end.

Definition fault {A} (x : Fault) : M A := λ e, (Err x, e).
Definition throw {A} (err : EngineError) : M A := fault (Throws err).
Definition gets {A} (f : Engine → A) : M A := λ e, (Ok (f e), e).
Definition modify (f : Engine → Engine) : M unit := λ e, (Ok tt, f e).
(** [expr?]. *)
Definition lift {A} (r : EngineResult A) : M A := λ e, (map_err Throws r, e).
Definition lift_call {A} (r : call A) : M A :=
  match r with Returns a => mret a | Panics => fault Panicked end.
Definition lift_option {A} (err : EngineError) (o : option A) : M A := lift (ok_or err o).
(** [match expr { Ok(..) => .., Err(..) => .. }]: a panic is not caught. *)
Definition try {A} (m : M A) : M (EngineResult A) := λ e,
  match m e with
  | (Ok a, e') => (Ok (Ok a), e')
  | (Err (Throws err), e') => (Ok (Err err), e')
  | (Err x, e') => (Err x, e')
  end.
Definition when (b : bool) (m : M unit) : M unit := if b then m else mret tt.
Definition emit (x : Effect) : M unit := modify (λ e, e <| e_trace ::= (λ t, t ++ [x]) |>).
Definition new_uuid : M Uuid := λ e, (Ok (e_uuid e), e <| e_uuid := (e_uuid e + 1)%N |>).
Definition now : M DateTime := gets e_now.
Fixpoint forM {A} (l : list A) (f : A → M unit) : M unit :=
  match l with [] => mret tt | x :: l => f x ≫= λ _, forM l f end.
Fixpoint mapM {A B} (l : list A) (f : A → M B) : M (list B) :=
  match l with
  | [] => mret []
  | x :: l => y ← f x; ys ← mapM l f; mret (y :: ys)
  end.

(** ** Instances and definitions *)

(** [instances.get(&id).ok_or(NoSuchInstance(id))?] and the write guard. *)
Definition get_instance (id : Uuid) : M ProcessInstance :=
  mi ← gets (λ e, e_instances e !! id);
  match mi with Some i => mret i | None => throw (NoSuchInstance id) end.
Definition get_definition (key : Uuid) : M ProcessDefinition :=
  md ← gets (λ e, e_definitions e !! key);
  match md with Some d => mret d | None => throw (NoSuchDefinition key) end.
Definition put_instance (id : Uuid) (i : ProcessInstance) : M unit :=
  modify (λ e, e <| e_instances ::= <[id := i]> |>).
Definition update_instance (id : Uuid) (f : ProcessInstance → ProcessInstance) : M unit :=
  i ← get_instance id; put_instance id (f i).
(** [if let Some(inst) = instances.get(&id) { .. }]. *)
Definition try_update_instance (id : Uuid) (f : ProcessInstance → ProcessInstance) : M unit :=
  modify (λ e, e <| e_instances ::= alter f id |>).
(** [let inst = instances.get(&id).ok_or(NoSuchInstance(id))?.write()] around a block that
    computes a value and may return early with an error. *)
Definition with_instance {A} (id : Uuid) (f : ProcessInstance → EngineResult A * ProcessInstance) : M A :=
  i ← get_instance id;
  let '(r, i') := f i in
  put_instance id i' ;; lift r.

(** ** Persistence, history and events (persistence_ops.rs, events.rs) *)

(** [persist_instance] replaces what exceeds 200 audit entries by one line. *)
Definition trim_for_persist (log : list string) : list string :=
  if MAX_AUDIT_LOG_ENTRIES <? length log then
    let overflow := length log - MAX_AUDIT_LOG_ENTRIES in
    ("... (" +:+ pretty overflow +:+ " older entries trimmed, see History API)") :: drop overflow log
  else log.
Definition persist_instance (id : Uuid) : M unit :=
  mi ← gets (λ e, e_instances e !! id);
  match mi with
  | None => mret tt
  | Some _ =>
    try_update_instance id (λ i, i <| pi_audit_log ::= trim_for_persist |>) ;;
    emit (PersistInstance id)
  end.

(** A save reads the entry from its map; without one nothing is sent. *)
Definition persist_if {A} (find : Engine → option A) (x : Effect) : M unit :=
  found ← gets find;
  when (bool_decide (is_Some found)) (emit x).
Definition persist_user_task (id : Uuid) : M unit :=
  persist_if (λ e, e_user_tasks e !! id) (PersistUserTask id).
Definition persist_service_task (id : Uuid) : M unit :=
  persist_if (λ e, primary (e_service_tasks e) !! id) (PersistServiceTask id).
Definition persist_timer (id : Uuid) : M unit :=
  persist_if (λ e, primary (e_timers e) !! id) (PersistTimer id).
Definition persist_message_catch (id : Uuid) : M unit :=
  persist_if (λ e, e_message_catches e !! id) (PersistMessageCatch id).
Definition persist_signal_catch (id : Uuid) : M unit :=
  persist_if (λ e, e_signal_catches e !! id) (PersistSignalCatch id).
Definition persist_conditional_catch (id : Uuid) : M unit :=
  persist_if (λ e, e_conditional_catches e !! id) (PersistConditionalCatch id).
Definition persist_definition (key : Uuid) : M unit :=
  persist_if (λ e, e_definitions e !! key) (PersistDefinition key).
Definition archive_completed_instance (id : Uuid) : M unit :=
  persist_if (λ e, e_instances e !! id) (ArchiveInstance id).
Definition remove_persisted_user_task (id : Uuid) : M unit := emit (DeleteUserTask id).
Definition remove_persisted_service_task (id : Uuid) : M unit := emit (DeleteServiceTask id).
Definition remove_persisted_timer (id : Uuid) : M unit := emit (DeleteTimer id).
Definition remove_persisted_message_catch (id : Uuid) : M unit := emit (DeleteMessageCatch id).
Definition remove_persisted_signal_catch (id : Uuid) : M unit := emit (DeleteSignalCatch id).
Definition remove_persisted_conditional_catch (id : Uuid) : M unit := emit (DeleteConditionalCatch id).
Definition notify_service_tasks_available : M unit := emit NotifyServiceTasks.
Definition emit_event (ev : EngineEvent) : M unit := emit (EmitEvent ev).

(** A full snapshot every eight audit entries. *)
Definition periodic_snapshot (i : ProcessInstance) : bool :=
  negb (bool_decide (pi_audit_log i = [])) && (length (pi_audit_log i) mod 8 =? 0).

(** The difference an entry carries: empty unless both states are known. *)
Definition history_diff {A} (diff : A → ProcessInstance → HistoryDiff) (old : option A)
    (new : option ProcessInstance) : HistoryDiff :=
  match old, new with
  | Some o, Some n => diff o n
  | _, _ => empty_diff
  end.
Definition skips_history (ev : HistoryEventType) (d : HistoryDiff) : bool :=
  is_empty d && bool_decide (ev = TokenAdvanced).
Definition set_version (defs : DefinitionRegistry) (key : option Uuid) (x : HistoryEntry) : HistoryEntry :=
  match key ≫= λ k, defs !! k with
  | Some d => x <| he_definition_version := Some (version d) |>
  | None => x
  end.

Definition record_history_event (id : Uuid) (ev : HistoryEventType) (description : string)
    (actor : ActorType) (actor_id : option string) (old_state : option ProcessInstance) : M unit :=
  new_state ← gets (λ e, e_instances e !! id);
  let diff := history_diff calculate_diff old_state new_state in
  if skips_history ev diff then mret tt
  else
    entry_id ← new_uuid;
    t ← now;
    defs ← gets e_definitions;
    let entry := with_diff diff (entry_new entry_id t id ev description actor actor_id) in
    let curr := match new_state with Some n => Some n | None => old_state end in
    let entry := set_version defs (pi_definition_key <$> curr) entry in
    let entry :=
      match new_state with
      | Some curr =>
        let entry := with_node (pi_current_node curr) entry in
        if bool_decide (ev = InstanceCompleted) || periodic_snapshot curr then with_snapshot curr entry else entry
      | None => entry
      end in
    emit (History entry).

Definition record_history_event_from_snapshot (id : Uuid) (ev : HistoryEventType) (description : string)
    (actor : ActorType) (actor_id : option string) (old_snapshot : option DiffSnapshot) : M unit :=
  inst ← gets (λ e, e_instances e !! id);
  let diff := history_diff calculate_diff_from_snapshot old_snapshot inst in
  if skips_history ev diff then mret tt
  else
    entry_id ← new_uuid;
    t ← now;
    defs ← gets e_definitions;
    let entry := with_diff diff (entry_new entry_id t id ev description actor actor_id) in
    let entry :=
      match inst with
      | Some i =>
        let entry := set_version defs (Some (pi_definition_key i)) entry in
        let entry := with_node (pi_current_node i) entry in
        if periodic_snapshot i then with_snapshot i entry else entry
      | None => entry
      end in
    emit (History entry).

(** The audit entry pushed without trimming ([inst.audit_log.push]). *)
Definition log_raw (entry : string) (i : ProcessInstance) : ProcessInstance :=
  i <| pi_audit_log ::= (λ l, l ++ [entry]) |>.

(** ** Nested execution *)

(** Handlers and processors run further batches of tokens.  The executor is built
    on top of them, so what they call is the operation of a class; the executor's
    module ties the knot. *)
Class Nested := { run_instance_batch_with_tokens : Uuid → list Token → M unit }.
Definition run_instance_batch `{Nested} (id : Uuid) (t : Token) : M unit := run_instance_batch_with_tokens id [t].

(** No nested batch at all. *)
Definition no_nesting : Nested := {| run_instance_batch_with_tokens _ _ := fault OutOfFuel |}.

(** An engine with nothing in it. *)
Definition engine_new : Engine :=
  mkEngine ∅ ∅ ∅ store_empty ∅ ∅ store_empty ∅ ∅ ∅ ∅ 0 1000 [].

(** ** Reasoning about runs *)

Lemma alter_insert_lookup {V} (f : V → V) (m : gmap Uuid V) k x : m !! k = Some x → alter f k m = <[k := f x]> m.
Proof.
  intros Hx. apply map_eq. intros j. destruct (decide (k = j)) as [->|Hne].
  - by rewrite lookup_alter_eq, lookup_insert_eq, Hx.
  - by rewrite lookup_alter_ne, lookup_insert_ne.
Qed.

Definition run {A} (m : M A) (e : Engine) : result Fault A * Engine := m e.

Lemma bind_run {A B} (m : M A) (k : A → M B) e :
  (m ≫= k) e = match m e with (Ok a, e') => k a e' | (Err x, e') => (Err x, e') end.
Proof. done. Qed.

Lemma get_instance_run id e :
  get_instance id e = (match e_instances e !! id with Some i => Ok i | None => Err (Throws (NoSuchInstance id)) end, e).
Proof. unfold get_instance, gets. rewrite bind_run. by destruct (e_instances e !! id). Qed.

Lemma get_definition_run key e :
  get_definition key e =
  (match e_definitions e !! key with Some d => Ok d | None => Err (Throws (NoSuchDefinition key)) end, e).
Proof. unfold get_definition, gets. rewrite bind_run. by destruct (e_definitions e !! key). Qed.

Lemma update_instance_run id f e :
  update_instance id f e =
  match e_instances e !! id with
  | Some i => (Ok tt, e <| e_instances := <[id := f i]> (e_instances e) |>)
  | None => (Err (Throws (NoSuchInstance id)), e)
  end.
Proof. unfold update_instance. rewrite bind_run, get_instance_run. by destruct (e_instances e !! id). Qed.

(** One bind of a run, with the instance or definition it reads looked up. *)
Ltac run_step :=
  rewrite bind_run;
  first [rewrite get_instance_run | rewrite get_definition_run | rewrite update_instance_run
        | progress cbn [gets modify lift map_err] | idtac].

(** ** Operations that only talk to the outside *)

(** The engine after more requests were sent and more ids were drawn. *)
Definition sent (u : Uuid) (l : list Effect) (e : Engine) : Engine :=
  e <| e_uuid := u |> <| e_trace := e_trace e ++ l |>.
Definition quiet (m : M unit) : Prop :=
  ∀ e, ∃ u l, m e = (Ok tt, sent u l e) ∧ (e_uuid e ≤ u)%N.

Lemma sent_nil e : sent (e_uuid e) [] e = e.
Proof. destruct e. unfold sent. cbn. by rewrite app_nil_r. Qed.
Lemma sent_sent u l u' l' e : sent u' l' (sent u l e) = sent u' (l ++ l') e.
Proof. unfold sent. cbn. by rewrite <- app_assoc. Qed.

Lemma quiet_ret : quiet (mret tt).
Proof. intros e. exists (e_uuid e), []. by rewrite sent_nil. Qed.
Lemma quiet_emit x : quiet (emit x).
Proof. intros e. exists (e_uuid e), [x]. split; [by destruct e|done]. Qed.
Lemma quiet_bind m k : quiet m → quiet k → quiet (m ;; k).
Proof.
  intros Hm Hk e. destruct (Hm e) as (u & l & Heq & Hu). destruct (Hk (sent u l e)) as (u' & l' & Heq' & Hu').
  exists u', (l ++ l'). rewrite bind_run, Heq, Heq', sent_sent. split; [done|]. cbn in Hu'. lia.
Qed.
Lemma quiet_forM {A} (l : list A) f : (∀ x, quiet (f x)) → quiet (forM l f).
Proof. intros Hf. induction l; cbn [forM]; [apply quiet_ret|]. by apply quiet_bind. Qed.
Lemma quiet_gets {A} (f : Engine → A) k : (∀ a, quiet (k a)) → quiet (gets f ≫= k).
Proof. intros Hk e. rewrite bind_run. apply Hk. Qed.
Lemma quiet_uuid k : (∀ a, quiet (k a)) → quiet (new_uuid ≫= k).
Proof.
  intros Hk e. rewrite bind_run. cbn [new_uuid]. destruct (Hk (e_uuid e) (e <| e_uuid := (e_uuid e + 1)%N |>))
    as (u & l & Heq & Hu). exists u, l. rewrite Heq. split; [done|]. cbn in Hu. lia.
Qed.
Lemma quiet_when b m : quiet m → quiet (when b m).
Proof. destruct b; [done|]. intros _. apply quiet_ret. Qed.
Lemma quiet_persist_if {A} (find : Engine → option A) x : quiet (persist_if find x).
Proof. apply quiet_gets. intros a. apply quiet_when, quiet_emit. Qed.

Lemma quiet_history id ev descr actor actor_id old : quiet (record_history_event id ev descr actor actor_id old).
Proof.
  apply quiet_gets. intros n. cbv zeta. case_match; [apply quiet_ret|].
  apply quiet_uuid. intros u. apply quiet_gets. intros t. apply quiet_gets. intros ds. apply quiet_emit.
Qed.
Lemma quiet_history_snapshot id ev descr actor actor_id old :
  quiet (record_history_event_from_snapshot id ev descr actor actor_id old).
Proof.
  apply quiet_gets. intros n. cbv zeta. case_match; [apply quiet_ret|].
  apply quiet_uuid. intros u. apply quiet_gets. intros t. apply quiet_gets. intros ds. apply quiet_emit.
Qed.

(** A quiet step in front of a run. *)
Lemma quiet_run {B} (m : M unit) (k : M B) e :
  quiet m → ∃ u l, (m ;; k) e = k (sent u l e) ∧ (e_uuid e ≤ u)%N.
Proof. intros Hm. destruct (Hm e) as (u & l & Heq & Hu). exists u, l. by rewrite bind_run, Heq. Qed.

#[export] Hint Resolve quiet_ret quiet_emit quiet_bind quiet_forM quiet_when quiet_persist_if quiet_history
  quiet_history_snapshot : rust.

(** Run the quiet step at the front of a run; its requests are [l]. *)
Ltac quiet_step u l Hu :=
  match goal with
  | |- context [mbind (λ _, ?k) ?m ?e] =>
    let Heq := fresh in
    destruct (quiet_run m k e) as (u & l & Heq & Hu); [solve [eauto with rust]|]; rewrite Heq; clear Heq
  end.

(** [persist_instance] changes at most the audit log of that instance. *)
Lemma persist_instance_run id e :
  persist_instance id e =
  (Ok tt, match e_instances e !! id with
          | Some _ => (e <| e_instances ::= alter (λ i, i <| pi_audit_log ::= trim_for_persist |>) id |>)
                         <| e_trace := e_trace e ++ [PersistInstance id] |>
          | None => e
          end).
Proof. unfold persist_instance, gets. rewrite bind_run. by destruct (e_instances e !! id). Qed.

(** A step that succeeds and leaves one part of the engine alone. *)
Definition spares {B} (view : Engine → B) (m : M unit) : Prop :=
  ∀ e, ∃ e', m e = (Ok tt, e') ∧ view e' = view e.
Lemma spares_bind {B} (view : Engine → B) m k : spares view m → spares view k → spares view (m ;; k).
Proof.
  intros Hm Hk e. destruct (Hm e) as (e1 & Heq & Hv). destruct (Hk e1) as (e2 & Heq2 & Hv2).
  exists e2. rewrite bind_run, Heq. split; [done|congruence].
Qed.
Lemma spares_quiet {B} (view : Engine → B) m : (∀ u l e, view (sent u l e) = view e) → quiet m → spares view m.
Proof. intros Hview Hm e. destruct (Hm e) as (u & l & -> & _). eauto. Qed.
Lemma spares_persist {B} (view : Engine → B) id :
  (∀ f l e, view ((e <| e_instances ::= f |>) <| e_trace := l |>) = view e) → spares view (persist_instance id).
Proof. intros Hview e. rewrite persist_instance_run. eexists. split; [done|]. by destruct (e_instances e !! id). Qed.
Lemma spares_gets {A B} (view : Engine → B) (f : Engine → A) k : (∀ a, spares view (k a)) → spares view (gets f ≫= k).
Proof. intros Hk e. rewrite bind_run. apply Hk. Qed.
Lemma spares_modify {B} (view : Engine → B) f : (∀ e, view (f e) = view e) → spares view (modify f).
Proof. intros Hf e. eexists. split; [reflexivity|apply Hf]. Qed.
Lemma spares_forM {A B} (view : Engine → B) (l : list A) f : (∀ x, spares view (f x)) → spares view (forM l f).
Proof.
  intros Hf. induction l; cbn [forM]; [|by apply spares_bind]. intros e. by exists e.
Qed.
#[export] Hint Resolve spares_bind spares_quiet spares_persist : rust.

(** ** Errors that stay inside *)

(** The operation never returns an error of its own; it may still panic, block or
    run out of nesting depth. *)
Definition contained {A} (m : M A) : Prop := ∀ e err, (m e).1 ≠ Err (Throws err).
Lemma contained_ret {A} (a : A) : contained (mret a).
Proof. done. Qed.
Lemma contained_gets {A} (f : Engine → A) : contained (gets f).
Proof. done. Qed.
Lemma contained_modify f : contained (modify f).
Proof. done. Qed.
Lemma contained_new_uuid : contained new_uuid.
Proof. done. Qed.
Lemma contained_bind {A B} (m : M A) (k : A → M B) : contained m → (∀ a, contained (k a)) → contained (m ≫= k).
Proof.
  intros Hm Hk e err. rewrite bind_run. specialize (Hm e). destruct (m e) as [[a|x] e']; [apply Hk|].
  cbn in *. intros [= ->]. by apply (Hm err).
Qed.
Lemma contained_try {A} (m : M A) : contained (try m).
Proof. intros e err. unfold try. by destruct (m e) as [[|[]] ?]. Qed.
Lemma contained_quiet m : quiet m → contained m.
Proof. intros Hm e err. by destruct (Hm e) as (u & l & -> & _). Qed.
Lemma contained_forM {A} (l : list A) f : (∀ x, contained (f x)) → contained (forM l f).
Proof. intros Hf. induction l; cbn [forM]; [done|]. by apply contained_bind. Qed.
Lemma contained_persist_instance id : contained (persist_instance id).
Proof. intros e err. by rewrite persist_instance_run. Qed.
#[export] Hint Resolve contained_ret contained_gets contained_modify contained_new_uuid contained_bind contained_try
  contained_quiet contained_forM contained_persist_instance : rust.
