(* ===== verification/HttpState.v ===== *)
(** * The server's configuration and errors

    engine-server/src/server/state.rs and the security settings of server/mod.rs: the
    errors of the REST handlers and the responses they become, the texts of the
    environment, and whether the API-key gate is active.  First the parsers of
    [std::net::IpAddr] and [std::net::SocketAddr] as far as the server uses them: whether
    a text is an address, and a loopback address. *)

From Stdlib Require Import Ascii.
From stdpp Require Import base list numbers sets strings pretty gmap.
From S2P Require Import Prelude Text TextSplit Json Domain Token ProcessDef Runtime Engine Persistence Redact ModelCheck.
Local Open Scope rust_scope.

Definition Reader (A : Type) : Type := list char → option (A * list char).

Definition read_given_char (c : char) : Reader unit := λ l,
  match l with x :: l => if (x =? c)%N then Some (tt, l) else None | [] => None end.
(** [char::to_digit]. *)
Definition to_digit (radix : N) (c : char) : option N :=
  let digit :=
    if is_ascii_digit c then Some (c - 48)%N
    else if (97 <=? c)%N && (c <=? 122)%N then Some (c - 87)%N
    else if (65 <=? c)%N && (c <=? 90)%N then Some (c - 55)%N
    else None in
  match digit with Some d => if (d <? radix)%N then Some d else None | None => None end.
Fixpoint span_digits (radix : N) (l : list char) : list N * list char :=
  match l with
  | [] => ([], [])
  | c :: l' =>
    match to_digit radix c with
    | Some d => let '(ds, rest) := span_digits radix l' in (d :: ds, rest)
    | None => ([], l)
    end
  end.
Definition value_of (radix : N) (ds : list N) : N := fold_left (λ n d, (n * radix + d)%N) ds 0%N.
(** [read_net_number]: a number up to [max] with at most [max_digits] digits. *)
Definition read_net_number (radix : N) (max_digits : option nat) (allow_zero_prefix : bool) (max : N) : Reader N := λ l,
  let '(ds, rest) := span_digits radix l in
  let too_long := match max_digits with Some n => n <? length ds | None => false end in
  let zero_prefix := match ds with 0%N :: _ :: _ => negb allow_zero_prefix | _ => false end in
  if bool_decide (ds = []) || too_long || zero_prefix || (max <? value_of radix ds)%N then None
  else Some (value_of radix ds, rest).
Definition read_separator {A} (sep : char) (index : nat) (inner : Reader A) : Reader A := λ l,
  if index =? 0 then inner l else '(_, l) ← read_given_char sep l; inner l.

(** ** IPv4 *)

Fixpoint read_octets (index : nat) (n : nat) : Reader (list N) := λ l,
  match n with
  | 0 => Some ([], l)
  | S n =>
    '(octet, l) ← read_separator (ch ".") index (read_net_number 10 (Some 3) false 255) l;
    '(octets, l) ← read_octets (S index) n l;
    Some (octet :: octets, l)
  end.
Definition read_ipv4_addr : Reader (list N) := read_octets 0 4.

(** ** IPv6 *)

(** [read_groups]: the groups read, and whether they end with an embedded IPv4
    address. *)
Fixpoint read_groups (index : nat) (slots : nat) (l : list char) : list N * bool * list char :=
  match slots with
  | 0 => ([], false, l)
  | S slots' =>
    let embedded := if 2 <=? slots then read_separator (ch ":") index read_ipv4_addr l else None in
    match embedded with
    | Some ([a; b; c; d], l) => ([(a * 256 + b)%N; (c * 256 + d)%N], true, l)
    | _ =>
      match read_separator (ch ":") index (read_net_number 16 (Some 4) true 65535) l with
      | Some (g, l) => let '(gs, v4, l) := read_groups (S index) slots' l in (g :: gs, v4, l)
      | None => ([], false, l)
      end
    end
  end.
Definition read_ipv6_addr : Reader (list N) := λ l,
  let '(head, head_ipv4, l) := read_groups 0 8 l in
  if length head =? 8 then Some (head, l)
  else if head_ipv4 then None
  else
    '(_, l) ← read_given_char (ch ":") l;
    '(_, l) ← read_given_char (ch ":") l;
    let '(tail, _, l) := read_groups 0 (8 - (length head + 1)) l in
    Some (head ++ replicate (8 - length head - length tail) 0%N ++ tail, l).

(** ** Addresses *)

Inductive IpAddr := V4 (octets : list N) | V6 (groups : list N).
Definition read_ip_addr : Reader IpAddr := λ l,
  match read_ipv4_addr l with
  | Some (octets, l) => Some (V4 octets, l)
  | None => '(groups, l) ← read_ipv6_addr l; Some (V6 groups, l)
  end.
Definition read_port : Reader N := λ l, '(_, l) ← read_given_char (ch ":") l; read_net_number 10 None true 65535 l.
Definition read_scope_id (l : list char) : list char :=
  match ('(_, l) ← read_given_char (ch "%") l; read_net_number 10 None true 4294967295 l) with Some (_, l) => l | None => l end.
Definition read_socket_addr : Reader IpAddr := λ l,
  match ('(octets, l) ← read_ipv4_addr l; '(_, l) ← read_port l; Some (V4 octets, l)) with
  | Some r => Some r
  | None =>
    '(_, l) ← read_given_char (ch "[") l;
    '(groups, l) ← read_ipv6_addr l;
    '(_, l) ← read_given_char (ch "]") (read_scope_id l);
    '(_, l) ← read_port l;
    Some (V6 groups, l)
  end.
(** [parse]: the whole text. *)
Definition parse_with {A} (p : Reader A) (l : list char) : option A :=
  match p l with Some (a, []) => Some a | _ => None end.
Definition parse_ip_addr : list char → option IpAddr := parse_with read_ip_addr.
Definition parse_socket_addr : list char → option IpAddr := parse_with read_socket_addr.
(** [IpAddr::is_loopback]. *)
Definition is_loopback (ip : IpAddr) : bool :=
  match ip with
  | V4 octets => bool_decide (head octets = Some 127%N)
  | V6 groups => bool_decide (groups = [0; 0; 0; 0; 0; 0; 0; 1]%N)
  end.

Example parse_v6 : parse_ip_addr (chars "2001:db8::7") = Some (V6 [8193; 3512; 0; 0; 0; 0; 0; 7]%N).
Proof. reflexivity. Qed.
Example parse_mapped : parse_ip_addr (chars "::ffff:127.0.0.1") = Some (V6 [0; 0; 0; 0; 0; 65535; 32512; 1]%N).
Proof. reflexivity. Qed.
Example parse_scoped : parse_socket_addr (chars "[::1%7]:80") = Some (V6 [0; 0; 0; 0; 0; 0; 0; 1]%N).
Proof. reflexivity. Qed.
Example no_octal : parse_ip_addr (chars "127.0.0.01") = None.
Proof. reflexivity. Qed.

(** ** Dotted addresses *)

Definition no_digit (radix : N) (l : list char) : Prop := ∀ c, head l = Some c → to_digit radix c = None.

Lemma span_digits_app radix l rest ds :
  no_digit radix rest → span_digits radix l = (ds, []) → span_digits radix (l ++ rest) = (ds, rest).
Proof.
  intros Hr. revert ds. induction l as [|c l IH]; intros ds; cbn.
  - intros [= <-]. destruct rest as [|c rest]; [done|]. cbn. by rewrite (Hr c eq_refl).
  - destruct (to_digit radix c) as [d|]; [|done]. destruct (span_digits radix l) as [ds' r]. intros [= <- ->].
    by rewrite (IH ds' eq_refl).
Qed.
Lemma read_number_app radix digits zero max l rest n :
  no_digit radix rest → read_net_number radix digits zero max l = Some (n, []) →
  read_net_number radix digits zero max (l ++ rest) = Some (n, rest).
Proof.
  intros Hr. unfold read_net_number. destruct (span_digits radix l) as [ds r] eqn:Hs. destruct (_ || _) eqn:Hc; [done|].
  intros [= <- ->]. by rewrite (span_digits_app _ _ _ _ Hr Hs), Hc.
Qed.
(** An octet is read back from its decimal digits. *)
Definition octet_reads (o : N) : bool :=
  match read_net_number 10 (Some 3) false 255 (chars (pretty o)) with Some (n, []) => (n =? o)%N | _ => false end.
Lemma octets_read : forallb octet_reads (N.of_nat <$> seq 0 256) = true.
Proof. vm_compute. reflexivity. Qed.
Lemma read_octet o rest :
  (o < 256)%N → no_digit 10 rest → read_net_number 10 (Some 3) false 255 (chars (pretty o) ++ rest) = Some (o, rest).
Proof.
  intros Ho Hr. apply read_number_app; [done|]. pose proof octets_read as H. rewrite forallb_forall in H.
  assert (octet_reads o = true) as Hr'.
  { apply H, list_elem_of_In, list_elem_of_fmap. exists (N.to_nat o). rewrite N2Nat.id, elem_of_seq. split; [done|lia]. }
  unfold octet_reads in Hr'. destruct (read_net_number _ _ _ _ _) as [[n [|]]|]; [|done..]. by apply N.eqb_eq in Hr' as ->.
Qed.
Definition dotted (a b c d : N) : list char :=
  chars (pretty a) ++ ch "." :: chars (pretty b) ++ ch "." :: chars (pretty c) ++ ch "." :: chars (pretty d).
Lemma read_dotted a b c d rest :
  (a < 256)%N → (b < 256)%N → (c < 256)%N → (d < 256)%N → no_digit 10 rest →
  read_ipv4_addr (dotted a b c d ++ rest) = Some ([a; b; c; d], rest).
Proof.
  intros Ha Hb Hc Hd Hr. assert (∀ l, no_digit 10 (ch "." :: l)) as Hdot by (intros l x [= <-]; done).
  assert (∀ i l, read_separator (ch ".") (S i) (read_net_number 10 (Some 3) false 255) (ch "." :: l) = read_net_number 10 (Some 3) false 255 l) as Hsep by done.
  unfold read_ipv4_addr, dotted. repeat (rewrite <- ?app_assoc, <- ?app_comm_cons).
  cbn [read_octets]. change (read_separator (ch ".") 0 ?r ?l) with (r l). rewrite read_octet by done. cbn [mbind option_bind].
  do 2 (rewrite Hsep, read_octet by done; cbn [mbind option_bind]). rewrite Hsep, read_octet by done. done.
Qed.
Lemma parse_dotted a b c d :
  (a < 256)%N → (b < 256)%N → (c < 256)%N → (d < 256)%N → parse_ip_addr (dotted a b c d) = Some (V4 [a; b; c; d]).
Proof.
  intros. unfold parse_ip_addr, parse_with, read_ip_addr. rewrite <- (app_nil_r (dotted a b c d)).
  by rewrite read_dotted.
Qed.

(** ** The server's configuration and errors *)

(** ** Errors and their responses *)

Abbreviation StatusCode := N.
Inductive AppError :=
| EngineFailed (err : EngineError)
| BadRequest (msg : string)
| PayloadTooLarge (msg : string)
| Unauthorized
| Forbidden
| Rejected (status : StatusCode) (message : string)
| NotFound (msg : string)
| ModelCheckRejected (report : ModelCheckReport).
Coercion EngineFailed : EngineError >-> AppError.

(** The body of an error: the text, and the report of a rejected model. *)
Record ErrorResponse := mkErrorResponse {
  er_status : StatusCode;
  er_error : string;
  er_model_check : option ModelCheckReport;
}.
Definition engine_error_response (err : EngineError) : StatusCode * string :=
  match err with
  | InvalidDefinition msg | DataMappingError msg => (400, msg)
  | NoMatchingCondition msg => (400, "No matching condition at gateway '" +:+ msg +:+ "'")
  | NoSuchDefinition id => (404, "Definition not found: " +:+ pretty id)
  | NoSuchInstance id => (404, "Instance not found: " +:+ pretty id)
  | NoSuchNode id => (404, "Node not found: " +:+ id)
  | ServiceTaskNotFound id => (404, "Service task not found: " +:+ pretty id)
  | TaskNotPending task_id actual_state =>
    (409, "Task '" +:+ pretty task_id +:+ "' is not pending (state: " +:+ actual_state +:+ ")")
  | ServiceTaskLocked task_id worker_id => (409, "Task '" +:+ pretty task_id +:+ "' locked by worker '" +:+ worker_id +:+ "'")
  | ServiceTaskNotLocked id => (409, "Service task '" +:+ pretty id +:+ "' is not locked")
  | AlreadyCompleted => (409, "Process instance already completed")
  | DefinitionHasInstances count => (409, "Cannot delete definition: " +:+ pretty count +:+ " instances still exist")
  | InstanceSuspended id => (409, "Instance '" +:+ pretty id +:+ "' is suspended")
  | IncidentNotFound id => (404, "Incident not found: " +:+ pretty id)
  | IncidentAlreadyResolved id => (409, "Incident already resolved: " +:+ pretty id)
  | OrphanedToken node => (422, "Orphaned token: node '" +:+ node +:+ "' not found in target definition — provide a mapping")
  | TimerMismatch _ _ | PersistenceError _ | ScriptError _ | ExecutionLimitExceeded _ => (500, error_text err)
  end%N.
Definition into_response (err : AppError) : ErrorResponse :=
  let plain '(status, message) := mkErrorResponse status message None in
  match err with
  | ModelCheckRejected report => mkErrorResponse 400 ("Model check failed: " +:+ error_detail report) (Some report)
  | Unauthorized => plain (401%N, "Unauthorized")
  | Forbidden => plain (403%N, "Forbidden")
  | BadRequest msg => plain (400%N, msg)
  | PayloadTooLarge msg => plain (413%N, msg)
  | Rejected status message => plain (status, message)
  | NotFound msg => plain (404%N, msg)
  | EngineFailed err => plain (engine_error_response err)
  end.

(** [parse_uuid] of state.rs. *)
Definition parse_path_uuid `{UuidText} (raw : string) : result AppError Uuid :=
  map_err (λ _, BadRequest "Invalid UUID format") (parse_uuid raw).

(** ** The storage *)

Inductive StorageState := StorageReady | StorageFailed | StorageInMemory.
#[export] Instance StorageState_eq : EqDecision StorageState.
Proof. solve_decision. Defined.
Record StorageStatus := mkStatus { storage_state : StorageState; storage_detail : string }.
Definition storage_inferred (has_persistence : bool) : StorageStatus :=
  if has_persistence then mkStatus StorageReady "persistence attached without bootstrap report"
  else mkStatus StorageInMemory "no persistence backend configured".

(** ** Texts of the environment *)

Definition parse_require_nats (value : option string) : bool :=
  match value with
  | None => true
  | Some raw => negb (is_one_of ["0"; "false"; "no"; "off"] (to_ascii_lowercase (trim_str raw)))
  end.
Definition parse_allow_unauthenticated (value : option string) : bool :=
  match value with
  | None => false
  | Some raw => is_one_of ["1"; "true"; "yes"; "on"] (to_ascii_lowercase (trim_str raw))
  end.
Definition DEFAULT_MAX_UPLOAD_BYTES : N := 5 * 1024 * 1024.
Definition MAX_XML_BYTES : N := 10 * 1024 * 1024.
Definition parse_positive_usize (value : option string) (default_value : N) : N :=
  match value ≫= parse_u64 with
  | Some n => if (0 <? n)%N then n else default_value
  | None => default_value
  end.
Definition parse_api_key (value : option string) : option string :=
  raw ← value; let trimmed := trim_str raw in if String.eqb trimmed "" then None else Some trimmed.
Definition DEFAULT_CORS_ORIGINS : list string :=
  ["http://localhost:1420"; "http://127.0.0.1:1420"; "tauri://localhost"; "https://tauri.localhost"].
Definition parse_cors_origins (value : option string) : list string :=
  match value with
  | None => DEFAULT_CORS_ORIGINS
  | Some raw =>
    let origins := List.filter (λ s, negb (String.eqb s ""))
                     ((λ part, of_chars (trim part)) <$> split_on (ch ",") (chars raw)) in
    match origins with [] => DEFAULT_CORS_ORIGINS | _ => origins end
  end.
Definition DEFAULT_BIND_ADDR : string := "0.0.0.0".
(** [bind_addr_from_env]; the variables BIND_ADDR and BIND_ADDRESS. *)
Definition bind_addr_from_env (bind_addr bind_address : option string) : string :=
  let raw := match bind_addr with Some s => Some s | None => bind_address end in
  match trim_str <$> raw with
  | Some s => if String.eqb s "" then DEFAULT_BIND_ADDR else s
  | None => DEFAULT_BIND_ADDR
  end.

(** ** The gate *)

Definition unbracketed (host : list char) : list char :=
  match strip_prefix [ch "["] host with
  | Some h => match rsplit_once (ch "]") h with Some (inner, []) => inner | _ => host end
  | None => host
  end.
Definition is_loopback_bind (host : string) : bool :=
  let host := unbracketed (trim (chars host)) in
  if bool_decide (ascii_lower <$> host = ascii_lower <$> chars "localhost") then true
  else
    match parse_ip_addr host with
    | Some ip => is_loopback ip
    | None => match parse_socket_addr host with Some ip => is_loopback ip | None => false end
    end.
Definition resolve_auth_required (has_keys explicit_auth_off allow_unauthenticated : bool) (bind_addr : string) : bool :=
  if has_keys then true
  else if explicit_auth_off || allow_unauthenticated then false
  else negb (is_loopback_bind bind_addr).

(** [api_keys_equal]: the bytes are compared without stopping at a difference. *)
Fixpoint key_difference (a b : list Byte.byte) (diff : N) : N :=
  match a, b with
  | x :: a, y :: b => key_difference a b (N.lor diff (N.lxor (Byte.to_N x) (Byte.to_N y)))
  | _, _ => diff
  end.
Definition api_keys_equal (provided expected : string) : bool :=
  let a := as_bytes provided in
  let b := as_bytes expected in
  if negb (length a =? length b) then false else (key_difference a b 0 =? 0)%N.

(** [lock_duration_ms_to_secs] on 64-bit integers. *)
Definition lock_duration_ms_to_secs (ms : Z) : Z :=
  if (ms <=? 0)%Z then 0%Z else (Z.min (ms + 999) (2 ^ 63 - 1) `div` 1000)%Z.

Example loopback_hosts : forallb is_loopback_bind ["127.0.0.1"; "::1"; " [::1] "; "LocalHost"; "127.0.0.1:8081"; "[::1]:80"] = true.
Proof. reflexivity. Qed.
Example open_hosts : existsb is_loopback_bind ["0.0.0.0"; "::"; "192.168.1.10"; "example.com"; ""; "[127.0.0.1"] = false.
Proof. reflexivity. Qed.

(** ** What the settings mean *)

(** The comparison of keys is equality. *)
Lemma key_difference_zero a b diff :
  length a = length b → key_difference a b diff = 0%N ↔ diff = 0%N ∧ a = b.
Proof.
  revert b diff. induction a as [|x a IH]; intros [|y b] diff Hl; cbn in *; try done; [naive_solver|].
  rewrite IH by lia. rewrite N.lor_eq_0_iff, N.lxor_eq_0_iff. split.
  - intros ((Hd & Hxy) & ->). split; [done|]. f_equal. apply (f_equal Byte.of_N) in Hxy. rewrite !Byte.of_to_N in Hxy. congruence.
  - intros (-> & [= -> ->]). done.
Qed.
Lemma api_keys_equal_spec provided expected : api_keys_equal provided expected = true ↔ provided = expected.
Proof.
  unfold api_keys_equal. assert (as_bytes provided = as_bytes expected ↔ provided = expected) as Hb.
  { split; [|by intros ->]. intros H. rewrite <- (String.string_of_list_byte_of_string provided), <- (String.string_of_list_byte_of_string expected).
    unfold as_bytes in H. by rewrite H. }
  destruct (Nat.eqb_spec (length (as_bytes provided)) (length (as_bytes expected))) as [Hl|Hl]; cbn.
  - rewrite N.eqb_eq, key_difference_zero by done. naive_solver.
  - split; [done|]. intros ->. done.
Qed.

(** A lock lasts at least as long as asked for and less than a second longer, unless
    the sum leaves the range of [i64]. *)
Lemma lock_duration_bounds ms :
  (0 < ms <= 2 ^ 63 - 1000)%Z →
  (ms <= lock_duration_ms_to_secs ms * 1000 < ms + 1000)%Z ∧ (1 <= lock_duration_ms_to_secs ms)%Z.
Proof.
  intros H. unfold lock_duration_ms_to_secs. destruct (Z.leb_spec ms 0); [lia|]. rewrite Z.min_l by lia.
  pose proof (Z.div_mod (ms + 999) 1000 ltac:(lia)). pose proof (Z.mod_pos_bound (ms + 999) 1000 ltac:(lia)). lia.
Qed.

(** An IPv4 address is a loopback address when it starts with 127. *)
Lemma pretty_octet_chars o : (o < 256)%N → Forall (λ c, is_ascii_digit c = true) (chars (pretty o)) ∧ chars (pretty o) ≠ [].
Proof.
  intros Ho. assert (forallb (λ n, forallb is_ascii_digit (chars (pretty (N.of_nat n))) && negb (bool_decide (chars (pretty (N.of_nat n)) = []))) (seq 0 256) = true) as H
    by (vm_compute; reflexivity).
  rewrite forallb_forall in H. specialize (H (N.to_nat o)). rewrite N2Nat.id in H. apply andb_true_iff in H as [Hd Hn].
  - rewrite forallb_forall in Hd. split; [apply Forall_forall; intros c Hc; apply Hd; by apply list_elem_of_In|].
    intros He. by rewrite He in Hn.
  - apply in_seq. lia.
Qed.
Lemma digit_range c : is_ascii_digit c = true → (48 <= c <= 57)%N.
Proof. unfold is_ascii_digit. rewrite andb_true_iff, !N.leb_le. lia. Qed.
Lemma digit_no_space c : is_ascii_digit c = true → is_whitespace c = false.
Proof.
  intros H%digit_range. assert (forallb (λ n, negb (is_whitespace (N.of_nat n))) (seq 48 10) = true) as Hd by reflexivity.
  rewrite forallb_forall in Hd. specialize (Hd (N.to_nat c)). rewrite N2Nat.id in Hd. apply negb_true_iff, Hd, in_seq. lia.
Qed.
Lemma dotted_shape a b c d :
  (a < 256)%N → (b < 256)%N → (c < 256)%N → (d < 256)%N →
  edges_ok (dotted a b c d) ∧ Forall unicode (dotted a b c d) ∧
  ∃ x l, dotted a b c d = x :: l ∧ is_ascii_digit x = true.
Proof.
  intros Ha Hb Hc Hd. destruct (pretty_octet_chars a Ha) as [Fa Na]. destruct (pretty_octet_chars b Hb) as [Fb _].
  destruct (pretty_octet_chars c Hc) as [Fc _]. destruct (pretty_octet_chars d Hd) as [Fd Nd].
  assert (∀ l, Forall (λ c, is_ascii_digit c = true) l → Forall unicode l) as Hu.
  { intros l Hl. eapply Forall_impl; [exact Hl|]. intros x Hx%digit_range. unfold unicode. lia. }
  assert (dotted a b c d = (chars (pretty a) ++ ch "." :: chars (pretty b) ++ ch "." :: chars (pretty c) ++ [ch "."]) ++ chars (pretty d)) as Heq
    by (unfold dotted; repeat (rewrite <- ?app_assoc, <- ?app_comm_cons); done).
  split; [split|split].
  - unfold dotted. destruct (chars (pretty a)) as [|x la]; [done|]. apply Forall_cons in Fa as [Fx _]. intros y [= <-]. by apply digit_no_space.
  - intros y. rewrite Heq, last_app. destruct (last (chars (pretty d))) as [z|] eqn:Hz; [|by apply last_None in Hz].
    intros [= <-]. apply last_Some in Hz as [l Hz]. rewrite Hz, Forall_app in Fd. destruct Fd as [_ Fd]. rewrite Forall_singleton in Fd. by apply digit_no_space.
  - assert (∀ l k, Forall unicode l → Forall unicode k → Forall unicode (l ++ ch "." :: k)) as Hjoin
      by (intros; apply Forall_app; split; [done|]; by constructor).
    unfold dotted. auto.
  - unfold dotted. destruct (chars (pretty a)) as [|x la]; [done|]. apply Forall_cons in Fa as [Fx _]. by eexists _, _.
Qed.
Lemma loopback_dotted a b c d :
  (a < 256)%N → (b < 256)%N → (c < 256)%N → (d < 256)%N →
  is_loopback_bind (of_chars (dotted a b c d)) = bool_decide (a = 127%N).
Proof.
  intros Ha Hb Hc Hd. destruct (dotted_shape a b c d Ha Hb Hc Hd) as (He & Hu & x & l & Hx & Hdig).
  unfold is_loopback_bind. rewrite chars_of_chars by done. rewrite trim_id by done. apply digit_range in Hdig.
  assert (unbracketed (dotted a b c d) = dotted a b c d) as Hub.
  { rewrite Hx. unfold unbracketed. cbn [strip_prefix]. destruct (N.eqb_spec (ch "[") x) as [<-|]; [|done]. by vm_compute in Hdig; destruct Hdig as [_ []]. }
  rewrite Hub, parse_dotted by done. rewrite bool_decide_eq_false_2.
  - cbn [is_loopback head]. apply bool_decide_ext. naive_solver.
  - rewrite Hx. intros Hl. apply (f_equal head) in Hl. cbn [fmap list_fmap head] in Hl.
    assert (ascii_lower x = x) as Hlow by (unfold ascii_lower; by destruct (N.leb_spec 65 x); [lia|]).
    rewrite Hlow in Hl. assert (x = 108%N) by (by injection Hl). lia.
Qed.
