(* ===== verification/HttpAuth.v ===== *)
(** * The API-key gate

    engine-server/src/server/auth.rs and the parts of server/mod.rs around it: the
    settings the server is built with, the table of routes, and the middleware every
    request passes.  axum's router and the header values of the http crate are the
    class [HttpLib] with what the server relies on. *)

From stdpp Require Import base list gmap strings numbers pretty.
From Stdlib Require Import Ascii.
From S2P Require Import Prelude Text TextSplit Json Domain Persistence HttpState Redact ModelCheck.
Local Open Scope rust_scope.

Inductive Method := GET | POST | PUT | DELETE | OPTIONS | HEAD | OtherMethod.
#[export] Instance Method_eq : EqDecision Method.
Proof. solve_decision. Defined.

(** ** Routes (server/mod.rs) *)

Inductive Handler :=
| HDeployDefinition | HDeployCollection | HListDefinitions | HGetDefinitionXml | HDeleteDefinition | HDeleteAllDefinitions
| HStartInstance | HStartInstanceLatest | HStartTimerInstance | HListInstances | HGetInstance | HDeleteInstance
| HMoveToken | HMigrateInstance | HSuspendInstance | HResumeInstance | HUpdateVariables
| HGetIncidents | HResolveInstanceIncident
| HUploadFile | HGetFile | HDeleteFile
| HGetHistory | HGetHistoryEntry | HListCompleted | HGetCompleted
| HBackendInfo | HMonitoring | HBucketEntries | HBucketEntryDetail
| HCorrelateMessage | HGetMessages | HCorrelateSignal | HGetSignals | HGetTimers | HProcessTimers
| HGetTasks | HCompleteTask | HGetServiceTasks | HFetchAndLock | HCompleteServiceTask | HFailServiceTask
| HRetryIncident | HResolveIncident | HExtendLock | HBpmnError
| HLogs | HEvents | HHealth | HReady | HMetrics.
Scheme Equality for Handler.
#[export] Instance Handler_eq : EqDecision Handler := Handler_eq_dec.

Definition Routes : Type := list (string * list (Method * Handler)).
Definition api_routes : Routes := [
  ("/api/deploy", [(POST, HDeployDefinition)]);
  ("/api/deploy/collection", [(POST, HDeployCollection)]);
  ("/api/start", [(POST, HStartInstance)]);
  ("/api/start/latest", [(POST, HStartInstanceLatest)]);
  ("/api/start/timer", [(POST, HStartTimerInstance)]);
  ("/api/tasks", [(GET, HGetTasks)]);
  ("/api/complete/{id}", [(POST, HCompleteTask)]);
  ("/api/instances", [(GET, HListInstances)]);
  ("/api/instances/{id}", [(GET, HGetInstance); (DELETE, HDeleteInstance)]);
  ("/api/definitions", [(GET, HListDefinitions)]);
  ("/api/definitions/{id}/xml", [(GET, HGetDefinitionXml)]);
  ("/api/definitions/{id}", [(DELETE, HDeleteDefinition)]);
  ("/api/definitions/bpmn/{bpmn_id}", [(DELETE, HDeleteAllDefinitions)]);
  ("/api/instances/{id}/move-token", [(POST, HMoveToken)]);
  ("/api/instances/{id}/migrate", [(POST, HMigrateInstance)]);
  ("/api/instances/{id}/suspend", [(POST, HSuspendInstance)]);
  ("/api/instances/{id}/resume", [(POST, HResumeInstance)]);
  ("/api/instances/{id}/variables", [(PUT, HUpdateVariables)]);
  ("/api/instances/{id}/files/{var_name}", [(POST, HUploadFile); (GET, HGetFile); (DELETE, HDeleteFile)]);
  ("/api/instances/{id}/history", [(GET, HGetHistory)]);
  ("/api/instances/{id}/history/{event_id}", [(GET, HGetHistoryEntry)]);
  ("/api/instances/{id}/incidents", [(GET, HGetIncidents)]);
  ("/api/instances/{id}/incidents/{incident_id}/resolve", [(POST, HResolveInstanceIncident)]);
  ("/api/info", [(GET, HBackendInfo)]);
  ("/api/monitoring", [(GET, HMonitoring)]);
  ("/api/monitoring/buckets/{bucket}/entries", [(GET, HBucketEntries)]);
  ("/api/monitoring/buckets/{bucket}/entries/{key}", [(GET, HBucketEntryDetail)]);
  ("/api/history/instances", [(GET, HListCompleted)]);
  ("/api/history/instances/{id}", [(GET, HGetCompleted)]);
  ("/api/message", [(POST, HCorrelateMessage)]);
  ("/api/timers", [(GET, HGetTimers)]);
  ("/api/timers/process", [(POST, HProcessTimers)]);
  ("/api/messages", [(GET, HGetMessages)]);
  ("/api/signal", [(POST, HCorrelateSignal)]);
  ("/api/signals", [(GET, HGetSignals)]);
  ("/api/service-tasks", [(GET, HGetServiceTasks)]);
  ("/api/service-task/fetchAndLock", [(POST, HFetchAndLock)]);
  ("/api/service-task/{id}/complete", [(POST, HCompleteServiceTask)]);
  ("/api/service-task/{id}/failure", [(POST, HFailServiceTask)]);
  ("/api/service-task/{id}/retry", [(POST, HRetryIncident)]);
  ("/api/service-task/{id}/resolve", [(POST, HResolveIncident)]);
  ("/api/service-task/{id}/extendLock", [(POST, HExtendLock)]);
  ("/api/service-task/{id}/bpmnError", [(POST, HBpmnError)]);
  ("/api/logs", [(GET, HLogs)]);
  ("/api/events", [(GET, HEvents)]);
  ("/api/health", [(GET, HHealth)]);
  ("/api/ready", [(GET, HReady)])].
(** The routes of the application; [/metrics] needs a handle of Prometheus. *)
Definition app_routes (metrics : bool) : Routes := api_routes ++ if metrics then [("/metrics", [(GET, HMetrics)])] else [].

(** A pattern against a path: a segment in braces stands for one segment. *)
Definition is_capture (segment : list char) : bool := bool_decide (head segment = Some (ch "{")).
Fixpoint segments_match (pattern path : list (list char)) : bool :=
  match pattern, path with
  | [], [] => true
  | p :: pattern, s :: path => (is_capture p || bool_decide (p = s)) && segments_match pattern path
  | _, _ => false
  end.
Definition segments (path : string) : list (list char) := split_on (ch "/") (chars path).
Definition pattern_matches (pattern path : string) : bool := segments_match (segments pattern) (segments path).

Class HttpLib := {
  HeaderValue : Type;
  (** [HeaderValue::to_str]: only visible ASCII is a text. *)
  to_str : HeaderValue → option string;
  to_str_ascii v s : to_str v = Some s → Forall (λ c, (c < 128)%N) (chars s);
  (** axum's router: the handler of a method and a path.  It serves what the table
      lists, and a HEAD request like a GET request. *)
  route : Routes → Method → string → option Handler;
  route_listed routes m path h : route routes m path = Some h →
    ∃ pattern handlers, (pattern, handlers) ∈ routes ∧ pattern_matches pattern path = true ∧
      ((m, h) ∈ handlers ∨ (m = HEAD ∧ (GET, h) ∈ handlers));
}.

(** ** The settings (server/mod.rs) *)

(** An option that is not given is read from the environment.  [Some None] for a key
    switches it off. *)
Record AppBuildConfig := mkBuildConfig {
  bc_api_key : option (option string);
  bc_worker_api_key : option (option string);
  bc_bind_addr : option string;
  bc_allow_unauthenticated : option bool;
}.
Definition default_config : AppBuildConfig := mkBuildConfig None None None None.
Record Gate := mkGate { g_api_key : option string; g_worker_api_key : option string; g_auth_required : bool }.

Definition configured_key (config : option (option string)) (env : option string) : option string :=
  match config with Some explicit => explicit ≫= λ k, parse_api_key (Some k) | None => parse_api_key env end.
Definition build_gate (env : string → option string) (config : AppBuildConfig) : Gate :=
  let explicit_auth_off := match bc_api_key config with Some None => true | _ => false end in
  let api_key := configured_key (bc_api_key config) (env "BPMNINJA_API_KEY") in
  let worker_api_key := configured_key (bc_worker_api_key config) (env "BPMNINJA_WORKER_API_KEY") in
  let bind_addr := default (bind_addr_from_env (env "BIND_ADDR") (env "BIND_ADDRESS")) (bc_bind_addr config) in
  let allow := default (parse_allow_unauthenticated (env "BPMNINJA_ALLOW_UNAUTHENTICATED")) (bc_allow_unauthenticated config) in
  mkGate api_key worker_api_key
    (resolve_auth_required (bool_decide (is_Some api_key) || bool_decide (is_Some worker_api_key)) explicit_auth_off allow bind_addr).

(** ** The middleware (auth.rs) *)

Definition HEALTH_PATH : string := "/api/health".
Definition READY_PATH : string := "/api/ready".
Definition SERVICE_TASK_PREFIX : string := "/api/service-task/".
Inductive Role := Admin | Worker.
#[export] Instance Role_eq : EqDecision Role.
Proof. solve_decision. Defined.

Definition is_worker_route (m : Method) (path : string) : bool :=
  match m with
  | POST =>
    if String.eqb path "/api/service-task/fetchAndLock" then true
    else
      match strip_prefix (chars SERVICE_TASK_PREFIX) (chars path) with
      | None => false
      | Some rest =>
        match split_once [ch "/"] rest with
        | Some (_, action) => existsb (λ name, bool_decide (action = chars name)) ["complete"; "failure"; "extendLock"; "bpmnError"]
        | None => false
        end
      end
  | _ => false
  end.

(** [strip_bearer]: the slice panics inside of a character. *)
Definition continuation (a : ascii) : bool := (128 <=? N_of_ascii a)%N && (N_of_ascii a <? 192)%N.
Definition strip_bearer (value : string) : call (option string) :=
  let value := trim_str value in
  if String.length value <=? 6 then Returns None
  else
    match String.get 6 value with
    | None => Returns None
    | Some c =>
      if continuation c then Panics
      else if eq_ignore_ascii_case (String.substring 0 6 value) "bearer" && Ascii.eqb c " " then
        let key := trim_str (String.substring 7 (String.length value - 7) value) in
        Returns (if String.eqb key "" then None else Some key)
      else Returns None
    end.

Section gate.
  Context `{HttpLib}.

Record HttpRequest := mkRequest {
  rq_method : Method;
  rq_path : string;
  (** The first value of each name. *)
  rq_headers : gmap string HeaderValue;
}.
Definition extract_api_key (headers : gmap string HeaderValue) : call (option string) :=
  let plain := match headers !! "x-api-key" ≫= to_str with
               | Some v => let key := trim_str v in if String.eqb key "" then None else Some key
               | None => None
               end in
  match headers !! "authorization" ≫= to_str with
  | Some raw => match strip_bearer raw with Returns (Some key) => Returns (Some key) | Returns None => Returns plain | Panics => Panics end
  | None => Returns plain
  end.
Definition presented_role (g : Gate) (headers : gmap string HeaderValue) : call (option Role) :=
  match extract_api_key headers with
  | Panics => Panics
  | Returns None => Returns None
  | Returns (Some provided) =>
    let grants key := match key with Some expected => api_keys_equal provided expected | None => false end in
    Returns (if grants (g_api_key g) then Some Admin else if grants (g_worker_api_key g) then Some Worker else None)
  end.
(** [auth_middleware]: the request goes on, or the error. *)
Definition auth_middleware (g : Gate) (rq : HttpRequest) : call (result AppError unit) :=
  if bool_decide (rq_method rq = OPTIONS) then Returns (Ok tt)
  else if String.eqb (rq_path rq) HEALTH_PATH || String.eqb (rq_path rq) READY_PATH then Returns (Ok tt)
  else if negb (g_auth_required g) then Returns (Ok tt)
  else
    match presented_role g (rq_headers rq) with
    | Panics => Panics
    | Returns None => Returns (Err Unauthorized)
    | Returns (Some role) =>
      if bool_decide (role = Worker) && negb (is_worker_route (rq_method rq) (rq_path rq)) then Returns (Err Forbidden)
      else Returns (Ok tt)
    end.
End gate.

Example bearer_key : strip_bearer "BEARER  secret  " = Returns (Some "secret").
Proof. reflexivity. Qed.
Example bearer_split_char : strip_bearer "Beareé" = Panics.
Proof. reflexivity. Qed.

(** ** Keys and headers *)

Lemma get_ascii l i c : Forall (λ c, (c < 128)%N) l → String.get i (of_chars l) = Some c → (N_of_ascii c < 128)%N.
Proof.
  intros Hl. revert i. induction Hl as [|x l Hx Hl IH]; intros i; [done|]. cbn [of_chars]. unfold encode_char.
  destruct (N.ltb_spec x 128); [|lia]. rewrite string_app_cons, string_app_nil_l.
  destruct i as [|i]; cbn [String.get]; [|apply IH]. intros [= <-]. by rewrite N_of_byte_of by lia.
Qed.
Lemma strip_bearer_returns s : Forall (λ c, (c < 128)%N) (chars s) → strip_bearer s ≠ Panics.
Proof.
  intros Hs. unfold strip_bearer. destruct (String.length (trim_str s) <=? 6); [done|].
  destruct (String.get 6 (trim_str s)) as [c|] eqn:Hc; [|done].
  assert (N_of_ascii c < 128)%N as Hlt.
  { eapply get_ascii; [|exact Hc]. rewrite Forall_forall in Hs |- *. intros x Hx. by apply Hs, trim_subseteq. }
  unfold continuation. destruct (N.leb_spec 128 (N_of_ascii c)); [lia|]. cbn [andb]. by destruct (_ && _).
Qed.

Section gate_laws.
  Context `{HttpLib}.

Lemma extract_returns headers : extract_api_key headers ≠ Panics.
Proof.
  unfold extract_api_key. destruct (headers !! "authorization" ≫= to_str) as [raw|] eqn:Hr; [|done].
  assert (strip_bearer raw ≠ Panics) as Hs.
  { destruct (headers !! "authorization") as [v|]; [|done]. by apply strip_bearer_returns, (to_str_ascii v). }
  by destruct (strip_bearer raw) as [[]|].
Qed.
(** The middleware lets exactly these requests pass, and never panics. *)
Definition presents (g : Gate) (rq : HttpRequest) : Prop :=
  ∃ key, extract_api_key (rq_headers rq) = Returns (Some key) ∧
    (g_api_key g = Some key ∨ (g_worker_api_key g = Some key ∧ is_worker_route (rq_method rq) (rq_path rq) = true)).
Lemma auth_middleware_spec g rq :
  ∃ r, auth_middleware g rq = Returns r ∧
  (r = Ok tt ↔ rq_method rq = OPTIONS ∨ rq_path rq = HEALTH_PATH ∨ rq_path rq = READY_PATH ∨ g_auth_required g = false ∨ presents g rq).
Proof.
  unfold auth_middleware. destruct (bool_decide_reflect (rq_method rq = OPTIONS)) as [Ho|Ho]; [exists (Ok tt); naive_solver|].
  destruct (String.eqb_spec (rq_path rq) HEALTH_PATH) as [Hh|Hh]; [exists (Ok tt); naive_solver|].
  destruct (String.eqb_spec (rq_path rq) READY_PATH) as [Hr|Hr]; [exists (Ok tt); naive_solver|]. cbn [orb].
  destruct (g_auth_required g); [|exists (Ok tt); naive_solver]. cbn [negb]. unfold presented_role, presents.
  pose proof (extract_returns (rq_headers rq)) as He. destruct (extract_api_key (rq_headers rq)) as [[key|]|]; [|exists (Err Unauthorized); naive_solver|done].
  set (grants := λ o, match o with Some expected => api_keys_equal key expected | None => false end).
  assert (∀ o, grants o = true ↔ o = Some key) as Hg.
  { intros [expected|]; cbn; [rewrite api_keys_equal_spec; naive_solver|done]. }
  change (match g_api_key g with Some e => api_keys_equal key e | None => false end) with (grants (g_api_key g)).
  change (match g_worker_api_key g with Some e => api_keys_equal key e | None => false end) with (grants (g_worker_api_key g)).
  pose proof (Hg (g_api_key g)) as Ha. pose proof (Hg (g_worker_api_key g)) as Hw.
  destruct (grants (g_api_key g)).
  { exists (Ok tt). split; [done|]. split; [|done]. intros _. do 4 right. exists key. split; [done|]. left. by apply Ha. }
  destruct (grants (g_worker_api_key g)); [|exists (Err Unauthorized); split; [done|]; naive_solver].
  cbn. destruct (is_worker_route _ _) eqn:Hroute; [exists (Ok tt)|exists (Err Forbidden)]; (split; [done|]); (split; [try done|]).
  - intros _. do 4 right. exists key. split; [done|]. right. split; [by apply Hw|done].
  - done.
  - intros [?|[?|[?|[?|(k & [= <-] & [Hk%Ha|[_ Hk]])]]]]; done.
Qed.

(** ** Who reaches which handler *)

Definition worker_handlers : list Handler := [HFetchAndLock; HCompleteServiceTask; HFailServiceTask; HExtendLock; HBpmnError].
(** The handlers of the patterns a path matches. *)
Definition serves (routes : Routes) (path : list (list char)) (allowed : list Handler) : Prop :=
  Forall (λ entry, segments_match (segments entry.1) path = true → Forall (λ mh, mh.2 ∈ allowed) entry.2) routes.
Lemma reached_handlers metrics m path h allowed :
  serves (app_routes metrics) (segments path) allowed → route (app_routes metrics) m path = Some h → h ∈ allowed.
Proof.
  unfold serves. rewrite Forall_forall. intros Hs Hr. apply route_listed in Hr as (pattern & handlers & Hin & Hm & Hh).
  specialize (Hs _ Hin Hm). rewrite Forall_forall in Hs. by destruct Hh as [Hh|[_ Hh]]; apply Hs in Hh.
Qed.
(** The check of the whole table; [None] stands for a segment that is not known. *)
Fixpoint may_match (pattern : list (list char)) (path : list (option (list char))) : bool :=
  match pattern, path with
  | [], [] => true
  | p :: pattern, s :: path =>
    (is_capture p || match s with Some s => bool_decide (p = s) | None => true end) && may_match pattern path
  | _, _ => false
  end.
Lemma may_match_sound pattern path known :
  Forall2 (λ k s, k = None ∨ k = Some s) known path → segments_match pattern path = true → may_match pattern known = true.
Proof.
  intros Hk. revert pattern. induction Hk as [|k s known path Hks Hk IH]; intros [|p pattern]; try done. cbn.
  rewrite !andb_true_iff, !orb_true_iff. intros [Hp Hm]. split; [|by apply IH].
  destruct Hp as [Hp|Hp]; [by left|]. right. by destruct Hks as [->| ->].
Qed.
Definition table_allows (routes : Routes) (known : list (option (list char))) (allowed : list Handler) : bool :=
  forallb (λ entry, negb (may_match (segments entry.1) known) || forallb (λ mh, bool_decide (mh.2 ∈ allowed)) entry.2) routes.
Lemma table_serves routes known path allowed :
  Forall2 (λ k s, k = None ∨ k = Some s) known path → table_allows routes known allowed = true → serves routes path allowed.
Proof.
  intros Hk Hf. apply Forall_forall. intros entry Hp Hm. unfold table_allows in Hf. rewrite forallb_elem in Hf. specialize (Hf _ Hp).
  rewrite (may_match_sound _ _ _ Hk Hm) in Hf. cbn in Hf. rewrite forallb_elem in Hf. apply Forall_forall. intros mh Hmh.
  by apply (bool_decide_eq_true_1 (mh.2 ∈ allowed)), Hf.
Qed.
Lemma fixed_path_serves metrics path h :
  (path, h) ∈ [(HEALTH_PATH, HHealth); (READY_PATH, HReady); ("/api/service-task/fetchAndLock", HFetchAndLock)] →
  serves (app_routes metrics) (segments path) [h].
Proof.
  intros Hin. apply (table_serves _ (Some <$> segments path)).
  - generalize (segments path). intros l. induction l; constructor; auto.
  - rewrite !elem_of_cons in Hin. destruct metrics; destruct Hin as [[= -> ->]|[[= -> ->]|[[= -> ->]|[]%not_elem_of_nil]]]; vm_compute; reflexivity.
Qed.
(** A worker route is the fetch or one of four actions on a task. *)
Lemma worker_route_segments path : is_worker_route POST path = true →
  path = "/api/service-task/fetchAndLock" ∨
  ∃ x action, action ∈ ["complete"; "failure"; "extendLock"; "bpmnError"] ∧
    segments path = [[]; chars "api"; chars "service-task"; x; chars action].
Proof.
  unfold is_worker_route. destruct (String.eqb_spec path "/api/service-task/fetchAndLock") as [->|_]; [by left|].
  destruct (strip_prefix _ (chars path)) as [rest|] eqn:Hp; [|done]. apply strip_prefix_Some in Hp.
  destruct (split_once [ch "/"] rest) as [[x action]|] eqn:Hs; [|done]. apply split_once_Some in Hs as [-> Hx].
  intros (name & Hin & Ha%bool_decide_eq_true)%existsb_exists. apply list_elem_of_In in Hin. right. exists x, name. split; [done|]. subst action.
  assert (ch "/" ∉ chars name) as Hn.
  { rewrite !elem_of_cons in Hin. destruct Hin as [->|[->|[->|[->|[]%not_elem_of_nil]]]]; by apply (bool_decide_unpack _). }
  unfold segments. rewrite Hp.
  change (chars SERVICE_TASK_PREFIX ++ x ++ ch "/" :: chars name) with
    ([] ++ ch "/" :: (chars "api" ++ ch "/" :: (chars "service-task" ++ ch "/" :: (x ++ ch "/" :: chars name)))).
  rewrite split_on_cons by apply not_elem_of_nil. do 2 rewrite split_on_cons by by apply (bool_decide_unpack _).
  rewrite split_on_cons by done. by rewrite split_on_fresh by done.
Qed.
Lemma worker_path_serves metrics x action :
  action ∈ ["complete"; "failure"; "extendLock"; "bpmnError"] →
  serves (app_routes metrics) [[]; chars "api"; chars "service-task"; x; chars action] worker_handlers.
Proof.
  intros Hin. apply (table_serves _ [Some []; Some (chars "api"); Some (chars "service-task"); None; Some (chars action)]).
  - do 5 (constructor; [auto|]). constructor.
  - rewrite !elem_of_cons in Hin. destruct metrics; destruct Hin as [->|[->|[->|[->|[]%not_elem_of_nil]]]]; vm_compute; reflexivity.
Qed.
(** No route answers a preflight request. *)
Lemma preflight_unrouted metrics path : route (app_routes metrics) OPTIONS path = None.
Proof.
  destruct (route _ _ _) as [h|] eqn:Hr; [|done]. apply route_listed in Hr as (pattern & handlers & Hin & _ & [Hh|[? _]]); [|done].
  assert (forallb (λ entry : string * list (Method * Handler), forallb (λ mh, bool_decide (mh.1 ≠ OPTIONS)) entry.2) (app_routes metrics) = true) as Hf
    by (destruct metrics; vm_compute; reflexivity).
  rewrite forallb_elem in Hf. specialize (Hf _ Hin). rewrite forallb_elem in Hf. by specialize (Hf _ Hh).
Qed.

(** ** Fail closed *)

(** The ways to run without keys: switched off for a test, allowed for development, or
    bound to this machine. *)
Definition opted_out (env : string → option string) (config : AppBuildConfig) : Prop :=
  bc_api_key config = Some None ∨
  default (parse_allow_unauthenticated (env "BPMNINJA_ALLOW_UNAUTHENTICATED")) (bc_allow_unauthenticated config) = true ∨
  is_loopback_bind (default (bind_addr_from_env (env "BIND_ADDR") (env "BIND_ADDRESS")) (bc_bind_addr config)) = true.
Lemma gate_open env config :
  g_auth_required (build_gate env config) = false →
  g_api_key (build_gate env config) = None ∧ g_worker_api_key (build_gate env config) = None ∧ opted_out env config.
Proof.
  unfold build_gate, resolve_auth_required, opted_out. cbn.
  destruct (configured_key (bc_api_key config) _) as [k|]; cbn; [done|].
  destruct (configured_key (bc_worker_api_key config) _) as [k|]; cbn; [done|].
  destruct (default (parse_allow_unauthenticated _) _); [by eauto|]. rewrite orb_false_r.
  destruct (bc_api_key config) as [[k|]|]; cbn; [|by eauto|]; rewrite ?negb_false_iff; by eauto.
Qed.

(** What passes without a key is not routed, or public. *)
Lemma public_routes rq metrics h :
  rq_method rq = OPTIONS ∨ rq_path rq = HEALTH_PATH ∨ rq_path rq = READY_PATH →
  route (app_routes metrics) (rq_method rq) (rq_path rq) = Some h → h = HHealth ∨ h = HReady.
Proof.
  intros [Hm|[Hp|Hp]] Hroute.
  - rewrite Hm in Hroute. by rewrite preflight_unrouted in Hroute.
  - rewrite Hp in Hroute. eapply reached_handlers in Hroute; [|apply (fixed_path_serves metrics HEALTH_PATH HHealth); set_solver]. set_solver.
  - rewrite Hp in Hroute. eapply reached_handlers in Hroute; [|apply (fixed_path_serves metrics READY_PATH HReady); set_solver]. set_solver.
Qed.
(** Who passes a closed gate, to which handler. *)
Lemma passes_closed_gate g rq metrics h :
  g_auth_required g = true → auth_middleware g rq = Returns (Ok tt) →
  route (app_routes metrics) (rq_method rq) (rq_path rq) = Some h →
  h = HHealth ∨ h = HReady ∨
  ∃ key, extract_api_key (rq_headers rq) = Returns (Some key) ∧
    (g_api_key g = Some key ∨ (g_worker_api_key g = Some key ∧ h ∈ worker_handlers)).
Proof.
  intros Hclosed Hok Hroute. destruct (auth_middleware_spec g rq) as (r & Hr & Hiff). rewrite Hr in Hok. injection Hok as ->.
  pose proof (public_routes rq metrics h) as Hpub.
  destruct (proj1 Hiff eq_refl) as [Hm|[Hp|[Hp|[Hg|Hk]]]]; [naive_solver..|congruence|].
  - destruct Hk as (key & He & [Ha|[Hw Hwr]]); right; right; exists key; split; [done|by left|done|right; split; [done|]].
    assert (rq_method rq = POST) as Hpost by (unfold is_worker_route in Hwr; by destruct (rq_method rq)). rewrite Hpost in Hwr.
    destruct (worker_route_segments _ Hwr) as [Hp|(x & action & Hin & Hseg)].
    + rewrite Hp in Hroute. eapply reached_handlers in Hroute; [|apply (fixed_path_serves metrics _ HFetchAndLock); set_solver]. set_solver.
    + eapply reached_handlers in Hroute; [done|]. rewrite Hseg. by apply worker_path_serves.
Qed.

(** C31: The gate is closed unless it was opened: a server that was not told to run
    without keys and is not bound to this machine lets a request reach a handler only
    if the handler is one of the two public ones, or the request carries the admin key,
    or it carries the worker key and the handler is one of the five a worker needs; no
    request makes the gate panic. *)
Theorem gate_protects env config rq metrics :
  ¬ (g_api_key (build_gate env config) = None ∧ g_worker_api_key (build_gate env config) = None ∧ opted_out env config) →
  auth_middleware (build_gate env config) rq ≠ Panics ∧
  (∀ h, auth_middleware (build_gate env config) rq = Returns (Ok tt) →
    route (app_routes metrics) (rq_method rq) (rq_path rq) = Some h →
    h = HHealth ∨ h = HReady ∨
    ∃ key, extract_api_key (rq_headers rq) = Returns (Some key) ∧
      (g_api_key (build_gate env config) = Some key ∨
       (g_worker_api_key (build_gate env config) = Some key ∧ h ∈ worker_handlers))).
Proof.
  intros Hopen. destruct (auth_middleware_spec (build_gate env config) rq) as (r & Hr & _). split; [by rewrite Hr|].
  intros h. apply passes_closed_gate. destruct (g_auth_required _) eqn:Hg; [done|]. by apply gate_open in Hg.
Qed.
End gate_laws.

(** ** A server with a worker key *)

Definition ascii_value (v : string) : option string := if forallb (λ c, (c <? 128)%N) (chars v) then Some v else None.
Lemma ascii_value_ascii v s : ascii_value v = Some s → Forall (λ c, (c < 128)%N) (chars s).
Proof.
  unfold ascii_value. destruct (forallb _ _) eqn:Hf; [|done]. intros [= <-]. rewrite forallb_elem in Hf. apply Forall_forall.
  intros c Hc. by apply N.ltb_lt, Hf.
Qed.
Definition method_handler (m : Method) (handlers : list (Method * Handler)) : option Handler :=
  snd <$> List.find (λ mh, bool_decide (mh.1 = m)) handlers.
Definition first_route (routes : Routes) (m : Method) (path : string) : option Handler :=
  find_map (λ entry, if pattern_matches entry.1 path then method_handler m entry.2 else None) routes.
Lemma first_route_listed routes m path h : first_route routes m path = Some h →
  ∃ pattern handlers, (pattern, handlers) ∈ routes ∧ pattern_matches pattern path = true ∧
    ((m, h) ∈ handlers ∨ (m = HEAD ∧ (GET, h) ∈ handlers)).
Proof.
  intros ([pattern handlers] & Hin & Hf)%find_map_Some. cbn [fst snd] in Hf. destruct (pattern_matches pattern path) eqn:Hm; [|done].
  exists pattern, handlers. split; [done|]. split; [done|]. left. unfold method_handler in Hf.
  destruct (List.find _ handlers) as [[m' h']|] eqn:Hfind; [|done]. apply List.find_some in Hfind as [Hh Heq%bool_decide_eq_true].
  apply list_elem_of_In in Hh. cbn in *. by simplify_eq.
Qed.
#[local] Instance plain_http : HttpLib := {
  to_str := ascii_value;
  to_str_ascii := ascii_value_ascii;
  route := first_route;
  route_listed := first_route_listed;
}.
Definition worker_config : AppBuildConfig := mkBuildConfig None (Some (Some " w0rk ")) None None.
Definition no_env (_ : string) : option string := None.
Definition worker_request : HttpRequest (H := plain_http) :=
  mkRequest (H := plain_http) POST "/api/service-task/7/complete" (<["authorization" := "Bearer w0rk"]> ∅).

Lemma gate_protects_witness :
  auth_middleware (build_gate no_env worker_config) worker_request = Returns (Ok tt) ∧
  route (app_routes true) (rq_method worker_request) (rq_path worker_request) = Some HCompleteServiceTask ∧
  (HCompleteServiceTask = HHealth ∨ HCompleteServiceTask = HReady ∨
   ∃ key, extract_api_key (rq_headers worker_request) = Returns (Some key) ∧
     (g_api_key (build_gate no_env worker_config) = Some key ∨
      (g_worker_api_key (build_gate no_env worker_config) = Some key ∧ HCompleteServiceTask ∈ worker_handlers))).
Proof.
  destruct (gate_protects no_env worker_config worker_request true) as [_ H]; [intros (_ & Hw & _); by vm_compute in Hw|].
  split; [vm_compute; reflexivity|]. split; [vm_compute; reflexivity|]. apply H; vm_compute; reflexivity.
Defined.
