(* ===== verification/CondEval.v ===== *)
(** * Condition language: evaluation

    engine-core/src/condition.rs: [evaluate], [resolve_path], [truthy],
    [compare], [values_eq], [arithmetic] and [evaluate_condition]. *)

From stdpp Require Import base list gmap numbers strings.
From Stdlib Require Import SpecFloat.
From S2P Require Import Prelude Text Float Json CondLexer CondParser.
Local Open Scope rust_scope.

(** The texts of evaluation errors. *)
Inductive EvalError :=
| CannotNegate (v : EvalValue)
| CannotCompare (a b : EvalValue)
| CompareNaN
| CannotApply (op : ArithOp) (a b : EvalValue)
| DivisionByZero (op : ArithOp).

Abbreviation Eval := (result EvalError).

(** [EvalValue::from_json]. *)
Definition from_json (v : Value) : EvalValue :=
  match v with
  | VNull => ENull
  | VBool b => EBool b
  | VNumber n => ENumber (as_f64 n)
  | VString s => EString s
  | VArray _ | VObject _ => EJson v
  end.

Definition step_segment (current : EvalValue) (seg : PathSegment) : option EvalValue :=
  match current, seg with
  | EJson (VObject fields), Field name => from_json <$> field_get name fields
  | EJson (VArray items), Index i => from_json <$> items !! Z.to_nat i
  | _, _ => None
  end.

Fixpoint resolve_steps (current : EvalValue) (segs : list PathSegment) : EvalValue :=
  match segs with
  | [] => current
  | seg :: segs =>
    match step_segment current seg with
    | Some next => resolve_steps next segs
    | None => EUndefined
    end
  end.

(** [resolve_path]. *)
Definition resolve_path (segs : list PathSegment) (variables : Vars) : EvalValue :=
  match segs with
  | Field root :: rest =>
    match variables !! root with
    | Some v => resolve_steps (from_json v) rest
    | None => EUndefined
    end
  | _ => EUndefined
  end.

(** [truthy]. *)
Definition truthy (v : EvalValue) : bool :=
  match v with
  | EUndefined | ENull => false
  | EBool b => b
  | ENumber n => negb (f64_eqb n f64_zero)
  | EString s => negb (bool_decide (s = ""))
  | EJson _ => true
  end.

Definition is_undefined (v : EvalValue) : bool :=
  match v with EUndefined => true | _ => false end.

(** [values_eq]: numbers compare up to [f64::EPSILON]; undefined equals nothing. *)
Definition values_eq (a b : EvalValue) : bool :=
  match a, b with
  | EUndefined, _ | _, EUndefined => false
  | ENull, ENull => true
  | EBool x, EBool y => Bool.eqb x y
  | ENumber x, ENumber y => f64_ltb (f64_abs (f64_sub x y)) f64_epsilon
  | EString x, EString y => bool_decide (x = y)
  | EJson x, EJson y => value_eqb x y
  | _, _ => false
  end.

(** The verdict of an ordering operator on a computed ordering. *)
Definition ordering_holds (op : CmpOp) (o : comparison) : bool :=
  match op, o with
  | CGt, Gt | CLt, Lt | CGe, (Gt | Eq) | CLe, (Lt | Eq) => true
  | _, _ => false
  end.

(** [compare]. *)
Definition compare (op : CmpOp) (a b : EvalValue) : Eval bool :=
  match op with
  | CEq => Ok (values_eq a b)
  | CNe => if is_undefined a || is_undefined b then Ok false else Ok (negb (values_eq a b))
  | _ =>
    if is_undefined a || is_undefined b then Ok false
    else
      match a, b with
      | ENumber x, ENumber y =>
        match f64_partial_cmp x y with
        | Some o => Ok (ordering_holds op o)
        | None => Err CompareNaN
        end
      | _, _ => Err (CannotCompare a b)
      end
  end.

(** [arithmetic]: a missing operand propagates, a zero divisor is an error. *)
Definition arithmetic (op : ArithOp) (a b : EvalValue) : Eval EvalValue :=
  if is_undefined a || is_undefined b then Ok EUndefined
  else
    match a, b with
    | ENumber x, ENumber y =>
      match op with
      | AAdd => Ok (ENumber (f64_add x y))
      | ASub => Ok (ENumber (f64_sub x y))
      | AMul => Ok (ENumber (f64_mul x y))
      | ADiv => if f64_eqb y f64_zero then Err (DivisionByZero ADiv) else Ok (ENumber (f64_div x y))
      | ARem => if f64_eqb y f64_zero then Err (DivisionByZero ARem) else Ok (ENumber (f64_rem x y))
      end
    | _, _ => Err (CannotApply op a b)
    end.

(** [evaluate], with short-circuiting [And] and [Or]. *)
Fixpoint evaluate (e : Expr) (variables : Vars) : Eval EvalValue :=
  match e with
  | Literal v => Ok v
  | Path segs => Ok (resolve_path segs variables)
  | Not inner => v ←? evaluate inner variables; Ok (EBool (negb (truthy v)))
  | Neg inner =>
    v ←? evaluate inner variables;
    match v with
    | EUndefined => Ok EUndefined
    | ENumber n => Ok (ENumber (f64_neg n))
    | other => Err (CannotNegate other)
    end
  | And a b =>
    va ←? evaluate a variables;
    if negb (truthy va) then Ok (EBool false)
    else vb ←? evaluate b variables; Ok (EBool (truthy vb))
  | Or a b =>
    va ←? evaluate a variables;
    if truthy va then Ok (EBool true)
    else vb ←? evaluate b variables; Ok (EBool (truthy vb))
  | Compare op a b =>
    va ←? evaluate a variables;
    vb ←? evaluate b variables;
    r ←? compare op va vb;
    Ok (EBool r)
  | Arith op a b =>
    va ←? evaluate a variables;
    vb ←? evaluate b variables;
    arithmetic op va vb
  end.

(** [evaluate_condition]: blank text, syntax errors and evaluation errors are
    [false]; otherwise the truthiness of the value. *)
Definition evaluate_condition `{UnicodeData} (expr : string) (variables : Vars) : bool :=
  if is_blank expr then false
  else
    match parse_condition expr with
    | Ok ast =>
      match evaluate ast variables with
      | Ok v => truthy v
      | Err _ => false
      end
    | Err _ => false
    end.

(** ** Logical laws *)

(** De Morgan's laws hold for the short-circuiting operators, evaluation
    errors included: both sides give the same value or the same error. *)
Theorem evaluate_de_morgan (a b : Expr) (variables : Vars) :
  evaluate (Not (And a b)) variables = evaluate (Or (Not a) (Not b)) variables
  ∧ evaluate (Not (Or a b)) variables = evaluate (And (Not a) (Not b)) variables.
Proof.
  simpl. destruct (evaluate a variables) as [va|e]; simpl; [|done].
  split; destruct (truthy va); simpl; try done; by destruct (evaluate b variables).
Qed.

(** A missing operand makes every comparison false, [!=] included, so [!=] is
    not the negation of [==] on missing variables. *)
Theorem compare_undefined (op : CmpOp) (v : EvalValue) :
  compare op EUndefined v = Ok false ∧ compare op v EUndefined = Ok false.
Proof. split; destruct op; try done; destruct v; done. Qed.

Lemma f64_eqb_sym (x y : f64) : f64_eqb x y = f64_eqb y x.
Proof.
  unfold f64_eqb, SFeqb. change SFcompare with f64_partial_cmp.
  rewrite (f64_cmp_antisym x y). by destruct (f64_partial_cmp x y) as [[]|].
Qed.

Lemma number_eqb_sym (a b : Number) : number_eqb a b = number_eqb b a.
Proof. destruct a, b; try done; simpl; [apply Z.eqb_sym|apply f64_eqb_sym]. Qed.

Lemma bool_decide_eq_sym `{EqDecision A} (x y : A) : bool_decide (x = y) = bool_decide (y = x).
Proof. by apply bool_decide_ext. Qed.

Lemma value_eqb_sym (a b : Value) : value_eqb a b = value_eqb b a.
Proof.
  revert b. induction a as [|x|x|x|xs IH|xs IH] using Value_nested_ind; intros [|y|y|y|ys|ys]; try done.
  - by destruct x, y.
  - apply number_eqb_sym.
  - apply bool_decide_eq_sym.
  - revert ys. induction IH as [|x xs Hx _ IH]; intros [|y ys]; try done.
    simpl. rewrite Hx. f_equal. apply IH.
  - revert ys. induction IH as [|[k x] xs Hx _ IH]; intros [|[k' y] ys]; try done.
    simpl in *. rewrite Hx, (bool_decide_eq_sym k k'). f_equal. apply IH.
Qed.

Lemma values_eq_sym (a b : EvalValue) : values_eq a b = values_eq b a.
Proof.
  destruct a, b; try done; simpl.
  - by destruct b0, b.
  - by rewrite f64_abs_sub_comm.
  - apply bool_decide_eq_sym.
  - apply value_eqb_sym.
Qed.

(** The operator that holds of the swapped operands. *)
Definition flip_op (op : CmpOp) : CmpOp :=
  match op with CEq => CEq | CNe => CNe | CGt => CLt | CLt => CGt | CGe => CLe | CLe => CGe end.

(** A comparison that has a verdict has the same verdict with the operands
    swapped and the operator flipped. *)
Theorem compare_flip (op : CmpOp) (a b : EvalValue) (r : bool) :
  compare op a b = Ok r → compare (flip_op op) b a = Ok r.
Proof.
  unfold compare. rewrite (orb_comm (is_undefined b)), (values_eq_sym b a).
  destruct op; cbn [flip_op]; try done;
    destruct (is_undefined a || is_undefined b); try done;
    destruct a as [| | |x| |], b as [| | |y| |]; try done;
    rewrite (f64_cmp_antisym x y); destruct (f64_partial_cmp x y) as [[]|]; done.
Qed.

Lemma compare_flip_witness :
  compare CLt (ENumber (f64_of_Z 3)) (ENumber (f64_of_Z 5)) = Ok true ∧
  compare CGt (ENumber (f64_of_Z 5)) (ENumber (f64_of_Z 3)) = Ok true.
Proof. split; [reflexivity|]. apply (compare_flip CLt). reflexivity. Defined.

(** ** Locality *)

(** The variables an expression reads. *)
Fixpoint roots (e : Expr) : gset string :=
  match e with
  | Literal _ => ∅
  | Path (Field root :: _) => {[root]}
  | Path _ => ∅
  | Not a | Neg a => roots a
  | And a b | Or a b | Compare _ a b | Arith _ a b => roots a ∪ roots b
  end.

(** The value of an expression depends only on the variables it names:
    two variable maps that agree on them give the same value or error. *)
Theorem evaluate_agree (e : Expr) (vs ws : Vars) :
  (∀ x, x ∈ roots e → vs !! x = ws !! x) → evaluate e vs = evaluate e ws.
Proof.
  induction e as [v|segs|a IHa|a IHa|a IHa b IHb|a IHa b IHb|op a IHa b IHb|op a IHa b IHb];
    intros H; simpl in *; try done;
    try (rewrite IHa by set_solver); try (rewrite IHb by set_solver); try done.
  unfold resolve_path. destruct segs as [|[root|i] segs]; try done.
  by rewrite H by set_solver.
Qed.

Lemma evaluate_agree_witness :
  evaluate (Path [Field "x"]) (<["x" := VBool true]> ∅)
  = evaluate (Path [Field "x"]) (<["y" := VNull]> (<["x" := VBool true]> ∅)).
Proof.
  apply evaluate_agree. intros x Hx. simpl in Hx. apply elem_of_singleton in Hx as ->. reflexivity.
Defined.

(** ** Conditions *)

Section conditions.
  Context {U : UnicodeData}.

Lemma split_leading_ws_blank cs :
  forallb is_whitespace cs = true → (split_leading_ws cs).2 = [].
Proof.
  induction cs as [|c cs IH]; simpl; [done|]. intros [-> Hc]%andb_prop.
  specialize (IH Hc). by destruct (split_leading_ws cs).
Qed.

(** [evaluate_condition] is fail-closed: it is true exactly when the text parses,
    the value exists and is truthy; in particular such a text passes the
    deploy-time check [validate_condition]. *)
Theorem evaluate_condition_true (expr : string) (variables : Vars) :
  evaluate_condition expr variables = true ↔
  ∃ e v, parse_condition expr = Ok e ∧ evaluate e variables = Ok v ∧ truthy v = true
    ∧ validate_condition expr = Ok tt.
Proof.
  unfold evaluate_condition, validate_condition.
  destruct (is_blank expr) eqn:Hb.
  - split; [done|]. intros (e & v & He & _). unfold parse_condition, prepare in He.
    apply split_leading_ws_blank in Hb.
    destruct (split_leading_ws (chars expr)) as [n l]. simpl in Hb. by subst l.
  - destruct (parse_condition expr) as [e|]; simpl.
    2: { split; [done|]. by intros (? & ? & ? & _). }
    destruct (evaluate e variables) as [v|] eqn:Hv; split.
    + intros. by exists e, v.
    + intros (e' & v' & [= <-] & Hv' & ? & _). congruence.
    + done.
    + intros (e' & v' & [= <-] & Hv' & ? & _). congruence.
Qed.

(** A condition that passed [validate_condition] at deploy time never fails to
    parse at run time. *)
Lemma validated_parses (expr : string) :
  validate_condition expr = Ok tt → ∃ e, parse_condition expr = Ok e.
Proof. unfold validate_condition. destruct (parse_condition expr) as [e|]; [by exists e|done]. Qed.

(** The array index 2^64 passes the range check of [parse_path] although it is
    not a [usize]: the cast saturates and the path reads element 2^64 - 1. *)
Theorem index_cast_saturates :
  parse_condition "a[18446744073709551616]" = Ok (Path [Field "a"; Index usize_max]).
Proof. reflexivity. Qed.

(** A unicode escape accepts a plus sign in place of its first hexadecimal
    digit: ['\u+041'] is the text ["A"]. *)
Theorem unicode_escape_accepts_plus :
  parse_condition "'\u+041'" = Ok (Literal (EString "A")).
Proof. reflexivity. Qed.

End conditions.
