(* ===== verification/DataMappings.v ===== *)
(** * Activity data scopes

    engine-core/src/engine/data_mappings.rs: entering an activity evaluates its
    input mappings into a [DataScope], leaving it applies the output mappings. *)

From stdpp Require Import base list gmap strings.
From S2P Require Import Prelude Text Json Domain Token ProcessDef.
Local Open Scope rust_scope.

(** [is_multi_instance_service]. *)
Definition is_multi_instance_service (d : ProcessDefinition) (node : string) : bool :=
  match get_node d node with
  | Some (ServiceTask _ (Some _)) => true
  | _ => false
  end.

(** [enter]: a scope of another node is discarded first; an open scope of this
    node is kept; a multi-instance service task gets none. *)
Definition enter (t : Token) (d : ProcessDefinition) (node : string) : EngineResult Token :=
  let t :=
    match data_scope t with
    | Some scope => if bool_decide (scope_node scope = node) then t else discard_data_scope t
    | None => t
    end in
  match data_scope t with
  | Some _ => Ok t
  | None =>
    if is_multi_instance_service d node then Ok t
    else
      match data_mappings d !! node with
      | Some ms =>
        ins ←? evaluate_mappings (inputs ms) (variables t);
        Ok (set_variables (extend (variables t) ins)
              (set_scope (Some {| scope_node := node; original_variables := variables t;
                                  local_names := (map_to_list ins).*1 |}) t))
      | None => Ok t
      end
  end.

(** [leave]. *)
Definition leave (t : Token) (d : ProcessDefinition) (node : string) : EngineResult Token :=
  match data_scope t with
  | None => Ok t
  | Some scope =>
    if negb (bool_decide (scope_node scope = node)) then Ok t
    else
      match data_mappings d !! node with
      | None => Err (DataMappingError ("Data mapping: activation of '" +:+ node +:+ "' has no mappings"))
      | Some ms =>
        outs ←? evaluate_mappings (outputs ms) (variables t);
        let vs := match outputs ms with [] => process_variables t | _ => original_variables scope end in
        Ok (set_scope None (set_variables (extend vs outs) t))
      end
  end.

(** [apply_inputs], for one item of a multi-instance activity. *)
Definition apply_inputs (d : ProcessDefinition) (node : string) (vs : Vars) : EngineResult Vars :=
  match data_mappings d !! node with
  | Some ms => ins ←? evaluate_mappings (inputs ms) vs; Ok (extend vs ins)
  | None => Ok vs
  end.

Definition is_input_target (ins : list DataMapping) (name : string) : bool :=
  existsb (λ m, bool_decide (map_target m = name)) ins.

(** [publish_multi_instance_outputs]. *)
Definition publish_multi_instance_outputs (t : Token) (d : ProcessDefinition) (node : string)
    (snapshot worker : Vars) : EngineResult Token :=
  match data_mappings d !! node with
  | None => Ok (set_variables (extend (variables t) worker) t)
  | Some ms =>
    match outputs ms with
    | [] =>
      let kept := filter (λ kv : string * Value, negb (is_input_target (inputs ms) kv.1) = true) worker in
      Ok (set_variables (extend (variables t) kept) t)
    | _ =>
      outs ←? evaluate_mappings (outputs ms) (extend snapshot worker);
      Ok (set_variables (extend (variables t) outs) t)
    end
  end.

(** [apply_call_transfer]: the variables a called process returns. *)
Definition apply_call_transfer (t : Token) (transferred : Vars) : Token :=
  let t := set_variables (extend (variables t) transferred) t in
  match data_scope t with
  | Some s => set_scope (Some {| scope_node := scope_node s;
      original_variables := extend (original_variables s) transferred;
      local_names := local_names s |}) t
  | None => t
  end.

(** ** Properties *)

Lemma extend_lookup {V} (a b : gmap string V) k :
  extend a b !! k = match b !! k with Some v => Some v | None => a !! k end.
Proof. unfold extend. rewrite lookup_union. by destruct (b !! k), (a !! k). Qed.

(** What [enter] does to a token without a scope, at a node with mappings. *)
Lemma enter_fresh t d node ms t' :
  data_scope t = None → is_multi_instance_service d node = false → data_mappings d !! node = Some ms →
  enter t d node = Ok t' →
  ∃ ins, evaluate_mappings (inputs ms) (variables t) = Ok ins ∧
    t' = mkToken (tok_id t) (current_node t) (extend (variables t) ins) (is_merged t)
      (Some {| scope_node := node; original_variables := variables t; local_names := (map_to_list ins).*1 |}).
Proof.
  intros Hs Hmi Hm. unfold enter. rewrite Hs. cbn. rewrite Hs, Hmi, Hm.
  intros (ins & Hi & [= <-])%result_bind_Ok. by exists ins.
Qed.

Lemma elem_of_keys {V} (m : gmap string V) k : k ∈ (map_to_list m).*1 ↔ is_Some (m !! k).
Proof.
  rewrite list_elem_of_fmap. split.
  - intros ([k' v] & -> & Hin%elem_of_map_to_list). by exists v.
  - intros [v Hv]. exists (k, v). by rewrite elem_of_map_to_list.
Qed.

Lemma evaluate_mappings_dom ms source r k :
  evaluate_mappings ms source = Ok r → is_Some (r !! k) ↔ k ∈ map_target <$> ms.
Proof.
  intros H. unfold evaluate_mappings in H. apply evaluate_mappings_from_ok in H as (_ & Hin & Hout & _).
  split.
  - intros Hs. destruct (decide (k ∈ map_target <$> ms)) as [|Hk]; [done|].
    rewrite Hout in Hs by done. rewrite lookup_empty in Hs. by destruct Hs.
  - intros (m & -> & Hm)%list_elem_of_fmap. destruct (Hin m Hm) as (_ & v & _ & ->). done.
Qed.

(** Input mappings are local to the activation: whatever variables [vs] the
    activity ends with, leaving it without output mappings gives every input
    target its value from before the activity (or removes it) and keeps every
    other variable. *)
Theorem enter_leave_restores t d node ms t' vs :
  data_scope t = None → is_multi_instance_service d node = false →
  data_mappings d !! node = Some ms → outputs ms = [] → enter t d node = Ok t' →
  ∃ t'', leave (set_variables vs t') d node = Ok t'' ∧ data_scope t'' = None ∧
    ∀ k, variables t'' !! k =
      if decide (k ∈ map_target <$> inputs ms) then variables t !! k else vs !! k.
Proof.
  intros Hs Hmi Hm Ho He. apply (enter_fresh _ _ _ ms) in He as (ins & Hi & ->); [|done..].
  unfold leave, set_variables. cbn. rewrite bool_decide_true by done. cbn. rewrite Hm, Ho. cbn.
  eexists. split; [done|]. split; [done|]. intros k. cbn.
  rewrite extend_lookup, lookup_empty. unfold process_variables. cbn. rewrite fold_restore_lookup.
  apply decide_ext. rewrite elem_of_keys. by eapply evaluate_mappings_dom.
Qed.

(** Cancelling an activity ([discard_data_scope]) gives the token back as it was
    before [enter], and entering a node twice is entering it once. *)
Theorem enter_discard t d node t' :
  data_scope t = None → enter t d node = Ok t' →
  discard_data_scope t' = t ∧ enter t' d node = Ok t'.
Proof.
  intros Hs He. unfold enter in He. rewrite Hs in He. cbn in He. rewrite Hs in He.
  destruct t as [i n v m sc]. cbn in *. subst sc.
  destruct (is_multi_instance_service d node) eqn:Hmi; [simplify_eq; unfold enter; cbn; by rewrite Hmi|].
  destruct (data_mappings d !! node) as [ms|] eqn:Hm;
    [|simplify_eq; unfold enter; cbn; by rewrite Hmi, Hm].
  apply result_bind_Ok in He as (ins & Hi & [= <-]).
  split; [done|]. unfold enter. cbn. by rewrite bool_decide_true.
Qed.

(** Variables returned by a called process are visible outside the call activity
    even when the activation has local names: they overwrite, and every other
    process variable keeps its value. *)
Theorem apply_call_transfer_process t transferred k :
  process_variables (apply_call_transfer t transferred) !! k =
  match transferred !! k with Some v => Some v | None => process_variables t !! k end.
Proof.
  unfold process_variables, apply_call_transfer. destruct t as [i n v m [s|]]; cbn.
  - rewrite !fold_restore_lookup. case_decide; by rewrite ?extend_lookup.
  - apply extend_lookup.
Qed.

(** ** A concrete activity *)

Definition mapped_definition : ProcessDefinition :=
  {| def_key := 1; def_id := "m"; version := 1; nodes := {["task" := UserTask "u"]}; flows := ∅;
     listeners := ∅; event_listeners := []; event_subprocesses := []; sub_processes := [];
     data_variables := []; variable_defaults := ∅;
     data_mappings := {["task" := {| inputs := [{| map_target := "x"; map_value := MapVariable "y" |}];
       outputs := []; call_inputs := None; call_outputs := None |}]} |}.
Definition mapped_token : Token := with_variables 1 "task" {["y" := VBool true]}.

Lemma enter_leave_restores_witness :
  ∃ t' t'', enter mapped_token mapped_definition "task" = Ok t' ∧
    leave (set_variables {["x" := VNull]} t') mapped_definition "task" = Ok t'' ∧ data_scope t'' = None.
Proof.
  eexists. edestruct (enter_leave_restores mapped_token mapped_definition "task") as (t'' & H1 & H2 & _);
    [reflexivity..|]. exists t''. split; [|exact (conj H1 H2)]. reflexivity.
Defined.

Lemma enter_discard_witness :
  ∃ t', enter mapped_token mapped_definition "task" = Ok t' ∧ discard_data_scope t' = mapped_token.
Proof.
  eexists. split; [reflexivity|].
  eapply (enter_discard mapped_token mapped_definition "task"); reflexivity.
Defined.
