(* ===== verification/Graph.v ===== *)
(** * Graph searches of the executor

    engine-core/src/engine/executor/helpers.rs: choosing the next flow, finding
    boundary events and compensation handlers, and the breadth-first search for
    the join that closes a split. *)

From stdpp Require Import base list gmap strings.
From S2P Require Import Prelude Text Json Float CondLexer CondParser CondEval Domain Token ProcessDef.
Local Open Scope rust_scope.

Section helpers.
  Context {U : UnicodeData}.

(** The flow is open: no condition, or one that holds. *)
Definition flow_open (vs : Vars) (sf : SequenceFlow) : bool :=
  match condition sf with Some c => evaluate_condition c vs | None => true end.

(** [resolve_next_target]. *)
Definition resolve_next_target (d : ProcessDefinition) (from : string) (vs : Vars) : EngineResult string :=
  match List.find (flow_open vs) (next_nodes d from) with
  | Some sf => Ok (target sf)
  | None => Err (InvalidDefinition ("No matching outgoing flow from '" +:+ from +:+ "'"))
  end.
End helpers.

(** [bound.is_none() || bound.as_deref() == Some(code)]. *)
Definition code_matches (bound : option string) (code : string) : bool :=
  match bound with None => true | Some b => bool_decide (b = code) end.

(** [find_boundary_error_event]. *)
Definition find_boundary_error_event (d : ProcessDefinition) (node code : string) : option string :=
  find_map (λ '(id, e),
    match e with
    | BoundaryErrorEvent a bound =>
      if bool_decide (a = node) && code_matches bound code then Some id else None
    | _ => None
    end) (map_to_list (nodes d)).

(** [find_any_boundary_escalation_event]. *)
Definition find_any_boundary_escalation_event (d : ProcessDefinition) (code : string)
    : option (string * string * bool) :=
  find_map (λ '(id, e),
    match e with
    | BoundaryEscalationEvent a bound cancel => if code_matches bound code then Some (id, a, cancel) else None
    | _ => None
    end) (map_to_list (nodes d)).

(** [find_compensation_handler]. *)
Definition find_compensation_handler (d : ProcessDefinition) (activity : string) : option string :=
  boundary ← find_map (λ '(id, e),
    match e with
    | BoundaryCompensationEvent a => if bool_decide (a = activity) then Some id else None
    | _ => None
    end) (map_to_list (nodes d));
  target <$> head (next_nodes d boundary).

(** [same_gateway_type]: complex and event-based gateways are not listed. *)
Definition same_gateway_type (a b : BpmnElement) : bool :=
  match a, b with
  | ExclusiveGateway _, ExclusiveGateway _
  | InclusiveGateway, InclusiveGateway
  | ParallelGateway, ParallelGateway => true
  | _, _ => false
  end.

(** ** The search for the closing join *)

Section search.
  Variable d : ProcessDefinition.
  Variable split : BpmnElement.

(** What happens at a node taken from the queue: the search ends there, or
    its successors are queued at a depth. *)
Inductive visit := Found | Expand (depth : nat).

Definition visit_node (node : string) (depth : nat) : visit :=
  match nodes d !! node with
  | Some element =>
    if is_join_gateway d node && same_gateway_type split element then
      if depth =? 1 then Found else Expand (depth - 1)
    else if is_split_gateway d node && same_gateway_type split element then Expand (depth + 1)
    else Expand depth
  | None => Expand depth
  end.

Definition successors (node : string) (depth : nat) : list (string * nat) :=
  (λ sf, (target sf, depth)) <$> next_nodes d node.

(** The loop; [None] is running out of fuel. *)
Fixpoint search (fuel : nat) (visited : gset string) (queue : list (string * nat)) : option (option string) :=
  match fuel with
  | 0 => None
  | S fuel =>
    match queue with
    | [] => Some None
    | (node, depth) :: queue =>
      if bool_decide (node ∈ visited) then search fuel visited queue
      else
        match visit_node node depth with
        | Found => Some (Some node)
        | Expand depth' => search fuel ({[node]} ∪ visited) (queue ++ successors node depth')
        end
    end
  end.
End search.

(** Every round takes an entry from the queue; a node is expanded once, so at
    most all flows are queued besides the initial ones. *)
Definition search_fuel (d : ProcessDefinition) (start : string) : nat :=
  S (length (next_nodes d start) + length (all_flows (flows d))).

(** [find_downstream_join]. *)
Definition find_downstream_join (d : ProcessDefinition) (start : string) : option string :=
  split ← nodes d !! start;
  default None (search d split (search_fuel d start) ∅ (successors d start 1)).

(** ** The search ends *)

Lemma all_flows_delete (fl : gmap string (list SequenceFlow)) id :
  length (all_flows fl) = length (outgoing fl id) + length (all_flows (delete id fl)).
Proof.
  unfold outgoing. destruct (fl !! id) as [outs|] eqn:Hid; cbn [default].
  - unfold all_flows. rewrite <- (map_to_list_delete fl id outs Hid). cbn. by rewrite length_app.
  - by rewrite delete_id.
Qed.

Lemma search_enough d split fuel visited queue rest :
  (∀ k, rest !! k = if decide (k ∈ visited) then None else flows d !! k) →
  length queue + length (all_flows rest) < fuel →
  is_Some (search d split fuel visited queue).
Proof.
  revert visited queue rest. induction fuel as [|fuel IH]; intros visited queue rest Hrest Hfuel; [lia|].
  cbn [search]. destruct queue as [|[node depth] queue]; [by eexists|].
  cbn in Hfuel. case_bool_decide as Hv; [apply (IH _ _ rest); [done|lia]|].
  destruct (visit_node d split node depth); [by eexists|].
  apply (IH _ _ (delete node rest)).
  - intros k. destruct (decide (k = node)) as [->|Hne].
    + rewrite lookup_delete_eq. by destruct (decide _) as [|[]]; [|set_solver].
    + rewrite lookup_delete_ne, Hrest by done. apply decide_ext. set_solver.
  - rewrite (all_flows_delete rest node) in Hfuel. unfold successors, next_nodes.
    rewrite length_app, length_fmap. unfold outgoing in *.
    specialize (Hrest node). rewrite decide_False in Hrest by done. rewrite Hrest in Hfuel. lia.
Qed.

Lemma successors_length d start depth : length (successors d start depth) = length (next_nodes d start).
Proof. apply length_fmap. Qed.

(** The search for the closing join ends for every graph, cyclic or not: its loop
    is never cut short by the bound on its rounds. *)
Theorem search_total (d : ProcessDefinition) (split : BpmnElement) (start : string) :
  is_Some (search d split (search_fuel d start) ∅ (successors d start 1)).
Proof.
  apply (search_enough _ _ _ _ _ (flows d)); [|unfold search_fuel; rewrite successors_length; lia].
  intros k. by rewrite decide_False by set_solver.
Qed.

(** ** What it finds *)

(** One flow, and paths of at least one flow. *)
Definition edge (d : ProcessDefinition) (a b : string) : Prop :=
  ∃ sf, sf ∈ next_nodes d a ∧ target sf = b.
Definition reaches (d : ProcessDefinition) : string → string → Prop := tc (edge d).

Definition closes (d : ProcessDefinition) (split : BpmnElement) (j : string) : Prop :=
  is_join_gateway d j = true ∧ ∃ e, nodes d !! j = Some e ∧ same_gateway_type split e = true.

(** Between a split and its join no other split of the same kind opens. *)
Definition flat (d : ProcessDefinition) (split : BpmnElement) (start : string) : Prop :=
  ∀ n e, reaches d start n → nodes d !! n = Some e → same_gateway_type split e = true →
    is_split_gateway d n = true → is_join_gateway d n = true.

Lemma elem_of_successors d node depth x k :
  (x, k) ∈ successors d node depth ↔ edge d node x ∧ k = depth.
Proof. unfold successors, edge. rewrite list_elem_of_fmap. naive_solver. Qed.

Lemma visit_node_found d split node depth : visit_node d split node depth = Found → closes d split node.
Proof.
  unfold visit_node, closes. destruct (nodes d !! node) as [e|]; [|done].
  destruct (is_join_gateway d node), (same_gateway_type split e) eqn:Hs, (is_split_gateway d node); cbn;
    repeat case_match; naive_solver.
Qed.

(** The [depth - 1] of the source is only reached with a depth above one. *)
Lemma visit_node_depth d split node depth k :
  1 ≤ depth → visit_node d split node depth = Expand k → 1 ≤ k.
Proof.
  unfold visit_node. intros Hd. repeat case_match; intros; simplify_eq; try lia.
  match goal with H : (_ =? 1) = false |- _ => apply Nat.eqb_neq in H end. lia.
Qed.

Lemma search_sound d split start fuel visited queue j :
  (∀ x k, (x, k) ∈ queue → reaches d start x) →
  search d split fuel visited queue = Some (Some j) → reaches d start j ∧ closes d split j.
Proof.
  revert visited queue. induction fuel as [|fuel IH]; intros visited queue Hq; cbn [search]; [done|].
  destruct queue as [|[node depth] queue]; [done|].
  assert (reaches d start node) as Hnode by (apply (Hq node depth); set_solver).
  assert (∀ x k, (x, k) ∈ queue → reaches d start x) as Hq' by (intros x k ?; apply (Hq x k); set_solver).
  case_bool_decide; [by apply IH|].
  destruct (visit_node d split node depth) as [|k] eqn:Hvis.
  - intros [= <-]. eauto using visit_node_found.
  - apply IH. intros x k' [?|[? ->]%elem_of_successors]%elem_of_app; [eauto|].
    eapply tc_r; eauto.
Qed.

(** At depth one, a node that does not close the split is expanded at depth one
    when no other split opens there. *)
Lemma visit_node_flat d split start node k :
  flat d split start → reaches d start node → visit_node d split node 1 = Expand k →
  k = 1 ∧ ¬ closes d split node.
Proof.
  unfold visit_node, closes. intros Hflat Hr. specialize (Hflat node).
  destruct (nodes d !! node) as [e|]; [|intros [= <-]; split; [done|]; by intros [_ (? & ? & _)]].
  specialize (Hflat e Hr eq_refl).
  destruct (is_join_gateway d node), (same_gateway_type split e) eqn:Hs, (is_split_gateway d node); cbn;
    intros [= <-]; try (by specialize (Hflat eq_refl eq_refl)); (split; [done|]); intros [? (e' & ? & ?)];
    simplify_eq; congruence.
Qed.

(** Nothing found: what was seen is closed under flows and holds no join. *)
Lemma search_complete d split start fuel visited queue :
  flat d split start →
  (∀ x k, (x, k) ∈ queue → reaches d start x ∧ k = 1) →
  (∀ x, x ∈ visited → ¬ closes d split x ∧ ∀ y, edge d x y → y ∈ visited ∨ (y, 1) ∈ queue) →
  (∀ y, edge d start y → y ∈ visited ∨ (y, 1) ∈ queue) →
  search d split fuel visited queue = Some None →
  ∃ seen : gset string, (∀ y, edge d start y → y ∈ seen) ∧
    ∀ x, x ∈ seen → ¬ closes d split x ∧ ∀ y, edge d x y → y ∈ seen.
Proof.
  intros Hflat. revert visited queue. induction fuel as [|fuel IH]; intros visited queue Hq Hv Hst; cbn [search]; [done|].
  destruct queue as [|[node depth] queue].
  { intros _. exists visited. split; [intros y Hy; destruct (Hst y Hy); set_solver|].
    intros x Hx. destruct (Hv x Hx) as [? He]. split; [done|]. intros y Hy. destruct (He y Hy); set_solver. }
  destruct (Hq node depth) as [Hnode ->]; [set_solver|]. case_bool_decide as Hin.
  { assert (∀ y, y ∈ visited ∨ (y, 1) ∈ (node, 1) :: queue → y ∈ visited ∨ (y, 1) ∈ queue) as Hskip.
    { intros y [?|[?|?]%elem_of_cons]; [by left|simplify_eq; by left|by right]. }
    apply IH; [set_solver| |by eauto]. intros x Hx. destruct (Hv x Hx). eauto. }
  destruct (visit_node d split node 1) as [|k] eqn:Hvis; [done|].
  destruct (visit_node_flat d split start node k) as [-> Hnc]; [done..|].
  assert (∀ y, y ∈ visited ∨ (y, 1) ∈ (node, 1) :: queue →
    y ∈ {[node]} ∪ visited ∨ (y, 1) ∈ queue ++ successors d node 1) as Hmove.
  { intros y [?|[?|?]%elem_of_cons]; [set_solver|simplify_eq; set_solver|].
    right. apply elem_of_app. by left. }
  apply IH.
  - intros x k [?|[? ->]%elem_of_successors]%elem_of_app; [apply Hq; set_solver|].
    split; [|done]. eapply tc_r; eauto.
  - intros x [->%elem_of_singleton|Hx]%elem_of_union.
    + split; [done|]. intros y Hy. right. apply elem_of_app. right. by apply elem_of_successors.
    + destruct (Hv x Hx) as [? He]. split; [done|]. eauto.
  - eauto.
Qed.

Lemma closed_reaches d start (seen : gset string) x :
  (∀ y, edge d start y → y ∈ seen) → (∀ x, x ∈ seen → ∀ y, edge d x y → y ∈ seen) →
  reaches d start x → x ∈ seen.
Proof.
  intros H0 Hs Hr. revert H0. induction Hr as [a b Hab|a b c Hab Hbc IH]; eauto.
Qed.



(** An error thrown at an activity is routed to a boundary error event of that
    activity whose code is absent or equal, and is left unrouted exactly when
    the definition has none. *)
Theorem find_boundary_error_event_spec d node code :
  match find_boundary_error_event d node code with
  | Some id => ∃ bound, nodes d !! id = Some (BoundaryErrorEvent node bound) ∧ code_matches bound code = true
  | None => ∀ id bound, nodes d !! id = Some (BoundaryErrorEvent node bound) → code_matches bound code = false
  end.
Proof.
  unfold find_boundary_error_event. destruct (find_map _ _) as [id|] eqn:Hf.
  - apply find_map_Some in Hf as ([id' e] & Hin%elem_of_map_to_list & He).
    destruct e; try done. case_bool_decide; simplify_eq/=.
    destruct (code_matches _ _) eqn:Hc; simplify_eq. eauto.
  - rewrite find_map_None in Hf. intros id bound Hid%elem_of_map_to_list. specialize (Hf _ Hid). cbn in Hf.
    rewrite bool_decide_true in Hf by done. cbn in Hf. by destruct (code_matches bound code).
Qed.
