(* ===== verification/Scripts.v ===== *)
(** * Execution listeners

    engine-core/src/scripting/runner.rs and the [run_end_scripts] of
    engine-core/src/engine/executor/completion.rs.  The evaluation of one script
    ([execute_script_safe]) is the operation of the class [ScriptEngine], which the
    engine is built on; its instance runs the interpreter of the class [Rhai] with the
    limits of a [ScriptConfig]. *)

From stdpp Require Import base list gmap strings numbers pretty.
From Stdlib Require Import SpecFloat.
From S2P Require Import Prelude Text Float Json Domain Token ProcessDef DataMappings Runtime History Registry Index TopicIndex TimerIndex Engine.
Local Open Scope rust_scope.

(** [execute_script_safe]: the variables after the script, or its error. *)
Class ScriptEngine := { execute_script : string → Vars → EngineResult Vars }.

(** ** The limits of a script *)

Record ScriptConfig := mkScriptConfig { max_operations : N; max_memory : N; timeout_ms : N }.
Definition script_config_default : ScriptConfig := mkScriptConfig 50000 (2 * 1024 * 1024) 1000.
Definition config_from_env (env : string → option string) : ScriptConfig :=
  mkScriptConfig (default (max_operations script_config_default) (env "RHAI_MAX_OPERATIONS" ≫= parse_u64))
    (default (max_memory script_config_default) (env "RHAI_MAX_MEMORY_BYTES" ≫= parse_u64))
    (default (timeout_ms script_config_default) (env "RHAI_TIMEOUT_MS" ≫= parse_u64)).

(** [f64::round], half away from zero, followed by [as usize]. *)
Definition f64_round_as_usize (a : f64) : Z :=
  match a with
  | S754_finite false m e =>
    Z.min usize_max (if (0 <=? e)%Z then Zpos m * 2 ^ e else (2 * Zpos m + 2 ^ (- e)) / (2 * 2 ^ (- e)))
  | S754_infinity false => usize_max
  | _ => 0
  end.
Definition clamp (low high x : Z) : Z := Z.max low (Z.min high x).
Definition DEFAULT_MEMORY : Z := 2 * 1024 * 1024.
Definition DEFAULT_STRING : Z := 64 * 1024.
Definition DEFAULT_ARRAY : Z := 10000.
Definition DEFAULT_MAP : Z := 10000.
Definition derived_collection_limits (c : ScriptConfig) : Z * Z * Z :=
  let budget := Z.max 1 (Z.of_N (max_memory c)) in
  let ratio := f64_div (f64_of_Z budget) (f64_of_Z DEFAULT_MEMORY) in
  let scale := if f64_ltb (f64_of_Z 1) ratio then f64_of_Z 1 else ratio in
  let scaled n := clamp 1 n (f64_round_as_usize (f64_mul (f64_of_Z n) scale)) in
  (scaled DEFAULT_STRING, scaled DEFAULT_ARRAY, scaled DEFAULT_MAP).
(** [build_engine]: what the interpreter is limited to. *)
Record RhaiLimits := mkLimits { l_operations : N; l_string : Z; l_array : Z; l_map : Z }.
Definition build_engine (c : ScriptConfig) : RhaiLimits :=
  let '(strings, arrays, maps) := derived_collection_limits c in mkLimits (max_operations c) strings arrays maps.

(** Rhai: dynamic values, their serde forms, and an evaluation in a scope. *)
Class Rhai := {
  Dynamic : Type;
  dynamic_unit : Dynamic;
  to_dynamic : Value → option Dynamic;
  from_dynamic : Dynamic → option Value;
  eval_with_scope : RhaiLimits → string → list (string * Dynamic) → result string unit * list (string * Dynamic);
}.
(** How the thread of a script ended within its time: it finished, it panicked with a
    text, or the time was up first. *)
Inductive Thread := Finished | Panicking (err : string) | OutOfTime.
Definition scope_value `{Rhai} (vars : Vars) (entry : string * Dynamic) : Vars :=
  match from_dynamic entry.2 with Some v => <[entry.1 := v]> vars | None => vars end.
Definition execute_script_safe `{Rhai} (c : ScriptConfig) (thread : Thread) (script : string) (vars : Vars) : EngineResult Vars :=
  match thread with
  | Finished =>
    let scope := (λ kv, (kv.1, default dynamic_unit (to_dynamic kv.2))) <$> map_to_list vars in
    match eval_with_scope (build_engine c) script scope with
    | (Err err, _) => Err (ScriptError err)
    | (Ok _, scope) => Ok (fold_left scope_value scope vars)
    end
  | Panicking err => Err (ScriptError ("Script thread panicked: " +:+ err))
  | OutOfTime => Err (ScriptError ("Script execution timed out after " +:+ pretty (timeout_ms c) +:+ "ms"))
  end.
(** The engine's scripts: [threads] is what becomes of each. *)
Definition rhai_scripts `{Rhai} (c : ScriptConfig) (threads : string → Vars → Thread) : ScriptEngine :=
  {| execute_script script vars := execute_script_safe c (threads script vars) script vars |}.

(** A script sees the limits of its configuration, and these are never above the
    defaults, however much memory is configured. *)
Lemma limits_bounded c :
  let l := build_engine c in
  (1 <= l_string l <= DEFAULT_STRING)%Z ∧ (1 <= l_array l <= DEFAULT_ARRAY)%Z ∧ (1 <= l_map l <= DEFAULT_MAP)%Z.
Proof. cbn -[f64_round_as_usize f64_mul f64_of_Z f64_div f64_ltb]. unfold clamp, DEFAULT_STRING, DEFAULT_ARRAY, DEFAULT_MAP. lia. Qed.
Example default_limits : build_engine script_config_default = mkLimits 50000 65536 10000 10000.
Proof. vm_compute. reflexivity. Qed.
Example half_limits : build_engine (mkScriptConfig 0 (1024 * 1024 + 100) 5) = mkLimits 0 32771 5000 5000.
Proof. vm_compute. reflexivity. Qed.
Example unlimited_memory : build_engine (mkScriptConfig 7 u64_max 5) = mkLimits 7 65536 10000 10000.
Proof. vm_compute. reflexivity. Qed.

(** A script does not lose a variable, and changes only what is in its scope. *)
Lemma script_keeps_variables `{Rhai} c thread script vars vars' :
  execute_script_safe c thread script vars = Ok vars' → dom vars ⊆ dom vars'.
Proof.
  unfold execute_script_safe. destruct thread; try done. destruct (eval_with_scope _ _ _) as [[[]|] scope]; [|done]. intros [= <-].
  revert vars. induction scope as [|[k v] scope IH]; intros vars; cbn [fold_left]; [done|]. rewrite <- IH. unfold scope_value. cbn.
  destruct (from_dynamic v); [rewrite dom_insert; set_solver|done].
Qed.

Section scripts.
  Context {S : ScriptEngine}.

Definition event_name (ev : ListenerEvent) : string := match ev with LStart => "start" | LEnd => "end" end.
Definition same_event (a b : ListenerEvent) : bool :=
  match a, b with LStart, LStart | LEnd, LEnd => true | _, _ => false end.

(** Script errors name the node and the listener. *)
Definition listener_error (node : string) (ev : ListenerEvent) (err : EngineError) : EngineError :=
  match err with
  | ScriptError msg => ScriptError ("Knoten '" +:+ node +:+ "' (" +:+ event_name ev +:+ "-Listener): " +:+ msg)
  | other => other
  end.

(** The loop over the listeners of a node. *)
Fixpoint run_listeners (node : string) (ev : ListenerEvent) (ls : list ExecutionListener) (t : Token)
    (audits : list string) : EngineResult (Token * list string) :=
  match ls with
  | [] => Ok (t, audits)
  | l :: ls =>
    if same_event (l_event l) ev then
      vs ←? map_err (listener_error node ev) (execute_script (l_script l) (variables t));
      run_listeners node ev ls (set_variables vs t)
        (audits ++ ["📜 Executed " +:+ event_name ev +:+ " script on '" +:+ node +:+ "'"])
    else run_listeners node ev ls t audits
  end.

(** [run_node_scripts]. *)
Definition run_node_scripts (t : Token) (d : ProcessDefinition) (node : string) (ev : ListenerEvent)
    (audits : list string) : EngineResult (Token * list string) :=
  match listeners d !! node with
  | Some ls => run_listeners node ev ls t audits
  | None => Ok (t, audits)
  end.

(** [scripting::run_end_scripts]: the token and the instance's log and variables
    are only written when everything succeeded. *)
Definition scripting_run_end_scripts (t : Token) (d : ProcessDefinition) (node : string) (i : ProcessInstance)
    : EngineResult (Token * ProcessInstance) :=
  candidate ←? leave t d node;
  '(candidate, end_audits) ←? run_node_scripts candidate d node LEnd [];
  Ok (candidate, i <| pi_audit_log ::= (λ l, l ++ end_audits) |> <| pi_variables := process_variables candidate |>).

(** [WorkflowEngine::run_end_scripts]. *)
Definition run_end_scripts (id : Uuid) (t : Token) (d : ProcessDefinition) (node : string) : M Token :=
  i ← get_instance id;
  '(t, i) ← lift (scripting_run_end_scripts t d node i);
  _ ← put_instance id i;
  mret t.

(** ** Properties *)

Lemma run_listeners_frame node ev ls t audits t' audits' :
  run_listeners node ev ls t audits = Ok (t', audits') →
  tok_id t' = tok_id t ∧ current_node t' = current_node t ∧ is_merged t' = is_merged t ∧ data_scope t' = data_scope t.
Proof.
  revert t audits. induction ls as [|l ls IH]; intros t audits; cbn [run_listeners].
  - by intros [= <- <-].
  - destruct (same_event _ _); [|apply IH]. intros (vs & _ & H)%result_bind_Ok. by apply IH in H.
Qed.

Lemma leave_frame t d node t' :
  leave t d node = Ok t' →
  tok_id t' = tok_id t ∧ current_node t' = current_node t ∧ is_merged t' = is_merged t.
Proof.
  unfold leave. destruct (data_scope t) as [sc|]; [|by intros [= <-]].
  destruct (negb _); [by intros [= <-]|]. destruct (data_mappings d !! node); [|done].
  by intros (outs & _ & [= <-])%result_bind_Ok.
Qed.

Lemma run_end_scripts_run id t d node e :
  run_end_scripts id t d node e =
  match e_instances e !! id with
  | None => (Err (Throws (NoSuchInstance id)), e)
  | Some i =>
    match scripting_run_end_scripts t d node i with
    | Ok (t', i') => (Ok t', e <| e_instances := <[id := i']> (e_instances e) |>)
    | Err err => (Err (Throws err), e)
    end
  end.
Proof.
  unfold run_end_scripts. rewrite bind_run, get_instance_run. destruct (e_instances e !! id) as [i|]; [|done].
  rewrite bind_run. cbn [lift]. by destruct (scripting_run_end_scripts t d node i) as [[t' i']|err].
Qed.

(** Leaving a node is all or nothing: when an output mapping or an end listener
    fails, the engine is exactly as before; when all succeed the token keeps
    its identity, position and merge mark, and the instance publishes exactly
    the variables the token shows outside the activity. *)
Theorem run_end_scripts_atomic id t d node e :
  match run_end_scripts id t d node e with
  | (Err _, e') => e' = e
  | (Ok t', e') =>
    tok_id t' = tok_id t ∧ current_node t' = current_node t ∧ is_merged t' = is_merged t ∧
    ∃ i i', e_instances e !! id = Some i ∧ e_instances e' = <[id := i']> (e_instances e) ∧
      pi_variables i' = process_variables t' ∧ pi_tokens i' = pi_tokens i ∧ pi_state i' = pi_state i
  end.
Proof.
  rewrite run_end_scripts_run. destruct (e_instances e !! id) as [i|]; [|done].
  destruct (scripting_run_end_scripts t d node i) as [[t' i']|err] eqn:Hs; [|done].
  unfold scripting_run_end_scripts in Hs. apply result_bind_Ok in Hs as (c & Hl & ([c' audits] & Hr & [= <- <-])%result_bind_Ok).
  apply leave_frame in Hl as (? & ? & ?). unfold run_node_scripts in Hr.
  assert (tok_id c' = tok_id c ∧ current_node c' = current_node c ∧ is_merged c' = is_merged c) as (? & ? & ?).
  { destruct (listeners d !! node); [by apply run_listeners_frame in Hr as (? & ? & ? & _)|by injection Hr as <- <-]. }
  split_and!; [congruence..|]. exists i. eexists. split; [done|]. split; [done|]. done.
Qed.
End scripts.
