(* ===== verification/Gateway.v ===== *)
(** * Gateways

    engine-core/src/engine/gateway.rs: what a token does at a parallel,
    exclusive, inclusive or complex gateway.  The [&mut Token] argument is
    returned with the action.  A fork needs one fresh token id per branch; the
    ids are an argument. *)

From stdpp Require Import base list gmap strings.
From S2P Require Import Prelude Text Json Float CondLexer CondParser CondEval Domain Token ProcessDef Runtime Graph.
Local Open Scope rust_scope.

Section gateways.
  Context {U : UnicodeData}.

(** The ids [Uuid::new_v4] returns, in the order of the calls. *)
Abbreviation Supply := (nat → Uuid).

(** The tokens of a fork, one per target. *)
Definition fork (ids : Supply) (vs : Vars) (targets : list string) : list Token :=
  imap (λ i tgt, with_variables (ids i) tgt vs) targets.

Definition waits_for_join (d : ProcessDefinition) (id : string) (t : Token) : bool :=
  (2 <=? incoming_flow_count d id) && negb (is_merged t).

(** The end of every split: one target continues the token, several fork it. *)
Definition take_targets (ids : Supply) (t : Token) (targets : list string) : NextAction * Token :=
  match targets with
  | [tgt] => let t := set_node tgt t in (Continue t, t)
  | _ => (ContinueMultiple (fork ids (variables t) targets), t)
  end.

Definition execute_parallel_gateway (ids : Supply) (d : ProcessDefinition) (id : string) (t : Token)
    : EngineResult (NextAction * Token) :=
  let out := next_nodes d id in
  if waits_for_join d id t then Ok (WaitForJoin id t, t)
  else
    let t := set_merged false t in
    Ok (take_targets ids t (target <$> out)).

(** [Some cond] whose condition holds. *)
Definition condition_holds (vs : Vars) (sf : SequenceFlow) : bool :=
  match condition sf with Some c => evaluate_condition c vs | None => false end.
Definition unconditional (sf : SequenceFlow) : bool :=
  match condition sf with None => true | Some _ => false end.
Definition is_default (default : option string) (sf : SequenceFlow) : bool :=
  match default with Some d => bool_decide (target sf = d) | None => false end.

(** The three passes of the exclusive gateway. *)
Definition choose_exclusive (out : list SequenceFlow) (vs : Vars) (default : option string) : option string :=
  match List.find (condition_holds vs) out with
  | Some sf => Some (target sf)
  | None =>
    match List.find (λ sf, unconditional sf && negb (is_default default sf)) out with
    | Some sf => Some (target sf)
    | None => default
    end
  end.

Definition execute_exclusive_gateway (d : ProcessDefinition) (id : string) (t : Token) (default : option string)
    : EngineResult (NextAction * Token) :=
  tgt ←? ok_or (NoMatchingCondition id) (choose_exclusive (next_nodes d id) (variables t) default);
  let t := set_node tgt t in
  Ok (Continue t, t).

Definition execute_inclusive_gateway (ids : Supply) (d : ProcessDefinition) (id : string) (t : Token)
    : EngineResult (NextAction * Token) :=
  let out := next_nodes d id in
  if waits_for_join d id t then Ok (WaitForJoin id t, t)
  else
    let t := set_merged false t in
    match target <$> List.filter (flow_open (variables t)) out with
    | [] => Err (NoMatchingCondition id)
    | targets => Ok (take_targets ids t targets)
    end.

(** The flows a complex gateway takes: conditions that hold, and unconditional
    flows that do not lead to the default. *)
Definition complex_takes (vs : Vars) (default : option string) (sf : SequenceFlow) : bool :=
  match condition sf with
  | Some c => evaluate_condition c vs
  | None => negb (is_default default sf)
  end.

Definition execute_complex_gateway (ids : Supply) (d : ProcessDefinition) (id : string) (t : Token)
    (default : option string) : EngineResult (NextAction * Token) :=
  let out := next_nodes d id in
  if waits_for_join d id t then Ok (WaitForJoin id t, t)
  else
    let t := set_merged false t in
    match target <$> List.filter (complex_takes (variables t) default) out with
    | [] =>
      match default with
      | Some dt => Ok (take_targets ids t [dt])
      | None => Err (NoMatchingCondition id)
      end
    | targets => Ok (take_targets ids t targets)
    end.

(** ** What the gateways do *)

(** The tokens an action puts on the queue. *)
Definition moved (a : NextAction) : option (list Token) :=
  match a with
  | Continue t => Some [t]
  | ContinueMultiple ts => Some ts
  | _ => None
  end.

(** The action sends one token to each of [targets], in order, with the
    variables of [t]. *)
Definition sends (a : NextAction) (t : Token) (targets : list string) : Prop :=
  ∃ ts, moved a = Some ts ∧ current_node <$> ts = targets ∧
    ∀ x, x ∈ ts → variables x = variables t ∧ is_merged x = false.

Lemma fork_nodes ids vs targets : current_node <$> fork ids vs targets = targets.
Proof.
  apply list_eq. intros i. unfold fork. rewrite list_lookup_fmap, list_lookup_imap.
  by destruct (targets !! i).
Qed.

Lemma elem_of_fork ids vs targets x :
  x ∈ fork ids vs targets → ∃ i tgt, targets !! i = Some tgt ∧ x = with_variables (ids i) tgt vs.
Proof. intros (i & tgt & -> & Hi)%elem_of_lookup_imap. eauto. Qed.

Lemma take_targets_sends ids t targets :
  is_merged t = false → sends (take_targets ids t targets).1 t targets.
Proof.
  intros Hm. assert (sends (ContinueMultiple (fork ids (variables t) targets)) t targets) as Hfork.
  { eexists. split; [done|]. split; [apply fork_nodes|]. by intros x (i & tgt & _ & ->)%elem_of_fork. }
  destruct targets as [|tgt [|]]; cbn; [done| |done].
  eexists. split; [done|]. split; [done|]. by intros x ->%list_elem_of_singleton.
Qed.

Lemma sends_merged a t b targets : sends a (set_merged b t) targets → sends a t targets.
Proof. by intros (ts & ? & ? & ?); exists ts. Qed.

Lemma take_targets_split ids t targets : sends (take_targets ids (set_merged false t) targets).1 t targets.
Proof. eapply sends_merged, take_targets_sends. done. Qed.

(** A parallel gateway with several incoming flows holds back every token that is
    not the merged one; otherwise it sends a token along every outgoing flow
    (whatever its condition), with the same variables, and it never fails. *)
Theorem execute_parallel_gateway_spec ids d id t :
  ∃ a t', execute_parallel_gateway ids d id t = Ok (a, t') ∧
    if waits_for_join d id t then a = WaitForJoin id t ∧ t' = t
    else sends a t (target <$> next_nodes d id).
Proof.
  unfold execute_parallel_gateway. destruct (waits_for_join d id t); [by eauto|].
  eexists _, _. rewrite <- surjective_pairing. split; [done|]. apply take_targets_split.
Qed.

(** An inclusive split sends a token along exactly the outgoing flows that are
    unconditional or whose condition holds, and fails exactly when there is none. *)
Theorem execute_inclusive_gateway_spec ids d id t :
  let open := List.filter (flow_open (variables t)) (next_nodes d id) in
  match execute_inclusive_gateway ids d id t with
  | Ok (a, t') =>
    if waits_for_join d id t then a = WaitForJoin id t ∧ t' = t
    else open ≠ [] ∧ sends a t (target <$> open)
  | Err e => waits_for_join d id t = false ∧ open = [] ∧ e = NoMatchingCondition id
  end.
Proof.
  cbn zeta. unfold execute_inclusive_gateway. destruct (waits_for_join d id t); [done|]. cbn [variables set_merged].
  destruct (List.filter _ _) as [|sf rest]; [done|].
  rewrite fmap_cons. rewrite (surjective_pairing (take_targets _ _ _)). split; [done|]. apply take_targets_split.
Qed.

(** A complex split sends a token along the flows it takes, to the default target
    alone when it takes none, and fails exactly when there is neither. *)
Theorem execute_complex_gateway_spec ids d id t default :
  let takes := List.filter (complex_takes (variables t) default) (next_nodes d id) in
  match execute_complex_gateway ids d id t default with
  | Ok (a, t') =>
    if waits_for_join d id t then a = WaitForJoin id t ∧ t' = t
    else takes ≠ [] ∧ sends a t (target <$> takes) ∨
         takes = [] ∧ ∃ dt, default = Some dt ∧ sends a t [dt]
  | Err e => waits_for_join d id t = false ∧ takes = [] ∧ default = None ∧ e = NoMatchingCondition id
  end.
Proof.
  cbn zeta. unfold execute_complex_gateway. destruct (waits_for_join d id t); [done|]. cbn [variables set_merged].
  destruct (List.filter _ _) as [|sf rest].
  - destruct default as [dt|]; [|done]. cbn [fmap list_fmap]. rewrite (surjective_pairing (take_targets _ _ _)).
    right. split; [done|]. exists dt. split; [done|]. apply take_targets_split.
  - rewrite fmap_cons, (surjective_pairing (take_targets _ _ _)). left. split; [done|]. apply take_targets_split.
Qed.

Lemma find_first {A} (p : A → bool) l x :
  List.find p l = Some x → ∃ before after, l = before ++ x :: after ∧ p x = true ∧ ∀ y, y ∈ before → p y = false.
Proof.
  induction l as [|y l IH]; cbn; [done|]. destruct (p y) eqn:Hp.
  - intros [= ->]. exists [], l. split_and!; [done..|]. by intros y ?%not_elem_of_nil.
  - intros (b & a & -> & ? & Hb)%IH. exists (y :: b), a. split_and!; [done..|]. set_solver.
Qed.

Lemma find_nothing {A} (p : A → bool) l : List.find p l = None → ∀ x, x ∈ l → p x = false.
Proof. intros H x Hx. by eapply find_none; [|apply list_elem_of_In]. Qed.

(** An exclusive gateway moves the one token, unchanged but for its node: to the
    first flow in order whose condition holds; without one, to the first
    unconditional flow that is not the default; without that, to the default.
    It fails exactly when none of the three exists. *)
Theorem execute_exclusive_gateway_spec d id t default :
  let out := next_nodes d id in
  match execute_exclusive_gateway d id t default with
  | Ok (a, t') =>
    a = Continue t' ∧ ∃ tgt, t' = set_node tgt t ∧
    ((∃ before sf after, out = before ++ sf :: after ∧ tgt = target sf ∧
        condition_holds (variables t) sf = true ∧ ∀ x, x ∈ before → condition_holds (variables t) x = false)
     ∨ (∀ x, x ∈ out → condition_holds (variables t) x = false) ∧
       ((∃ sf, sf ∈ out ∧ tgt = target sf ∧ unconditional sf = true ∧ is_default default sf = false)
        ∨ (∀ x, x ∈ out → unconditional x = true → is_default default x = true) ∧ default = Some tgt))
  | Err e =>
    e = NoMatchingCondition id ∧ default = None ∧
    ∀ x, x ∈ out → flow_open (variables t) x = false
  end.
Proof.
  cbn zeta. unfold execute_exclusive_gateway, choose_exclusive.
  destruct (List.find (condition_holds _) _) as [sf|] eqn:H1; cbn.
  { split; [done|]. eexists. split; [done|]. left. apply find_first in H1 as (b & a & ? & ? & ?). eauto 10. }
  pose proof (find_nothing _ _ H1) as Hno.
  destruct (List.find (λ sf, _ && _) _) as [sf|] eqn:H2; cbn.
  { split; [done|]. eexists. split; [done|]. right. split; [done|]. left.
    apply find_some in H2 as [Hin%list_elem_of_In [Hu Hd%negb_true_iff]%andb_true_iff]. eauto. }
  pose proof (find_nothing _ _ H2) as Hno2. destruct default as [dt|]; cbn.
  - split; [done|]. eexists. split; [done|]. right. split; [done|]. right. split; [|done].
    intros x Hx Hu. specialize (Hno2 x Hx). cbn in Hno2. rewrite Hu in Hno2. by apply negb_false_iff in Hno2.
  - split; [done|]. split; [done|]. intros x Hx. specialize (Hno2 x Hx). specialize (Hno x Hx). cbn in Hno2.
    unfold flow_open, condition_holds, unconditional in *. by destruct (condition x).
Qed.

(** ** Gateways stay inside a well-formed graph *)

Lemma outgoing_targets_exist ns fl id sf :
  well_formed ns fl → sf ∈ outgoing fl id → is_Some (ns !! target sf).
Proof. intros Hwf (outs & Ho & Hsf)%outgoing_elem. by eapply (wf_flows _ _ Hwf). Qed.

(** Every token a gateway sends on is at a node of the graph. *)
Definition lands (ns : gmap string BpmnElement) (r : EngineResult (NextAction * Token)) : Prop :=
  match r with
  | Ok (a, _) => ∀ ts x, moved a = Some ts → x ∈ ts → is_Some (ns !! current_node x)
  | Err _ => True
  end.

Lemma take_targets_lands ns ids t targets :
  (∀ n, n ∈ targets → is_Some (ns !! n)) → lands ns (Ok (take_targets ids (set_merged false t) targets)).
Proof.
  intros Hall. destruct (take_targets_split ids t targets) as (ts & Hm & Hn & _).
  destruct (take_targets _ _ _) as [a t']. intros ts' x Hm' Hx. cbn in Hm. simplify_eq.
  apply Hall. by apply list_elem_of_fmap_2.
Qed.

Lemma filter_targets_exist ns fl id (p : SequenceFlow → bool) n :
  well_formed ns fl → n ∈ target <$> List.filter p (outgoing fl id) → is_Some (ns !! n).
Proof.
  intros Hwf (sf & -> & [Hin _]%list_elem_of_In%filter_In)%list_elem_of_fmap.
  apply list_elem_of_In in Hin. by eapply outgoing_targets_exist.
Qed.

Lemma choose_exclusive_target out vs default tgt :
  choose_exclusive out vs default = Some tgt → (∃ sf, sf ∈ out ∧ tgt = target sf) ∨ default = Some tgt.
Proof.
  unfold choose_exclusive. repeat case_match; intros; simplify_eq; [left|left|by right];
    match goal with H : List.find _ _ = Some _ |- _ => apply find_some in H as [?%list_elem_of_In _] end; eauto.
Qed.

(** On a well-formed graph whose gateway default is a node, no gateway sends a
    token to a node that does not exist. *)
Theorem gateways_stay_inside ids d id t default :
  well_formed (nodes d) (flows d) → (∀ n, default = Some n → is_Some (nodes d !! n)) →
  lands (nodes d) (execute_parallel_gateway ids d id t) ∧
  lands (nodes d) (execute_exclusive_gateway d id t default) ∧
  lands (nodes d) (execute_inclusive_gateway ids d id t) ∧
  lands (nodes d) (execute_complex_gateway ids d id t default).
Proof.
  intros Hwf Hdef. split_and!.
  - unfold execute_parallel_gateway. destruct (waits_for_join d id t); [done|]. apply take_targets_lands.
    intros n (sf & -> & Hsf)%list_elem_of_fmap. by eapply outgoing_targets_exist.
  - unfold execute_exclusive_gateway. destruct (choose_exclusive _ _ _) as [tgt|] eqn:Hc; [|done].
    cbn. intros ts x [= <-] ->%list_elem_of_singleton. cbn.
    apply choose_exclusive_target in Hc as [(sf & Hsf & ->)| ->]; [by eapply outgoing_targets_exist|auto].
  - unfold execute_inclusive_gateway. destruct (waits_for_join d id t); [done|].
    pose proof (filter_targets_exist (nodes d) (flows d) id (flow_open (variables (set_merged false t)))) as Hf.
    unfold next_nodes. destruct (target <$> _) as [|n ns]; [done|]. apply take_targets_lands. eauto.
  - unfold execute_complex_gateway. destruct (waits_for_join d id t); [done|].
    pose proof (filter_targets_exist (nodes d) (flows d) id
      (complex_takes (variables (set_merged false t)) default)) as Hf.
    unfold next_nodes. destruct (target <$> _) as [|n ns]; [destruct default; [|done]|];
      apply take_targets_lands; [|eauto]. intros n ->%list_elem_of_singleton. auto.
Qed.

End gateways.

Lemma gateways_stay_inside_witness :
  let U := ascii_only in
  lands (nodes example_definition)
    (execute_parallel_gateway (λ i, N.of_nat i) example_definition "fork" (token_new 1 "fork")).
Proof.
  refine (proj1 (@gateways_stay_inside ascii_only _ example_definition "fork" _ None _ _)); [|done].
  refine (proj1 (definition_new_fields _ _ _ _ _ _ _ _ _ example_new)).
Defined.
