(* ===== verification/Handlers.v ===== *)
(** * Step handlers: gateways and sub-process borders

    engine-core/src/engine/handlers/gateways.rs, the two token moves of
    handlers/sub_processes.rs and the start and end events of
    handlers/events.rs.  A handler runs the end listeners of the node, decides
    the next action and records it on the instance; the [&mut Token] argument
    is returned with the action. *)

From stdpp Require Import base list gmap strings pretty.
From S2P Require Import Prelude Text Json Float CondLexer CondParser CondEval Domain Token ProcessDef DataMappings Runtime Graph Gateway Registry Index TopicIndex TimerIndex Engine Scripts.
Local Open Scope rust_scope.

Abbreviation Step := (NextAction * Token)%type.

Section handlers.
  Context {U : UnicodeData} {S : ScriptEngine}.

(** Run a gateway function with the next ids of the supply; a fork uses one per
    branch. *)
Definition with_supply (f : (nat → Uuid) → EngineResult Step) : M Step :=
  base ← gets e_uuid;
  '(a, t) ← lift (f (λ k, base + N.of_nat k)%N);
  let used := match a with ContinueMultiple ts => length ts | _ => 0 end in
  _ ← modify (λ e, e <| e_uuid := (base + N.of_nat used)%N |>);
  mret (a, t).

(** The instance notes where a fork happened. *)
Definition note_fork (id : Uuid) (node label : string) (a : NextAction) : M unit :=
  match a with
  | ContinueMultiple ts =>
    update_instance id (λ i, push_audit_log
      (label +:+ " gateway '" +:+ node +:+ "' → forked to " +:+ pretty (length ts) +:+ " path(s)")
      (i <| pi_current_node := node |>))
  | _ => mret tt
  end.

Definition handle_parallel_gateway (id : Uuid) (t : Token) (d : ProcessDefinition) (node : string) : M Step :=
  t ← run_end_scripts id t d node;
  '(a, t) ← with_supply (λ ids, execute_parallel_gateway ids d node t);
  _ ← note_fork id node "■ Parallel" a;
  mret (a, t).

Definition handle_exclusive_gateway (id : Uuid) (t : Token) (d : ProcessDefinition) (node : string)
    (default : option string) : M Step :=
  t ← run_end_scripts id t d node;
  '(a, t) ← lift (execute_exclusive_gateway d node t default);
  _ ← update_instance id (λ i,
        push_audit_log ("◆ Exclusive gateway '" +:+ node +:+ "' → took path to '" +:+ current_node t +:+ "'") i
          <| pi_current_node := current_node t |>);
  mret (a, t).

Definition handle_inclusive_gateway (id : Uuid) (t : Token) (d : ProcessDefinition) (node : string) : M Step :=
  t ← run_end_scripts id t d node;
  '(a, t) ← with_supply (λ ids, execute_inclusive_gateway ids d node t);
  _ ← note_fork id node "◇ Inclusive" a;
  mret (a, t).

Definition handle_complex_gateway (id : Uuid) (t : Token) (d : ProcessDefinition) (node : string)
    (default : option string) : M Step :=
  t ← run_end_scripts id t d node;
  '(a, t) ← with_supply (λ ids, execute_complex_gateway ids d node t default);
  _ ← match a with
      | Continue next =>
        update_instance id (λ i,
          push_audit_log ("⟡ Complex gateway '" +:+ node +:+ "' → took path to '" +:+ current_node next +:+ "'") i
            <| pi_current_node := current_node next |>)
      | _ => note_fork id node "⟡ Complex" a
      end;
  mret (a, t).

(** [handle_start_event]: the next node is chosen before the end listeners run. *)
Definition handle_start_event (id : Uuid) (t : Token) (d : ProcessDefinition) (node : string) : M Step :=
  next ← lift (resolve_next_target d node (variables t));
  t ← run_end_scripts id t d node;
  let t := set_node next t in
  _ ← update_instance id (λ i, i <| pi_current_node := next |>);
  mret (Continue t, t).

(** [handle_end_event]. *)
Definition handle_end_event (id : Uuid) (t : Token) (d : ProcessDefinition) (node : string) : M Step :=
  t ← run_end_scripts id t d node;
  _ ← update_instance id (λ i, push_audit_log ("⏹ Process completed at end event '" +:+ node +:+ "'")
        (i <| pi_current_node := node |>));
  mret (Complete, t).

(** [handle_embedded_sub_process] and [handle_sub_process_end_event]. *)
Definition handle_embedded_sub_process (t : Token) (start_node : string) : M Step :=
  let t := set_node start_node t in mret (Continue t, t).
Definition handle_sub_process_end_event (t : Token) (d : ProcessDefinition) (sub_process : string) : M Step :=
  next ← lift (resolve_next_target d sub_process (variables t));
  let t := set_node next t in
  mret (Continue t, t).

(** ** Properties *)

Lemma with_supply_run f e :
  with_supply f e =
  match f (λ k, e_uuid e + N.of_nat k)%N with
  | Ok (a, t) =>
    (Ok (a, t), e <| e_uuid := (e_uuid e + N.of_nat (match a with ContinueMultiple ts => length ts | _ => 0 end))%N |>)
  | Err err => (Err (Throws err), e)
  end.
Proof. unfold with_supply, gets. rewrite bind_run. cbn iota. rewrite bind_run. cbn [lift map_err]. by destruct (f _) as [[a t]|]. Qed.

(** A handler that forks gives its branches new ids: all different, none handed
    out before, and never handed out again. *)
Definition fresh_ids (e e' : Engine) (ts : list Token) : Prop :=
  NoDup (tok_id <$> ts) ∧ ∀ x, x ∈ ts → (e_uuid e ≤ tok_id x < e_uuid e')%N.

Lemma fork_fresh base vs targets :
  NoDup (tok_id <$> fork (λ k, base + N.of_nat k)%N vs targets) ∧
  ∀ x, x ∈ fork (λ k, base + N.of_nat k)%N vs targets → (base ≤ tok_id x < base + N.of_nat (length targets))%N.
Proof.
  assert (tok_id <$> fork (λ k, base + N.of_nat k)%N vs targets =
    (λ k, base + N.of_nat k)%N <$> seq 0 (length targets)) as Hids.
  { apply list_eq. intros i. unfold fork. rewrite !list_lookup_fmap, list_lookup_imap.
    destruct (targets !! i) eqn:Hi; cbn.
    - apply lookup_lt_Some in Hi. by rewrite lookup_seq_lt.
    - apply lookup_ge_None in Hi. by rewrite lookup_seq_ge. }
  split.
  - rewrite Hids. apply (NoDup_fmap_2_strong _); [|apply NoDup_seq]. intros. lia.
  - intros x (i & tgt & Hi & ->)%elem_of_fork. cbn. apply lookup_lt_Some in Hi. lia.
Qed.

(** The targets a split forks to, for each gateway that can fork. *)
Lemma take_targets_fork ids t targets ts t' :
  take_targets ids t targets = (ContinueMultiple ts, t') → ts = fork ids (variables t) targets.
Proof. destruct targets as [|? [|]]; cbn; by intros [= <- <-]. Qed.

Lemma note_fork_uuid id node label a e r e' : note_fork id node label a e = (r, e') → e_uuid e' = e_uuid e.
Proof.
  destruct a; cbn [note_fork]; try (by intros [= <- <-]).
  rewrite update_instance_run. destruct (e_instances e !! id); by intros [= <- <-].
Qed.

Lemma run_end_scripts_uuid id t d node e r e' : run_end_scripts id t d node e = (r, e') → e_uuid e' = e_uuid e.
Proof.
  rewrite run_end_scripts_run. destruct (e_instances e !! id); [|by intros [= <- <-]].
  destruct (scripting_run_end_scripts _ _ _ _) as [[]|]; by intros [= <- <-].
Qed.

(** The tokens of a parallel fork have new ids, all different, each on its own
    outgoing flow, with the variables the token has after the end listeners;
    the instance is left at the gateway. *)
Theorem handle_parallel_gateway_fork id t d node e ts t' e' :
  handle_parallel_gateway id t d node e = (Ok (ContinueMultiple ts, t'), e') →
  fresh_ids e e' ts ∧ current_node <$> ts = target <$> next_nodes d node ∧
  (∀ x, x ∈ ts → variables x = variables t') ∧
  ∃ i', e_instances e' !! id = Some i' ∧ pi_current_node i' = node.
Proof.
  unfold handle_parallel_gateway. rewrite bind_run. destruct (run_end_scripts id t d node e) as [[t1|] e1] eqn:Hend; [|done].
  apply run_end_scripts_uuid in Hend. rewrite bind_run, with_supply_run. unfold execute_parallel_gateway.
  destruct (waits_for_join d node t1); [done|].
  destruct (take_targets _ _ _) as [a t2] eqn:Htake. rewrite bind_run.
  destruct (note_fork _ _ _ _ _) as [[[]|] e3] eqn:Hnote; [|done]. pose proof (note_fork_uuid _ _ _ _ _ _ _ Hnote) as Hu3.
  intros [= -> -> ->]. pose proof (take_targets_fork _ _ _ _ _ Htake) as ->. cbn [variables set_merged] in *.
  cbn in Hu3. destruct (fork_fresh (e_uuid e1) (variables t1) (target <$> next_nodes d node)) as [Hnd Hrange].
  assert (t' = set_merged false t1) as -> by (destruct (target <$> next_nodes d node) as [|? [|]]; cbn in Htake; by simplify_eq).
  split; [split; [done|]|].
  - intros x Hx. rewrite Hu3, <- Hend. specialize (Hrange x Hx). unfold fork. rewrite length_imap. done.
  - split; [apply fork_nodes|]. split; [by intros x (i & tgt & _ & ->)%elem_of_fork|].
    cbn [note_fork] in Hnote. rewrite update_instance_run in Hnote. cbn [e_instances set_field] in Hnote.
    destruct (e_instances e1 !! id) as [i|]; [|done]. injection Hnote as <-. cbn. rewrite lookup_insert_eq. eauto.
Qed.

(** The exclusive gateway's handler leaves the instance at the node the token
    goes to, and a failed choice changes nothing but what the end listeners
    already published. *)
Theorem handle_exclusive_gateway_position id t d node default e :
  match handle_exclusive_gateway id t d node default e with
  | (Ok (a, t'), e') => a = Continue t' ∧ ∃ i', e_instances e' !! id = Some i' ∧ pi_current_node i' = current_node t'
  | (Err err, e') => (run_end_scripts id t d node e).2 = e'
  end.
Proof.
  unfold handle_exclusive_gateway. rewrite bind_run. destruct (run_end_scripts id t d node e) as [[t1|err] e1] eqn:Hend; [|done].
  rewrite bind_run. cbn [lift map_err]. destruct (execute_exclusive_gateway d node t1 default) as [[a t2]|err] eqn:Hx; [|done].
  cbn [map_err]. rewrite bind_run, update_instance_run. destruct (e_instances e1 !! id) as [i|]; [|done].
  split; [|cbn; rewrite lookup_insert_eq; eauto].
  unfold execute_exclusive_gateway in Hx. by apply result_bind_Ok in Hx as (tgt & _ & [= <- <-]).
Qed.
End handlers.

(** ** A concrete fork *)

Definition no_scripts : ScriptEngine := {| execute_script := λ _ vs, Ok vs |}.

Definition fork_engine : Engine :=
  engine_new <| e_definitions := {[1%N := example_definition]} |> <| e_instances := {[7%N := example_instance]} |>.

Lemma handle_parallel_gateway_fork_witness :
  ∃ ts t' e', @handle_parallel_gateway no_scripts 7 (token_new 3 "fork") example_definition "fork" fork_engine
    = (Ok (ContinueMultiple ts, t'), e') ∧ fresh_ids fork_engine e' ts ∧ length ts = 2.
Proof.
  eexists _, _, _. split; [vm_compute; reflexivity|]. split; [|reflexivity].
  refine (proj1 (@handle_parallel_gateway_fork no_scripts 7 (token_new 3 "fork") example_definition "fork" fork_engine _ _ _ _)).
  vm_compute. reflexivity.
Defined.
