(* ===== verification/Boundary.v ===== *)
(** * Boundary events and wait states

    engine-core/src/engine/boundary.rs ([setup_boundary_events]) and the
    cancellation helpers of engine-core/src/engine/mod.rs: entering an activity
    creates a wait state per boundary event attached to it, leaving it removes
    them, and an event-based gateway drops the alternatives of a token. *)

From stdpp Require Import base list gmap strings pretty.
From S2P Require Import Prelude Text Json Domain Token ProcessDef Runtime History Registry Index TopicIndex TimerIndex Engine.
Local Open Scope rust_scope.

Record BoundaryEvents := {
  be_timers : list PendingTimer;
  be_messages : list PendingMessageCatch;
  be_signals : list PendingSignalCatch;
  be_conditionals : list PendingConditionalCatch;
}.

(** ** The boundary events of a node, by kind *)

Definition bound_timer (node : string) (entry : string * BpmnElement) : option (string * TimerDefinition) :=
  match entry.2 with
  | BoundaryTimerEvent a timer _ => if bool_decide (a = node) then Some (entry.1, timer) else None
  | _ => None
  end.
Definition bound_message (node : string) (entry : string * BpmnElement) : option (string * string) :=
  match entry.2 with
  | BoundaryMessageEvent a name _ => if bool_decide (a = node) then Some (entry.1, name) else None
  | _ => None
  end.
Definition bound_signal (node : string) (entry : string * BpmnElement) : option (string * string) :=
  match entry.2 with
  | BoundarySignalEvent a name _ => if bool_decide (a = node) then Some (entry.1, name) else None
  | _ => None
  end.
Definition bound_conditional (node : string) (entry : string * BpmnElement) : option (string * string) :=
  match entry.2 with
  | BoundaryConditionalEvent a cond _ => if bool_decide (a = node) then Some (entry.1, cond) else None
  | _ => None
  end.

(** What the scan of [def.nodes] collects with one of them. *)
Definition bounds {X} (d : ProcessDefinition) (f : string * BpmnElement → option X) : list X :=
  omap f (map_to_list (nodes d)).

(** ** Setup *)

Section setup.
  Context {C : CronLib}.

(** [timer_def.next_expiry(now).unwrap_or(now)]. *)
Definition expiry_or_now (timer : TimerDefinition) (now : DateTime) : call DateTime :=
  match next_expiry timer now with
  | Returns (Some at_) => Returns at_
  | Returns None => Returns now
  | Panics => Panics
  end.

(** The loop over the timers; [n] ids have been used. *)
Fixpoint setup_timers (ids : nat → Uuid) (n : nat) (now : DateTime) (instance_id : Uuid) (t : Token)
    (l : list (string * TimerDefinition)) : call (list PendingTimer) :=
  match l with
  | [] => Returns []
  | (node_id, timer) :: l =>
    match expiry_or_now timer now with
    | Panics => Panics
    | Returns expires_at =>
      match setup_timers ids (S n) now instance_id t l with
      | Panics => Panics
      | Returns rest =>
        Returns (mkTimer (ids n) instance_id node_id expires_at (tok_id t) (Some timer)
                   (initial_remaining_repetitions timer) :: rest)
      end
    end
  end.

(** [setup_boundary_events]; [now] and the fresh ids are arguments. *)
Definition setup_boundary_events (ids : nat → Uuid) (now : DateTime) (d : ProcessDefinition) (node : string)
    (instance_id : Uuid) (t : Token) : call BoundaryEvents :=
  let bounds_timers := bounds d (bound_timer node) in
  let bounds_msgs := bounds d (bound_message node) in
  let bounds_signals := bounds d (bound_signal node) in
  let bounds_conditionals := bounds d (bound_conditional node) in
  let n1 := length bounds_timers in
  let n2 := n1 + length bounds_msgs in
  let n3 := n2 + length bounds_signals in
  match setup_timers ids 0 now instance_id t bounds_timers with
  | Panics => Panics
  | Returns timers =>
    Returns {|
      be_timers := timers;
      be_messages := imap (λ k '(node_id, name),
        {| mc_id := ids (n1 + k); mc_instance_id := instance_id; mc_node_id := node_id;
           mc_message_name := name; mc_token_id := tok_id t |}) bounds_msgs;
      be_signals := imap (λ k '(node_id, name),
        {| sc_id := ids (n2 + k); sc_instance_id := instance_id; sc_node_id := node_id;
           sc_signal_name := name; sc_token_id := tok_id t |}) bounds_signals;
      be_conditionals := imap (λ k '(node_id, cond),
        {| cc_id := ids (n3 + k); cc_instance_id := instance_id; cc_node_id := node_id;
           cc_condition := cond; cc_token_id := tok_id t; cc_last_result := false |}) bounds_conditionals |}
  end.
End setup.

(** ** Cancellation *)

(** [m.retain(|_, x| !drop(x))] of a catch map, and the ids it drops. *)
Definition retain_not {V} (drop : V → bool) (m : gmap Uuid V) : gmap Uuid V :=
  filter (λ kv : Uuid * V, drop kv.2 = false) m.
Definition ids_of {V} (id : V → Uuid) (drop : V → bool) (m : gmap Uuid V) : list Uuid :=
  id <$> List.filter drop (map_to_list m).*2.

Definition on_node (instance_id : Uuid) (bound : list string) (inst : Uuid) (node : string) : bool :=
  bool_decide (inst = instance_id) && existsb (λ b, bool_decide (b = node)) bound.

(** [cancel_boundary_timers]. *)
Definition cancel_boundary_timers (instance_id : Uuid) (task_node : string) : M unit :=
  mi ← gets (λ e, e_instances e !! instance_id);
  match mi with
  | None => mret tt
  | Some i =>
    md ← gets (λ e, e_definitions e !! pi_definition_key i);
    let bound := match md with Some d => (bounds d (bound_timer task_node)).*1 | None => [] end in
    let drop t := on_node instance_id bound (pt_instance_id t) (pt_node_id t) in
    ids ← gets (λ e, ids_of pt_id drop (primary (e_timers e)));
    _ ← modify (λ e, e <| e_timers ::= retain_pending_timers (λ t, negb (drop t)) |>);
    forM ids remove_persisted_timer
  end.

(** [cancel_boundary_waits]. *)
Definition cancel_boundary_waits (instance_id : Uuid) (task_node : string) : M unit :=
  mi ← gets (λ e, e_instances e !! instance_id);
  match mi with
  | None => mret tt
  | Some i =>
    md ← gets (λ e, e_definitions e !! pi_definition_key i);
    let names (f : string → string * BpmnElement → option (string * string)) :=
      match md with Some d => (bounds d (f task_node)).*1 | None => [] end in
    let drop_m m := on_node instance_id (names bound_message) (mc_instance_id m) (mc_node_id m) in
    let drop_s s := on_node instance_id (names bound_signal) (sc_instance_id s) (sc_node_id s) in
    let drop_c c := on_node instance_id (names bound_conditional) (cc_instance_id c) (cc_node_id c) in
    ms ← gets (λ e, ids_of mc_id drop_m (e_message_catches e));
    ss ← gets (λ e, ids_of sc_id drop_s (e_signal_catches e));
    cs ← gets (λ e, ids_of cc_id drop_c (e_conditional_catches e));
    _ ← modify (λ e, e <| e_message_catches ::= retain_not drop_m |> <| e_signal_catches ::= retain_not drop_s |>
                        <| e_conditional_catches ::= retain_not drop_c |>);
    _ ← forM ms remove_persisted_message_catch;
    _ ← forM ss remove_persisted_signal_catch;
    forM cs remove_persisted_conditional_catch
  end.

(** The audit entries of [clear_wait_states_for_token], one per kind dropped. *)
Definition log_cancelled (what : string) (ids : list Uuid) (i : ProcessInstance) : ProcessInstance :=
  match ids with
  | [] => i
  | _ => log_raw ("⭮ Event-based gateway: " +:+ pretty (length ids) +:+ " alternative " +:+ what +:+ " cancelled") i
  end.

(** [clear_wait_states_for_token]. *)
Definition clear_wait_states_for_token (instance_id token_id : Uuid) : M unit :=
  let mine (inst tok : Uuid) := bool_decide (inst = instance_id) && bool_decide (tok = token_id) in
  let drop_t t := mine (pt_instance_id t) (pt_token_id t) in
  let drop_m m := mine (mc_instance_id m) (mc_token_id m) in
  let drop_s s := mine (sc_instance_id s) (sc_token_id s) in
  let drop_c c := mine (cc_instance_id c) (cc_token_id c) in
  ts ← gets (λ e, ids_of pt_id drop_t (primary (e_timers e)));
  ms ← gets (λ e, ids_of mc_id drop_m (e_message_catches e));
  ss ← gets (λ e, ids_of sc_id drop_s (e_signal_catches e));
  cs ← gets (λ e, ids_of cc_id drop_c (e_conditional_catches e));
  _ ← (if bool_decide (ts ++ ms ++ ss ++ cs = []) then mret tt
       else
         _ ← try_update_instance instance_id (λ i,
               log_cancelled "conditional catch(es)" cs (log_cancelled "signal catch(es)" ss
                 (log_cancelled "message catch(es)" ms (log_cancelled "timer(s)" ts i))));
         record_history_event instance_id TokenAdvanced "Alternative EventBasedGateway paths cancelled"
           ActorEngine None None);
  _ ← modify (λ e, e <| e_timers ::= retain_pending_timers (λ t, negb (drop_t t)) |>
                      <| e_message_catches ::= retain_not drop_m |> <| e_signal_catches ::= retain_not drop_s |>
                      <| e_conditional_catches ::= retain_not drop_c |>);
  _ ← forM ts remove_persisted_timer;
  _ ← forM ms remove_persisted_message_catch;
  _ ← forM ss remove_persisted_signal_catch;
  forM cs remove_persisted_conditional_catch.

(** ** One wait state per boundary event *)

Lemma elem_of_bounds {X} d (f : string * BpmnElement → option X) x :
  x ∈ bounds d f ↔ ∃ id el, nodes d !! id = Some el ∧ f (id, el) = Some x.
Proof.
  unfold bounds. rewrite list_elem_of_omap. split.
  - intros ([id el] & Hin%elem_of_map_to_list & Hf). eauto.
  - intros (id & el & Hin & Hf). exists (id, el). by rewrite elem_of_map_to_list.
Qed.

Lemma elem_of_bound_timer d node id timer :
  (id, timer) ∈ bounds d (bound_timer node) ↔ ∃ c, nodes d !! id = Some (BoundaryTimerEvent node timer c).
Proof.
  rewrite elem_of_bounds. unfold bound_timer. split.
  - intros (id' & [] & Hn & Hf); simplify_eq/=. case_bool_decide; simplify_eq. eauto.
  - intros [c Hn]. eexists _, _. split; [done|]. cbn. by rewrite bool_decide_true.
Qed.
Lemma elem_of_bound_message d node id name :
  (id, name) ∈ bounds d (bound_message node) ↔ ∃ c, nodes d !! id = Some (BoundaryMessageEvent node name c).
Proof.
  rewrite elem_of_bounds. unfold bound_message. split.
  - intros (id' & [] & Hn & Hf); simplify_eq/=. case_bool_decide; simplify_eq. eauto.
  - intros [c Hn]. eexists _, _. split; [done|]. cbn. by rewrite bool_decide_true.
Qed.
Lemma elem_of_bound_signal d node id name :
  (id, name) ∈ bounds d (bound_signal node) ↔ ∃ c, nodes d !! id = Some (BoundarySignalEvent node name c).
Proof.
  rewrite elem_of_bounds. unfold bound_signal. split.
  - intros (id' & [] & Hn & Hf); simplify_eq/=. case_bool_decide; simplify_eq. eauto.
  - intros [c Hn]. eexists _, _. split; [done|]. cbn. by rewrite bool_decide_true.
Qed.
Lemma elem_of_bound_conditional d node id cond :
  (id, cond) ∈ bounds d (bound_conditional node) ↔ ∃ c, nodes d !! id = Some (BoundaryConditionalEvent node cond c).
Proof.
  rewrite elem_of_bounds. unfold bound_conditional. split.
  - intros (id' & [] & Hn & Hf); simplify_eq/=. case_bool_decide; simplify_eq. eauto.
  - intros [c Hn]. eexists _, _. split; [done|]. cbn. by rewrite bool_decide_true.
Qed.

Section setup_spec.
  Context {C : CronLib}.

Lemma setup_timers_spec ids n now inst t l :
  match setup_timers ids n now inst t l with
  | Returns ts => (λ p, (pt_node_id p, pt_timer_def p)) <$> ts = (λ b, (b.1, Some b.2)) <$> l ∧
      pt_id <$> ts = ids <$> seq n (length l) ∧
      ∀ p, p ∈ ts → pt_instance_id p = inst ∧ pt_token_id p = tok_id t ∧
        ∃ timer, pt_timer_def p = Some timer ∧ expiry_or_now timer now = Returns (pt_expires_at p) ∧
          pt_remaining_repetitions p = initial_remaining_repetitions timer
  | Panics => ∃ b, b ∈ l ∧ next_expiry b.2 now = Panics
  end.
Proof.
  revert n. induction l as [|[node timer] l IH]; intros n; cbn [setup_timers]; [by split_and!; [..|set_solver]|].
  destruct (expiry_or_now timer now) as [at_|] eqn:He.
  - specialize (IH (S n)). destruct (setup_timers _ _ _ _ _ _) as [ts|].
    + destruct IH as (H1 & H2 & H3). rewrite !fmap_cons, H1, H2. split_and!; [done..|].
      intros p [->|?]%elem_of_cons; [|by apply H3]. cbn. eauto 10.
    + destruct IH as (b & ? & ?). exists b. set_solver.
  - exists (node, timer). split; [set_solver|]. unfold expiry_or_now in He. cbn.
    by destruct (next_expiry timer now) as [[]|].
Qed.

Lemma imap_fields {A B} (f : nat → A → B) (g : B → A) l : (∀ k a, g (f k a) = a) → g <$> imap f l = l.
Proof.
  revert f. induction l as [|a l IH]; intros f Hg; [done|]. rewrite imap_cons, fmap_cons, Hg, IH; [done|].
  intros k x. apply Hg.
Qed.

Lemma imap_ids {A B X} (f : nat → A → B) (g : B → X) (ids : nat → X) n l :
  (∀ k a, g (f k a) = ids (n + k)) → g <$> imap f l = ids <$> seq n (length l).
Proof.
  revert f n. induction l as [|a l IH]; intros f n Hg; [done|].
  rewrite imap_cons, fmap_cons, Hg, Nat.add_0_r, (IH (f ∘ S) (S n)); [done|].
  intros k x. cbn. rewrite Hg. f_equal. lia.
Qed.

(** Entering an activity creates exactly one wait state per boundary event of each
    kind attached to it, owned by the instance and the token, all with
    different fresh ids; it panics only when the time of one of its timers
    cannot be represented. *)
Theorem setup_boundary_events_spec ids now d node inst t :
  match setup_boundary_events ids now d node inst t with
  | Returns ev =>
    (∀ id timer, (id, Some timer) ∈ (λ p, (pt_node_id p, pt_timer_def p)) <$> be_timers ev ↔
       ∃ c, nodes d !! id = Some (BoundaryTimerEvent node timer c)) ∧
    (∀ id name, (id, name) ∈ (λ p, (mc_node_id p, mc_message_name p)) <$> be_messages ev ↔
       ∃ c, nodes d !! id = Some (BoundaryMessageEvent node name c)) ∧
    (∀ id name, (id, name) ∈ (λ p, (sc_node_id p, sc_signal_name p)) <$> be_signals ev ↔
       ∃ c, nodes d !! id = Some (BoundarySignalEvent node name c)) ∧
    (∀ id cond, (id, cond) ∈ (λ p, (cc_node_id p, cc_condition p)) <$> be_conditionals ev ↔
       ∃ c, nodes d !! id = Some (BoundaryConditionalEvent node cond c)) ∧
    (pt_id <$> be_timers ev) ++ (mc_id <$> be_messages ev) ++ (sc_id <$> be_signals ev)
      ++ (cc_id <$> be_conditionals ev)
    = ids <$> seq 0 (length (be_timers ev) + length (be_messages ev) + length (be_signals ev)
                     + length (be_conditionals ev)) ∧
    (∀ p, p ∈ be_timers ev → pt_instance_id p = inst ∧ pt_token_id p = tok_id t) ∧
    Forall (λ p, mc_instance_id p = inst ∧ mc_token_id p = tok_id t) (be_messages ev) ∧
    Forall (λ p, sc_instance_id p = inst ∧ sc_token_id p = tok_id t) (be_signals ev) ∧
    Forall (λ p, cc_instance_id p = inst ∧ cc_token_id p = tok_id t) (be_conditionals ev)
  | Panics => ∃ id timer c, nodes d !! id = Some (BoundaryTimerEvent node timer c) ∧ next_expiry timer now = Panics
  end.
Proof.
  unfold setup_boundary_events.
  pose proof (setup_timers_spec ids 0 now inst t (bounds d (bound_timer node))) as Ht.
  destruct (setup_timers _ _ _ _ _ _) as [ts|]; cbn [be_timers be_messages be_signals be_conditionals].
  - destruct Ht as (Hn & Hid & Hown). split_and!.
    + intros id timer. rewrite Hn, list_elem_of_fmap. rewrite <- elem_of_bound_timer. split.
      * intros ([] & ? & ?); simplify_eq/=. done.
      * intros ?. by exists (id, timer).
    + intros id name. by rewrite imap_fields, elem_of_bound_message by by intros ? [].
    + intros id name. by rewrite imap_fields, elem_of_bound_signal by by intros ? [].
    + intros id name. by rewrite imap_fields, elem_of_bound_conditional by by intros ? [].
    + rewrite Hid, (imap_ids _ mc_id ids (length (bounds d (bound_timer node)))),
        (imap_ids _ sc_id ids (length (bounds d (bound_timer node)) + length (bounds d (bound_message node)))),
        (imap_ids _ cc_id ids (length (bounds d (bound_timer node)) + length (bounds d (bound_message node))
           + length (bounds d (bound_signal node)))) by by intros ? [].
      rewrite !length_imap. replace (length ts) with (length (bounds d (bound_timer node))).
      * by rewrite !seq_app, !fmap_app, <- !app_assoc.
      * apply (f_equal length) in Hid. by rewrite !length_fmap, length_seq in Hid.
    + naive_solver.
    + apply Forall_forall. by intros x (k & [] & -> & _)%elem_of_lookup_imap.
    + apply Forall_forall. by intros x (k & [] & -> & _)%elem_of_lookup_imap.
    + apply Forall_forall. by intros x (k & [] & -> & _)%elem_of_lookup_imap.
  - destruct Ht as ([id timer] & [c Hn]%elem_of_bound_timer & Hp). eauto.
Qed.
End setup_spec.

(** ** Cancellation removes exactly the attached waits *)

#[local] Arguments retain_pending_timers : simpl never.
#[local] Arguments retain_not : simpl never.

Lemma forM_emit {A} (l : list A) (f : A → Effect) e :
  forM l (λ x, emit (f x)) e = (Ok tt, e <| e_trace := e_trace e ++ (f <$> l) |>).
Proof.
  revert e. induction l as [|x l IH]; intros e; cbn [forM].
  - destruct e. cbn. by rewrite app_nil_r.
  - rewrite bind_run. cbn [emit modify]. rewrite IH. cbn. by rewrite <- app_assoc.
Qed.

Lemma retain_not_lookup {V} (drop : V → bool) (m : gmap Uuid V) u v :
  retain_not drop m !! u = Some v ↔ m !! u = Some v ∧ drop v = false.
Proof. apply map_lookup_filter_Some. Qed.

Lemma elem_of_ids_of {V} (id : V → Uuid) (drop : V → bool) (m : gmap Uuid V) u :
  (∀ k v, m !! k = Some v → id v = k) → u ∈ ids_of id drop m ↔ ∃ v, m !! u = Some v ∧ drop v = true.
Proof.
  intros Hid. unfold ids_of. rewrite list_elem_of_fmap. split.
  - intros (v & -> & [([k x] & -> & Hin%elem_of_map_to_list)%list_elem_of_fmap ?]%elem_of_filter_bool).
    cbn. rewrite (Hid _ _ Hin). eauto.
  - intros (v & Hv & Hd). exists v. split; [by rewrite (Hid _ _ Hv)|]. apply elem_of_filter_bool. split; [|done].
    apply list_elem_of_fmap. exists (u, v). by rewrite elem_of_map_to_list.
Qed.

Lemma on_node_true inst bound i n : on_node inst bound i n = true ↔ i = inst ∧ n ∈ bound.
Proof.
  unfold on_node. rewrite andb_true_iff, bool_decide_eq_true, existsb_exists. setoid_rewrite bool_decide_eq_true.
  setoid_rewrite <- list_elem_of_In. naive_solver.
Qed.

Lemma retain_timers_lookup (keep : PendingTimer → bool) (s : Timers) u t :
  primary (retain_pending_timers keep s) !! u = Some t ↔ primary s !! u = Some t ∧ keep t = true.
Proof. apply map_lookup_filter_Some. Qed.

Lemma elem_of_bound_timer_ids d node id :
  id ∈ (bounds d (bound_timer node)).*1 ↔ ∃ timer c, nodes d !! id = Some (BoundaryTimerEvent node timer c).
Proof.
  rewrite list_elem_of_fmap. split.
  - intros ([id' timer] & -> & [c ?]%elem_of_bound_timer). eauto.
  - intros (timer & c & Hn). exists (id, timer). rewrite elem_of_bound_timer. eauto.
Qed.

(** Completing or aborting an activity removes exactly the pending timers of its
    boundary timer events in this instance, deletes exactly those from the
    store, and keeps the timer index consistent. *)
Theorem cancel_boundary_timers_spec inst node e i d :
  e_instances e !! inst = Some i → e_definitions e !! pi_definition_key i = Some d → consistent (e_timers e) →
  let belongs t := pt_instance_id t = inst ∧ ∃ timer c, nodes d !! pt_node_id t = Some (BoundaryTimerEvent node timer c) in
  ∃ e' ids, cancel_boundary_timers inst node e = (Ok tt, e') ∧ consistent (e_timers e') ∧
    (∀ u t, primary (e_timers e') !! u = Some t ↔ primary (e_timers e) !! u = Some t ∧ ¬ belongs t) ∧
    e_trace e' = e_trace e ++ (DeleteTimer <$> ids) ∧
    (∀ u, u ∈ ids ↔ ∃ t, primary (e_timers e) !! u = Some t ∧ belongs t).
Proof.
  intros Hi Hd Hc belongs. unfold cancel_boundary_timers.
  run_step. rewrite Hi. run_step. rewrite Hd. cbn zeta.
  set (drop := λ t, on_node inst _ (pt_instance_id t) (pt_node_id t)).
  assert (∀ t, drop t = true ↔ belongs t) as Hdrop.
  { intros t. unfold drop, belongs. by rewrite on_node_true, elem_of_bound_timer_ids. }
  assert (∀ t, negb (drop t) = true ↔ ¬ belongs t) as Hkeep.
  { intros t. rewrite <- Hdrop. by destruct (drop t). }
  run_step. run_step. unfold remove_persisted_timer. rewrite forM_emit. eexists _, _.
  split; [reflexivity|]. cbn. split; [by eauto with rust typeclass_instances|]. split_and!; [|done|].
  - intros u t. rewrite retain_timers_lookup. split; intros [? ?]; (split; [done|]); by apply Hkeep.
  - intros u. rewrite elem_of_ids_of by apply (cons_id _ Hc).
    split; intros (t & ? & ?); exists t; (split; [done|]); by apply Hdrop.
Qed.

(** The wait states of a token. *)
Definition waits (inst tok : Uuid) (i t : Uuid) : Prop := i = inst ∧ t = tok.

(** The wait states kept by [clear_wait_states_for_token]. *)
Definition kept {V} (m m' : gmap Uuid V) (gone : V → Prop) : Prop :=
  ∀ u v, m' !! u = Some v ↔ m !! u = Some v ∧ ¬ gone v.

(** When one event of an event-based gateway fires, every wait state of its token
    (timer, message, signal, condition) is removed, every other one is kept,
    and the timer index stays consistent. *)
Theorem clear_wait_states_spec inst tok e :
  consistent (e_timers e) →
  ∃ e', clear_wait_states_for_token inst tok e = (Ok tt, e') ∧ consistent (e_timers e') ∧
    kept (primary (e_timers e)) (primary (e_timers e')) (λ t, waits inst tok (pt_instance_id t) (pt_token_id t)) ∧
    kept (e_message_catches e) (e_message_catches e') (λ m, waits inst tok (mc_instance_id m) (mc_token_id m)) ∧
    kept (e_signal_catches e) (e_signal_catches e') (λ s, waits inst tok (sc_instance_id s) (sc_token_id s)) ∧
    kept (e_conditional_catches e) (e_conditional_catches e') (λ c, waits inst tok (cc_instance_id c) (cc_token_id c)).
Proof.
  intros Hc. unfold clear_wait_states_for_token. cbn zeta.
  do 4 (rewrite bind_run; cbn [gets]). rewrite bind_run.
  match goal with |- context [match ?m e with (_, _) => _ end] => set (log := m e) end.
  assert (∃ e1, log = (Ok tt, e1) ∧ e_timers e1 = e_timers e ∧ e_message_catches e1 = e_message_catches e ∧
    e_signal_catches e1 = e_signal_catches e ∧ e_conditional_catches e1 = e_conditional_catches e)
    as (e1 & Hlog & Ht & Hm & Hs & Hcc).
  { unfold log. case_bool_decide; [by exists e|]. rewrite bind_run. cbn [try_update_instance modify].
    edestruct quiet_history as (u & l & -> & _). eexists. by split; [reflexivity|]. }
  rewrite Hlog. rewrite bind_run. cbn [modify].
  unfold remove_persisted_timer, remove_persisted_message_catch, remove_persisted_signal_catch,
    remove_persisted_conditional_catch. do 3 (rewrite bind_run, forM_emit). rewrite forM_emit.
  eexists. split; [reflexivity|]. cbn. rewrite Ht, Hm, Hs, Hcc.
  assert (∀ i t, bool_decide (i = inst) && bool_decide (t = tok) = false ↔ ¬ waits inst tok i t) as Hw.
  { intros i t. unfold waits. repeat case_bool_decide; cbn; naive_solver. }
  split; [by eauto with rust typeclass_instances|]. split_and!; intros u v.
  - rewrite retain_timers_lookup, negb_true_iff. cbn beta. by rewrite Hw.
  - rewrite retain_not_lookup. cbn beta. by rewrite Hw.
  - rewrite retain_not_lookup. cbn beta. by rewrite Hw.
  - rewrite retain_not_lookup. cbn beta. by rewrite Hw.
Qed.

(** ** Concrete waits *)

Definition boundary_definition : ProcessDefinition :=
  example_definition <| nodes := <["late" := BoundaryTimerEvent "a" (TimerDuration 60) true]> (nodes example_definition) |>.
Definition boundary_engine : Engine :=
  engine_new <| e_definitions := {[1%N := boundary_definition]} |> <| e_instances := {[7%N := example_instance]} |>
    <| e_timers := insert_pending_timer (mkTimer 20 7 "late" 60 3 (Some (TimerDuration 60)) None) store_empty |>.
Lemma boundary_engine_consistent : consistent (e_timers boundary_engine).
Proof. apply store_insert_consistent; [apply store_empty_consistent|]. intros old H. cbn in H. by rewrite lookup_empty in H. Qed.

Lemma cancel_boundary_timers_spec_witness :
  ∃ e', cancel_boundary_timers 7 "a" boundary_engine = (Ok tt, e') ∧ consistent (e_timers e') ∧
    e_trace e' = [DeleteTimer 20].
Proof.
  destruct (cancel_boundary_timers_spec 7 "a" boundary_engine example_instance boundary_definition)
    as (e' & ids & H1 & H2 & H3 & H4 & H5); [reflexivity|reflexivity|exact boundary_engine_consistent|].
  exists e'. split; [exact H1|]. split; [exact H2|].
  assert (e' = (cancel_boundary_timers 7 "a" boundary_engine).2) as -> by (by rewrite H1). vm_compute. reflexivity.
Defined.

Lemma clear_wait_states_spec_witness :
  ∃ e', clear_wait_states_for_token 7 3 boundary_engine = (Ok tt, e') ∧ consistent (e_timers e').
Proof.
  destruct (clear_wait_states_spec 7 3 boundary_engine boundary_engine_consistent) as (e' & H1 & H2 & _).
  exists e'. exact (conj H1 H2).
Defined.
