(* ===== verification/Waits.v ===== *)
(** * Adding and removing pending work

    The operations on the pending maps that the handlers and processors share:
    insertions with their save, removals with their deletion, the boundary events
    of an activity (the loops after [setup_boundary_events] in
    engine-core/src/engine/handlers/tasks.rs), [cancel_pending_activity] of
    signal_processor.rs and [cancel_scope_waits] and [close_event_scope] of
    event_subprocess.rs. *)

From stdpp Require Import base list gmap strings pretty.
From S2P Require Import Prelude Text Json Domain Token ProcessDef Runtime History Registry Index TopicIndex TimerIndex Engine Boundary.
Local Open Scope rust_scope.

(** ** The maps *)

Definition put_user_task (task_id : Uuid) (p : PendingUserTask) : M unit :=
  modify (λ e, e <| e_user_tasks ::= <[task_id := p]> |>).
Definition insert_user_task (p : PendingUserTask) : M unit := put_user_task (ut_task_id p) p.
Definition insert_service_task (p : PendingServiceTask) : M unit :=
  modify (λ e, e <| e_service_tasks ::= insert_pending_service_task p |>).
Definition insert_timer (p : PendingTimer) : M unit :=
  modify (λ e, e <| e_timers ::= insert_pending_timer p |>).
Definition insert_message_catch (p : PendingMessageCatch) : M unit :=
  modify (λ e, e <| e_message_catches ::= <[mc_id p := p]> |>).
Definition insert_signal_catch (p : PendingSignalCatch) : M unit :=
  modify (λ e, e <| e_signal_catches ::= <[sc_id p := p]> |>).
Definition insert_conditional_catch (p : PendingConditionalCatch) : M unit :=
  modify (λ e, e <| e_conditional_catches ::= <[cc_id p := p]> |>).

Definition remove_user_task (id : Uuid) : M unit := modify (λ e, e <| e_user_tasks ::= delete id |>).
Definition remove_service_task (id : Uuid) : M unit :=
  modify (λ e, e <| e_service_tasks ::= λ s, (remove_pending_service_task id s).2 |>).
Definition remove_timer (id : Uuid) : M unit := modify (λ e, e <| e_timers ::= λ s, (remove_pending_timer id s).2 |>).
Definition remove_message_catch (id : Uuid) : M unit := modify (λ e, e <| e_message_catches ::= delete id |>).
Definition remove_signal_catch (id : Uuid) : M unit := modify (λ e, e <| e_signal_catches ::= delete id |>).
Definition remove_conditional_catch (id : Uuid) : M unit := modify (λ e, e <| e_conditional_catches ::= delete id |>).

(** ** Insertions with their save *)

Definition add_user_task (p : PendingUserTask) : M unit := insert_user_task p ;; persist_user_task (ut_task_id p).
Definition add_service_task (p : PendingServiceTask) : M unit := insert_service_task p ;; persist_service_task (st_id p).
Definition add_timer (p : PendingTimer) : M unit := insert_timer p ;; persist_timer (pt_id p).
Definition add_message_catch (p : PendingMessageCatch) : M unit :=
  insert_message_catch p ;; persist_message_catch (mc_id p).
Definition add_signal_catch (p : PendingSignalCatch) : M unit := insert_signal_catch p ;; persist_signal_catch (sc_id p).
Definition add_conditional_catch (p : PendingConditionalCatch) : M unit :=
  insert_conditional_catch p ;; persist_conditional_catch (cc_id p).

(** ** Removals with their deletion *)

Definition drop_user_task (id : Uuid) : M unit := remove_user_task id ;; remove_persisted_user_task id.
Definition drop_service_task (id : Uuid) : M unit := remove_service_task id ;; remove_persisted_service_task id.
Definition drop_timer (id : Uuid) : M unit := remove_timer id ;; remove_persisted_timer id.
Definition drop_message_catch (id : Uuid) : M unit := remove_message_catch id ;; remove_persisted_message_catch id.
Definition drop_signal_catch (id : Uuid) : M unit := remove_signal_catch id ;; remove_persisted_signal_catch id.
Definition drop_conditional_catch (id : Uuid) : M unit :=
  remove_conditional_catch id ;; remove_persisted_conditional_catch id.

(** ** The boundary events of an activity *)

Section waits.
  Context {C : CronLib}.

(** [setup_boundary_events] and the four loops after it. *)
Definition install_boundary_events (id : Uuid) (t : Token) (d : ProcessDefinition) (node : string) : M unit :=
  base ← gets e_uuid;
  at_ ← now;
  b ← lift_call (setup_boundary_events (λ k, base + N.of_nat k)%N at_ d node id t);
  modify (λ e, e <| e_uuid := (base + N.of_nat (length (be_timers b) + length (be_messages b)
                                 + length (be_signals b) + length (be_conditionals b)))%N |>) ;;
  forM (be_timers b) add_timer ;;
  forM (be_messages b) add_message_catch ;;
  forM (be_signals b) add_signal_catch ;;
  forM (be_conditionals b) add_conditional_catch.
End waits.

(** ** Dropping the work of a token or an instance *)

(** [cancel_pending_activity]: the open tasks of a token. *)
Definition cancel_pending_activity (instance_id token_id : Uuid) : M unit :=
  users ← gets (λ e, ids_of ut_task_id
            (λ t, bool_decide (ut_instance_id t = instance_id) && bool_decide (ut_token_id t = token_id)) (e_user_tasks e));
  forM users drop_user_task ;;
  services ← gets (λ e, ids_of st_id
    (λ t, bool_decide (st_instance_id t = instance_id) && bool_decide (st_token_id t = token_id))
    (primary (e_service_tasks e)));
  forM services drop_service_task.

(** The ids of the matching entries of every map are collected first, then each
    entry is removed and its stored record deleted. *)
Definition drop_waits (user : PendingUserTask → bool) (service : PendingServiceTask → bool) (timer : PendingTimer → bool)
    (message : PendingMessageCatch → bool) (signal : PendingSignalCatch → bool)
    (conditional : PendingConditionalCatch → bool) : M unit :=
  users ← gets (λ e, ids_of ut_task_id user (e_user_tasks e));
  services ← gets (λ e, ids_of st_id service (primary (e_service_tasks e)));
  timers ← gets (λ e, ids_of pt_id timer (primary (e_timers e)));
  messages ← gets (λ e, ids_of mc_id message (e_message_catches e));
  signals ← gets (λ e, ids_of sc_id signal (e_signal_catches e));
  conditionals ← gets (λ e, ids_of cc_id conditional (e_conditional_catches e));
  forM users drop_user_task ;;
  forM services drop_service_task ;;
  forM timers drop_timer ;;
  forM messages drop_message_catch ;;
  forM signals drop_signal_catch ;;
  forM conditionals drop_conditional_catch.

(** [cancel_scope_waits]: everything an instance waits for. *)
Definition cancel_scope_waits (id : Uuid) : M unit :=
  drop_waits (λ t, bool_decide (ut_instance_id t = id)) (λ t, bool_decide (st_instance_id t = id))
    (λ t, bool_decide (pt_instance_id t = id)) (λ c, bool_decide (mc_instance_id c = id))
    (λ c, bool_decide (sc_instance_id c = id)) (λ c, bool_decide (cc_instance_id c = id)).

(** The pending maps without the instance's entries. *)
Definition forget_pending (id : Uuid) (e : Engine) : Engine :=
  e <| e_user_tasks ::= retain_not (λ t, bool_decide (ut_instance_id t = id)) |>
    <| e_service_tasks ::= clear_pending_service_tasks_for_instance id |>
    <| e_timers ::= retain_pending_timers (λ t, negb (bool_decide (pt_instance_id t = id))) |>
    <| e_message_catches ::= retain_not (λ c, bool_decide (mc_instance_id c = id)) |>
    <| e_signal_catches ::= retain_not (λ c, bool_decide (sc_instance_id c = id)) |>
    <| e_conditional_catches ::= retain_not (λ c, bool_decide (cc_instance_id c = id)) |>.

(** [close_event_scope]. *)
Definition close_event_scope (id : Uuid) : M unit :=
  mi ← gets (λ e, e_instances e !! id);
  match mi with
  | None => mret tt
  | Some i =>
    match pi_event_subscriptions i with
    | [] => mret tt
    | subs =>
      try_update_instance id (λ i, push_audit_log "Event subprocess scope closed"
        (i <| pi_event_scope := false |> <| pi_event_subscriptions := [] |> <| pi_event_handler_tokens := ∅ |>)) ;;
      forM subs (λ s,
        drop_timer (sub_id s) ;; drop_message_catch (sub_id s) ;; drop_signal_catch (sub_id s))
    end
  end.

(** ** What is left *)

(** A map keeps exactly the entries of other instances. *)
Definition others {V} (inst : V → Uuid) (id : Uuid) (m m' : gmap Uuid V) : Prop :=
  ∀ k v, m' !! k = Some v ↔ m !! k = Some v ∧ inst v ≠ id.
Record pending_cleared (id : Uuid) (e e' : Engine) : Prop := {
  cleared_users : others ut_instance_id id (e_user_tasks e) (e_user_tasks e');
  cleared_services : others st_instance_id id (primary (e_service_tasks e)) (primary (e_service_tasks e'));
  cleared_timers : others pt_instance_id id (primary (e_timers e)) (primary (e_timers e'));
  cleared_messages : others mc_instance_id id (e_message_catches e) (e_message_catches e');
  cleared_signals : others sc_instance_id id (e_signal_catches e) (e_signal_catches e');
  cleared_conditionals : others cc_instance_id id (e_conditional_catches e) (e_conditional_catches e');
}.

Lemma retain_not_others {V} (inst : V → Uuid) id (m : gmap Uuid V) :
  others inst id m (retain_not (λ v, bool_decide (inst v = id)) m).
Proof.
  intros k v. unfold retain_not. rewrite map_lookup_filter_Some. cbn. by rewrite bool_decide_eq_false.
Qed.
Lemma store_retain_others {I K V} `{IndexOps I K} `{Keyed V K} (inst : V → Uuid) id (s : Store I V) :
  others inst id (primary s) (primary (store_retain (λ v, negb (bool_decide (inst v = id))) s)).
Proof.
  intros k v. cbn. rewrite map_lookup_filter_Some. cbn. by rewrite negb_true_iff, bool_decide_eq_false.
Qed.
Lemma forget_pending_cleared id e : pending_cleared id e (forget_pending id e).
Proof.
  split.
  - exact (retain_not_others ut_instance_id id (e_user_tasks e)).
  - exact (store_retain_others st_instance_id id (e_service_tasks e)).
  - exact (store_retain_others pt_instance_id id (e_timers e)).
  - exact (retain_not_others mc_instance_id id (e_message_catches e)).
  - exact (retain_not_others sc_instance_id id (e_signal_catches e)).
  - exact (retain_not_others cc_instance_id id (e_conditional_catches e)).
Qed.
(** Only the pending maps matter. *)
Lemma pending_cleared_from id e e0 e' :
  pending_cleared id e0 e' → e_user_tasks e0 = e_user_tasks e → e_service_tasks e0 = e_service_tasks e →
  e_timers e0 = e_timers e → e_message_catches e0 = e_message_catches e → e_signal_catches e0 = e_signal_catches e →
  e_conditional_catches e0 = e_conditional_catches e → pending_cleared id e e'.
Proof. intros [] H1 H2 H3 H4 H5 H6. rewrite H1, H2, H3, H4, H5, H6 in *. by split. Qed.
Lemma pending_cleared_sent id e u l e' : pending_cleared id e e' → pending_cleared id e (sent u l e').
Proof. intros []. by split. Qed.

(** ** Dropping waits leaves the instances alone *)

Definition core (e : Engine) := (e_instances e, e_definitions e, e_now e).
Lemma drop_user_task_spares id : spares core (drop_user_task id).
Proof. apply spares_bind; [by apply spares_modify|apply spares_quiet; [done|apply quiet_emit]]. Qed.
Lemma drop_service_task_spares id : spares core (drop_service_task id).
Proof. apply spares_bind; [by apply spares_modify|apply spares_quiet; [done|apply quiet_emit]]. Qed.
Lemma drop_timer_spares id : spares core (drop_timer id).
Proof. apply spares_bind; [by apply spares_modify|apply spares_quiet; [done|apply quiet_emit]]. Qed.
Lemma drop_message_catch_spares id : spares core (drop_message_catch id).
Proof. apply spares_bind; [by apply spares_modify|apply spares_quiet; [done|apply quiet_emit]]. Qed.
Lemma drop_signal_catch_spares id : spares core (drop_signal_catch id).
Proof. apply spares_bind; [by apply spares_modify|apply spares_quiet; [done|apply quiet_emit]]. Qed.
Lemma drop_conditional_catch_spares id : spares core (drop_conditional_catch id).
Proof. apply spares_bind; [by apply spares_modify|apply spares_quiet; [done|apply quiet_emit]]. Qed.
Lemma drop_waits_spares a b c d f g : spares core (drop_waits a b c d f g).
Proof.
  unfold drop_waits. do 6 (apply spares_gets; intros ?).
  repeat (apply spares_bind; [apply spares_forM; intros ?|]); [..|apply spares_forM; intros ?].
  - apply drop_user_task_spares.
  - apply drop_service_task_spares.
  - apply drop_timer_spares.
  - apply drop_message_catch_spares.
  - apply drop_signal_catch_spares.
  - apply drop_conditional_catch_spares.
Qed.

(** Nothing is pending for the instance. *)
Record idle (id : Uuid) (e : Engine) : Prop := {
  idle_users : ∀ k v, e_user_tasks e !! k = Some v → ut_instance_id v ≠ id;
  idle_services : ∀ k v, primary (e_service_tasks e) !! k = Some v → st_instance_id v ≠ id;
  idle_timers : ∀ k v, primary (e_timers e) !! k = Some v → pt_instance_id v ≠ id;
  idle_messages : ∀ k v, e_message_catches e !! k = Some v → mc_instance_id v ≠ id;
  idle_signals : ∀ k v, e_signal_catches e !! k = Some v → sc_instance_id v ≠ id;
  idle_conditionals : ∀ k v, e_conditional_catches e !! k = Some v → cc_instance_id v ≠ id;
}.
Lemma pending_cleared_idle id e e' : pending_cleared id e e' → idle id e'.
Proof.
  by intros []; split; intros k v Hv;
  repeat match goal with H : others _ _ _ ?m, Hm : ?m !! _ = Some _ |- _ => destruct (proj1 (H _ _) Hm); clear H end.
Qed.
(** The pending maps of the engine. *)
Definition pending_maps (e : Engine) :=
  (e_user_tasks e, e_service_tasks e, e_timers e, e_message_catches e, e_signal_catches e, e_conditional_catches e).
Lemma idle_maps id e e' : pending_maps e' = pending_maps e → idle id e → idle id e'.
Proof. intros [= H1 H2 H3 H4 H5 H6] []. split; rewrite ?H1, ?H2, ?H3, ?H4, ?H5, ?H6; done. Qed.

Definition close_scope (i : ProcessInstance) : ProcessInstance :=
  push_audit_log "Event subprocess scope closed"
    (i <| pi_event_scope := false |> <| pi_event_subscriptions := [] |> <| pi_event_handler_tokens := ∅ |>).
Lemma close_event_scope_run id e i :
  e_instances e !! id = Some i →
  ∃ e', close_event_scope id e = (Ok tt, e') ∧ e_definitions e' = e_definitions e ∧ e_now e' = e_now e ∧
    e_instances e' = match pi_event_subscriptions i with [] => e_instances e | _ => <[id := close_scope i]> (e_instances e) end.
Proof.
  intros Hi. unfold close_event_scope. rewrite bind_run. cbn [gets]. rewrite Hi.
  destruct (pi_event_subscriptions i) as [|s subs]; [by exists e|]. rewrite bind_run. unfold try_update_instance. cbn [modify].
  match goal with |- context [forM ?l ?f ?e0] => destruct (spares_forM core l f) with e0 as (e' & Hrun & He') end.
  { intros x. apply spares_bind; [apply drop_timer_spares|]. apply spares_bind; [apply drop_message_catch_spares|].
    apply drop_signal_catch_spares. }
  injection He' as Hi' Hd' Hn'. exists e'. split; [exact Hrun|]. split; [done|]. split; [done|].
  rewrite Hi'. by apply alter_insert_lookup.
Qed.
Lemma persist_instance_some id e i :
  e_instances e !! id = Some i →
  ∃ e', persist_instance id e = (Ok tt, e') ∧ pending_maps e' = pending_maps e ∧
    e_instances e' = <[id := i <| pi_audit_log ::= trim_for_persist |>]> (e_instances e) ∧ e_now e' = e_now e.
Proof.
  intros Hi. rewrite persist_instance_run, Hi. eexists. split; [reflexivity|]. split; [done|]. split; [|done].
  by apply alter_insert_lookup.
Qed.
Lemma try_update_instance_run id f e i :
  e_instances e !! id = Some i →
  try_update_instance id f e = (Ok tt, e <| e_instances := <[id := f i]> (e_instances e) |>).
Proof. intros Hi. unfold try_update_instance, modify. cbn. by rewrite (alter_insert_lookup _ _ _ _ Hi). Qed.
