(* ===== verification/Hoare.v ===== *)
(** * An invariant of the whole engine, and rules to keep it

    [engine_ok] says what every map of the engine promises to its readers: keys
    are the ids of their entries, the indexes of service tasks and timers find
    every entry, the incidents of an instance stay within their bounds, and no
    pending work is left behind by an instance that is gone.  [holds ids m Q]
    reads: run in such an engine with the instances [ids], [m] leaves such an
    engine, still with these instances, and a value it returns satisfies [Q].
    The rules follow the operations of the monad; [hoare] applies them. *)

From stdpp Require Import base list gmap strings pretty.
From S2P Require Import Prelude Text Json Domain Token ProcessDef Runtime History Registry Index TopicIndex TimerIndex Engine Boundary Waits.
Local Open Scope rust_scope.

(** ** The invariant *)

(** Every entry is stored under its own id. *)
Definition keyed {V} (id : V → Uuid) (m : gmap Uuid V) : Prop := ∀ k v, m !! k = Some v → id v = k.

Record inst_ok (id : Uuid) (i : ProcessInstance) : Prop := {
  io_id : pi_id i = id;
  io_incidents : incidents_ok (pi_incidents i);
  io_tokens : keyed tok_id (pi_tokens i);
}.

Definition live (e : Engine) (id : Uuid) : Prop := is_Some (e_instances e !! id).
(** Every entry belongs to an instance of the engine. *)
Definition owned {V} (inst : V → Uuid) (alive : gmap Uuid ProcessInstance) (m : gmap Uuid V) : Prop :=
  ∀ k v, m !! k = Some v → is_Some (alive !! inst v).

Record engine_ok (e : Engine) : Prop := {
  ok_instances : ∀ id i, e_instances e !! id = Some i → inst_ok id i;
  ok_users : keyed ut_task_id (e_user_tasks e) ∧ owned ut_instance_id (e_instances e) (e_user_tasks e);
  ok_services : covers (e_service_tasks e) ∧ owned st_instance_id (e_instances e) (primary (e_service_tasks e));
  ok_timers : covers (e_timers e) ∧ owned pt_instance_id (e_instances e) (primary (e_timers e));
  ok_messages : keyed mc_id (e_message_catches e) ∧ owned mc_instance_id (e_instances e) (e_message_catches e);
  ok_signals : keyed sc_id (e_signal_catches e) ∧ owned sc_instance_id (e_instances e) (e_signal_catches e);
  ok_conditionals : keyed cc_id (e_conditional_catches e) ∧ owned cc_instance_id (e_instances e) (e_conditional_catches e);
}.

Lemma engine_new_ok : engine_ok engine_new.
Proof.
  assert (∀ V (id : V → Uuid), keyed id ∅) as Hk by (intros V id k v; by rewrite lookup_empty).
  assert (∀ V (id : V → Uuid), owned id ∅ ∅) as Ho by (intros V id k v; by rewrite lookup_empty).
  split; try (split; [by apply Hk|apply Ho]).
  all: try (intros id i; cbn; by rewrite lookup_empty).
  all: split; [apply consistent_covers, store_empty_consistent|apply Ho].
Qed.

(** ** Maps by id *)

Create HintDb inst.

Lemma keyed_empty {V} (id : V → Uuid) : keyed id ∅.
Proof. intros k v. by rewrite lookup_empty. Qed.
Lemma keyed_insert {V} (id : V → Uuid) k v m : id v = k → keyed id m → keyed id (<[k := v]> m).
Proof. intros Hv Hm k' v' [[<- <-]|[_ ?]]%lookup_insert_Some; auto. Qed.
Lemma keyed_delete {V} (id : V → Uuid) k m : keyed id m → keyed id (delete k m).
Proof. intros Hm k' v' [_ ?]%lookup_delete_Some. auto. Qed.
Lemma keyed_fmap {V} (id : V → Uuid) f m : (∀ v, id (f v) = id v) → keyed id m → keyed id (f <$> m).
Proof. intros Hf Hm k v. rewrite lookup_fmap. intros (x & Hx & ->)%fmap_Some. rewrite Hf. auto. Qed.
Lemma keyed_alter {V} (id : V → Uuid) f k m : (∀ v, id (f v) = id v) → keyed id m → keyed id (alter f k m).
Proof.
  intros Hf Hm k' v. destruct (decide (k = k')) as [->|]; [|rewrite lookup_alter_ne by done; auto].
  rewrite lookup_alter_eq. intros (x & Hx & ->)%fmap_Some. rewrite Hf. auto.
Qed.
Lemma keyed_retain {V} (id : V → Uuid) f m : keyed id m → keyed id (retain_not f m).
Proof. intros Hm k v [? _]%retain_not_lookup. auto. Qed.
Lemma keyed_singleton {V} (id : V → Uuid) k v : id v = k → keyed id {[k := v]}.
Proof. intros Hv. apply keyed_insert, keyed_empty. done. Qed.
#[export] Hint Resolve keyed_empty keyed_insert keyed_delete keyed_fmap keyed_alter keyed_retain keyed_singleton : inst.

(** A map with fewer entries, or with entries of the same instances. *)
Lemma owned_sub {V} (inst : V → Uuid) e m m' :
  (∀ k v, m' !! k = Some v → ∃ k' v', m !! k' = Some v' ∧ inst v' = inst v) → owned inst e m → owned inst e m'.
Proof. intros Hsub Hm k v Hv. destruct (Hsub k v Hv) as (k' & v' & Hv' & <-). by eapply Hm. Qed.
Lemma owned_delete {V} (inst : V → Uuid) e k m : owned inst e m → owned inst e (delete k m).
Proof. apply owned_sub. intros k' v [_ ?]%lookup_delete_Some. eauto. Qed.
Lemma owned_insert {V} (inst : V → Uuid) e k v m : is_Some (e !! inst v) → owned inst e m → owned inst e (<[k := v]> m).
Proof. intros Hv Hm k' v' [[<- <-]|[_ ?]]%lookup_insert_Some; [done|by eapply Hm]. Qed.
Lemma owned_fmap {V} (inst : V → Uuid) e f m : (∀ v, inst (f v) = inst v) → owned inst e m → owned inst e (f <$> m).
Proof. intros Hf. apply owned_sub. intros k v. rewrite lookup_fmap. intros (x & Hx & ->)%fmap_Some. eauto. Qed.
Lemma owned_alter {V} (inst : V → Uuid) e f k m : (∀ v, inst (f v) = inst v) → owned inst e m → owned inst e (alter f k m).
Proof.
  intros Hf. apply owned_sub. intros k' v. destruct (decide (k = k')) as [->|]; [|rewrite lookup_alter_ne by done; eauto].
  rewrite lookup_alter_eq. intros (x & Hx & ->)%fmap_Some. eauto.
Qed.
Lemma owned_retain {V} (inst : V → Uuid) e f m : owned inst e m → owned inst e (retain_not f m).
Proof. apply owned_sub. intros k v [? _]%retain_not_lookup. eauto. Qed.
Lemma owned_store_insert {I K V} `{IndexOps I K} `{Keyed V K} (inst : V → Uuid) e v (s : Store I V) :
  is_Some (e !! inst v) → owned inst e (primary s) → owned inst e (primary (store_insert v s)).
Proof. apply owned_insert. Qed.
Lemma owned_store_remove {I K V} `{IndexOps I K} `{Keyed V K} (inst : V → Uuid) e u f (s : Store I V) :
  owned inst e (primary s) → owned inst e (primary (store_remove_if u f s).2).
Proof.
  unfold store_remove_if. destruct (primary s !! u); [|done]. destruct (f v); [|done]. apply owned_delete.
Qed.
Lemma owned_filter {V} (inst : V → Uuid) e (P : Uuid * V → Prop) `{!∀ x, Decision (P x)} m :
  owned inst e m → owned inst e (filter P m).
Proof. apply owned_sub. intros k v [? _]%map_lookup_filter_Some. eauto. Qed.
#[export] Hint Resolve owned_delete owned_insert owned_fmap owned_alter owned_retain owned_store_insert : inst.
#[export] Hint Extern 1 (owned _ _ (primary _)) => apply owned_store_remove : inst.
#[export] Hint Extern 1 (owned _ _ (filter _ _)) => apply owned_filter : inst.

(** ** Instances *)

Lemma incidents_ok_push now fresh kind node task message details i :
  incidents_ok (pi_incidents i) →
  incidents_ok (pi_incidents (push_or_touch_incident now fresh kind node task message details i).2).
Proof.
  intros [Hlen Huniq]. unfold push_or_touch_incident.
  destruct (List.find (same_open kind node task) (pi_incidents i)) as [x|] eqn:Hf; cbn.
  - apply (update_first_find _ (touch now message details)) in Hf as (_ & _ & Hl).
    split; [by rewrite Hl|]. intros k n t. by rewrite update_first_count.
  - set (x := Build_Incident _ _ _ _ _ _ _ _ _ _ _).
    destruct (trim_loop_trimmed _ (pi_incidents i ++ [x]) (Nat.le_refl _)) as (dropped & [_ Hs Hl _ _]).
    split; [unfold trim_incidents; rewrite Hl; lia|]. intros k n t.
    etrans; [apply (count_sublist _ _ _ Hs)|]. rewrite count_app, count_cons.
    change (count (same_open k n t) []) with 0. specialize (Huniq k n t).
    destruct (same_open k n t x) eqn:Hk; [|lia].
    assert (k = kind ∧ n = node ∧ t = task) as (-> & -> & ->).
    { unfold same_open, x in Hk. cbn in Hk. rewrite !andb_true_iff, !bool_decide_eq_true in Hk. naive_solver. }
    enough (count (same_open kind node task) (pi_incidents i) = 0) by lia.
    apply count_none. intros y Hy. by eapply find_none; [|apply list_elem_of_In].
Qed.
#[export] Hint Resolve incidents_ok_push : inst.

(** Only the id, the incidents and the tokens of an instance matter. *)
Lemma inst_ok_eq id i i' :
  pi_id i' = pi_id i → pi_incidents i' = pi_incidents i → keyed tok_id (pi_tokens i') → inst_ok id i → inst_ok id i'.
Proof. intros Hid Hinc Htok [? ? ?]. split; [congruence|by rewrite Hinc|done]. Qed.
Lemma push_or_touch_frame now fresh kind node task message details i :
  let i' := (push_or_touch_incident now fresh kind node task message details i).2 in
  pi_id i' = pi_id i ∧ pi_tokens i' = pi_tokens i.
Proof. unfold push_or_touch_incident. by destruct (List.find _ _). Qed.
Lemma inst_ok_incident id now fresh kind node task message details i :
  inst_ok id i → inst_ok id (push_or_touch_incident now fresh kind node task message details i).2.
Proof.
  intros [Hid Hinc Htok]. destruct (push_or_touch_frame now fresh kind node task message details i) as [H1 H2].
  split; [congruence|by apply incidents_ok_push|by rewrite H2].
Qed.

(** A field that does not matter, and the tokens. *)
Definition irrelevant {T} (proj : ProcessInstance → T) `{!Setter proj} : Prop := ∀ g i,
  pi_id (set_field proj g i) = pi_id i ∧ pi_incidents (set_field proj g i) = pi_incidents i ∧
  pi_tokens (set_field proj g i) = pi_tokens i.
Lemma inst_ok_set {T} (proj : ProcessInstance → T) `{!Setter proj} g id i :
  irrelevant proj → inst_ok id i → inst_ok id (set_field proj g i).
Proof.
  intros Hirr Hi. destruct (Hirr g i) as (H1 & H2 & H3). eapply inst_ok_eq; [done|done| |done]. rewrite H3. apply Hi.
Qed.
Lemma inst_ok_tokens g id i :
  inst_ok id i → (keyed tok_id (pi_tokens i) → keyed tok_id (g (pi_tokens i))) → inst_ok id (i <| pi_tokens ::= g |>).
Proof. intros [? ? ?] Hg. split; cbn; auto. Qed.

(** Goals [inst_ok id i']: follow the updates that built [i'].  Functions on
    instances are unfolded from the hint database. *)
#[export] Hint Unfold push_audit_log log_raw : inst.
Ltac inst_solve :=
  intros; cbv zeta;
  repeat lazymatch goal with
  | H : inst_ok ?id ?i |- inst_ok ?id ?i => exact H
  | |- inst_ok _ (push_or_touch_incident _ _ _ _ _ _ _ _).2 => apply inst_ok_incident
  | |- inst_ok _ (set_field pi_tokens _ _) => apply inst_ok_tokens; [|intros; cbn; eauto 6 with inst]
  | |- inst_ok _ (set_field _ _ _) => apply inst_ok_set; [by intros ??|]
  | |- inst_ok _ (match ?x with _ => _ end) => destruct x eqn:?
  | |- inst_ok _ (match ?x with _ => _ end).2 => destruct x eqn:?
  | |- inst_ok ?id (_, ?i).2 => change (inst_ok id i)
  | |- inst_ok _ _ => progress (autounfold with inst; cbv zeta)
  end;
  try solve [auto with inst];
  try match goal with
  | H : inst_ok ?id _ |- inst_ok ?id _ => destruct H; split; cbn; solve [eauto 6 with inst]
  end.

(** ** The triples *)

Definition Inv (ids : list Uuid) (e : Engine) : Prop := engine_ok e ∧ Forall (live e) ids.

Definition holds {A} (ids : list Uuid) (m : M A) (Q : A → Prop) : Prop :=
  ∀ e, Inv ids e → Inv ids (m e).2 ∧ ∀ a, (m e).1 = Ok a → Q a.
Abbreviation sound ids m := (holds ids m (λ _, True)).

Lemma Inv_cons id ids e : Inv (id :: ids) e ↔ live e id ∧ Inv ids e.
Proof. unfold Inv. rewrite Forall_cons. tauto. Qed.

(** A step that keeps the engine sound and its instances. *)
Lemma Inv_step ids e e' :
  Inv ids e → (∀ id, live e id → live e' id) → engine_ok e' → Inv ids e'.
Proof. intros [_ Hids] Hl Hok. split; [done|]. eapply Forall_impl; eauto. Qed.

Section rules.
  Context (ids : list Uuid).

Lemma holds_weaken {A} (m : M A) (Q R : A → Prop) : holds ids m Q → (∀ a, Q a → R a) → holds ids m R.
Proof. intros Hm HQ e He. destruct (Hm e He). eauto. Qed.
Lemma holds_ret {A} (a : A) (Q : A → Prop) : Q a → holds ids (mret a) Q.
Proof. intros HQ e He. split; [done|]. by intros ? [= <-]. Qed.
Lemma holds_fault {A} x (Q : A → Prop) : holds ids (fault x) Q.
Proof. intros e He. by split. Qed.
Lemma holds_lift {A} (r : EngineResult A) (Q : A → Prop) : (∀ a, r = Ok a → Q a) → holds ids (lift r) Q.
Proof. intros HQ e He. split; [done|]. destruct r; [|done]. intros ? [= <-]. auto. Qed.
Lemma holds_lift_call {A} (r : call A) (Q : A → Prop) : (∀ a, r = Returns a → Q a) → holds ids (lift_call r) Q.
Proof. intros HQ. destruct r; [apply holds_ret; auto|apply holds_fault]. Qed.
Lemma holds_gets {A} (f : Engine → A) (Q : A → Prop) : (∀ e, Inv ids e → Q (f e)) → holds ids (gets f) Q.
Proof. intros HQ e He. split; [done|]. intros ? [= <-]. auto. Qed.
Lemma holds_bind {A B} (m : M A) (k : A → M B) (Q : A → Prop) (R : B → Prop) :
  holds ids m Q → (∀ a, Q a → holds ids (k a) R) → holds ids (m ≫= k) R.
Proof.
  intros Hm Hk e He. rewrite bind_run. destruct (Hm e He) as [He' HQ]. destruct (m e) as [[a|x] e']; cbn in *; [|done].
  by apply (Hk a (HQ a eq_refl)).
Qed.
Lemma holds_fault_bind {A B} x (k : A → M B) (R : B → Prop) : holds ids (fault x ≫= k) R.
Proof. intros e He. by split. Qed.
Lemma holds_try {A} (m : M A) (Q : A → Prop) : holds ids m Q → holds ids (try m) (λ r, ∀ a, r = Ok a → Q a).
Proof.
  intros Hm e He. unfold try. destruct (Hm e He) as [He' HQ]. destruct (m e) as [[a|[]] e']; cbn in *;
    (split; [done|]); try done; intros ? [= <-]; intros ? [= <-]; auto.
Qed.
Lemma holds_modify f : (∀ e, engine_ok e → engine_ok (f e) ∧ e_instances (f e) = e_instances e) → sound ids (modify f).
Proof.
  intros Hf e He. split; [|done]. destruct (Hf e (proj1 He)) as [Hok Hi]. eapply Inv_step; [done| |done].
  cbn. intros id. unfold live. by rewrite Hi.
Qed.
Lemma holds_when b m : (b = true → sound ids m) → sound ids (when b m).
Proof. destruct b; [auto|]. intros _. by apply holds_ret. Qed.
Lemma holds_forM {A} (l : list A) f : (∀ x, x ∈ l → sound ids (f x)) → sound ids (forM l f).
Proof.
  induction l as [|x l IH]; intros Hf; [by apply holds_ret|]. cbn [forM].
  eapply holds_bind; [apply Hf; set_solver|]. intros _ _. apply IH. set_solver.
Qed.
Lemma holds_mapM {A B} (l : list A) (f : A → M B) (Q : B → Prop) :
  (∀ x, x ∈ l → holds ids (f x) Q) → holds ids (mapM l f) (Forall Q).
Proof.
  induction l as [|x l IH]; intros Hf; [by apply holds_ret|]. cbn [mapM].
  eapply holds_bind; [apply Hf; set_solver|]. intros y Hy. eapply holds_bind; [apply IH; set_solver|].
  intros ys Hys. by apply holds_ret, Forall_cons.
Qed.

(** Requests to the outside. *)
Lemma engine_ok_sent u l e : engine_ok e → engine_ok (sent u l e).
Proof. by intros []. Qed.
Lemma holds_quiet m : quiet m → sound ids m.
Proof.
  intros Hm e He. destruct (Hm e) as (u & l & -> & _). split; [|done].
  eapply Inv_step; [done|done|]. apply engine_ok_sent, He.
Qed.
Lemma holds_new_uuid : sound ids new_uuid.
Proof. intros e He. split; [|done]. eapply Inv_step; [done|done|]. by destruct He as [[] _]. Qed.
End rules.

(** ** Instances *)

Lemma owned_mono {V} (inst : V → Uuid) (e e' : gmap Uuid ProcessInstance) m : (∀ id, is_Some (e !! id) → is_Some (e' !! id)) → owned inst e m → owned inst e' m.
Proof. intros Hl Hm k v Hv. by eapply Hl, Hm. Qed.

(** The instances change, and none is lost. *)
Lemma engine_ok_instances f e :
  engine_ok e → (∀ id i, f (e_instances e) !! id = Some i → inst_ok id i) →
  (∀ id, is_Some (e_instances e !! id) → is_Some (f (e_instances e) !! id)) → engine_ok (e <| e_instances ::= f |>).
Proof.
  intros [] Hf Hl. split; cbn; [done|..].
  all: destruct_and!; split; [done|]; by eapply owned_mono.
Qed.

Section instance_rules.
  Context (ids : list Uuid).

Lemma holds_put id i : inst_ok id i → sound ids (put_instance id i).
Proof.
  intros Hi e He. split; [|done]. assert (∀ id', live e id' → live (put_instance id i e).2 id') as Hl.
  { intros id' [x Hx]. unfold live. cbn. rewrite lookup_insert. case_decide; eauto. }
  eapply Inv_step; [done|done|]. destruct He as [He _]. apply engine_ok_instances; [done| |exact Hl].
  intros id' i' [[<- <-]|[_ ?]]%lookup_insert_Some; [done|by apply (ok_instances _ He)].
Qed.
(** From then on the instance is there. *)
Lemma holds_put_bind {B} id i (k : unit → M B) Q :
  inst_ok id i → holds (id :: ids) (k tt) Q → holds ids (put_instance id i ≫= k) Q.
Proof.
  intros Hi Hk e He. rewrite bind_run. destruct (holds_put id i Hi e He) as [He' _].
  destruct (Hk (put_instance id i e).2) as [[? ?]%Inv_cons ?]; [|done].
  apply Inv_cons. split; [|done]. unfold live. cbn. rewrite lookup_insert_eq. eauto.
Qed.
Lemma holds_get_bind {B} id (k : ProcessInstance → M B) Q :
  (∀ i, inst_ok id i → holds (id :: ids) (k i) Q) → holds ids (get_instance id ≫= k) Q.
Proof.
  intros Hk e He. rewrite bind_run, get_instance_run. destruct (e_instances e !! id) as [i|] eqn:Hi; [|by split].
  destruct (Hk i (ok_instances _ (proj1 He) _ _ Hi) e) as [[? ?]%Inv_cons ?]; [|done].
  apply Inv_cons. split; [by eexists|done].
Qed.
Lemma holds_find_bind {B} id (k : option ProcessInstance → M B) Q :
  holds ids (k None) Q → (∀ i, inst_ok id i → holds (id :: ids) (k (Some i)) Q) →
  holds ids (gets (λ e, e_instances e !! id) ≫= k) Q.
Proof.
  intros Hn Hk e He. rewrite bind_run. cbn [gets]. destruct (e_instances e !! id) as [i|] eqn:Hi; [|by apply Hn].
  destruct (Hk i (ok_instances _ (proj1 He) _ _ Hi) e) as [[? ?]%Inv_cons ?]; [|done].
  apply Inv_cons. split; [by eexists|done].
Qed.
Lemma holds_get id : holds ids (get_instance id) (inst_ok id).
Proof.
  intros e He. rewrite get_instance_run. split; [done|]. cbn. destruct (e_instances e !! id) as [i|] eqn:Hi; [|done].
  intros ? [= <-]. by apply (ok_instances _ (proj1 He)).
Qed.
Lemma holds_get_definition key : sound ids (get_definition key).
Proof. intros e He. by rewrite get_definition_run. Qed.
Lemma holds_bind_bind {A B X} (m : M X) (f : X → M A) (k : A → M B) Q :
  holds ids (m ≫= λ x, f x ≫= k) Q → holds ids ((m ≫= f) ≫= k) Q.
Proof.
  intros H e He. specialize (H e He). unfold mbind, M_bind in H |- *. by destruct (m e) as [[] ?].
Qed.
End instance_rules.

Section instance_updates.
  Context (ids : list Uuid).

Lemma holds_update id f : (∀ i, inst_ok id i → inst_ok id (f i)) → sound ids (update_instance id f).
Proof. intros Hf. eapply holds_bind; [apply holds_get|]. intros i Hi. by apply holds_put, Hf. Qed.
Lemma holds_with_instance {A} id (f : ProcessInstance → EngineResult A * ProcessInstance) Q :
  (∀ i, inst_ok id i → inst_ok id (f i).2 ∧ ∀ a, (f i).1 = Ok a → Q a) → holds ids (with_instance id f) Q.
Proof.
  intros Hf. eapply holds_bind; [apply holds_get|]. intros i Hi. destruct (Hf i Hi) as [Hi' HQ].
  destruct (f i) as [r i']. eapply holds_bind; [by apply holds_put|]. intros _ _. by apply holds_lift.
Qed.
(** After such a block, too, the instance is there. *)
Lemma holds_update_bind {B} id f (k : unit → M B) Q :
  (∀ i, inst_ok id i → inst_ok id (f i)) → holds (id :: ids) (k tt) Q → holds ids (update_instance id f ≫= k) Q.
Proof.
  intros Hf Hk. apply holds_bind_bind, holds_get_bind. intros i Hi. eapply holds_bind; [by apply holds_put, Hf|].
  by intros [] _.
Qed.
Lemma holds_with_bind {A B} id (f : ProcessInstance → EngineResult A * ProcessInstance) (k : A → M B) (Q : A → Prop) R :
  (∀ i, inst_ok id i → inst_ok id (f i).2 ∧ ∀ a, (f i).1 = Ok a → Q a) →
  (∀ a, Q a → holds (id :: ids) (k a) R) → holds ids (with_instance id f ≫= k) R.
Proof.
  intros Hf Hk. apply holds_bind_bind, holds_get_bind. intros i Hi. destruct (Hf i Hi) as [Hi' HQ].
  destruct (f i) as [r i']. eapply holds_bind; [|exact Hk].
  eapply holds_bind; [by apply holds_put|]. intros _ _. by apply holds_lift.
Qed.
Lemma holds_try_update id f : (∀ i, inst_ok id i → inst_ok id (f i)) → sound ids (try_update_instance id f).
Proof.
  intros Hf e He. split; [|done].
  assert (∀ id', is_Some (e_instances e !! id') → is_Some (alter f id (e_instances e) !! id')) as Hl.
  { intros id' [x Hx]. rewrite lookup_alter. case_decide; [subst; rewrite Hx|]; by eexists. }
  eapply Inv_step; [done|done|]. destruct He as [He _]. apply engine_ok_instances; [done| |exact Hl].
  intros id' i'. rewrite lookup_alter. case_decide as Heq; [|apply (ok_instances _ He)].
  subst id'. intros (x & Hx & ->)%fmap_Some. by apply Hf, (ok_instances _ He).
Qed.
Lemma holds_persist_instance id : sound ids (persist_instance id).
Proof.
  eapply holds_bind; [by apply (holds_gets _ _ (λ _, True))|]. intros [i|] _; [|by apply holds_ret].
  eapply holds_bind; [|intros _ _; apply holds_quiet, quiet_emit].
  apply holds_try_update. intros j [? ? ?]. by split.
Qed.
End instance_updates.

(** ** Pending work *)

Lemma Inv_live ids e id : Inv ids e → id ∈ ids → live e id.
Proof. intros [_ Hids] Hid. by eapply Forall_forall in Hids. Qed.

Lemma holds_modify_in ids f :
  (∀ e, Inv ids e → engine_ok (f e) ∧ e_instances (f e) = e_instances e) → sound ids (modify f).
Proof.
  intros Hf e He. split; [|done]. destruct (Hf e He) as [Hok Hi]. eapply Inv_step; [done| |done].
  cbn. intros id. unfold live. by rewrite Hi.
Qed.

#[export] Hint Extern 1 (covers _) =>
  first [apply store_insert_covers | apply store_remove_if_covers | apply store_retain_covers
        | apply store_drop_covers | apply store_modify_covers | apply store_fmap_covers] : inst.

(** A step on the pending maps. *)
Ltac engine_solve :=
  split; [|done]; split; cbn; [done|..];
  unfold insert_pending_service_task, remove_pending_service_task, remove_pending_service_task_if,
    clear_pending_service_tasks_for_instance, insert_pending_timer, remove_pending_timer, retain_pending_timers, store_remove;
  repeat match goal with H : _ ∧ _ |- _ => destruct H end;
  (split; eauto with inst).
Ltac pending_solve :=
  intros; apply holds_modify_in; intros e He;
  repeat match goal with H : _ ∈ _ |- _ => apply (Inv_live _ _ _ He) in H; unfold live in H end;
  destruct He as [[] _]; engine_solve.

Section pending_rules.
  Context (ids : list Uuid).

Lemma holds_put_user_task task_id p :
  ut_task_id p = task_id → ut_instance_id p ∈ ids → sound ids (put_user_task task_id p).
Proof. pending_solve. Qed.
Lemma holds_insert_user_task p : ut_instance_id p ∈ ids → sound ids (insert_user_task p).
Proof. by apply holds_put_user_task. Qed.
Lemma holds_insert_service_task p : st_instance_id p ∈ ids → sound ids (insert_service_task p).
Proof. pending_solve. Qed.
Lemma holds_insert_timer p : pt_instance_id p ∈ ids → sound ids (insert_timer p).
Proof. pending_solve. Qed.
Lemma holds_insert_message_catch p : mc_instance_id p ∈ ids → sound ids (insert_message_catch p).
Proof. pending_solve. Qed.
Lemma holds_insert_signal_catch p : sc_instance_id p ∈ ids → sound ids (insert_signal_catch p).
Proof. pending_solve. Qed.
Lemma holds_insert_conditional_catch p : cc_instance_id p ∈ ids → sound ids (insert_conditional_catch p).
Proof. pending_solve. Qed.
Lemma holds_remove_user_task id : sound ids (remove_user_task id).
Proof. pending_solve. Qed.
Lemma holds_remove_service_task id : sound ids (remove_service_task id).
Proof. pending_solve. Qed.
Lemma holds_remove_timer id : sound ids (remove_timer id).
Proof. pending_solve. Qed.
Lemma holds_remove_message_catch id : sound ids (remove_message_catch id).
Proof. pending_solve. Qed.
Lemma holds_remove_signal_catch id : sound ids (remove_signal_catch id).
Proof. pending_solve. Qed.
Lemma holds_remove_conditional_catch id : sound ids (remove_conditional_catch id).
Proof. pending_solve. Qed.
Lemma holds_forget_pending id : sound ids (modify (forget_pending id)).
Proof. unfold forget_pending. pending_solve. Qed.
End pending_rules.

(** An entry that is found belongs to an instance that is there. *)
Lemma holds_lookup_bind {V B} ids (view : Engine → gmap Uuid V) (inst : V → Uuid) (P : V → Prop) x (k : option V → M B) Q :
  (∀ e v, engine_ok e → view e !! x = Some v → live e (inst v) ∧ P v) →
  holds ids (k None) Q → (∀ v, P v → holds (inst v :: ids) (k (Some v)) Q) → holds ids (gets (λ e, view e !! x) ≫= k) Q.
Proof.
  intros HP Hn Hk e He. rewrite bind_run. cbn [gets]. destruct (view e !! x) as [v|] eqn:Hv; [|by apply Hn].
  destruct (HP e v (proj1 He) Hv) as [Hl Hp]. destruct (Hk v Hp e) as [[? ?]%Inv_cons ?]; [|done]. by apply Inv_cons.
Qed.

Section find_rules.
  Context (ids : list Uuid) {B : Type} (x : Uuid) (Q : B → Prop).

Lemma holds_find_user k :
  holds ids (k None) Q → (∀ v, ut_task_id v = x → holds (ut_instance_id v :: ids) (k (Some v)) Q) →
  holds ids (gets (λ e, e_user_tasks e !! x) ≫= k) Q.
Proof. apply (holds_lookup_bind _ e_user_tasks). intros e v [? [Hk Ho] _ _ _ _ _] Hv. split; [by eapply Ho|by eapply Hk]. Qed.
Lemma holds_find_service k :
  holds ids (k None) Q → (∀ v, st_id v = x → holds (st_instance_id v :: ids) (k (Some v)) Q) →
  holds ids (gets (λ e, primary (e_service_tasks e) !! x) ≫= k) Q.
Proof.
  apply (holds_lookup_bind _ (λ e, primary (e_service_tasks e))). intros e v [? _ [Hk Ho] _ _ _ _] Hv.
  split; [by eapply Ho|by apply (cov_id _ Hk)].
Qed.
Lemma holds_find_timer k :
  holds ids (k None) Q → (∀ v, pt_id v = x → holds (pt_instance_id v :: ids) (k (Some v)) Q) →
  holds ids (gets (λ e, primary (e_timers e) !! x) ≫= k) Q.
Proof.
  apply (holds_lookup_bind _ (λ e, primary (e_timers e))). intros e v [? _ _ [Hk Ho] _ _ _] Hv.
  split; [by eapply Ho|by apply (cov_id _ Hk)].
Qed.
Lemma holds_find_message k :
  holds ids (k None) Q → (∀ v, mc_id v = x → holds (mc_instance_id v :: ids) (k (Some v)) Q) →
  holds ids (gets (λ e, e_message_catches e !! x) ≫= k) Q.
Proof. apply (holds_lookup_bind _ e_message_catches). intros e v [? _ _ _ [Hk Ho] _ _] Hv. split; [by eapply Ho|by eapply Hk]. Qed.
Lemma holds_find_signal k :
  holds ids (k None) Q → (∀ v, sc_id v = x → holds (sc_instance_id v :: ids) (k (Some v)) Q) →
  holds ids (gets (λ e, e_signal_catches e !! x) ≫= k) Q.
Proof. apply (holds_lookup_bind _ e_signal_catches). intros e v [? _ _ _ _ [Hk Ho] _] Hv. split; [by eapply Ho|by eapply Hk]. Qed.
Lemma holds_find_conditional k :
  holds ids (k None) Q → (∀ v, cc_id v = x → holds (cc_instance_id v :: ids) (k (Some v)) Q) →
  holds ids (gets (λ e, e_conditional_catches e !! x) ≫= k) Q.
Proof. apply (holds_lookup_bind _ e_conditional_catches). intros e v [? _ _ _ _ _ [Hk Ho]] Hv. split; [by eapply Ho|by eapply Hk]. Qed.
End find_rules.

(** ** Automation *)

Create HintDb hoare.
#[export] Hint Constants Opaque : hoare.
#[export] Hint Resolve holds_get_definition holds_persist_instance holds_new_uuid
  holds_put_user_task holds_insert_user_task holds_insert_service_task holds_insert_timer holds_insert_message_catch
  holds_insert_signal_catch holds_insert_conditional_catch holds_remove_user_task holds_remove_service_task
  holds_remove_timer holds_remove_message_catch holds_remove_signal_catch holds_remove_conditional_catch
  holds_forget_pending Forall_cons_2 : hoare.
#[export] Hint Extern 3 (holds _ (gets _) _) => by apply (holds_gets _ _ (λ _, True)) : hoare.
#[export] Hint Extern 3 (holds _ now _) => by apply (holds_gets _ _ (λ _, True)) : hoare.
#[export] Hint Extern 4 (holds _ ?m _) =>
  lazymatch m with mbind _ _ => fail | _ => solve [apply holds_quiet; eauto 3 with rust] end : hoare.
(** An instance that is known to be there. *)
Ltac known := repeat first [assumption | apply list_elem_of_here | apply list_elem_of_further].
#[export] Hint Extern 1 (_ ∈ _) => solve [known] : hoare.

(** One operation at the head of a program; an operation with a rule of its own is
    looked up in the hint database. *)
Ltac hoare_known :=
  lazymatch goal with
  | |- holds _ (mbind _ _) _ => fail
  | |- holds _ (match _ with _ => _ end) _ => fail
  | |- holds _ _ _ => solve [eauto 6 with hoare | eapply holds_weaken; [eauto 6 with hoare|done]]
  end.
Ltac hoare_step :=
  lazymatch goal with
  | |- holds _ (mret _) _ => apply holds_ret
  | |- holds _ (fault _) _ => apply holds_fault
  | |- holds _ (throw _) _ => apply holds_fault
  | |- holds _ (lift _) _ => apply holds_lift; intros
  | |- holds _ (lift_option _ _) _ => apply holds_lift; intros
  | |- holds _ (lift_call _) _ => apply holds_lift_call; intros
  | |- holds _ (when _ _) _ => apply holds_when; intros
  | |- holds _ (forM _ _) _ => apply holds_forM; intros
  | |- holds _ (update_instance _ _) _ => apply holds_update; intros
  | |- holds _ (try_update_instance _ _) _ => apply holds_try_update; intros
  | |- holds _ (put_instance _ _) _ => apply holds_put
  | |- holds _ (with_instance _ _) _ => eapply holds_with_instance; intros
  | |- holds _ (match ?x with _ => _ end) _ => destruct x eqn:?
  | |- holds _ (let _ := _ in _) _ => cbv zeta
  | |- holds _ (mbind _ (get_instance _)) _ => apply holds_get_bind; intros
  | |- holds _ (mbind _ (put_instance _ _)) _ => apply holds_put_bind
  | |- holds _ (mbind _ (update_instance _ _)) _ => apply holds_update_bind; [intros|]
  | |- holds _ (mbind _ (with_instance _ _)) _ => eapply (holds_with_bind _ _ _ _ (λ _, True)); [intros|intros ? _]
  | |- holds _ (mbind _ (gets (λ e, e_instances e !! _))) _ => apply holds_find_bind; [|intros]
  | |- holds _ (mbind _ (gets (λ e, e_user_tasks e !! _))) _ => apply holds_find_user; [|intros]
  | |- holds _ (mbind _ (gets (λ e, primary (e_service_tasks e) !! _))) _ => apply holds_find_service; [|intros]
  | |- holds _ (mbind _ (gets (λ e, primary (e_timers e) !! _))) _ => apply holds_find_timer; [|intros]
  | |- holds _ (mbind _ (gets (λ e, e_message_catches e !! _))) _ => apply holds_find_message; [|intros]
  | |- holds _ (mbind _ (gets (λ e, e_signal_catches e !! _))) _ => apply holds_find_signal; [|intros]
  | |- holds _ (mbind _ (gets (λ e, e_conditional_catches e !! _))) _ => apply holds_find_conditional; [|intros]
  | |- holds _ (mbind _ (throw _)) _ => apply holds_fault_bind
  | |- holds _ (mbind _ (fault _)) _ => apply holds_fault_bind
  | |- holds _ (mbind _ (mret ?a)) _ => eapply (holds_bind _ _ _ (λ x, x = a)); [by apply holds_ret|intros ? ->]
  | |- holds _ (mbind _ (lift ?r)) _ => eapply (holds_bind _ _ _ (λ a, r = Ok a)); [by apply holds_lift|intros]
  | |- holds _ (mbind _ (lift_option _ None)) _ =>
    eapply (holds_bind _ _ _ (λ _, False)); [by apply holds_lift|done]
  | |- holds _ (mbind _ (lift_option _ (Some ?v))) _ =>
    eapply (holds_bind _ _ _ (λ x, x = v)); [by apply holds_lift; intros ? [= <-]|intros ? ->]
  | |- holds _ (mbind _ (lift_option ?x ?o)) _ =>
    eapply (holds_bind _ _ _ (λ a, ok_or x o = Ok a)); [by apply holds_lift|intros]
  | |- holds _ (mbind _ (lift_call ?r)) _ => eapply (holds_bind _ _ _ (λ a, r = Returns a)); [by apply holds_lift_call|intros]
  | |- holds _ (mbind _ (mbind _ _)) _ => apply holds_bind_bind
  | |- holds _ (mbind _ (match ?x with _ => _ end)) _ => destruct x eqn:?
  | |- holds _ (mbind _ (try _)) _ =>
    eapply holds_bind; [first [eapply holds_try; hoare_known | apply (holds_try _ _ (λ _, True))]|intros]
  | |- holds _ (mbind _ _) _ =>
    first [eapply holds_bind; [solve [eauto 6 with hoare]|intros]
          | eapply (holds_bind _ _ _ (λ _, True)); [|intros ? _]]
  end.
Ltac hoare_side :=
  lazymatch goal with
  | |- holds _ (modify _) _ => try solve [pending_solve]
  | |- holds _ _ _ => idtac
  | |- inst_ok _ _ => try solve [inst_solve]
  | |- inst_ok _ _ ∧ _ => split; [try solve [inst_solve]|try done]
  | _ => try solve [done | eauto with hoare]
  end.
Ltac hoare := repeat first [hoare_known | hoare_step]; hoare_side.
