(* ===== verification/EventScope.v ===== *)
(** * Event sub-processes of a process scope

    engine-core/src/engine/event_subprocess.rs.  A running instance subscribes to
    the start events of its event sub-processes; an activation either interrupts
    the scope (its tokens, waits and called instances end) or runs beside it.  A
    restart restores the subscriptions and drops what no token waits for. *)

From stdpp Require Import base list gmap strings pretty.
From S2P Require Import Prelude Text Json Domain Token ProcessDef Runtime History Registry Index TopicIndex TimerIndex Engine Boundary Waits.
Local Open Scope rust_scope.

Inductive EventConsumption :=
| ConsumedTimer (t : PendingTimer)
| ConsumedMessage (c : PendingMessageCatch)
| ConsumedSignal (c : PendingSignalCatch)
| ConsumedCode.

Inductive ScopeActivation :=
| Interrupting (t : Token)
| Parallel (t : Token).
Definition activation_token (a : ScopeActivation) : Token := match a with Interrupting t | Parallel t => t end.

(** [Uuid::nil()]. *)
Definition nil_uuid : Uuid := 0.
Definition consumption_id (c : EventConsumption) : Uuid :=
  match c with
  | ConsumedTimer t => pt_id t
  | ConsumedMessage c => mc_id c
  | ConsumedSignal c => sc_id c
  | ConsumedCode => nil_uuid
  end.

Definition is_terminal (s : InstanceState) : bool :=
  match s with Completed | CompletedWithError _ => true | _ => false end.
Definition is_parallel (s : InstanceState) : bool := match s with ParallelExecution _ => true | _ => false end.

Definition plain_subscription (id : Uuid) (sub : string) : EventSubscription :=
  {| sub_id := id; subprocess_id := sub; next_due := None; remaining := None |}.

(** ** Opening the scope *)

(** What the loop over the event sub-processes collects. *)
Record Opened := mkOpened {
  op_subscriptions : list EventSubscription;
  op_timers : list PendingTimer;
  op_messages : list PendingMessageCatch;
  op_signals : list PendingSignalCatch;
}.
Definition opened_app (a b : Opened) : Opened :=
  mkOpened (op_subscriptions a ++ op_subscriptions b) (op_timers a ++ op_timers b)
    (op_messages a ++ op_messages b) (op_signals a ++ op_signals b).
Definition opened_none : Opened := mkOpened [] [] [] [].

Section event_scope.
  Context {C : CronLib}.

Definition subscribe (instance_id : Uuid) (at_ : DateTime) (id : Uuid) (h : EventSubProcess) : M Opened :=
  match esp_trigger h with
  | TriggerTimer timer =>
    expiry ← lift_call (next_expiry timer at_);
    mret match expiry with
         | None => opened_none
         | Some expires_at =>
           let rem := initial_remaining_repetitions timer in
           mkOpened [{| sub_id := id; subprocess_id := esp_id h; next_due := Some expires_at; remaining := rem |}]
             [mkTimer id instance_id (esp_start_node h) expires_at id (Some timer) rem] [] []
         end
  | TriggerMessage name =>
    mret (mkOpened [plain_subscription id (esp_id h)] []
      [{| mc_id := id; mc_instance_id := instance_id; mc_node_id := esp_start_node h;
          mc_message_name := name; mc_token_id := id |}] [])
  | TriggerSignal name =>
    mret (mkOpened [plain_subscription id (esp_id h)] [] []
      [{| sc_id := id; sc_instance_id := instance_id; sc_node_id := esp_start_node h;
          sc_signal_name := name; sc_token_id := id |}])
  | TriggerError _ | TriggerEscalation _ => mret (mkOpened [plain_subscription id (esp_id h)] [] [] [])
  end.

Fixpoint subscribe_all (instance_id : Uuid) (at_ : DateTime) (hs : list EventSubProcess) : M Opened :=
  match hs with
  | [] => mret opened_none
  | h :: hs =>
    id ← new_uuid;
    o ← subscribe instance_id at_ id h;
    rest ← subscribe_all instance_id at_ hs;
    mret (opened_app o rest)
  end.

Definition open_event_scope (id : Uuid) : M unit :=
  i ← get_instance id;
  if pi_event_scope i || negb (bool_decide (pi_event_subscriptions i = [])) then mret tt
  else
    d ← get_definition (pi_definition_key i);
    if bool_decide (event_subprocesses d = []) then mret tt
    else
      at_ ← now;
      o ← subscribe_all id at_ (event_subprocesses d);
      update_instance id (λ i, push_audit_log
        ("Event subprocess scope opened (" +:+ pretty (length (op_subscriptions o)) +:+ " subscription(s))")
        (i <| pi_event_scope := true |> <| pi_event_subscriptions := op_subscriptions o |>)) ;;
      forM (op_timers o) add_timer ;;
      forM (op_messages o) add_message_catch ;;
      forM (op_signals o) add_signal_catch ;;
      persist_instance id.

Definition event_handler_for_token (id token_id : Uuid) : M (option string) :=
  mi ← gets (λ e, e_instances e !! id);
  mret (mi ≫= λ i, pi_event_handler_tokens i !! token_id).
Definition has_subscription (id : Uuid) (i : ProcessInstance) : bool :=
  existsb (λ s, bool_decide (sub_id s = id)) (pi_event_subscriptions i).
Definition is_event_subscription (instance_id id : Uuid) : M bool :=
  mi ← gets (λ e, e_instances e !! instance_id);
  mret match mi with Some i => has_subscription id i | None => false end.

(** ** Interrupting called instances *)

(** The instance loses its tokens and everything that refers to them. *)
Definition clear_scope (i : ProcessInstance) : ProcessInstance :=
  i <| pi_tokens := ∅ |> <| pi_active_tokens := [] |> <| pi_join_barriers := ∅ |> <| pi_multi_instance_state := ∅ |>
    <| pi_outstanding_calls := ∅ |> <| pi_event_subscriptions := [] |> <| pi_event_handler_tokens := ∅ |>.

(** [abort_interrupted_instance] for an instance and, recursively, the ones it
    called.  Every visit makes an instance terminal and a terminal one is not
    entered again, so the number of instances is enough fuel. *)
Fixpoint abort_interrupted (fuel : nat) (id : Uuid) : M unit :=
  match fuel with
  | 0 => fault OutOfFuel
  | S fuel =>
    mi ← gets (λ e, e_instances e !! id);
    match mi with
    | None => mret tt
    | Some i =>
      if is_terminal (pi_state i) then mret tt
      else
        at_ ← now;
        try_update_instance id (λ i, push_audit_log "Scope interrupted by an interrupting event subprocess"
          (clear_scope i <| pi_state := CompletedWithError "SCOPE_INTERRUPTED" |> <| pi_completed_at := Some at_ |>)) ;;
        cancel_scope_waits id ;;
        persist_instance id ;;
        forM (map_to_list (pi_outstanding_calls i)).*1 (abort_interrupted fuel)
    end
  end.
Definition abort_interrupted_instance (id : Uuid) : M unit :=
  n ← gets (λ e, size (e_instances e));
  abort_interrupted (S n) id.

(** ** Activating a handler *)

Record TimerReschedule := mkReschedule {
  rs_expires_at : DateTime;
  rs_remaining : option N;
  rs_timer : TimerDefinition;
}.

(** A timer with one or no repetition left is not scheduled again. *)
Definition reschedule_timer (h : EventSubProcess) (s : EventSubscription) (at_ : DateTime) : call (option TimerReschedule) :=
  if esp_interrupting h then Returns None
  else
    match esp_trigger h with
    | TriggerTimer timer =>
      let exhausted := match remaining s with Some n => (n <=? 1)%N | None => false end in
      if is_recurring timer && negb exhausted then
        match next_expiry timer at_ with
        | Returns (Some expires_at) =>
          Returns (Some (mkReschedule expires_at ((λ n, n - 1)%N <$> remaining s) timer))
        | Returns None => Returns None
        | Panics => Panics
        end
      else Returns None
    | _ => Returns None
    end.

Definition reinsert_consumption (c : EventConsumption) : M unit :=
  match c with
  | ConsumedTimer t => insert_timer t
  | ConsumedMessage c => insert_message_catch c
  | ConsumedSignal c => insert_signal_catch c
  | ConsumedCode => mret tt
  end.
Definition retain_consumption (c : EventConsumption) (s : EventSubscription) (r : option TimerReschedule) : M unit :=
  match c, r with
  | ConsumedMessage c, _ => insert_message_catch c
  | ConsumedSignal c, _ => insert_signal_catch c
  | ConsumedTimer t, Some next =>
    insert_timer (mkTimer (pt_id t) (pt_instance_id t) (pt_node_id t) (rs_expires_at next) (sub_id s)
      (Some (rs_timer next)) (rs_remaining next))
  | _, _ => mret tt
  end.

(** The subscriptions after a handler beside the scope was started. *)
Definition keep_subscriptions (h : EventSubProcess) (s : EventSubscription) (r : option TimerReschedule)
    (subs : list EventSubscription) : list EventSubscription :=
  match r with
  | Some next =>
    update_first (λ x, bool_decide (sub_id x = sub_id s))
      (λ x, {| sub_id := sub_id x; subprocess_id := subprocess_id x;
               next_due := Some (rs_expires_at next); remaining := rs_remaining next |}) subs
  | None =>
    match esp_trigger h with
    | TriggerTimer _ => List.filter (λ x, negb (bool_decide (sub_id x = sub_id s))) subs
    | _ => subs
    end
  end.

(** The block of [activate_handler] under the instance's lock, once its checks
    have passed; [tid] is the id of the new token. *)
Definition enter_handler (h : EventSubProcess) (s : EventSubscription) (r : option TimerReschedule)
    (vars : Vars) (tid : Uuid) (i : ProcessInstance) : Token * ProcessInstance :=
  let i := if esp_interrupting h then clear_scope i
           else i <| pi_event_subscriptions ::= keep_subscriptions h s r |> in
  let merged := extend (pi_variables i) vars in
  let t := with_variables tid (esp_start_node h) merged in
  let i := i <| pi_variables := merged |>
             <| pi_event_handler_tokens ::= <[tid := esp_id h]> |>
             <| pi_tokens ::= <[tid := t]> |>
             <| pi_active_tokens ::= (λ l, l ++ [mkActive t (Some (esp_id h)) (length l) false]) |>
             <| pi_current_node := esp_start_node h |> in
  let state :=
    if esp_interrupting h then Running
    else if negb (is_parallel (pi_state i)) || (1 <? size (pi_tokens i)) then ParallelExecution (size (pi_tokens i))
    else pi_state i in
  (t, push_audit_log ("Event subprocess '" +:+ esp_id h +:+ "' activated (interrupting="
        +:+ (if esp_interrupting h then "true" else "false") +:+ ")") (i <| pi_state := state |>)).

Definition activate_handler (id : Uuid) (h : EventSubProcess) (s : EventSubscription) (vars : Vars)
    (c : EventConsumption) : M (option ScopeActivation) :=
  at_ ← now;
  r ← lift_call (reschedule_timer h s at_);
  i ← get_instance id;
  if is_suspended (pi_state i) || is_terminal (pi_state i) || negb (has_subscription (sub_id s) i) then mret None
  else
    tid ← new_uuid;
    let '(t, i') := enter_handler h s r vars tid i in
    put_instance id i' ;;
    if esp_interrupting h then
      cancel_scope_waits id ;;
      forM (map_to_list (pi_outstanding_calls i)).*1 abort_interrupted_instance ;;
      persist_instance id ;;
      mret (Some (Interrupting t))
    else
      retain_consumption c s r ;;
      persist_instance id ;;
      mret (Some (Parallel t)).

Definition activate_event_subscription (id : Uuid) (c : EventConsumption) (vars : Vars) : M (option ScopeActivation) :=
  i ← get_instance id;
  if is_suspended (pi_state i) then reinsert_consumption c ;; mret None
  else if is_terminal (pi_state i) then mret None
  else
    match List.find (λ s, bool_decide (sub_id s = consumption_id c)) (pi_event_subscriptions i) with
    | None => mret None
    | Some s =>
      d ← get_definition (pi_definition_key i);
      match event_subprocess_by_id d (subprocess_id s) with
      | None => throw (InvalidDefinition ("Event subscription refers to missing subprocess '" +:+ subprocess_id s +:+ "'"))
      | Some h => activate_handler id h s vars c
      end
    end.

(** ** Errors and escalations *)

(** The handler of a subscription that catches [code], and whether it catches
    every code. *)
Definition catches_code (d : ProcessDefinition) (code : string) (escalation : bool) (exclude : option string)
    (s : EventSubscription) : option (bool * EventSubscription * EventSubProcess) :=
  if bool_decide (exclude = Some (subprocess_id s)) then None
  else
    h ← event_subprocess_by_id d (subprocess_id s);
    expected ← match esp_trigger h, escalation with
               | TriggerError expected, false | TriggerEscalation expected, true => Some expected
               | _, _ => None
               end;
    match expected with
    | None => Some (true, s, h)
    | Some x => if bool_decide (x = code) then Some (false, s, h) else None
    end.

(** The order of the candidates: specific codes first, then by the handler's id. *)
Definition candidate_lt (a b : bool * EventSubscription * EventSubProcess) : bool :=
  match a.1.1, b.1.1 with
  | false, true => true
  | true, false => false
  | _, _ => String.ltb (esp_id a.2) (esp_id b.2)
  end.
(** The first entry after the stable sort. *)
Definition least_candidate (l : list (bool * EventSubscription * EventSubProcess))
    : option (bool * EventSubscription * EventSubProcess) :=
  fold_left (λ best x, match best with
                       | Some b => if candidate_lt x b then Some x else best
                       | None => Some x
                       end) l None.

Definition try_activate_event_code (id : Uuid) (code : string) (escalation : bool) (vars : Vars)
    (exclude : option string) : M (option ScopeActivation) :=
  i ← get_instance id;
  if is_suspended (pi_state i) || is_terminal (pi_state i) then mret None
  else
    d ← get_definition (pi_definition_key i);
    match least_candidate (omap (catches_code d code escalation exclude) (pi_event_subscriptions i)) with
    | None => mret None
    | Some (_, s, h) => activate_handler id h s vars ConsumedCode
    end.

(** ** After a restart *)

(** The subscription's wait is restored from it unless the map still has it. *)
Definition restore_subscription (id : Uuid) (h : EventSubProcess) (s : EventSubscription) : M unit :=
  match esp_trigger h with
  | TriggerTimer timer =>
    present ← gets (λ e, bool_decide (is_Some (primary (e_timers e) !! sub_id s)));
    match present, next_due s with
    | false, Some expires_at =>
      add_timer (mkTimer (sub_id s) id (esp_start_node h) expires_at (sub_id s) (Some timer) (remaining s))
    | _, _ => mret tt
    end
  | TriggerMessage name =>
    present ← gets (λ e, bool_decide (is_Some (e_message_catches e !! sub_id s)));
    when (negb present) (add_message_catch {| mc_id := sub_id s; mc_instance_id := id; mc_node_id := esp_start_node h;
      mc_message_name := name; mc_token_id := sub_id s |})
  | TriggerSignal name =>
    present ← gets (λ e, bool_decide (is_Some (e_signal_catches e !! sub_id s)));
    when (negb present) (add_signal_catch {| sc_id := sub_id s; sc_instance_id := id; sc_node_id := esp_start_node h;
      sc_signal_name := name; sc_token_id := sub_id s |})
  | TriggerError _ | TriggerEscalation _ => mret tt
  end.

Definition restore_missing_subscriptions (id : Uuid) (snapshot : ProcessInstance) : M unit :=
  if bool_decide (pi_event_subscriptions snapshot = []) then mret tt
  else
    d ← get_definition (pi_definition_key snapshot);
    forM (pi_event_subscriptions snapshot) (λ s,
      match event_subprocess_by_id d (subprocess_id s) with
      | None => throw (InvalidDefinition ("Missing persisted event subprocess '" +:+ subprocess_id s +:+ "'"))
      | Some h => restore_subscription id h s
      end).

(** The tokens waiting in calls and joins. *)
Definition held_tokens (i : ProcessInstance) : gset Uuid :=
  list_to_set ((λ c, tok_id (oc_token c)) <$> (map_to_list (pi_outstanding_calls i)).*2)
  ∪ list_to_set (tok_id <$> concat (arrived_tokens <$> (map_to_list (pi_join_barriers i)).*2)).
Definition known_token_ids (i : ProcessInstance) : gset Uuid := dom (pi_tokens i) ∪ held_tokens i.

Definition drop_orphan_waits (id : Uuid) (snapshot : ProcessInstance) : M unit :=
  let orphan (inst tok : Uuid) := bool_decide (inst = id) && negb (bool_decide (tok ∈ known_token_ids snapshot)) in
  let subscribed (x : Uuid) := has_subscription x snapshot in
  drop_waits (λ t, orphan (ut_instance_id t) (ut_token_id t)) (λ t, orphan (st_instance_id t) (st_token_id t))
    (λ t, orphan (pt_instance_id t) (pt_token_id t) && negb (subscribed (pt_id t)))
    (λ c, orphan (mc_instance_id c) (mc_token_id c) && negb (subscribed (mc_id c)))
    (λ c, orphan (sc_instance_id c) (sc_token_id c) && negb (subscribed (sc_id c)))
    (λ c, orphan (cc_instance_id c) (cc_token_id c)).

(** The token ids of an instance's entries in a map. *)
Definition waiting {V} (inst tok : V → Uuid) (id : Uuid) (m : gmap Uuid V) : gset Uuid :=
  list_to_set (tok <$> List.filter (λ v, bool_decide (inst v = id)) (map_to_list m).*2).
Definition parked_token_ids (id : Uuid) (snapshot : ProcessInstance) (e : Engine) : gset Uuid :=
  waiting ut_instance_id ut_token_id id (e_user_tasks e)
  ∪ waiting st_instance_id st_token_id id (primary (e_service_tasks e))
  ∪ waiting pt_instance_id pt_token_id id (primary (e_timers e))
  ∪ waiting mc_instance_id mc_token_id id (e_message_catches e)
  ∪ waiting sc_instance_id sc_token_id id (e_signal_catches e)
  ∪ waiting cc_instance_id cc_token_id id (e_conditional_catches e)
  ∪ held_tokens snapshot.

Section reconcile.
  Context {N : Nested}.

(** A token that nothing waits for runs on. *)
Definition resume_unparked (id : Uuid) (t : Token) : M unit :=
  mi ← gets (λ e, e_instances e !! id);
  match mi with
  | None => mret tt
  | Some current =>
    parked ← gets (parked_token_ids id current);
    when (bool_decide (is_Some (pi_tokens current !! tok_id t)) && negb (bool_decide (tok_id t ∈ parked))
          && negb (is_terminal (pi_state current)))
      (run_instance_batch id t)
  end.

(** One round of [reconcile_event_subprocesses]. *)
Definition reconcile_instance (id : Uuid) : M unit :=
  mi ← gets (λ e, e_instances e !! id);
  match mi with
  | None => mret tt
  | Some snapshot =>
    let scoped := pi_event_scope snapshot || negb (bool_decide (pi_event_subscriptions snapshot = [])) in
    if is_terminal (pi_state snapshot) then
      when scoped (close_event_scope id ;; drop_orphan_waits id snapshot)
    else if is_suspended (pi_state snapshot) then mret tt
    else
      restore_missing_subscriptions id snapshot ;;
      when scoped
        (drop_orphan_waits id snapshot ;;
         parked ← gets (parked_token_ids id snapshot);
         forM (List.filter (λ t, negb (bool_decide (tok_id t ∈ parked))) (map_to_list (pi_tokens snapshot)).*2)
           (resume_unparked id))
  end.
Definition reconcile_event_subprocesses : M unit :=
  ids ← gets (λ e, (map_to_list (e_instances e)).*1);
  forM ids reconcile_instance.
End reconcile.
End event_scope.

(** ** Interruption reaches every called instance *)

Definition open_ids (e : Engine) : gset Uuid :=
  dom (filter (λ kv : Uuid * ProcessInstance, is_terminal (pi_state kv.2) = false) (e_instances e)).
Definition calls_of (e : Engine) (x : Uuid) : gset Uuid :=
  match e_instances e !! x with Some i => dom (pi_outstanding_calls i) | None => ∅ end.

Lemma elem_of_open_ids e x :
  x ∈ open_ids e ↔ ∃ i, e_instances e !! x = Some i ∧ is_terminal (pi_state i) = false.
Proof. unfold open_ids. rewrite elem_of_dom. unfold is_Some. by setoid_rewrite map_lookup_filter_Some. Qed.

(** From [e] to [e'] instances were closed, each with all the instances it called. *)
Record closing (e e' : Engine) : Prop := {
  closing_sub : open_ids e' ⊆ open_ids e;
  closing_calls : ∀ x, x ∈ open_ids e' → calls_of e' x = calls_of e x;
  closing_down : ∀ x c, x ∈ open_ids e → x ∉ open_ids e' → c ∈ calls_of e x → c ∉ open_ids e';
}.
#[export] Instance closing_trans : Transitive closing.
Proof.
  intros e e1 e2 [Hs1 Hc1 Hd1] [Hs2 Hc2 Hd2]. split; [set_solver|intros x Hx; rewrite Hc2 by done; set_solver|].
  intros x c Hx Hx2 Hc. destruct (decide (x ∈ open_ids e1)) as [Hx1|Hx1]; [|set_solver].
  apply (Hd2 x c Hx1 Hx2). by rewrite Hc1.
Qed.

(** The states and the calls of the instances are the same. *)
Definition same_shape (e e' : Engine) : Prop :=
  ∀ x, (λ i, (pi_state i, pi_outstanding_calls i)) <$> e_instances e' !! x
     = (λ i, (pi_state i, pi_outstanding_calls i)) <$> e_instances e !! x.
Lemma same_shape_open e e' : same_shape e e' → open_ids e' = open_ids e ∧ ∀ x, calls_of e' x = calls_of e x.
Proof.
  intros Hs. split.
  - apply set_eq. intros x. rewrite !elem_of_open_ids. specialize (Hs x).
    destruct (e_instances e' !! x) as [i'|], (e_instances e !! x) as [i|]; try done. injection Hs as Hst Hc.
    split; intros (j & [= <-] & Hj); eexists; (split; [done|congruence]).
  - intros x. unfold calls_of. specialize (Hs x). destruct (e_instances e' !! x), (e_instances e !! x); try done.
    injection Hs as _ ->. done.
Qed.

Lemma same_shape_closing e e' : same_shape e e' → closing e e'.
Proof. intros [Ho Hc]%same_shape_open. split; [by rewrite Ho|done|]. intros x c. rewrite Ho. done. Qed.

Lemma drop_and_persist_run id e :
  ∃ e', same_shape e e' ∧ ∀ k : M unit, (cancel_scope_waits id ;; persist_instance id ;; k) e = k e'.
Proof.
  assert (spares core (cancel_scope_waits id)) as Hw by (unfold cancel_scope_waits; apply drop_waits_spares).
  destruct (Hw e) as (e1 & Heq & [= Hi _ _]). eexists. split; [|intros k; rewrite bind_run, Heq, bind_run, persist_instance_run; reflexivity].
  intros x. destruct (e_instances e1 !! id); cbn; [|by rewrite Hi]. rewrite lookup_alter, <- Hi.
  case_decide; [|done]. subst. by destruct (e_instances e1 !! x).
Qed.

(** What a visit of the recursion leaves. *)
Definition aborts (m : M unit) (e : Engine) (id : Uuid) : Prop :=
  ∃ e', m e = (Ok tt, e') ∧ closing e e' ∧ id ∉ open_ids e'.

Lemma forM_aborts (f : Uuid → M unit) n l e :
  (∀ x e, size (open_ids e) ≤ n → aborts (f x) e x) → size (open_ids e) ≤ n →
  ∃ e', forM l f e = (Ok tt, e') ∧ closing e e' ∧ ∀ x, x ∈ l → x ∉ open_ids e'.
Proof.
  intros Hf. revert e. induction l as [|x l IH]; intros e Hn.
  - exists e. split; [done|]. split; [by split|]. by intros x ?%not_elem_of_nil.
  - destruct (Hf x e Hn) as (e1 & Hrun & Hc & Hx). cbn [forM]. rewrite bind_run, Hrun.
    destruct (IH e1) as (e2 & Hrun2 & Hc2 & Hl).
    { pose proof (subseteq_size _ _ (closing_sub _ _ Hc)). lia. }
    exists e2. split; [done|]. split; [by etrans|]. intros y [->|Hy]%elem_of_cons; [|by apply Hl].
    intros Hy. apply Hx. by apply (closing_sub _ _ Hc2).
Qed.

(** The instance that is closed itself. *)
Lemma close_one_open id f e e1 :
  (∀ i, is_terminal (pi_state (f i)) = true) → e_instances e1 = alter f id (e_instances e) →
  open_ids e1 = open_ids e ∖ {[id]} ∧ ∀ x, x ≠ id → calls_of e1 x = calls_of e x.
Proof.
  intros Hf Hi.
  assert (∀ x, x ≠ id → e_instances e1 !! x = e_instances e !! x) as Hne by (intros; by rewrite Hi, lookup_alter_ne).
  split; [|intros; unfold calls_of; by rewrite Hne]. apply set_eq. intros x.
  rewrite elem_of_difference, elem_of_singleton, !elem_of_open_ids.
  destruct (decide (x = id)) as [->|Hx]; [|rewrite Hne by done; naive_solver].
  rewrite Hi, lookup_alter_eq. split; [|tauto]. intros (j & (i & _ & ->)%fmap_Some & Hj). by rewrite Hf in Hj.
Qed.
Lemma close_one_closing id e e1 e2 :
  open_ids e1 = open_ids e ∖ {[id]} → (∀ x, x ≠ id → calls_of e1 x = calls_of e x) →
  closing e1 e2 → (∀ c, c ∈ calls_of e id → c ∉ open_ids e2) → closing e e2 ∧ id ∉ open_ids e2.
Proof.
  intros Ho Hcalls [Hs Hc Hd] Hchildren. split; [|set_solver].
  split; [set_solver|intros x Hx; rewrite Hc by done; apply Hcalls; set_solver|].
  intros x c Hx Hx2 Hcx. destruct (decide (x = id)) as [->|Hxid]; [by apply Hchildren|].
  apply (Hd x c); [set_solver|done|]. by rewrite Hcalls.
Qed.

Lemma abort_interrupted_aborts fuel id e : size (open_ids e) < fuel → aborts (abort_interrupted fuel id) e id.
Proof.
  revert id e. induction fuel as [|fuel IH]; intros id e Hfuel; [lia|]. cbn [abort_interrupted]. unfold aborts.
  rewrite bind_run. cbn [gets]. destruct (e_instances e !! id) as [i|] eqn:Hi.
  2: { exists e. split; [done|]. split; [by split|]. rewrite elem_of_open_ids. intros (j & Hj & ?). congruence. }
  destruct (is_terminal (pi_state i)) eqn:Ht.
  { exists e. split; [done|]. split; [by split|]. rewrite elem_of_open_ids. intros (j & Hj & ?). congruence. }
  rewrite bind_run. cbn [now gets]. rewrite bind_run. unfold try_update_instance. cbn [modify].
  match goal with |- context [alter ?g id] => destruct (close_one_open id g e (e <| e_instances ::= alter g id |>)) as [Ho Hc]; [done|done|] end.
  set (e1 := e <| e_instances ::= _ |>) in *. clearbody e1.
  destruct (drop_and_persist_run id e1) as (e2 & Hshape & Hrun). rewrite Hrun.
  destruct (same_shape_open _ _ Hshape) as [Ho2 _].
  assert (id ∈ open_ids e) as Hid by (apply elem_of_open_ids; eauto).
  assert (size (open_ids e2) < fuel) as Hsize.
  { rewrite Ho2, Ho, size_difference, size_singleton by set_solver.
    assert (size (open_ids e) ≠ 0) by (rewrite size_non_empty_iff; set_solver). lia. }
  destruct (forM_aborts (abort_interrupted fuel) (size (open_ids e2)) (map_to_list (pi_outstanding_calls i)).*1 e2)
    as (e3 & Hrun3 & Hclosing & Hall); [intros; apply IH; lia|done|].
  exists e3. split; [done|]. apply (close_one_closing _ e e1); [done|done| |].
  - etrans; [by apply same_shape_closing|done].
  - intros c. unfold calls_of. rewrite Hi, elem_of_dom. intros [call Hcall]. apply Hall.
    apply list_elem_of_fmap. exists (c, call). by rewrite elem_of_map_to_list.
Qed.

Lemma open_ids_size e : size (open_ids e) ≤ size (e_instances e).
Proof. rewrite <- (size_dom (D := gset Uuid)). apply subseteq_size, dom_filter_subseteq. Qed.

(** C26: Interrupting an instance always ends and never fails, whatever cycle the calls
    of the instances form: afterwards the instance and every instance it called,
    directly or through other open instances, has ended, and no closed instance
    was opened again. *)
Theorem abort_interrupted_instance_closes id e :
  ∃ e', abort_interrupted_instance id e = (Ok tt, e') ∧ open_ids e' ⊆ open_ids e ∧
    ∀ x, rtc (λ y c, y ∈ open_ids e ∧ c ∈ calls_of e y) id x → x ∉ open_ids e'.
Proof.
  unfold abort_interrupted_instance. rewrite bind_run. cbn [gets].
  destruct (abort_interrupted_aborts (S (size (e_instances e))) id e) as (e' & Hrun & [Hsub _ Hdown] & Hid).
  { pose proof (open_ids_size e). lia. }
  exists e'. split; [done|]. split; [done|]. intros x Hx. revert Hid. clear Hrun.
  induction Hx as [|y c x [Hy Hc] _ IH]; [done|]. intros Hclosed. apply IH. by eapply Hdown.
Qed.

(** ** The handler of an error or escalation *)

Lemma string_lt_trans a b c : String.compare a b = Lt → String.compare b c = Lt → String.compare a c = Lt.
Proof.
  revert b c. induction a as [|x a IH]; intros [|y b] [|z c]; cbn; try done. unfold Ascii.compare.
  destruct (N.compare_spec (Ascii.N_of_ascii x) (Ascii.N_of_ascii y)) as [Hxy|Hxy|Hxy]; try done;
  destruct (N.compare_spec (Ascii.N_of_ascii y) (Ascii.N_of_ascii z)) as [Hyz|Hyz|Hyz]; try done;
  destruct (N.compare_spec (Ascii.N_of_ascii x) (Ascii.N_of_ascii z)) as [Hxz|Hxz|Hxz]; try done; try lia.
  apply IH.
Qed.
Lemma candidate_lt_weak a b c : candidate_lt a b = true → candidate_lt c b = false → candidate_lt a c = true.
Proof.
  unfold candidate_lt, String.ltb. destruct a as [[[] sa] ha], b as [[[] sb] hb], c as [[[] sc] hc]; cbn; try done;
  destruct (String.compare (esp_id ha) (esp_id hb)) eqn:H1; try done;
  destruct (String.compare (esp_id hc) (esp_id hb)) eqn:H2; try done;
  first [apply String.compare_eq_iff in H2 as ->; by rewrite H1 | rewrite String.compare_antisym in H2];
  destruct (String.compare (esp_id hb) (esp_id hc)) eqn:H3; try done; by rewrite (string_lt_trans _ _ _ H1 H3).
Qed.
Lemma candidate_lt_trans a b c : candidate_lt a b = true → candidate_lt b c = true → candidate_lt a c = true.
Proof.
  unfold candidate_lt, String.ltb. destruct a as [[[] sa] ha], b as [[[] sb] hb], c as [[[] sc] hc]; cbn; try done;
  destruct (String.compare (esp_id ha) (esp_id hb)) eqn:H1, (String.compare (esp_id hb) (esp_id hc)) eqn:H2; try done;
  by rewrite (string_lt_trans _ _ _ H1 H2).
Qed.
Lemma candidate_lt_irrefl a : candidate_lt a a = false.
Proof.
  unfold candidate_lt, String.ltb. destruct a as [[[] s] h]; cbn; pose proof (String.compare_antisym (esp_id h) (esp_id h)) as H;
    by destruct (String.compare (esp_id h) (esp_id h)).
Qed.

Lemma least_candidate_from l best0 :
  match fold_left (λ best x, match best with Some b => if candidate_lt x b then Some x else best | None => Some x end) l best0 with
  | None => l = [] ∧ best0 = None
  | Some b => (b ∈ l ∨ best0 = Some b) ∧ (∀ x, x ∈ l → candidate_lt x b = false) ∧
      ∀ x, best0 = Some x → candidate_lt x b = false
  end.
Proof.
  revert best0. induction l as [|y l IH]; intros best0; cbn [fold_left].
  { destruct best0 as [b|]; [|done]. split; [by right|]. split; [by intros x ?%not_elem_of_nil|].
    intros x [= <-]. apply candidate_lt_irrefl. }
  set (best1 := match best0 with Some b => if candidate_lt y b then Some y else best0 | None => Some y end).
  specialize (IH best1). destruct (fold_left _ l best1) as [b|]; [|subst best1; repeat case_match; naive_solver].
  destruct IH as (Hin & Hall & Hbest).
  assert (candidate_lt y b = false ∧ ∀ x, best0 = Some x → candidate_lt x b = false) as [Hy Hb0].
  { destruct best0 as [b0|]; cbn in best1; [|split; [by apply Hbest|done]].
    destruct (candidate_lt y b0) eqn:Hlt; specialize (Hbest _ eq_refl); (split; [try done|intros x [= <-]; try done]).
    - destruct (candidate_lt b0 b) eqn:H; [|done]. by rewrite (candidate_lt_trans _ _ _ Hlt H) in Hbest.
    - destruct (candidate_lt y b) eqn:H; [|done]. by rewrite (candidate_lt_weak _ _ _ H Hbest) in Hlt. }
  split; [|split; [|done]].
  - destruct Hin as [?|Heq]; [left; set_solver|]. subst best1. repeat case_match; simplify_eq; set_solver.
  - intros x [->|Hx]%elem_of_cons; auto.
Qed.

(** The event sub-process that handles an error or escalation code: one of the
    subscriptions that catch it, one with exactly this code before one that
    catches every code, and among those the one with the least id; without a
    subscription that catches the code there is none. *)
Theorem error_handler_choice d code escalation exclude subs :
  let catches := catches_code d code escalation exclude in
  match least_candidate (omap catches subs) with
  | None => ∀ s, s ∈ subs → catches s = None
  | Some (any, s, h) =>
    s ∈ subs ∧ catches s = Some (any, s, h) ∧
    (∀ s' h', s' ∈ subs → catches s' = Some (false, s', h') → any = false) ∧
    (∀ s' h', s' ∈ subs → catches s' = Some (any, s', h') → String.ltb (esp_id h') (esp_id h) = false)
  end.
Proof.
  intros catches. pose proof (least_candidate_from (omap catches subs) None) as H. unfold least_candidate.
  assert (∀ s any s' h, catches s = Some (any, s', h) → s' = s) as Hself.
  { intros s any s' h. unfold catches, catches_code. case_bool_decide; [done|].
    destruct (event_subprocess_by_id d (subprocess_id s)) as [h0|]; cbn; [|done].
    destruct (esp_trigger h0), escalation; cbn; repeat case_match; naive_solver. }
  destruct (fold_left _ _ None) as [[[any s] h]|].
  - destruct H as ([Hin|?] & Hall & _); [|done]. apply list_elem_of_omap in Hin as (s0 & Hs0 & Hc).
    pose proof (Hself _ _ _ _ Hc) as ->. split; [done|]. split; [done|].
    split; intros s' h' Hs' Hc'; specialize (Hall _ (proj2 (list_elem_of_omap _ _ _) (ex_intro _ s' (conj Hs' Hc')))).
    + by destruct any.
    + by destruct any.
  - destruct H as [H _]. intros s Hs. destruct (catches s) as [x|] eqn:Hx; [|done].
    assert (x ∈ omap catches subs) as Hin by (apply list_elem_of_omap; eauto). rewrite H in Hin. by apply not_elem_of_nil in Hin.
Qed.
