(* ===== verification/Join.v ===== *)
(** * Join barriers and branch tokens

    engine-core/src/engine/executor/parallel.rs and completion.rs: a split
    registers how many tokens its join expects, tokens arrive one by one, and
    the last one (or a complex gateway's join condition) releases a merged
    token. *)

From stdpp Require Import base list gmap strings pretty.
From S2P Require Import Prelude Text Json Float CondLexer CondParser CondEval Domain Token ProcessDef Runtime History Graph Registry Index TopicIndex TimerIndex Engine.
Local Open Scope rust_scope.

Section join.
  Context {U : UnicodeData}.

(** [register_join_barrier_if_needed]. *)
Definition register_join_barrier_if_needed (id : Uuid) (split : string) (branch_count : nat) : M unit :=
  i ← get_instance id;
  d ← get_definition (pi_definition_key i);
  match find_downstream_join d split with
  | Some join =>
    update_instance id (λ i, i <| pi_join_barriers ::= (λ m,
      <[join := match m !! join with
                | Some b => mkBarrier (gateway_node_id b) branch_count (arrived_tokens b)
                | None => mkBarrier join branch_count []
                end]> m) |>)
  | None => mret tt
  end.

(** [register_active_token]. *)
Definition register_active_token (id : Uuid) (fork_id : string) (branch_index : nat) (t : Token) : M unit :=
  update_instance id (λ i, i <| pi_active_tokens ::= (λ l, l ++ [mkActive t (Some fork_id) branch_index false]) |>).

(** [active.completed = true] on the first entry of the token. *)
Definition is_active (token_id : Uuid) (a : ActiveToken) : bool := bool_decide (tok_id (at_token a) = token_id).
Definition set_completed (a : ActiveToken) : ActiveToken :=
  mkActive (at_token a) (at_fork_id a) (at_branch_index a) true.
Definition complete_active (token_id : Uuid) (l : list ActiveToken) : list ActiveToken :=
  update_first (is_active token_id) set_completed l.

(** [for t in tokens { vars.extend(t.variables) }]. *)
Definition merge_variables (ts : list Token) : Vars :=
  fold_left (λ vs t, extend vs (variables t)) ts ∅.

Definition join_condition_met (d : ProcessDefinition) (gateway : string) (arrived : list Token) : bool :=
  match get_node d gateway with
  | Some (ComplexGateway (Some cond) _) => evaluate_condition cond (merge_variables arrived)
  | _ => false
  end.

#[local] Arguments join_condition_met : simpl never.

(** [arrive_at_join]. *)
Definition arrive_at_join (id : Uuid) (gateway : string) (t : Token) : M (option Token) :=
  i ← get_instance id;
  d ← get_definition (pi_definition_key i);
  let structural_expected := incoming_flow_count d gateway in
  i ← get_instance id;
  let b := default (mkBarrier gateway structural_expected []) (pi_join_barriers i !! gateway) in
  let b := mkBarrier (gateway_node_id b) (expected_count b) (arrived_tokens b ++ [t]) in
  let current_arrived := length (arrived_tokens b) in
  let i := log_raw ("➔ Token arrived at join '" +:+ gateway +:+ "' (" +:+ pretty current_arrived +:+ "/"
                     +:+ pretty (expected_count b) +:+ ")")
             (i <| pi_join_barriers ::= <[gateway := b]> |>) in
  let condition_met := join_condition_met d gateway (arrived_tokens b) in
  let i := if condition_met
           then log_raw ("⟡ Complex gateway join condition met early at '" +:+ gateway +:+ "'") i else i in
  if (expected_count b <=? current_arrived) || condition_met then
    let all_tokens := arrived_tokens b in
    let i := i <| pi_join_barriers ::= delete gateway |>
               <| pi_active_tokens ::= (λ l, fold_left (λ l t, complete_active (tok_id t) l) all_tokens l) |> in
    merged_id ← new_uuid;
    let merged := set_merged true (with_variables merged_id gateway (merge_variables all_tokens)) in
    _ ← put_instance id (log_raw ("🔗 Join '" +:+ gateway +:+ "' completed. Tokens merged.") i);
    _ ← record_history_event id TokenJoined
          ("Joined " +:+ pretty current_arrived +:+ " tokens at '" +:+ gateway +:+ "'")
          ActorEngine None None;
    mret (Some merged)
  else
    _ ← put_instance id i;
    mret None.

(** [complete_branch_token]. *)
Definition complete_branch_token (id token_id : Uuid) : M unit :=
  update_instance id (λ i, i <| pi_active_tokens ::= complete_active token_id |>).

(** [all_tokens_completed]. *)
Definition all_completed (i : ProcessInstance) : bool :=
  if bool_decide (pi_tokens i = ∅) then
    match pi_active_tokens i with
    | [] => true
    | l => forallb at_completed l
    end
  else false.
Definition all_tokens_completed (id : Uuid) : M bool :=
  i ← get_instance id; mret (all_completed i).

(** ** One arrival *)

(** The tokens that have arrived at a join, and how many it expects. *)
Definition arrived_at (i : ProcessInstance) (gateway : string) : list Token :=
  match pi_join_barriers i !! gateway with Some b => arrived_tokens b | None => [] end.
Definition expected_at (d : ProcessDefinition) (i : ProcessInstance) (gateway : string) : nat :=
  match pi_join_barriers i !! gateway with Some b => expected_count b | None => incoming_flow_count d gateway end.

(** What an arrival leaves behind. *)
Record arrival (d : ProcessDefinition) (i : ProcessInstance) (gateway : string) (t : Token)
    (r : option Token) (i' : ProcessInstance) : Prop := {
  arrival_fires : is_Some r ↔
    expected_at d i gateway ≤ length (arrived_at i gateway) + 1 ∨
    join_condition_met d gateway (arrived_at i gateway ++ [t]) = true;
  arrival_merged : ∀ m, r = Some m →
    current_node m = gateway ∧ is_merged m = true ∧ data_scope m = None ∧
    variables m = merge_variables (arrived_at i gateway ++ [t]) ∧
    pi_join_barriers i' = delete gateway (pi_join_barriers i);
  arrival_waits : r = None →
    arrived_at i' gateway = arrived_at i gateway ++ [t] ∧ expected_at d i' gateway = expected_at d i gateway;
  arrival_others : ∀ g, g ≠ gateway → pi_join_barriers i' !! g = pi_join_barriers i !! g;
  arrival_definition : pi_definition_key i' = pi_definition_key i;
}.

Lemma arrive_at_join_arrival id gateway t e i d :
  e_instances e !! id = Some i → e_definitions e !! pi_definition_key i = Some d →
  ∃ r i' e', arrive_at_join id gateway t e = (Ok r, e') ∧ e_instances e' = <[id := i']> (e_instances e) ∧
    e_definitions e' = e_definitions e ∧ arrival d i gateway t r i'.
Proof.
  intros Hi Hd. unfold arrive_at_join. run_step. rewrite Hi. run_step. rewrite Hd. run_step. rewrite Hi.
  cbn beta iota zeta.
  set (b := default _ _). cbn [arrived_tokens expected_count gateway_node_id].
  assert (arrived_tokens b = arrived_at i gateway) as Ha.
  { unfold b, arrived_at. by destruct (pi_join_barriers i !! gateway). }
  assert (expected_count b = expected_at d i gateway) as He.
  { unfold b, expected_at. by destruct (pi_join_barriers i !! gateway). }
  rewrite !length_app, !Ha, !He. set (met := join_condition_met _ _ _).
  set (i1 := if met then _ else _).
  assert (pi_join_barriers i1 =
    <[gateway := mkBarrier (gateway_node_id b) (expected_at d i gateway) (arrived_at i gateway ++ [t])]> (pi_join_barriers i)
    ∧ pi_definition_key i1 = pi_definition_key i) as [Hb Hk] by (unfold i1; by destruct met).
  clearbody i1. destruct (_ || met) eqn:Hfire.
  - rewrite bind_run. cbn [new_uuid]. rewrite bind_run. cbn [put_instance modify].
    quiet_step u l Hu.
    eexists _, _, _. split; [reflexivity|]. split; [reflexivity|]. split; [done|]. split; cbn.
    + split; [intros _|by eexists]. apply orb_true_iff in Hfire as [Hle%Nat.leb_le|Hm]; [left; cbn in Hle; lia|by right].
    + intros m [= <-]. cbn. split_and!; [done..|]. by rewrite Hb, delete_insert_eq.
    + done.
    + intros g Hg. by rewrite lookup_delete_ne, Hb, lookup_insert_ne.
    + done.
  - apply orb_false_iff in Hfire as [Hlt%Nat.leb_gt Hm]. cbn in Hlt.
    eexists _, _, _. split; [reflexivity|]. split; [reflexivity|]. split; [done|]. split; cbn.
    + split; [by intros [? ?]|]. intros [Hle|Hm']; [lia|unfold met in Hm; congruence].
    + done.
    + intros _. unfold arrived_at at 1, expected_at at 1. by rewrite Hb, lookup_insert_eq.
    + intros g Hg. by rewrite Hb, lookup_insert_ne.
    + done.
Qed.

(** One arrival at a join never fails. It releases the merged token exactly when
    the expected number of tokens is there or the gateway's join condition
    holds on their merged variables; the merged token then carries the
    variables of all of them, later arrivals overriding earlier ones, and the
    barrier is gone. Otherwise the token is kept at the barrier. Barriers of
    other gateways are untouched. *)
Theorem arrive_at_join_spec id gateway t e i d :
  e_instances e !! id = Some i → e_definitions e !! pi_definition_key i = Some d →
  ∃ r i' e', arrive_at_join id gateway t e = (Ok r, e') ∧
    e_instances e' = <[id := i']> (e_instances e) ∧ arrival d i gateway t r i'.
Proof.
  intros Hi Hd. destruct (arrive_at_join_arrival id gateway t e i d Hi Hd) as (r & i' & e' & ? & ? & _ & ?).
  eauto 10.
Qed.

(** ** A join fires once *)

Lemma arrivals_release id gateway e i d ts t :
  e_instances e !! id = Some i → e_definitions e !! pi_definition_key i = Some d →
  (∀ arrived, join_condition_met d gateway arrived = false) →
  expected_at d i gateway = length (arrived_at i gateway) + length ts + 1 →
  ∃ m i' e', mapM (ts ++ [t]) (arrive_at_join id gateway) e = (Ok (replicate (length ts) None ++ [Some m]), e') ∧
    e_instances e' !! id = Some i' ∧ current_node m = gateway ∧ is_merged m = true ∧
    variables m = merge_variables (arrived_at i gateway ++ ts ++ [t]) ∧
    pi_join_barriers i' !! gateway = None.
Proof.
  intros Hi Hd Hc. revert e i Hi Hd. induction ts as [|x ts IH]; intros e i Hi Hd Hexp; cbn [app mapM].
  - destruct (arrive_at_join_arrival id gateway t e i d Hi Hd) as (r & i' & e' & Hrun & Hi' & Hd' & Harr).
    rewrite bind_run, Hrun. destruct (arrival_fires _ _ _ _ _ _ Harr) as [_ Hfire].
    destruct Hfire as [m ->]; [left; cbn in Hexp; lia|].
    destruct (arrival_merged _ _ _ _ _ _ Harr m eq_refl) as (? & ? & _ & ? & Hb).
    exists m, i', e'. split; [done|]. split; [by rewrite Hi', lookup_insert_eq|]. split_and!; [done..|].
    by rewrite Hb, lookup_delete_eq.
  - destruct (arrive_at_join_arrival id gateway x e i d Hi Hd) as (r & i' & e' & Hrun & Hi' & Hd' & Harr).
    rewrite bind_run, Hrun. destruct r as [m|].
    { destruct (arrival_fires _ _ _ _ _ _ Harr) as [Hf _]. rewrite Hc in Hf.
      destruct (Hf ltac:(by eexists)) as [Hle|?]; [cbn in Hexp; lia|done]. }
    destruct (arrival_waits _ _ _ _ _ _ Harr eq_refl) as [Ha He].
    destruct (IH e' i') as (m & i2 & e2 & Hrec & Hi2 & ? & ? & Hvars & ?).
    { by rewrite Hi', lookup_insert_eq. }
    { by rewrite Hd', (arrival_definition _ _ _ _ _ _ Harr). }
    { rewrite He, Hexp, Ha, length_app. cbn. lia. }
    exists m, i2, e2. rewrite bind_run, Hrec. split; [done|]. split_and!; [done..| |done].
    by rewrite Hvars, Ha, <- app_assoc.
Qed.

(** C3: When exactly the expected number of tokens arrives one after the other at a
    join without a join condition, every one but the last waits, the last one
    releases a single merged token with the variables of all of them, and no
    barrier is left. *)
Theorem join_fires_once id gateway e i d ts t :
  e_instances e !! id = Some i → e_definitions e !! pi_definition_key i = Some d →
  (∀ cond def, get_node d gateway ≠ Some (ComplexGateway (Some cond) def)) →
  arrived_at i gateway = [] → expected_at d i gateway = length (ts ++ [t]) →
  ∃ m i' e', mapM (ts ++ [t]) (arrive_at_join id gateway) e = (Ok (replicate (length ts) None ++ [Some m]), e') ∧
    e_instances e' !! id = Some i' ∧ current_node m = gateway ∧ is_merged m = true ∧
    variables m = merge_variables (ts ++ [t]) ∧ pi_join_barriers i' !! gateway = None.
Proof.
  intros Hi Hd Hn Ha Hexp. destruct (arrivals_release id gateway e i d ts t) as (m & i' & e' & H).
  - done.
  - done.
  - intros arrived. unfold join_condition_met. destruct (get_node d gateway) as [[]|] eqn:Hg; try done.
    destruct join_condition; [|done]. by destruct (Hn _ _ eq_refl).
  - rewrite Hexp, Ha, length_app. cbn. lia.
  - rewrite Ha in H. eauto.
Qed.

(** ** Registration *)

(** Registering the number of branches of a split never loses a token that has
    already arrived at its join, and leaves every other barrier alone. *)
Theorem register_join_barrier_keeps id split n e i d :
  e_instances e !! id = Some i → e_definitions e !! pi_definition_key i = Some d →
  ∃ i' e', register_join_barrier_if_needed id split n e = (Ok tt, e') ∧ e_instances e' !! id = Some i' ∧
    ∀ g, arrived_at i' g = arrived_at i g ∧
      expected_at d i' g = if bool_decide (find_downstream_join d split = Some g) then n else expected_at d i g.
Proof.
  intros Hi Hd. unfold register_join_barrier_if_needed.
  run_step. rewrite Hi. run_step. rewrite Hd.
  destruct (find_downstream_join d split) as [j|].
  - rewrite update_instance_run, Hi. eexists _, _. split; [done|]. cbn. rewrite lookup_insert_eq. split; [done|].
    intros g. unfold arrived_at, expected_at. cbn. destruct (decide (g = j)) as [->|Hne].
    + rewrite lookup_insert_eq, bool_decide_true by done. by destruct (pi_join_barriers i !! j).
    + rewrite lookup_insert_ne, bool_decide_false by congruence. done.
  - eexists _, _. split; [done|]. split; [done|]. intros g. by rewrite bool_decide_false.
Qed.
End join.

(** ** A concrete join: two branches of the example graph *)

Definition example_engine : Engine :=
  engine_new <| e_definitions := {[1%N := example_definition]} |> <| e_instances := {[7%N := example_instance]} |>.

Lemma arrive_at_join_spec_witness :
  let U := ascii_only in
  ∃ r i' e', arrive_at_join 7 "join" (token_new 3 "join") example_engine = (Ok r, e') ∧
    e_instances e' = <[7%N := i']> (e_instances example_engine) ∧
    arrival example_definition example_instance "join" (token_new 3 "join") r i'.
Proof. apply (@arrive_at_join_spec ascii_only); reflexivity. Defined.

Lemma join_fires_once_witness :
  let U := ascii_only in
  ∃ m e', mapM ([token_new 3 "join"] ++ [token_new 4 "join"]) (arrive_at_join 7 "join") example_engine
    = (Ok [None; Some m], e') ∧ is_merged m = true.
Proof.
  destruct (@join_fires_once ascii_only 7 "join" example_engine example_instance example_definition
    [token_new 3 "join"] (token_new 4 "join")) as (m & i' & e' & H & _ & _ & Hm & _);
    [reflexivity|reflexivity|intros; vm_compute; discriminate|reflexivity|vm_compute; reflexivity|].
  exists m, e'. exact (conj H Hm).
Defined.

Lemma register_join_barrier_keeps_witness :
  let U := ascii_only in
  ∃ i' e', register_join_barrier_if_needed 7 "fork" 2 example_engine = (Ok tt, e') ∧ e_instances e' !! 7%N = Some i' ∧
    expected_at example_definition i' "join" = 2.
Proof.
  destruct (register_join_barrier_keeps 7 "fork" 2 example_engine example_instance example_definition)
    as (i' & e' & H1 & H2 & H3); [reflexivity|reflexivity|].
  exists i', e'. split; [exact H1|]. split; [exact H2|]. rewrite (proj2 (H3 "join")). vm_compute. reflexivity.
Defined.
