(* ===== verification/ProcessStart.v ===== *)
(** * Starting instances and resuming a caller

    engine-core/src/engine/process_start.rs: validation of a start request, the
    new instance, its listeners and event scope, call activities, the resumption
    of the calling instance when a called one has completed, and timer starts. *)

From stdpp Require Import base list gmap strings pretty.
From S2P Require Import Prelude Text Float Json CondLexer CondParser CondEval Domain Token ProcessDef DataMappings Runtime History Graph Registry Index TopicIndex TimerIndex Engine Scripts Boundary Waits EventScope.
Local Open Scope rust_scope.

(** [validate_start_request]. *)
Definition validate_start_request (key : Uuid) (allow_signal_start : bool) : M (ProcessDefinition * string) :=
  d ← get_definition key;
  '(start_id, element) ← lift_option (InvalidDefinition "No start event") (start_event d);
  match element with
  | TimerStartEvent _ => throw (InvalidDefinition "Use trigger_timer_start() for timer start events")
  | SignalStartEvent _ =>
    if allow_signal_start then mret (d, start_id)
    else throw (InvalidDefinition "Definition has a signal start event; use correlate_signal() to start it")
  | _ => mret (d, start_id)
  end.

(** A new instance at its start node; the audit line is the caller's. *)
Definition fresh_instance (key id : Uuid) (business_key : string) (parent : option Uuid) (start_id entry : string)
    (vars : Vars) (at_ : DateTime) : ProcessInstance :=
  mkInstance id key business_key parent Running start_id [entry] vars ∅ [] ∅ ∅ [] ∅ (Some at_) None [] [] ∅ false.

(** [build_initial_instance]; its business key is a fresh id. *)
Definition build_initial_instance (key id : Uuid) (start_id : string) (vars : Vars) (parent : option Uuid)
    : M ProcessInstance :=
  bk ← new_uuid;
  at_ ← now;
  mret (fresh_instance key id (pretty bk) parent start_id
    ("▶ Process started at node '" +:+ start_id +:+ "' with " +:+ pretty (size vars) +:+ " variable(s)") vars at_).

(** [variables.remove("business_key")]: its text, or a fresh id. *)
Definition take_business_key (vars : Vars) : M (string * Vars) :=
  match vars !! "business_key" with
  | Some (VString s) => mret (s, delete "business_key" vars)
  | _ => id ← new_uuid; mret (pretty id, delete "business_key" vars)
  end.

Section start.
  Context {U : UnicodeData} {S : ScriptEngine} {C : CronLib} {R : Nested}.

(** The loop over the event listeners of the definition; these waits are not
    saved. *)
Definition install_listener (id : Uuid) (l : ScopeEventListener) : M unit :=
  match l with
  | ScopeTimer timer _ target =>
    at_ ← now;
    expires_at ← lift_call (expiry_or_now timer at_);
    timer_id ← new_uuid;
    insert_timer (mkTimer timer_id id target expires_at nil_uuid (Some timer) (initial_remaining_repetitions timer))
  | ScopeMessage name _ target =>
    catch_id ← new_uuid;
    insert_message_catch {| mc_id := catch_id; mc_instance_id := id; mc_node_id := target;
      mc_message_name := name; mc_token_id := nil_uuid |}
  | ScopeError _ _ => mret tt
  end.

(** Scope and first batch of a new instance. *)
Definition launch (id : Uuid) (t : Token) : M unit :=
  open_event_scope id ;;
  run_instance_batch id t ;;
  persist_instance id.

(** [start_instance_with_variables_parent_and_id]. *)
Definition start_instance_with (key : Uuid) (vars : Vars) (parent predetermined : option Uuid)
    (allow_signal_start : bool) : M Uuid :=
  '(d, start_id) ← validate_start_request key allow_signal_start;
  let vars := extend (variable_defaults d) vars in
  id ← match predetermined with Some id => mret id | None => new_uuid end;
  '(business_key, vars) ← take_business_key vars;
  i ← build_initial_instance key id start_id vars parent;
  put_instance id (i <| pi_business_key := business_key |>) ;;
  record_history_event id InstanceStarted ("Started instance of process '" +:+ def_id d +:+ "'") ActorEngine None None ;;
  tid ← new_uuid;
  forM (event_listeners d) (install_listener id) ;;
  launch id (with_variables tid start_id vars) ;;
  mret id.

Definition start_instance_with_variables_and_parent (key : Uuid) (vars : Vars) (parent : option Uuid) : M Uuid :=
  start_instance_with key vars parent None false.
Definition start_instance_with_variables (key : Uuid) (vars : Vars) : M Uuid :=
  start_instance_with_variables_and_parent key vars None.
Definition start_instance (key : Uuid) : M Uuid := start_instance_with_variables key ∅.
Definition start_instance_from_signal (key : Uuid) (vars : Vars) : M Uuid := start_instance_with key vars None None true.
Definition start_instance_latest (bpmn_id : string) (vars : Vars) : M (Uuid * Uuid) :=
  defs ← gets e_definitions;
  '(key, _) ← lift_option (InvalidDefinition ("No definition found with BPMN ID '" +:+ bpmn_id +:+ "'"))
                (find_latest_by_bpmn_id defs bpmn_id);
  id ← start_instance_with_variables key vars;
  mret (id, key).

(** ** Call activities *)

Definition call_started (parent : Uuid) (node : string) (child : Uuid) : M unit :=
  record_history_event parent CallActivityStarted
    ("Started Call Activity '" +:+ node +:+ "' (child instance " +:+ pretty child +:+ ")") ActorEngine None None.

(** [spawn_call_activity]. *)
Definition spawn_call_activity (child_key parent : Uuid) (called_node : string) (vars : Vars) : M Uuid :=
  child ← start_instance_with_variables_and_parent child_key vars (Some parent);
  call_started parent called_node child ;;
  mret child.

(** [spawn_call_activity_for_parent]: the call is registered before the child runs. *)
Definition spawn_call_activity_for_parent (child_key parent : Uuid) (t : Token) : M Uuid :=
  child ← new_uuid;
  let node := current_node t in
  p ← get_instance parent;
  d ← get_definition (pi_definition_key p);
  vars ← match data_mappings d !! node ≫= call_inputs with
         | Some ms => lift (evaluate_mappings ms (variables t))
         | None => mret (variables t)
         end;
  try_update_instance parent (λ p,
    let p := p <| pi_outstanding_calls ::= <[child := {| oc_node_id := node; oc_token := t |}]> |> in
    if is_parallel (pi_state p) then p else p <| pi_state := WaitingOnCallActivity child t |>) ;;
  r ← try (start_instance_with child_key vars (Some parent) (Some child) false);
  match r with
  | Ok spawned => call_started parent node spawned ;; mret spawned
  | Err err =>
    try_update_instance parent (λ p, p <| pi_outstanding_calls ::= delete child |>) ;;
    throw err
  end.

(** ** Resuming the caller *)

(** The state of the caller when a call has ended. *)
Definition state_after_call (remaining_calls : nat) (s : InstanceState) : InstanceState :=
  if 0 <? remaining_calls then ParallelExecution remaining_calls
  else if is_parallel s then s else Running.

(** Which call of the parent ended: the node it was made from and its token. *)
Definition ended_call (child : Uuid) (p : ProcessInstance) : option (string * Token) :=
  match pi_outstanding_calls p !! child with
  | Some call => Some (oc_node_id call, oc_token call)
  | None => match pi_state p with WaitingOnCallActivity _ t => Some (pi_current_node p, t) | _ => None end
  end.

(** The variables the parent receives: the mapped outputs, nothing from a failed
    child with mappings, all of them without mappings. *)
Definition call_transfer (defs : DefinitionRegistry) (key : Uuid) (node : string) (failed : bool) (child_vars : Vars)
    : EngineResult Vars :=
  match defs !! key ≫= λ d, data_mappings d !! node ≫= call_outputs with
  | Some ms => if failed then Ok ∅ else evaluate_mappings ms child_vars
  | None => Ok child_vars
  end.

Definition calls_from (node : string) (a : ActiveToken) : bool :=
  bool_decide (current_node (at_token a) = node) && negb (at_completed a).

(** The block of [resume_parent_if_needed] under the parent's lock: the node the
    call was made from, the token to resume and the parent's definition. *)
Definition end_call (defs : DefinitionRegistry) (child : Uuid) (failed : bool) (child_vars : Vars) (p : ProcessInstance)
    : EngineResult (option (string * Token * Uuid)) * ProcessInstance :=
  let call := ended_call child p in
  let p := p <| pi_outstanding_calls ::= delete child |> in
  match call with
  | None => (Ok None, p)
  | Some (node, t) =>
    let p := push_audit_log ("🔗 Call Activity '" +:+ node +:+ "' completed successfully")
               (p <| pi_state := state_after_call (size (pi_outstanding_calls p)) (pi_state p) |>) in
    match call_transfer defs (pi_definition_key p) node failed child_vars with
    | Err err => (Err err, p)
    | Ok transferred =>
      match List.find (calls_from node) (pi_active_tokens p) with
      | Some a =>
        let t := apply_call_transfer (at_token a) transferred in
        (Ok (Some (node, t, pi_definition_key p)),
         p <| pi_active_tokens ::= update_first (calls_from node)
                (λ a, mkActive t (at_fork_id a) (at_branch_index a) (at_completed a)) |>)
      | None => (Ok (Some (node, apply_call_transfer t transferred, pi_definition_key p)), p)
      end
    end
  end.

(** Leaving the call activity: a failed child with mappings discards the
    activation, otherwise the outputs and end listeners run, and their error
    ends the parent. *)
Definition leave_call (parent : Uuid) (t : Token) (d : ProcessDefinition) (node : string) (failed : bool) : M Token :=
  if failed && bool_decide (is_Some (data_mappings d !! node)) then mret (discard_data_scope t)
  else
    r ← try (run_end_scripts parent t d node);
    match r with
    | Ok t => mret t
    | Err err =>
      try_update_instance parent (λ p, push_audit_log
        ("💥 Script-Fehler im End-Listener der Call Activity '" +:+ node +:+ "': " +:+ error_text err)
        (p <| pi_state := CompletedWithError ("SCRIPT_ERROR:" +:+ node) |>)) ;;
      persist_instance parent ;;
      throw err
    end.

(** A child's error that nobody catches: the incident is recorded under the
    parent's write lock, and [persist_instance] then waits for that same lock. *)
Definition unhandled_child_error (parent child : Uuid) (t : Token) (node code : string) : M unit :=
  incident_id ← new_uuid;
  at_ ← now;
  update_instance parent (λ p,
    (push_or_touch_incident at_ incident_id KBpmnError (Some node) None
      ("Unhandled BPMN error '" +:+ code +:+ "' from child instance " +:+ pretty child) None
      (push_audit_log ("💥 INCIDENT: Child " +:+ pretty child +:+ " failed with unhandled BPMN error '" +:+ code +:+ "'")
        (p <| pi_state := WaitingOnCallActivity child t |>))).2) ;;
  fault Blocked.

(** The token leaves the call activity to [next]. *)
Definition continue_parent (parent : Uuid) (t : Token) (next : string) : M unit :=
  try_update_instance parent (λ p, p <| pi_current_node := next |>) ;;
  run_instance_batch parent (set_node next t).

(** [resume_parent_if_needed]. *)
Definition resume_parent_if_needed (child : Uuid) (error_code : option string) : M unit :=
  c ← get_instance child;
  match pi_parent c with
  | None => mret tt
  | Some parent =>
    let failed := bool_decide (is_Some error_code) in
    defs ← gets e_definitions;
    ended ← with_instance parent (end_call defs child failed (pi_variables c));
    match ended with
    | None => mret tt
    | Some (node, t, key) =>
      record_history_event parent CallActivityCompleted
        ("Call Activity '" +:+ node +:+ "' completed (child instance " +:+ pretty child +:+ ")") ActorEngine None None ;;
      d ← get_definition key;
      t ← leave_call parent t d node failed;
      match error_code with
      | Some code =>
        match find_boundary_error_event d node code with
        | Some boundary => continue_parent parent t boundary
        | None =>
          exclude ← event_handler_for_token parent (tok_id t);
          activation ← try_activate_event_code parent code false (process_variables t) exclude;
          match activation with
          | Some a => persist_instance parent ;; run_instance_batch parent (activation_token a)
          | None => unhandled_child_error parent child t node code
          end
        end
      | None =>
        next ← lift (resolve_next_target d node (variables t));
        continue_parent parent t next
      end
    end
  end.

(** ** A caller is resumed once *)

(** When the end of a called instance resumes its caller, the call is settled:
    the same child ending again, with whatever outcome, finds nothing to resume
    and changes nothing in the caller. *)
Theorem end_call_once defs child failed vars p x p' :
  end_call defs child failed vars p = (Ok (Some x), p') →
  ∀ defs' failed' vars', end_call defs' child failed' vars' p' = (Ok None, p').
Proof.
  unfold end_call at 1. destruct (ended_call child p) as [[node t]|]; [|done].
  destruct (call_transfer _ _ _ _ _) as [transferred|]; [|done]. intros Hrun defs' failed' vars'.
  assert (pi_outstanding_calls p' !! child = None ∧ ∀ c t', pi_state p' ≠ WaitingOnCallActivity c t') as [Hc Hs].
  { assert (∀ n s c t', state_after_call n s ≠ WaitingOnCallActivity c t') as Hst.
    { intros n s c t'. unfold state_after_call. destruct (0 <? n); [done|]. by destruct s. }
    destruct (List.find _ _); injection Hrun as _ <-; (split; [apply lookup_delete_eq|intros; apply Hst]). }
  unfold end_call, ended_call. rewrite Hc. destruct (pi_state p') eqn:Hst; try (by destruct (Hs _ _ eq_refl));
    cbn; f_equal; destruct p'; cbn in *; f_equal; by apply delete_id.
Qed.

(** ** Timer starts *)

(** [Duration::as_secs]. *)
Definition as_secs (d : Duration) : N := Z.to_N (d / 1000000000).

(** An instance that a timer started. *)
Definition start_by_timer (key : Uuid) (business_key start_id entry descr : string) (vars : Vars) (id : Uuid) : M Uuid :=
  at_ ← now;
  put_instance id (fresh_instance key id business_key None start_id entry vars at_) ;;
  record_history_event id InstanceStarted descr ActorTimer None None ;;
  tid ← new_uuid;
  launch id (token_new tid start_id) ;;
  mret id.

(** [trigger_timer_start]. *)
Definition trigger_timer_start (key : Uuid) (provided : Duration) : M Uuid :=
  d ← get_definition key;
  '(start_id, element) ← lift_option (InvalidDefinition "No start event") (start_event d);
  match element with
  | TimerStartEvent timer =>
    let is_match := match timer with TimerDuration x => bool_decide (x = provided) | _ => false end in
    if is_match then
      id ← new_uuid;
      bk ← new_uuid;
      start_by_timer key (pretty bk) start_id
        ("⏰ Timer fired (" +:+ pretty (as_secs provided) +:+ "s) — started at node '" +:+ start_id +:+ "'")
        ("Timer fired for instance of process '" +:+ def_id d +:+ "'") ∅ id
    else
      throw (TimerMismatch (match timer with TimerDuration x => as_secs x | _ => 0 end) (as_secs provided))
  | _ => throw (InvalidDefinition "Start event is not a timer start event")
  end.

Definition vint (n : N) : Value := VNumber (NumInt (Z.of_N n)).

(** [spawn_timer_instance]. *)
Definition spawn_timer_instance (key : Uuid) (start_id : string) (vars : Vars) (iteration total : N)
    (interval_secs : option N) : M Uuid :=
  d ← get_definition key;
  id ← new_uuid;
  '(business_key, vars) ← take_business_key vars;
  let vars := <["_timer_start_node" := VString start_id]> (<["_timer_total" := vint total]>
                (<["_timer_iteration" := vint iteration]> vars)) in
  let vars := match interval_secs with Some s => <["_timer_interval_secs" := vint s]> vars | None => vars end in
  start_by_timer key business_key start_id
    ("⏰ Timer instance #" +:+ pretty iteration +:+ "/" +:+ pretty total +:+ " started at node '" +:+ start_id
      +:+ "' with " +:+ pretty (size vars) +:+ " variable(s)")
    ("Timer instance #" +:+ pretty iteration +:+ " of process '" +:+ def_id d +:+ "'") vars id.

(** What [start_timer_instance] leaves to the task it spawns: the start node, the
    total for display, the seconds between starts and the number of starts left. *)
Record TimerCycle := mkCycle {
  cy_start : string;
  cy_total : N;
  cy_interval_secs : option N;
  cy_remaining : N;
}.
Definition timer_cycle (start_id : string) (timer : TimerDefinition) : TimerCycle :=
  match timer with
  | RepeatingInterval repetitions interval =>
    mkCycle start_id (default 1%N repetitions) (Some (as_secs interval))
      (match repetitions with Some r => r - 1 | None => u32_max end)
  | _ => mkCycle start_id 1 None 0
  end.

(** [start_timer_instance]: the first instance at once, the others by the cycle. *)
Definition start_timer_instance (key : Uuid) (vars : Vars) : M (Uuid * TimerCycle) :=
  d ← get_definition key;
  '(start_id, element) ← lift_option (InvalidDefinition "No start event") (start_event d);
  match element with
  | TimerStartEvent timer =>
    let cy := timer_cycle start_id timer in
    id ← spawn_timer_instance key start_id vars 1 (cy_total cy) (cy_interval_secs cy);
    mret (id, cy)
  | _ => throw (InvalidDefinition "Start event is not a timer start event")
  end.
(** One turn of the spawned task; its loop ends at the first error. *)
Definition timer_cycle_turn (key : Uuid) (vars : Vars) (cy : TimerCycle) (i : N) : M Uuid :=
  spawn_timer_instance key (cy_start cy) vars (i + 2) (cy_total cy) (cy_interval_secs cy).
End start.

(** ** A concrete caller *)

Definition calling_instance : ProcessInstance :=
  example_instance <| pi_outstanding_calls := {[9%N := {| oc_node_id := "call"; oc_token := token_new 3 "call" |}]} |>.

Lemma end_call_once_witness :
  let p' := (end_call ∅ 9 false {["x" := vint 1]} calling_instance).2 in
  end_call ∅ 9 true ∅ p' = (Ok None, p').
Proof.
  eapply (end_call_once ∅ 9 false {["x" := vint 1]} calling_instance). vm_compute. reflexivity.
Defined.
