(* ===== verification/Signals.v ===== *)
(** * Signals and messages

    engine-core/src/engine/signal_processor.rs: a signal is a broadcast, every
    pending catch of its name is resumed; a signal correlated from outside also
    starts instances.  The choice of the token to resume is the same code in
    message_processor.rs and timer_processor.rs.  At the end message_processor.rs: a
    message resumes every pending catch of its name, for one business key or for all,
    and starts instances. *)

From stdpp Require Import base list gmap strings pretty sorting.
From S2P Require Import Prelude Text Float Json CondLexer CondParser CondEval Domain Token ProcessDef DataMappings Runtime History Graph Registry Index TopicIndex TimerIndex Engine Scripts Boundary Waits EventScope ProcessStart.
Local Open Scope rust_scope.

(** ** The token an event resumes *)

Definition token_missing (token_id : Uuid) : EngineError :=
  InvalidDefinition ("Token " +:+ pretty token_id +:+ " not found in instance").
(** A token with a new id. *)
Definition rename_token (id : Uuid) (t : Token) : Token :=
  mkToken id (current_node t) (variables t) (is_merged t) (data_scope t).

(** A non-interrupting event leaves the token where it is and spawns a copy with
    the id [fresh]; any other event takes the token out of the instance. *)
Definition resume_token (non_interrupting : bool) (token_id fresh : Uuid) (i : ProcessInstance)
    : EngineResult Token * ProcessInstance :=
  match pi_tokens i !! token_id with
  | None => (Err (token_missing token_id), i)
  | Some t =>
    if non_interrupting then
      let t := rename_token fresh t in
      let i := i <| pi_tokens ::= <[fresh := t]> |>
                 <| pi_active_tokens ::= (λ l, l ++ [mkActive t (Some (current_node t)) (length l) false]) |> in
      (Ok t, if is_parallel (pi_state i) then i else i <| pi_state := ParallelExecution (size (pi_tokens i)) |>)
    else (Ok t, i <| pi_tokens ::= delete token_id |>)
  end.

Definition extend_token (vars : Vars) (t : Token) : Token := set_variables (extend (variables t) vars) t.

(** A waiting instance runs again; a parallel one stays parallel. *)
Definition wake (entry : string) (i : ProcessInstance) : ProcessInstance :=
  push_audit_log entry (if is_parallel (pi_state i) then i else i <| pi_state := Running |>).

Section signals.
  Context {U : UnicodeData} {S : ScriptEngine} {C : CronLib} {R : Nested}.

(** [resume_signal_catch]. *)
Definition resume_signal_catch (c : PendingSignalCatch) (name : string) (vars : Vars) : M unit :=
  let id := sc_instance_id c in
  i ← get_instance id;
  d ← get_definition (pi_definition_key i);
  let non_interrupting := match nodes d !! sc_node_id c with
                          | Some (BoundarySignalEvent _ _ false) => true
                          | _ => false
                          end in
  when (negb non_interrupting)
    (clear_wait_states_for_token id (sc_token_id c) ;; cancel_pending_activity id (sc_token_id c)) ;;
  fresh ← new_uuid;
  t ← with_instance id (resume_token non_interrupting (sc_token_id c) fresh);
  let t := extend_token vars t in
  old_state ← gets (λ e, e_instances e !! id);
  update_instance id (wake ("📡 Signal '" +:+ name +:+ "' caught at '" +:+ sc_node_id c +:+ "' — resuming catch "
    +:+ pretty (sc_id c))) ;;
  record_history_event id SignalCaught ("Signal '" +:+ name +:+ "' caught at '" +:+ sc_node_id c +:+ "'")
    ActorEngine None old_state ;;
  next ← lift (resolve_next_target d (sc_node_id c) (variables t));
  update_instance id (λ i, i <| pi_current_node := next |>) ;;
  remove_persisted_signal_catch (sc_id c) ;;
  run_instance_batch id (set_node next t).

(** One pending catch of a broadcast: nothing happens when an earlier catch of the
    same broadcast has already removed it. *)
Definition deliver_signal (name : string) (vars : Vars) (catch_id : Uuid) : M (option Uuid) :=
  found ← gets (λ e, e_signal_catches e !! catch_id);
  match found with
  | None => mret None
  | Some c =>
    let id := sc_instance_id c in
    remove_signal_catch catch_id ;;
    subscription ← is_event_subscription id (sc_id c);
    (if subscription : bool then
       activation ← activate_event_subscription id (ConsumedSignal c) vars;
       present ← gets (λ e, bool_decide (is_Some (e_signal_catches e !! catch_id)));
       when (negb present) (remove_persisted_signal_catch catch_id) ;;
       match activation with
       | Some a => run_instance_batch id (activation_token a)
       | None => mret tt
       end
     else resume_signal_catch c name vars) ;;
    mret (Some id)
  end.

(** The definitions whose start event waits for the signal. *)
Definition signal_starts (name : string) (defs : DefinitionRegistry) : list Uuid :=
  omap (λ '(key, d), match start_event d with
                     | Some (_, SignalStartEvent s) => if bool_decide (s = name) then Some key else None
                     | _ => None
                     end) (map_to_list defs).

(** [broadcast_signal]: the instances it reached. *)
Definition broadcast_signal (name : string) (vars : Vars) (start_instances : bool) : M (list Uuid) :=
  catches ← gets (λ e, ids_of sc_id (λ c, bool_decide (sc_signal_name c = name)) (e_signal_catches e));
  resumed ← mapM catches (deliver_signal name vars);
  started ← (if start_instances then
               keys ← gets (λ e, signal_starts name (e_definitions e));
               mapM keys (λ key, start_instance_from_signal key vars)
             else mret []);
  mret (omap id resumed ++ started).

(** [correlate_signal]: the ids sorted and without duplicates. *)
Definition correlate_signal (name : string) (vars : Vars) : M (list Uuid) :=
  affected ← broadcast_signal name vars true;
  mret (merge_sort N.le (remove_dups affected)).
End signals.

(** ** Messages *)

(** The open tasks of a token at a node. *)
Definition user_tasks_at (id token_id : Uuid) (node : string) (e : Engine) : list Uuid :=
  ids_of ut_task_id (λ t, bool_decide (ut_instance_id t = id) && bool_decide (ut_node_id t = node)
                          && bool_decide (ut_token_id t = token_id)) (e_user_tasks e).
Definition service_tasks_at (id token_id : Uuid) (node : string) (e : Engine) : list Uuid :=
  ids_of st_id (λ t, bool_decide (st_instance_id t = id) && bool_decide (st_node_id t = node)
                     && bool_decide (st_token_id t = token_id)) (primary (e_service_tasks e)).

Section messages.
  Context {U : UnicodeData} {S : ScriptEngine} {C : CronLib} {R : Nested}.

(** A catch with the nil token belongs to an event listener of the process: its
    target is started as a call of the instance. *)
Definition trigger_scope_listener (id : Uuid) (target : string) (vars : Vars) : M unit :=
  defs ← gets e_definitions;
  '(key, _) ← lift_option (InvalidDefinition ("Event Subprocess '" +:+ target +:+ "' not found"))
                (find_latest_by_bpmn_id defs target);
  i ← get_instance id;
  _ ← spawn_call_activity key id target (extend (pi_variables i) vars);
  mret tt.

(** The rest of [correlate_message] for a catch of a token. *)
Definition resume_message_catch (c : PendingMessageCatch) (name : string) (vars : Vars) : M unit :=
  let id := mc_instance_id c in
  i ← get_instance id;
  d ← get_definition (pi_definition_key i);
  let non_interrupting := match nodes d !! mc_node_id c with
                          | Some (BoundaryMessageEvent _ _ false) => true
                          | _ => false
                          end in
  fresh ← new_uuid;
  t ← with_instance id (resume_token non_interrupting (mc_token_id c) fresh);
  when (negb non_interrupting)
    (users ← gets (user_tasks_at id (mc_token_id c) (current_node t));
     forM users drop_user_task ;;
     services ← gets (service_tasks_at id (mc_token_id c) (current_node t));
     forM services drop_service_task) ;;
  let t := extend_token vars t in
  old_state ← gets (λ e, e_instances e !! id);
  update_instance id (wake ("✉️ Msg '" +:+ name +:+ "' correlated, resuming '" +:+ pretty (mc_id c) +:+ "'")) ;;
  record_history_event id TokenAdvanced ("Message '" +:+ name +:+ "' correlated") ActorEngine None old_state ;;
  next ← lift (resolve_next_target d (mc_node_id c) (variables t));
  update_instance id (λ i, i <| pi_current_node := next |>) ;;
  remove_persisted_message_catch (mc_id c) ;;
  run_instance_batch id (set_node next t).

(** One catch of [correlate_message]. *)
Definition deliver_message (name : string) (vars : Vars) (catch_id : Uuid) : M unit :=
  found ← gets (λ e, e_message_catches e !! catch_id);
  c ← lift_option (InvalidDefinition ("Message catch " +:+ pretty catch_id +:+ " disappeared")) found;
  let id := mc_instance_id c in
  remove_message_catch catch_id ;;
  clear_wait_states_for_token id (mc_token_id c) ;;
  subscription ← is_event_subscription id (mc_id c);
  if subscription : bool then
    activation ← activate_event_subscription id (ConsumedMessage c) vars;
    present ← gets (λ e, bool_decide (is_Some (e_message_catches e !! catch_id)));
    when (negb present) (remove_persisted_message_catch catch_id) ;;
    match activation with
    | Some a => run_instance_batch id (activation_token a)
    | None => mret tt
    end
  else if bool_decide (mc_token_id c = nil_uuid) then
    trigger_scope_listener id (mc_node_id c) vars ;;
    remove_persisted_message_catch catch_id
  else resume_message_catch c name vars.

(** The catches a message reaches, with their instances. *)
Definition matching_catches (name : string) (business_key : option string) (e : Engine) : list PendingMessageCatch :=
  List.filter (λ c,
    bool_decide (mc_message_name c = name) &&
    match e_instances e !! mc_instance_id c with
    | Some i => match business_key with Some bk => bool_decide (pi_business_key i = bk) | None => true end
    | None => false
    end) (map_to_list (e_message_catches e)).*2.

Definition message_starts (name : string) (defs : DefinitionRegistry) : list Uuid :=
  omap (λ '(key, d), match start_event d with
                     | Some (_, MessageStartEvent s) => if bool_decide (s = name) then Some key else None
                     | _ => None
                     end) (map_to_list defs).

(** [correlate_message]: the instances it reached, then the ones it started. *)
Definition correlate_message (name : string) (business_key : option string) (vars : Vars) : M (list Uuid) :=
  catches ← gets (matching_catches name business_key);
  forM (mc_id <$> catches) (deliver_message name vars) ;;
  keys ← gets (λ e, message_starts name (e_definitions e));
  started ← mapM keys (λ key,
    new_id ← start_instance_with_variables key vars;
    match business_key with
    | Some bk =>
      try_update_instance new_id (λ i, i <| pi_business_key := bk |>) ;;
      persist_instance new_id
    | None => mret tt
    end ;;
    mret new_id);
  mret ((mc_instance_id <$> catches) ++ started).
End messages.
