(* ===== verification/Conditional.v ===== *)
(** * Conditional events

    engine-core/src/engine/conditional_events.rs: at the end of a batch every
    conditional catch of the instance is evaluated on the instance's variables; it
    fires when its condition has become true. *)

From stdpp Require Import base list gmap strings pretty.
From S2P Require Import Prelude Text Float Json CondLexer CondParser CondEval Domain Token ProcessDef Runtime History Graph Registry Index TopicIndex TimerIndex Engine Boundary Waits EventScope Signals.
Local Open Scope rust_scope.

Definition set_last_result (b : bool) (c : PendingConditionalCatch) : PendingConditionalCatch :=
  {| cc_id := cc_id c; cc_instance_id := cc_instance_id c; cc_node_id := cc_node_id c;
     cc_condition := cc_condition c; cc_token_id := cc_token_id c; cc_last_result := b |}.

Section conditional.
  Context {U : UnicodeData}.

Definition record_conditional_caught (c : PendingConditionalCatch) : M unit :=
  record_history_event (cc_instance_id c) ConditionalCaught
    ("Conditional event '" +:+ cc_node_id c +:+ "' caught (" +:+ cc_condition c +:+ ")") ActorEngine None None.

(** The successor of a catch, with the error the caller wraps it in. *)
Definition successor (d : ProcessDefinition) (what : string) (node : string) (vars : Vars) : EngineResult string :=
  map_err (λ err, InvalidDefinition (what +:+ " '" +:+ node +:+ "' has no valid successor: " +:+ error_text err))
    (resolve_next_target d node vars).

(** A catch that ends: its token leaves the instance with the instance's variables. *)
Definition release_token (c : PendingConditionalCatch) (vars : Vars) (next entry : string) (i : ProcessInstance)
    : EngineResult Token * ProcessInstance :=
  match pi_tokens i !! cc_token_id c with
  | None => (Err (token_missing (cc_token_id c)), i)
  | Some t =>
    (Ok (set_node next (set_variables vars t)),
     wake entry (i <| pi_tokens ::= delete (cc_token_id c) |> <| pi_current_node := next |>))
  end.

(** A catch that stays: a copy of its token leaves. *)
Definition spawn_token (c : PendingConditionalCatch) (vars : Vars) (next entry : string) (fresh : Uuid)
    (i : ProcessInstance) : EngineResult Token * ProcessInstance :=
  match pi_tokens i !! cc_token_id c with
  | None => (Err (token_missing (cc_token_id c)), i)
  | Some t =>
    let t := set_node next (set_variables vars (rename_token fresh t)) in
    let i := i <| pi_tokens ::= <[fresh := t]> |>
               <| pi_active_tokens ::= (λ l, l ++ [mkActive t (Some (cc_node_id c)) (length l) false]) |> in
    let i := if is_parallel (pi_state i) then i else i <| pi_state := ParallelExecution (size (pi_tokens i)) |> in
    (Ok t, push_audit_log entry i)
  end.

Definition fire_catch (id : Uuid) (d : ProcessDefinition) (vars : Vars) (c : PendingConditionalCatch) : M (option Token) :=
  let entry what tail :=
    "⏳ " +:+ what +:+ " '" +:+ cc_node_id c +:+ "' fired (" +:+ cc_condition c +:+ "); " +:+ tail in
  match nodes d !! cc_node_id c with
  | Some (ConditionalCatchEvent _) =>
    next ← lift (successor d "Conditional catch" (cc_node_id c) vars);
    t ← with_instance id (release_token c vars next (entry "Conditional catch" "continuing"));
    remove_persisted_conditional_catch (cc_id c) ;;
    record_conditional_caught c ;;
    mret (Some t)
  | Some (BoundaryConditionalEvent _ _ true) =>
    clear_wait_states_for_token id (cc_token_id c) ;;
    cancel_pending_activity id (cc_token_id c) ;;
    next ← lift (successor d "Boundary conditional event" (cc_node_id c) vars);
    t ← with_instance id (release_token c vars next
          (entry "Interrupting boundary conditional" "activity cancelled"));
    remove_persisted_conditional_catch (cc_id c) ;;
    record_conditional_caught c ;;
    mret (Some t)
  | Some (BoundaryConditionalEvent _ _ false) =>
    next ← lift (successor d "Boundary conditional event" (cc_node_id c) vars);
    fresh ← new_uuid;
    t ← with_instance id (spawn_token c vars next
          (entry "Non-interrupting boundary conditional" "activity continues") fresh);
    let still_pending := set_last_result true c in
    insert_conditional_catch still_pending ;;
    persist_conditional_catch (cc_id c) ;;
    record_conditional_caught still_pending ;;
    mret (Some t)
  | _ =>
    remove_persisted_conditional_catch (cc_id c) ;;
    mret None
  end.

(** One catch of the snapshot, against the variables of the round. *)
Definition evaluate_catch (id : Uuid) (d : ProcessDefinition) (vars : Vars) (c : PendingConditionalCatch)
    : M (option Token) :=
  if evaluate_condition (cc_condition c) vars then
    if cc_last_result c then mret None
    else
      found ← gets (λ e, e_conditional_catches e !! cc_id c);
      match found with
      | None => mret None
      | Some c =>
        remove_conditional_catch (cc_id c) ;;
        fire_catch id d vars c
      end
  else
    when (cc_last_result c)
      (modify (λ e, e <| e_conditional_catches ::= alter (set_last_result false) (cc_id c) |>) ;;
       persist_conditional_catch (cc_id c)) ;;
    mret None.

(** [fire_conditional_catches]: the tokens that were released. *)
Definition fire_conditional_catches (id : Uuid) : M (list Token) :=
  catches ← gets (λ e, List.filter (λ c, bool_decide (cc_instance_id c = id)) (map_to_list (e_conditional_catches e)).*2);
  mi ← gets (λ e, e_instances e !! id);
  match catches, mi with
  | [], _ | _, None => mret []
  | _, Some i =>
    if is_suspended (pi_state i) || is_terminal (pi_state i) then mret []
    else
      md ← gets (λ e, e_definitions e !! pi_definition_key i);
      match md with
      | None => mret []
      | Some d =>
        fired ← mapM catches (evaluate_catch id d (pi_variables i));
        mret (omap Datatypes.id fired)
      end
  end.

(** ** Edges *)

(** A conditional catch reacts to edges only: a condition that stays false, or
    stays true, changes nothing; one that has become false re-arms the catch and
    releases no token; and a token is released only when a pending catch whose
    last result was false is evaluated to true. *)
Theorem conditional_edge id d vars c e :
  match evaluate_condition (cc_condition c) vars, cc_last_result c with
  | false, false | true, true => evaluate_catch id d vars c e = (Ok None, e)
  | false, true => ∃ u l, evaluate_catch id d vars c e =
      (Ok None, sent u l (e <| e_conditional_catches ::= alter (set_last_result false) (cc_id c) |>))
  | true, false =>
      e_conditional_catches e !! cc_id c = None → evaluate_catch id d vars c e = (Ok None, e)
  end.
Proof.
  unfold evaluate_catch. destruct (evaluate_condition _ _), (cc_last_result c); [done| | |done].
  - intros Hnone. rewrite bind_run. cbn [gets]. by rewrite Hnone.
  - rewrite bind_run. cbn [when]. rewrite bind_run. cbn [modify].
    match goal with |- context [persist_conditional_catch ?x ?e0] => destruct (quiet_persist_if
      (λ e, e_conditional_catches e !! x) (PersistConditionalCatch x) e0) as (u & l & Heq & _) end.
    unfold persist_conditional_catch. rewrite Heq. eauto.
Qed.
End conditional.
