(* ===== verification/NextAction.v ===== *)
(** * What the executor does with a step's action

    engine-core/src/engine/executor/next_action.rs: the action of a step is
    turned into new entries of the queue, pending work, a state of the instance,
    or the end of a branch or of the process. *)

From stdpp Require Import base list gmap strings pretty.
From S2P Require Import Prelude Text Float Json CondLexer CondParser CondEval Domain Token ProcessDef DataMappings Runtime History Graph Registry Index TopicIndex TimerIndex Engine Scripts Handlers Join Boundary Waits EventScope ProcessStart.
Local Open Scope rust_scope.

(** An instance that is not parallel shows what it waits for. *)
Definition set_waiting (s : InstanceState) (i : ProcessInstance) : ProcessInstance :=
  if is_parallel (pi_state i) then i else i <| pi_state := s |>.
(** The instance ends with a state. *)
Definition finish (s : InstanceState) (at_ : DateTime) (i : ProcessInstance) : ProcessInstance :=
  i <| pi_state := s |> <| pi_completed_at := Some at_ |>.

(** [queue_scope_activation]. *)
Definition queue_scope_activation (queue : list Token) (a : ScopeActivation) : list Token :=
  match a with
  | Interrupting t => [t]
  | Parallel t => queue ++ [t]
  end.

Section next_action.
  Context {U : UnicodeData} {S : ScriptEngine} {C : CronLib} {R : Nested}.

Definition node_is_inclusive_split (id : Uuid) (node : string) : M bool :=
  i ← get_instance id;
  d ← get_definition (pi_definition_key i);
  mret (match get_node d node with Some InclusiveGateway => is_split_gateway d node | _ => false end).

(** Whether the token runs in a handler, and the variables it shows. *)
Definition token_event_context (id token_id : Uuid) : M (option string * Vars) :=
  mi ← gets (λ e, e_instances e !! id);
  mret match mi with
       | None => (None, ∅)
       | Some i =>
         (pi_event_handler_tokens i !! token_id,
          match pi_tokens i !! token_id with Some t => process_variables t | None => pi_variables i end)
       end.

(** [fail_call_activity]; the caller's queue is cleared. *)
Definition fail_call_activity (id : Uuid) (error_code detail : string) : M unit :=
  at_ ← now;
  try_update_instance id (λ i, push_audit_log ("💥 " +:+ error_code +:+ ": " +:+ detail)
    (finish (CompletedWithError error_code) at_ i)) ;;
  record_history_event id HistoryError (error_code +:+ ": " +:+ detail) ActorEngine None None ;;
  persist_instance id.

(** Registers the branches of a split and queues their tokens. *)
Fixpoint queue_branches (id : Uuid) (fork : string) (idx : nat) (ts : list Token) (queue : list Token) : M (list Token) :=
  match ts with
  | [] => mret queue
  | t :: ts =>
    register_active_token id fork idx t ;;
    queue_branches id fork (Datatypes.S idx) ts (queue ++ [t])
  end.

Definition fork_state (token_id : Uuid) (n : nat) (i : ProcessInstance) : ProcessInstance :=
  let i := i <| pi_active_tokens ::= complete_active token_id |> in
  i <| pi_state := ParallelExecution (length (pi_active_tokens i) + n) |>.

(** The alternatives of an event-based gateway. *)
Definition add_alternative (a : NextAction) : M unit :=
  match a with
  | WaitForTimer p => add_timer p
  | WaitForMessage p => add_message_catch p
  | WaitForSignal p => add_signal_catch p
  | _ => mret tt
  end.

(** [WaitForCallActivity]: any deployed version with the called id. *)
Definition start_call (id : Uuid) (called : string) (t : Token) (queue : list Token) : M (list Token) :=
  key ← gets (λ e, find_map (λ '(k, d), if bool_decide (def_id d = called) then Some k else None)
                     (map_to_list (e_definitions e)));
  queue ← match key with
          | Some k =>
            r ← try (spawn_call_activity_for_parent k id t);
            match r with
            | Ok _ => mret queue
            | Err err =>
              fail_call_activity id "CALL_ACTIVITY_SPAWN_FAILED"
                ("Failed to start call activity '" +:+ called +:+ "': " +:+ error_text err) ;;
              mret []
            end
          | None =>
            fail_call_activity id "CALL_ACTIVITY_TARGET_NOT_FOUND"
              ("Call Activity target '" +:+ called +:+ "' not found deployed") ;;
            mret []
          end;
  persist_instance id ;;
  mret queue.

(** A branch ends: its active entry is completed and its token removed. *)
Definition end_branch (id token_id : Uuid) : M unit :=
  complete_branch_token id token_id ;;
  try_update_instance id (λ i, i <| pi_tokens ::= delete token_id |>).

Definition complete_path (id token_id : Uuid) : M unit :=
  end_branch id token_id ;;
  finished ← all_tokens_completed id;
  when finished
    (close_event_scope id ;;
     at_ ← now;
     try_update_instance id (λ i, log_raw "⏹ All tokens completed. Process fully completed." (finish Completed at_ i)) ;;
     record_history_event id InstanceCompleted "Process fully completed" ActorEngine None None) ;;
  persist_instance id.

(** The end of a path with an error or an escalation: an event sub-process may
    catch it, otherwise the last path ends the instance with [finishes]. *)
Definition end_with_code (id token_id : Uuid) (code : string) (escalation : bool) (description : string)
    (finishes : DateTime → Uuid → ProcessInstance → ProcessInstance) (queue : list Token) : M (list Token) :=
  complete_branch_token id token_id ;;
  '(exclude, vars) ← token_event_context id token_id;
  try_update_instance id (λ i, i <| pi_tokens ::= delete token_id |>) ;;
  activation ← try_activate_event_code id code escalation vars exclude;
  queue ← match activation with
          | Some a => persist_instance id ;; mret (queue_scope_activation queue a)
          | None =>
            finished ← all_tokens_completed id;
            when finished
              (at_ ← now;
               fresh ← new_uuid;
               try_update_instance id (finishes at_ fresh) ;;
               record_history_event id InstanceCompleted description ActorEngine None None ;;
               close_event_scope id) ;;
            mret queue
          end;
  persist_instance id ;;
  mret queue.

Definition finish_with_error (code : string) (at_ : DateTime) (fresh : Uuid) (i : ProcessInstance) : ProcessInstance :=
  let i := log_raw ("💥 All tokens completed at Error End with code '" +:+ code +:+ "'")
             (finish (CompletedWithError code) at_ i) in
  (push_or_touch_incident at_ fresh KBpmnError (Some (pi_current_node i)) None
     ("Unhandled BPMN error '" +:+ code +:+ "'") None i).2.
Definition finish_with_escalation (code : string) (at_ : DateTime) (_ : Uuid) (i : ProcessInstance) : ProcessInstance :=
  push_audit_log ("⚡ All tokens completed with escalation '" +:+ code +:+ "'") (finish Completed at_ i).

(** [Terminate]: the pending maps lose the instance's entries; their stored
    records stay. *)
Definition terminate (id : Uuid) : M unit :=
  close_event_scope id ;;
  modify (forget_pending id) ;;
  at_ ← now;
  try_update_instance id (λ i, log_raw "⛔ Process terminated. All tokens killed."
    (finish Completed at_ (i <| pi_active_tokens ::= fmap set_completed |>))) ;;
  record_history_event id InstanceCompleted "Process terminated via TerminateEndEvent" ActorEngine None None ;;
  persist_instance id.

(** [handle_next_action]: the queue after the action. *)
Definition handle_next_action (a : NextAction) (id token_id : Uuid) (node : string) (queue : list Token) : M (list Token) :=
  match a with
  | Continue t =>
    split ← node_is_inclusive_split id node;
    when split (register_join_barrier_if_needed id node 1) ;;
    mret (queue ++ [t])
  | ContinueMultiple ts =>
    register_join_barrier_if_needed id node (length ts) ;;
    try_update_instance id (λ i, fork_state token_id (length ts) i <| pi_current_node := node |>) ;;
    queue_branches id node 0 ts queue
  | WaitForJoin gateway t =>
    merged ← arrive_at_join id gateway t;
    match merged with
    | Some m =>
      try_update_instance id (λ i, i <| pi_state := Running |> <| pi_current_node := gateway |>) ;;
      mret (queue ++ [m])
    | None => mret queue
    end
  | WaitForUser p =>
    try_update_instance id (set_waiting (WaitingOnUserTask (ut_task_id p))) ;;
    add_user_task p ;;
    persist_instance id ;;
    emit_event TaskChanged ;;
    mret queue
  | WaitForServiceTask p =>
    try_update_instance id (set_waiting (WaitingOnServiceTask (st_id p))) ;;
    add_service_task p ;;
    persist_instance id ;;
    emit_event TaskChanged ;;
    mret queue
  | WaitForTimer p =>
    try_update_instance id (set_waiting (WaitingOnTimer (pt_id p))) ;;
    add_timer p ;;
    persist_instance id ;;
    mret queue
  | WaitForMessage p =>
    try_update_instance id (set_waiting (WaitingOnMessage (mc_id p))) ;;
    add_message_catch p ;;
    persist_instance id ;;
    mret queue
  | WaitForSignal p =>
    try_update_instance id (set_waiting (WaitingOnSignal (sc_id p))) ;;
    add_signal_catch p ;;
    persist_instance id ;;
    mret queue
  | WaitForCondition p =>
    try_update_instance id (set_waiting (WaitingOnCondition (cc_id p))) ;;
    add_conditional_catch p ;;
    persist_instance id ;;
    mret queue
  | WaitForEventGroup actions =>
    try_update_instance id (set_waiting WaitingOnEventBasedGateway) ;;
    forM actions add_alternative ;;
    persist_instance id ;;
    mret queue
  | WaitForCallActivity called t => start_call id called t queue
  | Complete => complete_path id token_id ;; mret queue
  | ErrorEnd code =>
    end_with_code id token_id code false ("Process completed with error code '" +:+ code +:+ "'")
      (finish_with_error code) queue
  | EscalationEnd code =>
    end_with_code id token_id code true ("Process completed via escalation '" +:+ code +:+ "'")
      (finish_with_escalation code) queue
  | SpawnAndContinue main spawned => mret (queue ++ [main] ++ spawned)
  | InterruptScope t => mret [t]
  | Terminate => terminate id ;; mret []
  | MultiInstanceFork mi_node ts =>
    let join := "MI_JOIN_" +:+ mi_node in
    update_instance id (λ i, fork_state token_id (length ts)
      (i <| pi_join_barriers ::= <[join := mkBarrier join (length ts) []]> |>)) ;;
    queue_branches id mi_node 0 ts queue
  | MultiInstanceNext _ t => mret (queue ++ [t])
  end.

(** ** Termination of the instance *)

End next_action.

