(* ===== verification/InstanceOps.v ===== *)
(** * Administration of instances

    engine-core/src/engine/instance_ops.rs: direct changes of variables, suspend and
    resume, moving a token, migration to another definition, deletion, and the
    lists and numbers shown to operators; at the end incidents.rs, the record of an
    incident on an instance and its resolution by hand. *)

From stdpp Require Import base list gmap strings pretty sorting.
From S2P Require Import Prelude Text Float Json Runtime CondLexer CondParser CondEval Domain Token ProcessDef DataMappings History Graph Registry Index TopicIndex TimerIndex Engine Scripts Handlers Join Boundary Waits EventScope Signals Conditional NextAction.
Local Open Scope rust_scope.

(** ** Numbers and lists *)

Record EngineStats := {
  definitions_count : nat;
  instances_total : nat;
  instances_running : nat;
  instances_completed : nat;
  instances_waiting_user : nat;
  instances_waiting_service : nat;
  stat_user_tasks : nat;
  stat_service_tasks : nat;
  stat_timers : nat;
  stat_message_catches : nat;
  stat_signal_catches : nat;
  stat_conditional_catches : nat;
  persistence_errors : N;
  pending_retry_jobs : nat;
}.
Definition count_states (p : InstanceState → bool) (e : Engine) : nat :=
  count (λ i, p (pi_state i)) (map_to_list (e_instances e)).*2.
(** [get_stats]; the counter of failed writes is the persistence layer's. *)
Definition get_stats (persistence_error_count : N) (e : Engine) : EngineStats :=
  {| definitions_count := size (e_definitions e);
     instances_total := size (e_instances e);
     instances_running := count_states (λ s, match s with Running => true | _ => false end) e;
     instances_completed := count_states is_terminal e;
     instances_waiting_user := count_states (λ s, match s with WaitingOnUserTask _ => true | _ => false end) e;
     instances_waiting_service := count_states (λ s, match s with WaitingOnServiceTask _ => true | _ => false end) e;
     stat_user_tasks := size (e_user_tasks e);
     stat_service_tasks := size (primary (e_service_tasks e));
     stat_timers := size (primary (e_timers e));
     stat_message_catches := size (e_message_catches e);
     stat_signal_catches := size (e_signal_catches e);
     stat_conditional_catches := size (e_conditional_catches e);
     persistence_errors := persistence_error_count;
     pending_retry_jobs := 0 |}.

(** The sort key of a page: latest start first, an unknown start last, then by id. *)
Definition page_le (a b : option DateTime * Uuid) : Prop :=
  match a.1, b.1 with
  | Some s, Some s' => (s' < s)%Z ∨ s = s' ∧ (a.2 ≤ b.2)%N
  | Some _, None => True
  | None, Some _ => False
  | None, None => (a.2 ≤ b.2)%N
  end.
#[export] Instance page_le_dec a b : Decision (page_le a b).
Proof. unfold page_le. destruct a.1, b.1; apply _. Defined.

Record InstancePage := { page_items : list ProcessInstance; page_total : nat }.

(** [list_instances_page]. *)
Definition page_keys (e : Engine) : list (option DateTime * Uuid) :=
  merge_sort page_le ((λ '(id, i), (pi_started_at i, id)) <$> map_to_list (e_instances e)).
Definition list_instances_page (offset : nat) (limit : option nat) (e : Engine) : InstancePage :=
  let total := size (e_instances e) in
  let start := offset `min` total in
  let stop := match limit with Some n => (start + n) `min` total | None => total end in
  {| page_items := omap (λ k, e_instances e !! k.2) (take (stop - start) (drop start (page_keys e)));
     page_total := total |}.
Definition list_instances (e : Engine) : list ProcessInstance := page_items (list_instances_page 0 None e).

(** The business key of a task that has none is its instance's. *)
Definition enrich (e : Engine) (instance_id : Uuid) (bk : option string) : option string :=
  match bk with
  | Some _ => bk
  | None =>
    i ← e_instances e !! instance_id;
    if bool_decide (pi_business_key i = EmptyString) then None else Some (pi_business_key i)
  end.
Definition get_pending_user_tasks_enriched (e : Engine) : list PendingUserTask :=
  (λ t, {| ut_task_id := ut_task_id t; ut_instance_id := ut_instance_id t; ut_node_id := ut_node_id t;
           ut_assignee := ut_assignee t; ut_token_id := ut_token_id t; ut_created_at := ut_created_at t;
           ut_business_key := enrich e (ut_instance_id t) (ut_business_key t) |}) <$> (map_to_list (e_user_tasks e)).*2.

Definition get_pending_service_tasks_enriched (e : Engine) : list PendingServiceTask :=
  (λ t, mkServiceTask (st_id t) (st_instance_id t) (st_definition_key t) (st_node_id t) (st_topic t) (st_token_id t)
      (enrich e (st_instance_id t) (st_business_key t)) (st_variables_snapshot t) (st_created_at t) (st_worker_id t)
      (st_lock_expiration t) (st_retries t) (st_error_message t) (st_error_details t))
    <$> (map_to_list (primary (e_service_tasks e))).*2.

(** An instance that is no longer in the map may be in the store's archive;
    [archived] is the store's answer. *)
Definition get_instance_or_archived (archived : EngineResult (option ProcessInstance)) (id : Uuid) (e : Engine)
    : EngineResult ProcessInstance :=
  match e_instances e !! id with
  | Some i => Ok i
  | None =>
    found ←? archived;
    ok_or (NoSuchInstance id) found
  end.
Definition get_instance_state (archived : EngineResult (option ProcessInstance)) (id : Uuid) (e : Engine)
    : EngineResult InstanceState :=
  i ←? get_instance_or_archived archived id e; Ok (pi_state i).
Definition get_audit_log (archived : EngineResult (option ProcessInstance)) (id : Uuid) (e : Engine)
    : EngineResult (list string) :=
  i ←? get_instance_or_archived archived id e; Ok (pi_audit_log i).
Definition get_instance_incidents (archived : EngineResult (option ProcessInstance)) (id : Uuid) (e : Engine)
    : EngineResult (list Incident) :=
  i ←? get_instance_or_archived archived id e; Ok (pi_incidents i).

(** ** Variables *)

Definition is_null (v : Value) : bool := match v with VNull => true | _ => false end.
(** A null value removes the key. *)
Definition put_var (vs : Vars) (kv : string * Value) : Vars :=
  if is_null kv.2 then delete kv.1 vs else <[kv.1 := kv.2]> vs.
Definition put_vars (updates : Vars) (vs : Vars) : Vars := fold_left put_var (map_to_list updates) vs.

(** How many keys the update adds, changes and removes. *)
Definition added_count (updates vs : Vars) : nat :=
  count (λ kv, negb (is_null kv.2) && bool_decide (vs !! kv.1 = None)) (map_to_list updates).
Definition modified_count (updates vs : Vars) : nat :=
  count (λ kv, negb (is_null kv.2) && bool_decide (is_Some (vs !! kv.1))) (map_to_list updates).
Definition deleted_count (updates vs : Vars) : nat :=
  count (λ kv, is_null kv.2 && bool_decide (is_Some (vs !! kv.1))) (map_to_list updates).

(** One update on a waiting token: inside an activation the variables to return
    to change, and a local name is left alone. *)
Definition put_token_var (t : Token) (kv : string * Value) : Token :=
  match data_scope t with
  | Some s =>
    let t := set_scope (Some {| scope_node := scope_node s; original_variables := put_var (original_variables s) kv;
               local_names := local_names s |}) t in
    if existsb (λ n, bool_decide (n = kv.1)) (local_names s) then t
    else set_variables (put_var (variables t) kv) t
  | None => set_variables (put_var (variables t) kv) t
  end.
Definition put_token_vars (updates : Vars) (t : Token) : Token := fold_left put_token_var (map_to_list updates) t.

Definition update_variables_in (updates : Vars) (i : ProcessInstance) : ProcessInstance :=
  push_audit_log ("Variables updated: +" +:+ pretty (added_count updates (pi_variables i)) +:+ " ~"
      +:+ pretty (modified_count updates (pi_variables i)) +:+ " -" +:+ pretty (deleted_count updates (pi_variables i)))
    (i <| pi_variables ::= put_vars updates |>).

Section instance_ops.
  Context {U : UnicodeData} {R : Nested}.

Definition update_instance_variables (id : Uuid) (updates : Vars) : M unit :=
  old_state ← gets (λ e, e_instances e !! id);
  update_instance id (update_variables_in updates) ;;
  update_instance id (λ i, i <| pi_tokens ::= fmap (put_token_vars updates) |>) ;;
  record_history_event id VariableUpdated "Variables updated directly" ActorUser None old_state ;;
  persist_instance id ;;
  fired ← fire_conditional_catches id;
  match fired with
  | [] => mret tt
  | _ => run_instance_batch_with_tokens id fired
  end.

(** ** Suspend and resume *)

Definition suspend_in (id : Uuid) (i : ProcessInstance) : EngineResult unit * ProcessInstance :=
  match pi_state i with
  | Completed | CompletedWithError _ => (Err AlreadyCompleted, i)
  | Suspended _ => (Err (InstanceSuspended id), i)
  | s => (Ok tt, push_audit_log "⏸ Instance suspended" (i <| pi_state := Suspended s |>))
  end.
Definition suspend_instance (id : Uuid) : M unit :=
  old_state ← get_instance id;
  with_instance id (suspend_in id) ;;
  record_history_event id InstanceWasSuspended "Instance suspended" ActorUser None (Some old_state) ;;
  persist_instance id.

Definition resume_in (i : ProcessInstance) : EngineResult unit * ProcessInstance :=
  match pi_state i with
  | Suspended previous => (Ok tt, push_audit_log "▶ Instance resumed" (i <| pi_state := previous |>))
  | _ => (Err (InvalidDefinition "Instance is not suspended"), i)
  end.
Definition resume_instance (id : Uuid) : M unit :=
  old_state ← get_instance id;
  with_instance id resume_in ;;
  record_history_event id InstanceResumed "Instance resumed" ActorUser None (Some old_state) ;;
  persist_instance id.

(** ** Moving the token *)

(** Only a live instance can be changed. *)
Definition check_live (id : Uuid) (s : InstanceState) : EngineResult unit :=
  match s with
  | Completed | CompletedWithError _ => Err AlreadyCompleted
  | Suspended _ => Err (InstanceSuspended id)
  | _ => Ok tt
  end.

(** [move_token]. *)
Definition move_token (id : Uuid) (target : string) (vars : Vars) (cancel_current : bool) : M unit :=
  i ← get_instance id;
  lift (check_live id (pi_state i)) ;;
  d ← get_definition (pi_definition_key i);
  lift (guard (bool_decide (is_Some (nodes d !! target))) (NoSuchNode target)) ;;
  when cancel_current (cancel_scope_waits id) ;;
  current ← get_instance id;
  let token_vars := put_vars vars (pi_variables current) in
  tid ← new_uuid;
  let t := with_variables tid target token_vars in
  update_instance id (λ x, push_audit_log ("🎯 Token moved: '" +:+ pi_current_node i +:+ "' → '" +:+ target +:+ "'")
    (x <| pi_tokens := {[tid := t]} |> <| pi_active_tokens := [] |> <| pi_join_barriers := ∅ |>
       <| pi_multi_instance_state := ∅ |> <| pi_state := Running |> <| pi_current_node := target |>
       <| pi_variables := token_vars |>)) ;;
  record_history_event id TokenMoved ("Token manually moved from '" +:+ pi_current_node i +:+ "' to '" +:+ target +:+ "'")
    ActorUser None (Some i) ;;
  persist_instance id ;;
  run_instance_batch id t.
End instance_ops.

(** ** Migration *)

Definition remap (mapping : gmap string string) (node : string) : string := default node (mapping !! node).
Definition remap_token (mapping : gmap string string) (t : Token) : Token := set_node (remap mapping (current_node t)) t.
Definition remap_keys {V} (mapping : gmap string string) (m : gmap string V) : gmap string V :=
  list_to_map ((λ kv, (remap mapping kv.1, kv.2)) <$> map_to_list m).

(** The nodes of the instance and of its tokens must exist in the target. *)
Definition check_node (mapping : gmap string string) (d : ProcessDefinition) (node : string) : EngineResult unit :=
  guard (bool_decide (is_Some (nodes d !! remap mapping node))) (OrphanedToken (remap mapping node)).
Definition migration_nodes (i : ProcessInstance) : list string :=
  pi_current_node i :: (current_node <$> (map_to_list (pi_tokens i)).*2)
    ++ ((λ a, current_node (at_token a)) <$> pi_active_tokens i).

Definition migrate_in (mapping : gmap string string) (d : ProcessDefinition) (i : ProcessInstance) : ProcessInstance :=
  push_audit_log ("🔧 Migriert zu Definition " +:+ def_id d +:+ " (v" +:+ pretty (version d) +:+ ")")
    (i <| pi_current_node ::= remap mapping |> <| pi_tokens ::= fmap (remap_token mapping) |>
       <| pi_active_tokens ::= fmap (λ a, mkActive (remap_token mapping (at_token a)) (at_fork_id a)
                                          (at_branch_index a) (at_completed a)) |>
       <| pi_join_barriers ::= remap_keys mapping |> <| pi_multi_instance_state ::= remap_keys mapping |>).

(** The pending work of the instance follows, in memory only. *)
Definition remap_user_task (mapping : gmap string string) (id : Uuid) (t : PendingUserTask) : PendingUserTask :=
  if bool_decide (ut_instance_id t = id) then
    {| ut_task_id := ut_task_id t; ut_instance_id := ut_instance_id t; ut_node_id := remap mapping (ut_node_id t);
       ut_assignee := ut_assignee t; ut_token_id := ut_token_id t; ut_created_at := ut_created_at t;
       ut_business_key := ut_business_key t |}
  else t.
Definition remap_service_task (mapping : gmap string string) (id target_key : Uuid) (t : PendingServiceTask) : PendingServiceTask :=
  if bool_decide (st_instance_id t = id) then
    mkServiceTask (st_id t) (st_instance_id t) target_key (remap mapping (st_node_id t)) (st_topic t) (st_token_id t)
      (st_business_key t) (st_variables_snapshot t) (st_created_at t) (st_worker_id t) (st_lock_expiration t)
      (st_retries t) (st_error_message t) (st_error_details t)
  else t.
Definition remap_timer (mapping : gmap string string) (id : Uuid) (t : PendingTimer) : PendingTimer :=
  if bool_decide (pt_instance_id t = id) then
    mkTimer (pt_id t) (pt_instance_id t) (remap mapping (pt_node_id t)) (pt_expires_at t) (pt_token_id t)
      (pt_timer_def t) (pt_remaining_repetitions t)
  else t.
Definition remap_message (mapping : gmap string string) (id : Uuid) (c : PendingMessageCatch) : PendingMessageCatch :=
  if bool_decide (mc_instance_id c = id) then
    {| mc_id := mc_id c; mc_instance_id := mc_instance_id c; mc_node_id := remap mapping (mc_node_id c);
       mc_message_name := mc_message_name c; mc_token_id := mc_token_id c |}
  else c.
Definition remap_signal (mapping : gmap string string) (id : Uuid) (c : PendingSignalCatch) : PendingSignalCatch :=
  if bool_decide (sc_instance_id c = id) then
    {| sc_id := sc_id c; sc_instance_id := sc_instance_id c; sc_node_id := remap mapping (sc_node_id c);
       sc_signal_name := sc_signal_name c; sc_token_id := sc_token_id c |}
  else c.
Definition remap_conditional (mapping : gmap string string) (id : Uuid) (c : PendingConditionalCatch) : PendingConditionalCatch :=
  if bool_decide (cc_instance_id c = id) then
    {| cc_id := cc_id c; cc_instance_id := cc_instance_id c; cc_node_id := remap mapping (cc_node_id c);
       cc_condition := cc_condition c; cc_token_id := cc_token_id c; cc_last_result := cc_last_result c |}
  else c.

Definition remap_pending (mapping : gmap string string) (id target_key : Uuid) (e : Engine) : Engine :=
  e <| e_user_tasks ::= fmap (remap_user_task mapping id) |>
    <| e_service_tasks ::= (λ s, mkStore (remap_service_task mapping id target_key <$> primary s) (index s)) |>
    <| e_timers ::= (λ s, mkStore (remap_timer mapping id <$> primary s) (index s)) |>
    <| e_message_catches ::= fmap (remap_message mapping id) |>
    <| e_signal_catches ::= fmap (remap_signal mapping id) |>
    <| e_conditional_catches ::= fmap (remap_conditional mapping id) |>.

(** [migrate_instance]. *)
Definition migrate_instance (id target_key : Uuid) (mapping : gmap string string) : M unit :=
  d ← get_definition target_key;
  old_state ← get_instance id;
  lift (check_live id (pi_state old_state)) ;;
  lift (for_each (check_node mapping d) (migration_nodes old_state)) ;;
  update_instance id (λ i, migrate_in mapping d (i <| pi_definition_key := target_key |>)) ;;
  modify (remap_pending mapping id target_key) ;;
  record_history_event id InstanceMigrated
    ("Instanz zu Definition '" +:+ def_id d +:+ "' (v" +:+ pretty (version d) +:+ ") migriert") ActorUser None (Some old_state) ;;
  persist_instance id.

(** ** Deletion *)

(** [delete_instance]; [answer] is the store's answer to the deletion of the
    instance record. *)
Definition delete_instance (answer : EngineResult unit) (id : Uuid) : M unit :=
  removed ← get_instance id;
  modify (λ e, e <| e_instances ::= delete id |>) ;;
  forM (omap from_variable_value (map_to_list (pi_variables removed)).*2) (λ f, emit (DeleteFile (object_key f))) ;;
  users ← gets (λ e, ids_of ut_task_id (λ t, bool_decide (ut_instance_id t = id)) (e_user_tasks e));
  services ← gets (λ e, ids_of st_id (λ t, bool_decide (st_instance_id t = id)) (primary (e_service_tasks e)));
  timers ← gets (λ e, ids_of pt_id (λ t, bool_decide (pt_instance_id t = id)) (primary (e_timers e)));
  messages ← gets (λ e, ids_of mc_id (λ c, bool_decide (mc_instance_id c = id)) (e_message_catches e));
  signals ← gets (λ e, ids_of sc_id (λ c, bool_decide (sc_instance_id c = id)) (e_signal_catches e));
  conditionals ← gets (λ e, ids_of cc_id (λ c, bool_decide (cc_instance_id c = id)) (e_conditional_catches e));
  forM users remove_persisted_user_task ;;
  forM services remove_persisted_service_task ;;
  forM timers remove_persisted_timer ;;
  forM messages remove_persisted_message_catch ;;
  forM signals remove_persisted_signal_catch ;;
  forM conditionals remove_persisted_conditional_catch ;;
  emit (DeleteInstance id) ;;
  lift answer ;;
  modify (forget_pending id).

(** ** Suspend and resume *)

Lemma with_instance_run {A} id (f : ProcessInstance → EngineResult A * ProcessInstance) e i :
  e_instances e !! id = Some i →
  with_instance id f e = (map_err Throws (f i).1, e <| e_instances := <[id := (f i).2]> (e_instances e) |>).
Proof.
  intros Hi. unfold with_instance. rewrite bind_run, get_instance_run, Hi. destruct (f i) as [r i'].
  by rewrite bind_run.
Qed.

(** What an operation that only changes a state and logs it leaves. *)
Lemma logged_change_run id ev descr (f : ProcessInstance → EngineResult unit * ProcessInstance) old e i :
  e_instances e !! id = Some i → (f i).1 = Ok tt →
  ∃ e', (with_instance id f ;; record_history_event id ev descr ActorUser None old ;; persist_instance id) e = (Ok tt, e') ∧
    pending_maps e' = pending_maps e ∧
    e_instances e' = <[id := (f i).2 <| pi_audit_log ::= trim_for_persist |>]> (e_instances e).
Proof.
  intros Hi Hf. rewrite bind_run, (with_instance_run id f e i Hi), Hf. cbn [map_err]. quiet_step u l Hu.
  match goal with |- context [persist_instance id ?e0] =>
    destruct (persist_instance_some id e0 _ (lookup_insert_eq _ _ _)) as (e' & Hp & Hmaps & He' & _) end.
  exists e'. split; [done|]. split; [by rewrite Hmaps|]. rewrite He'. cbn. by rewrite insert_insert_eq.
Qed.

(** C25: Suspending a live instance and resuming it succeeds and brings back the
    instance as it was, its state included; only the audit log has grown, and
    no pending work and no other instance is touched. *)
Theorem suspend_resume_roundtrip id e i :
  e_instances e !! id = Some i → check_live id (pi_state i) = Ok tt →
  ∃ e1 e2 i', suspend_instance id e = (Ok tt, e1) ∧ resume_instance id e1 = (Ok tt, e2) ∧
    e_instances e2 = <[id := i']> (e_instances e) ∧ i' <| pi_audit_log := pi_audit_log i |> = i ∧
    pending_maps e2 = pending_maps e.
Proof.
  intros Hi Hlive. assert (∃ i1, suspend_in id i = (Ok tt, i1) ∧ pi_state i1 = Suspended (pi_state i) ∧
    i1 <| pi_audit_log := pi_audit_log i |> = i <| pi_state := Suspended (pi_state i) |>) as (i1 & Hsus & Hst & Heq).
  { unfold suspend_in. destruct (pi_state i) eqn:Hst; try done; (eexists; split; [reflexivity|]; split; [done|by rewrite <- Hst]). }
  destruct (logged_change_run id InstanceWasSuspended "Instance suspended" (suspend_in id) (Some i) e i)
    as (e1 & Hrun1 & Hm1 & Hi1); [done|by rewrite Hsus|]. rewrite Hsus in Hi1. cbn [snd] in Hi1.
  set (j := i1 <| pi_audit_log ::= trim_for_persist |>) in Hi1.
  assert (e_instances e1 !! id = Some j) as Hj by (by rewrite Hi1, lookup_insert_eq).
  assert (resume_in j = (Ok tt, push_audit_log "▶ Instance resumed" (j <| pi_state := pi_state i |>))) as Hres.
  { unfold resume_in. subst j. cbn. by rewrite Hst. }
  destruct (logged_change_run id InstanceResumed "Instance resumed" resume_in (Some j) e1 j)
    as (e2 & Hrun2 & Hm2 & Hi2); [done|by rewrite Hres|]. rewrite Hres in Hi2. cbn [snd] in Hi2.
  eexists e1, e2, _. split; [unfold suspend_instance; by rewrite bind_run, get_instance_run, Hi|].
  split; [unfold resume_instance; by rewrite bind_run, get_instance_run, Hj|].
  split; [rewrite Hi2, Hi1; apply insert_insert_eq|]. split; [|congruence].
  trans ((i1 <| pi_audit_log := pi_audit_log i |>) <| pi_state := pi_state i |>); [done|]. rewrite Heq. by destruct i.
Qed.

(** ** Variables *)

Lemma put_vars_from l vs k :
  NoDup l.*1 →
  fold_left put_var l vs !! k =
  match (list_to_map l : Vars) !! k with
  | Some v => if is_null v then None else Some v
  | None => vs !! k
  end.
Proof.
  revert vs. induction l as [|[k' v] l IH]; intros vs Hnd; cbn [fold_left]; [done|].
  apply NoDup_cons in Hnd as [Hnot Hnd]. rewrite IH by done. rewrite list_to_map_cons.
  destruct (decide (k' = k)) as [->|Hne].
  - rewrite lookup_insert_eq, not_elem_of_list_to_map_1 by done. unfold put_var. cbn.
    destruct (is_null v); [apply lookup_delete_eq|apply lookup_insert_eq].
  - rewrite lookup_insert_ne by done. destruct (list_to_map l !! k); [done|]. unfold put_var. cbn.
    destruct (is_null v); [by apply lookup_delete_ne|by apply lookup_insert_ne].
Qed.

(** An update of variables does, in whatever order its map is walked: a null
    value removes the name, any other value sets it, and every other name keeps
    its value. *)
Theorem put_vars_lookup (updates vs : Vars) k :
  put_vars updates vs !! k =
  match updates !! k with
  | Some VNull => None
  | Some v => Some v
  | None => vs !! k
  end.
Proof.
  unfold put_vars. rewrite put_vars_from by apply NoDup_fst_map_to_list. rewrite list_to_map_to_list.
  by destruct (updates !! k) as [[]|].
Qed.

(** ** Migration *)

Lemma migration_nodes_remap mapping d i :
  migration_nodes (migrate_in mapping d i) = remap mapping <$> migration_nodes i.
Proof.
  unfold migration_nodes. cbn. f_equal. rewrite fmap_app. f_equal.
  - rewrite map_to_list_fmap. rewrite <- !list_fmap_compose. apply list_fmap_ext. by intros ? [].
  - rewrite <- !list_fmap_compose. apply list_fmap_ext. by intros ? [].
Qed.
Lemma migration_nodes_eq i i' :
  pi_current_node i' = pi_current_node i → pi_tokens i' = pi_tokens i → pi_active_tokens i' = pi_active_tokens i →
  migration_nodes i' = migration_nodes i.
Proof. unfold migration_nodes. by intros -> -> ->. Qed.

(** C24: Migration is all or nothing: when it is refused (unknown definition or
    instance, an instance that has ended or is suspended, a node without a
    counterpart) the engine is exactly as before; when it succeeds, the instance
    is on the target definition and its node, the nodes of its tokens and of its
    branches all exist there. *)
Theorem migrate_instance_atomic id target_key mapping e :
  match migrate_instance id target_key mapping e with
  | (Err _, e') => e' = e
  | (Ok _, e') => ∃ d i', e_definitions e !! target_key = Some d ∧ e_instances e' !! id = Some i' ∧
      pi_definition_key i' = target_key ∧ ∀ node, node ∈ migration_nodes i' → is_Some (nodes d !! node)
  end.
Proof.
  unfold migrate_instance. rewrite bind_run, get_definition_run. destruct (e_definitions e !! target_key) as [d|]; [|done].
  rewrite bind_run, get_instance_run. destruct (e_instances e !! id) as [i|] eqn:Hi; [|done].
  rewrite bind_run. destruct (check_live id (pi_state i)) as [[]|]; cbn [lift map_err]; [|done].
  rewrite bind_run. destruct (for_each (check_node mapping d) (migration_nodes i)) as [[]|] eqn:Hnodes; cbn [lift map_err]; [|done].
  rewrite bind_run, update_instance_run, Hi, bind_run. cbn [modify]. quiet_step u l Hu.
  match goal with |- context [persist_instance id ?e0] =>
    destruct (persist_instance_some id e0 _ (lookup_insert_eq _ _ _)) as (e' & Hp & _ & He' & _) end.
  rewrite Hp. eexists d, _. split; [done|]. split; [rewrite He'; apply lookup_insert_eq|]. split; [done|].
  intros node Hnode. rewrite (migration_nodes_eq (migrate_in mapping d i)) in Hnode by done.
  rewrite migration_nodes_remap in Hnode. apply list_elem_of_fmap in Hnode as (n & -> & Hn).
  apply (proj1 (for_each_Ok _ _) Hnodes), guard_Ok, bool_decide_eq_true in Hn. done.
Qed.

(** ** Pages *)

Lemma page_keys_length e : length (page_keys e) = size (e_instances e).
Proof. unfold page_keys. rewrite merge_sort_Permutation, length_fmap. apply length_map_to_list. Qed.

#[export] Instance page_le_total : Total page_le.
Proof. intros [[x|] a] [[y|] b]; unfold page_le; cbn; lia. Qed.

Definition load (e : Engine) (ks : list (option DateTime * Uuid)) : list ProcessInstance :=
  omap (λ k, e_instances e !! k.2) ks.
Lemma page_items_chunk offset n e :
  page_items (list_instances_page offset (Some n) e) = load e (take n (drop offset (page_keys e))).
Proof.
  unfold list_instances_page, load. cbn [page_items]. f_equal. rewrite <- page_keys_length. set (l := page_keys e).
  destruct (Nat.le_gt_cases (length l) offset).
  - rewrite !drop_ge by lia. by rewrite !take_nil.
  - rewrite (Nat.min_l offset) by lia. destruct (Nat.le_gt_cases (offset + n) (length l)).
    + f_equal. lia.
    + rewrite !take_ge; [done|rewrite length_drop; lia..].
Qed.
Lemma chunks_concat {A} n m (l : list A) : concat ((λ k, take n (drop (k * n) l)) <$> seq 0 m) = take (m * n) l.
Proof.
  induction m as [|m IH]; [done|]. rewrite seq_S, fmap_app, concat_app, IH. cbn. rewrite app_nil_r.
  rewrite take_take_drop. f_equal. lia.
Qed.
Lemma load_length e l : length (load e l) ≤ length l.
Proof. induction l as [|k l IH]; [done|]. cbn. destruct (e_instances e !! k.2); cbn; unfold load in IH; lia. Qed.
Lemma load_concat e (ls : list (list (option DateTime * Uuid))) : load e (concat ls) = concat (load e <$> ls).
Proof. induction ls as [|l ls IH]; [done|]. cbn. unfold load in *. by rewrite omap_app, IH. Qed.

(** Pages cut one ordering of all instances, latest start first: the pages of size
    [n] put together are the whole list, every page has at most [n] items, and
    the total is the number of instances. *)
Theorem pages_partition n e :
  0 < n →
  let page k := list_instances_page (k * n) (Some n) e in
  Sorted page_le (page_keys e) ∧
  concat ((λ k, page_items (page k)) <$> seq 0 (S (size (e_instances e) / n))) = list_instances e ∧
  ∀ k, length (page_items (page k)) ≤ n ∧ page_total (page k) = size (e_instances e).
Proof.
  intros Hn page. split; [apply Sorted_merge_sort, _|]. split.
  - trans (load e (page_keys e)).
    + rewrite <- (take_ge (page_keys e) (S (size (e_instances e) / n) * n)).
      2: { rewrite page_keys_length. pose proof (Nat.div_mod_eq (size (e_instances e)) n).
           pose proof (Nat.mod_upper_bound (size (e_instances e)) n). lia. }
      rewrite <- chunks_concat, load_concat, <- list_fmap_compose. f_equal. apply list_fmap_ext.
      intros k x _. apply page_items_chunk.
    + unfold list_instances, list_instances_page, load. cbn. rewrite Nat.sub_0_r, drop_0, take_ge; [done|].
      by rewrite page_keys_length.
  - intros k. split; [|done]. unfold page. rewrite page_items_chunk. etrans; [apply load_length|].
    rewrite length_take. lia.
Qed.

Lemma suspend_resume_roundtrip_witness :
  ∃ e1 e2 i', suspend_instance 7 example_engine = (Ok tt, e1) ∧ resume_instance 7 e1 = (Ok tt, e2) ∧
    e_instances e2 = {[7%N := i']} ∧ i' <| pi_audit_log := [] |> = example_instance.
Proof.
  destruct (suspend_resume_roundtrip 7 example_engine example_instance) as (e1 & e2 & i' & H1 & H2 & Hins & Hi & _);
    [reflexivity..|].
  exists e1, e2, i'. split; [exact H1|]. split; [exact H2|]. split; [|exact Hi]. rewrite Hins. apply insert_insert_eq.
Defined.

(** ** The life of an incident *)

(** [record_incident]: the incident's id and whether it is new. *)
Definition record_incident (id : Uuid) (kind : IncidentKind) (node : option string) (task : option Uuid)
    (message : string) (details : option string) : M (option (Uuid * bool)) :=
  mi ← gets (λ e, e_instances e !! id);
  match mi with
  | None => mret None
  | Some i =>
    fresh ← new_uuid;
    at_ ← now;
    let already_open := existsb (same_open kind node task) (pi_incidents i) in
    try_update_instance id (λ i, (push_or_touch_incident at_ fresh kind node task message details i).2) ;;
    mret (Some ((push_or_touch_incident at_ fresh kind node task message details i).1, negb already_open))
  end.

(** The block of [resolve_instance_incident] under the instance's lock. *)
Definition resolve_incident_in (incident_id : Uuid) (by_ : option string) (at_ : DateTime) (i : ProcessInstance)
    : EngineResult Incident * ProcessInstance :=
  let is_it x := bool_decide (inc_id x = incident_id) in
  let resolve x := x <| resolved_at := Some at_ |> <| resolved_by := by_ |> in
  match List.find is_it (pi_incidents i) with
  | None => (Err (IncidentNotFound incident_id), i)
  | Some x =>
    match resolved_at x with
    | Some _ => (Err (IncidentAlreadyResolved incident_id), i)
    | None => (Ok (resolve x), i <| pi_incidents ::= update_first is_it resolve |>)
    end
  end.

Definition resolve_instance_incident (id incident_id : Uuid) (by_ : option string) : M Incident :=
  at_ ← now;
  x ← with_instance id (resolve_incident_in incident_id by_ at_);
  persist_instance id ;;
  mret x.
