(* ===== verification/DefinitionOps.v ===== *)
(** * Deploying and deleting definitions

    engine-core/src/engine/definition_ops.rs on the engine's state: deployment of
    one definition, and deletion of a definition with or without its instances.
    The registry's part is [Registry]; the store's answers are arguments. *)

From stdpp Require Import base list gmap strings pretty.
From S2P Require Import Prelude Text Json Domain Token ProcessDef Runtime History Registry Index TopicIndex TimerIndex Engine Join Boundary Waits InstanceOps.
Local Open Scope rust_scope.

(** [deploy_definition]: the definition and its sub-processes enter the registry;
    each is saved and announced. *)
Definition deploy (d : ProcessDefinition) : M (Uuid * Z) :=
  reg ← gets e_definitions;
  let '(reg, persisted, r) := deploy_definition d reg in
  modify (λ e, e <| e_definitions := reg |>) ;;
  forM persisted (λ key, persist_definition key ;; emit_event DefinitionChanged) ;;
  mret r.

(** [restore_definitions]. *)
Definition restore_definitions (ds : list ProcessDefinition) : M unit :=
  modify (λ e, e <| e_definitions ::= (λ reg, insert_collection reg ds) |>).

(** The instances of a definition. *)
Definition instances_of (key : Uuid) (e : Engine) : list Uuid :=
  pi_id <$> List.filter (λ i, bool_decide (pi_definition_key i = key)) (map_to_list (e_instances e)).*2.

(** [delete_definition]; [answers] and [answer] are what the store says to the
    deletion of an instance's record and of the definition's. *)
Definition delete_definition (answers : Uuid → EngineResult unit) (answer : EngineResult unit)
    (key : Uuid) (cascade : bool) : M unit :=
  _ ← get_definition key;
  associated ← gets (instances_of key);
  match associated with
  | [] => mret tt
  | _ =>
    if cascade then forM associated (λ id, delete_instance (answers id) id)
    else throw (DefinitionHasInstances (length associated))
  end ;;
  modify (λ e, e <| e_definitions ::= delete key |>) ;;
  emit (DeleteDefinition key) ;;
  lift answer ;;
  emit_event DefinitionChanged.

(** [delete_all_definitions]. *)
Definition delete_all_definitions (answers : Uuid → EngineResult unit) (answer : Uuid → EngineResult unit)
    (bpmn_id : string) (cascade : bool) : M unit :=
  versions ← gets (λ e, all_versions_of (e_definitions e) bpmn_id);
  forM versions.*1 (λ key, delete_definition answers (answer key) key cascade).

(** ** Deletion is complete *)

Definition without (id : Uuid) (e : Engine) : Engine := forget_pending id (e <| e_instances ::= delete id |>).

Lemma forget_pending_sent id u l e : forget_pending id (sent u l e) = sent u l (forget_pending id e).
Proof. done. Qed.

(** One request to the store. *)
Ltac quiet_once :=
  let u := fresh in let l := fresh in let Hu := fresh in quiet_step u l Hu; rewrite ?sent_sent; clear Hu.

Lemma delete_instance_run id e :
  match e_instances e !! id with
  | None => delete_instance (Ok tt) id e = (Err (Throws (NoSuchInstance id)), e)
  | Some _ => ∃ u l, delete_instance (Ok tt) id e = (Ok tt, sent u l (without id e))
  end.
Proof.
  destruct (e_instances e !! id) as [i|] eqn:Hi; unfold delete_instance; rewrite bind_run, get_instance_run, Hi; [|done].
  rewrite bind_run. cbn [modify]. quiet_once. do 6 (rewrite bind_run; cbn [gets]). do 7 quiet_once.
  rewrite bind_run. cbn [lift map_err modify]. eexists _, _. unfold without. by rewrite <- forget_pending_sent.
Qed.



(** When the store refuses to delete the record, the instance is gone from the engine but
    its pending work is not, and no second deletion can remove it. *)
Lemma failed_deletion_orphans id e i err :
  e_instances e !! id = Some i →
  ∃ e', delete_instance (Err err) id e = (Err (Throws err), e') ∧ e_instances e' = delete id (e_instances e) ∧
    pending_maps e' = pending_maps e ∧ ∀ answer, delete_instance answer id e' = (Err (Throws (NoSuchInstance id)), e').
Proof.
  intros Hi. unfold delete_instance at 1. rewrite bind_run, get_instance_run, Hi.
  rewrite bind_run. cbn [modify]. quiet_once. do 6 (rewrite bind_run; cbn [gets]). do 7 quiet_once.
  rewrite bind_run. cbn [lift map_err]. eexists. split; [reflexivity|]. split; [done|]. split; [done|].
  intros answer. unfold delete_instance. rewrite bind_run, get_instance_run. cbn. by rewrite lookup_delete_eq.
Qed.
