(* ===== verification/Collections.v ===== *)
(** * Collections of definitions and their message routes

    [deploy_collection] and [restore_definition_collection] of
    engine-core/src/engine/definition_ops.rs, and the routes on the engine's
    state from engine-core/src/engine/message_routing.rs: installing them and
    planning the messages of a send task.  A plan only observes the engine. *)

From stdpp Require Import base list gmap strings pretty.
From S2P Require Import Prelude Text Json Domain Token ProcessDef MessageRouting Runtime History Registry Index TopicIndex TimerIndex Engine EventScope.
Local Open Scope rust_scope.

(** ** Installing routes *)

(** [install_routes]: each source definition of the new routes gets its list. *)
Definition install_routes (routes : list PinnedMessageRoute) (index : gmap Uuid (list PinnedMessageRoute))
    : gmap Uuid (list PinnedMessageRoute) :=
  let source_of r := dm_definition_key (rt_source r) in
  fold_right (λ source, <[source := List.filter (λ r, bool_decide (source_of r = source)) routes]>) index
    (remove_dups (source_of <$> routes)).

(** ** Planning *)

Inductive ReceiverUnavailable := DefinitionDeleted | NoMatchingCatch | AmbiguousCatches (count : nat).
Inductive PlannedMessageReceiver :=
| PlanStart
| PlanCatch (instance_id catch_id token_id : Uuid)
| PlanUnavailable (why : ReceiverUnavailable).
Record InternalMessagePlan := mkPlan {
  pl_route : PinnedMessageRoute;
  pl_business_key : string;
  pl_variables : Vars;
  pl_receiver : PlannedMessageReceiver;
}.

(** Whether the token of a catch waits for it: at the catch, at the activity of a
    boundary catch, or at an event-based gateway in front of it. *)
Definition waits_at (target_def : ProcessDefinition) (node : string) (t : Token) : bool :=
  let expected := match nodes target_def !! node with
                  | Some (BoundaryMessageEvent attached_to _ _) => attached_to
                  | _ => node
                  end in
  let at_gateway :=
    match nodes target_def !! current_node t, flows target_def !! current_node t with
    | Some EventBasedGateway, Some fs => existsb (λ f, bool_decide (target f = node)) fs
    | _, _ => false
    end in
  bool_decide (current_node t = expected) || at_gateway.

(** A catch that can take the message of the route now. *)
Definition eligible (e : Engine) (r : PinnedMessageRoute) (target_def : ProcessDefinition) (business_key : string)
    (c : PendingMessageCatch) : bool :=
  bool_decide (mc_node_id c = dm_element_id (rt_target r)) && bool_decide (mc_message_name c = rt_message_name r) &&
  match e_instances e !! mc_instance_id c with
  | None => false
  | Some i =>
    bool_decide (pi_definition_key i = dm_definition_key (rt_target r)) && bool_decide (pi_business_key i = business_key)
    && negb (is_suspended (pi_state i) || is_terminal (pi_state i))
    && match pi_tokens i !! mc_token_id c with Some t => waits_at target_def (mc_node_id c) t | None => false end
  end.

Definition select_message_receiver (e : Engine) (r : PinnedMessageRoute) (target_def : ProcessDefinition)
    (business_key : string) : PlannedMessageReceiver :=
  match List.filter (eligible e r target_def business_key) (map_to_list (e_message_catches e)).*2 with
  | [] => PlanUnavailable NoMatchingCatch
  | [c] => PlanCatch (mc_instance_id c) (mc_id c) (mc_token_id c)
  | cs => PlanUnavailable (AmbiguousCatches (length cs))
  end.

Definition plan_receiver (e : Engine) (business_key : string) (r : PinnedMessageRoute) : PlannedMessageReceiver :=
  match e_definitions e !! dm_definition_key (rt_target r) with
  | None => PlanUnavailable DefinitionDeleted
  | Some d =>
    match nodes d !! dm_element_id (rt_target r) with
    | Some (MessageStartEvent _) => PlanStart
    | _ => select_message_receiver e r d business_key
    end
  end.

(** [plan_internal_messages]. *)
Definition plan_internal_messages (source_key : Uuid) (element business_key : string) (vars : Vars) (e : Engine)
    : EngineResult (list InternalMessagePlan) :=
  if is_blank business_key then Err (routing_error "a nonempty business key is required")
  else
    d ←? ok_or (NoSuchDefinition source_key) (e_definitions e !! source_key);
    match nodes d !! element with
    | Some (SendTask _ _) =>
      let routes := List.filter (λ r, bool_decide (dm_element_id (rt_source r) = element))
                      (default [] (e_routes e !! source_key)) in
      Ok ((λ r, mkPlan r business_key vars (plan_receiver e business_key r)) <$> routes)
    | _ => Err (routing_error "source element is not a message send")
    end.

(** ** Deployment of a collection *)

Section collections.
  Context {CR : CollaborationReader}.

(** [deploy_collection]; [answer] is what the store says to the commit.  The
    [n]-th definition gets the [n]-th of the next ids. *)
Definition deploy_collection (answer : EngineResult unit) (processes : list ProcessDefinition) (xml : string)
    (collaborations : Value) : M DefinitionCollection :=
  reg ← gets e_definitions;
  base ← gets e_uuid;
  ds ← lift (collection_definitions reg (λ n, base + N.of_nat n)%N processes);
  modify (λ e, e <| e_uuid := (base + N.of_nat (length ds))%N |>) ;;
  cid ← new_uuid;
  let c := mkCollection cid ds xml collaborations [] in
  routes ← lift (compile_routes c);
  emit (PersistCollection cid) ;;
  lift answer ;;
  modify (λ e, e <| e_routes ::= install_routes routes |>) ;;
  modify (λ e, e <| e_definitions ::= (λ reg, insert_collection reg ds) |>) ;;
  forM ds (λ _, emit_event DefinitionChanged) ;;
  mret c.

(** [restore_definition_collection]: without the deleted members. *)
Definition restore_definition_collection (c : DefinitionCollection) : M unit :=
  routes ← lift (compile_routes c);
  modify (λ e, e <| e_routes ::= install_routes routes |>) ;;
  modify (λ e, e <| e_definitions ::= (λ reg, insert_collection reg
    (List.filter (λ d, negb (existsb (λ k, bool_decide (k = def_key d)) (dc_deleted c))) (dc_definitions c))) |>).
End collections.

(** ** What the operations do to the index of routes *)

Lemma install_routes_lookup routes index k :
  install_routes routes index !! k =
  match List.filter (λ r, bool_decide (dm_definition_key (rt_source r) = k)) routes with
  | [] => index !! k
  | mine => Some mine
  end.
Proof.
  unfold install_routes. set (source_of r := dm_definition_key (rt_source r)).
  set (mine x := List.filter (λ r, bool_decide (source_of r = x)) routes).
  assert (∀ l, fold_right (λ source, <[source := mine source]>) index l !! k =
               if decide (k ∈ l) then Some (mine k) else index !! k) as Hfold.
  { induction l as [|x l IH]; [done|]. cbn [fold_right]. destruct (decide (x = k)) as [->|Hne].
    - rewrite lookup_insert_eq, decide_True by set_solver. done.
    - rewrite lookup_insert_ne, IH by done. repeat case_decide; set_solver. }
  rewrite Hfold. change (List.filter _ routes) with (mine k). destruct (mine k) as [|r l] eqn:Hmine.
  - case_decide as Hin; [|done]. apply elem_of_remove_dups, list_elem_of_fmap in Hin as (r & -> & Hr).
    assert (r ∈ mine (source_of r)) as Hin; [|rewrite Hmine in Hin; by apply not_elem_of_nil in Hin].
    apply list_elem_of_In, filter_In. split; [by apply list_elem_of_In|]. by apply bool_decide_eq_true.
  - rewrite decide_True; [done|]. apply elem_of_remove_dups, list_elem_of_fmap. exists r.
    assert (In r (mine k)) as [Hr Hk]%filter_In by (rewrite Hmine; by left).
    apply bool_decide_eq_true in Hk. split; [done|by apply list_elem_of_In].
Qed.

Lemma insert_collection_lookup reg ds k :
  insert_collection reg ds !! k =
  match List.find (λ d, bool_decide (def_key d = k)) (rev ds) with Some d => Some d | None => reg !! k end.
Proof.
  unfold insert_collection. rewrite <- fold_left_rev_right. induction (rev ds) as [|d l IH]; [done|]. cbn [fold_right List.find].
  case_bool_decide as Hk; [by rewrite Hk, lookup_insert_eq|by rewrite lookup_insert_ne].
Qed.

Section deployment.
  Context {CR : CollaborationReader}.

(** The run of a deployment: refused with nothing visible changed, or committed. *)
Lemma deploy_collection_run answer processes xml cols e :
  match deploy_collection answer processes xml cols e with
  | (Err x, e') => (∃ err, x = Throws err) ∧ ∃ u l, e' = sent u l e
  | (Ok c, e') => ∃ u l rs, answer = Ok tt ∧ compile_routes c = Ok rs ∧
      def_key <$> dc_definitions c = (λ n, e_uuid e + N.of_nat n)%N <$> seq 0 (length (dc_definitions c)) ∧
      e' = sent u l (e <| e_routes ::= install_routes rs |>
                       <| e_definitions ::= (λ reg, insert_collection reg (dc_definitions c)) |>)
  end.
Proof.
  unfold deploy_collection. do 2 (rewrite bind_run; cbn [gets]). rewrite bind_run. unfold lift at 1.
  destruct (collection_definitions _ _ processes) as [ds|err] eqn:Hds; cbn [map_err].
  2: { split; [by eexists|]. exists (e_uuid e), []. by rewrite sent_nil. }
  rewrite bind_run. cbn [modify]. rewrite bind_run. cbn [new_uuid]. rewrite bind_run. unfold lift at 1.
  destruct (compile_routes _) as [rs|err] eqn:Hrs; cbn [map_err].
  2: { split; [by eexists|]. eexists _, []. unfold sent. cbn. by rewrite app_nil_r. }
  rewrite bind_run. cbn [emit modify]. rewrite bind_run. unfold lift at 1.
  destruct answer as [[]|err]; cbn [map_err]; [|split; [by eexists|]; by eexists _, [_]].
  do 2 (rewrite bind_run; cbn [modify]). quiet_step u l Hu. cbn [mret M_ret]. eexists _, _, rs.
  split; [done|]. split; [done|]. split; [by eapply collection_definitions_keys|].
  unfold sent. cbn. by rewrite <- app_assoc.
Qed.

Lemma fresh_key_lookup (ds : list ProcessDefinition) (base k : Uuid) :
  def_key <$> ds = (λ n, base + N.of_nat n)%N <$> seq 0 (length ds) → (k < base)%N →
  List.find (λ d, bool_decide (def_key d = k)) (rev ds) = None.
Proof.
  intros Hkeys Hk. destruct (List.find _ _) as [d|] eqn:Hfind; [|done].
  apply find_some in Hfind as [Hin Hd]. apply bool_decide_eq_true in Hd. apply in_rev, list_elem_of_In in Hin.
  assert (def_key d ∈ def_key <$> ds) as Hmem by (apply list_elem_of_fmap; eauto).
  rewrite Hkeys in Hmem. apply list_elem_of_fmap in Hmem as (n & Hn & _). lia.
Qed.


(** Everything the routes refer to is older than the next id. *)
Definition routes_known (e : Engine) : Prop :=
  ∀ k rs r, e_routes e !! k = Some rs → r ∈ rs → (dm_definition_key (rt_target r) < e_uuid e)%N.

(** Routes are pinned to versions: what a send task of a deployed definition would
    send, to whom and with what receiver, is the same after any further
    collection was deployed (or refused), newer versions of the same processes
    included. *)
Theorem routes_stay_pinned answer processes xml cols source element business_key vars e :
  routes_known e → (source < e_uuid e)%N →
  plan_internal_messages source element business_key vars (deploy_collection answer processes xml cols e).2
  = plan_internal_messages source element business_key vars e.
Proof.
  intros Hknown Hsource. pose proof (deploy_collection_run answer processes xml cols e) as H.
  destruct (deploy_collection answer processes xml cols e) as [[c|x] e']; cbn [snd].
  2: by destruct H as (_ & u & l & ->).
  destruct H as (u & l & rs & _ & Hrs & Hkeys & ->). unfold plan_internal_messages. destruct (is_blank _); [done|].
  assert (∀ k, (k < e_uuid e)%N → insert_collection (e_definitions e) (dc_definitions c) !! k = e_definitions e !! k) as Hdefs.
  { intros k Hk. by rewrite insert_collection_lookup, (fresh_key_lookup _ (e_uuid e)). }
  assert (install_routes rs (e_routes e) !! source = e_routes e !! source) as Hroutes.
  { rewrite install_routes_lookup. destruct (List.filter _ rs) as [|r l'] eqn:Hmine; [done|].
    assert (In r (List.filter (λ r, bool_decide (dm_definition_key (rt_source r) = source)) rs)) as [Hr Hk]%filter_In
      by (rewrite Hmine; by left).
    apply bool_decide_eq_true in Hk. apply compile_routes_sound in Hrs as (Hok & _). rewrite Forall_forall in Hok.
    destruct (Hok r) as (_ & (d & node & Hd & Hkey & _) & _); [by apply list_elem_of_In|].
    assert (def_key d ∈ def_key <$> dc_definitions c) as Hmem by (apply list_elem_of_fmap; eauto).
    rewrite Hkeys in Hmem. apply list_elem_of_fmap in Hmem as (n & Hn & _). lia. }
  set (e2 := sent u l _). assert (e_definitions e2 !! source = e_definitions e !! source) as -> by (by apply Hdefs).
  assert (e_routes e2 !! source = e_routes e !! source) as -> by exact Hroutes.
  destruct (e_definitions e !! source) as [d|]; [|done]. cbn [ok_or result_bind]. destruct (nodes d !! element) as [[]|]; try done.
  f_equal. apply list_fmap_ext. intros n r Hr. f_equal. unfold plan_receiver.
  assert (e_definitions e2 !! dm_definition_key (rt_target r) = e_definitions e !! dm_definition_key (rt_target r)) as ->; [|done].
  apply Hdefs. apply list_elem_of_lookup_2, list_elem_of_In, filter_In in Hr as [Hr _].
  destruct (e_routes e !! source) as [mine|] eqn:Hmine; [|done]. eapply Hknown; [exact Hmine|by apply list_elem_of_In].
Qed.
End deployment.

(** ** A plan never guesses *)

Lemma elem_of_eligible e r d bk c :
  c ∈ List.filter (eligible e r d bk) (map_to_list (e_message_catches e)).*2 ↔
  (∃ k, e_message_catches e !! k = Some c) ∧ eligible e r d bk c = true.
Proof.
  rewrite list_elem_of_In, filter_In, <- list_elem_of_In, list_elem_of_fmap. split.
  - intros [([k c'] & -> & Hk%elem_of_map_to_list) He]. split; [by exists k|done].
  - intros [[k Hk] He]. split; [|done]. exists (k, c). split; [done|by apply elem_of_map_to_list].
Qed.

(** A planned message goes to a catch only when that catch is the single pending
    one that can take it (the pinned definition, the business key, a live
    instance whose token waits there); with none or with several of them the
    plan says so instead of choosing. *)
Theorem select_message_receiver_spec e r d bk :
  let candidate c := (∃ k, e_message_catches e !! k = Some c) ∧ eligible e r d bk c = true in
  match select_message_receiver e r d bk with
  | PlanCatch i cid tid => ∃ c, candidate c ∧ (∀ c', candidate c' → c' = c) ∧
      i = mc_instance_id c ∧ cid = mc_id c ∧ tid = mc_token_id c
  | PlanUnavailable NoMatchingCatch => ∀ c, ¬ candidate c
  | PlanUnavailable (AmbiguousCatches n) => 2 ≤ n ∧ ∃ c, candidate c
  | _ => False
  end.
Proof.
  cbv zeta. unfold select_message_receiver. pose proof (elem_of_eligible e r d bk) as Hin.
  destruct (List.filter _ _) as [|c [|c' l]].
  - intros c Hc%Hin. by apply not_elem_of_nil in Hc.
  - exists c. split; [apply Hin; by left|]. split; [|done]. intros c' Hc'%Hin. by apply list_elem_of_singleton in Hc'.
  - cbn. split; [lia|]. exists c. apply Hin. by left.
Qed.

(** ** A concrete collaboration *)

Definition sender_definition : ProcessDefinition :=
  example_definition <| def_key := 1%N |> <| def_id := "sender" |> <| nodes := {["send" := SendTask "order" None]} |>.
Definition receiver_definition : ProcessDefinition :=
  example_definition <| def_key := 2%N |> <| def_id := "receiver" |> <| nodes := {["receive" := MessageStartEvent "order"]} |>.
Definition order_collaboration : Collaboration :=
  mkCollaboration "c" [mkParticipant "ps" (Some "sender") true; mkParticipant "pt" (Some "receiver") true]
    [mkMessageFlow "flow" "declaration" "order" (mkEndpoint "ps" "sender" "send") (mkEndpoint "pt" "receiver" "receive")].
Definition order_reader : CollaborationReader := {| read_collaborations _ := Ok [order_collaboration] |}.
Definition order_route : PinnedMessageRoute :=
  mkRoute 9 "c" "flow" "declaration" "order" (mkDeployed 1 1 "ps" "sender" "send") (mkDeployed 2 1 "pt" "receiver" "receive").
Definition order_engine : Engine :=
  engine_new <| e_definitions := {[1%N := sender_definition; 2%N := receiver_definition]} |>
    <| e_routes := {[1%N := [order_route]]} |>.

Lemma routes_stay_pinned_witness :
  let e' := (@deploy_collection order_reader (Ok tt) [sender_definition; receiver_definition] "" VNull order_engine).2 in
  e_definitions e' ≠ e_definitions order_engine ∧
  plan_internal_messages 1 "send" "k" ∅ e' = Ok [mkPlan order_route "k" ∅ PlanStart].
Proof.
  split.
  - intros H. apply (f_equal (λ m, m !! 1000%N)) in H. vm_compute in H. discriminate.
  - rewrite (@routes_stay_pinned order_reader (Ok tt) [sender_definition; receiver_definition] "" VNull 1 "send" "k" ∅ order_engine);
      [vm_compute; reflexivity| |vm_compute; reflexivity].
    intros k rs r Hk Hr. change (({[1%N := [order_route]]} : gmap Uuid (list PinnedMessageRoute)) !! k = Some rs) in Hk. apply lookup_singleton_Some in Hk as [<- <-].
    apply list_elem_of_singleton in Hr as ->. vm_compute. reflexivity.
Defined.
