(* ===== verification/TaskHandlers.v ===== *)
(** * Step handlers: tasks, catch events, end events

    engine-core/src/engine/handlers/tasks.rs, [handle_call_activity] of
    handlers/sub_processes.rs, [handle_event_based_gateway] of
    handlers/gateways.rs and the handlers of handlers/events.rs that neither
    throw nor compensate.  A handler that waits stores the token in the instance
    and returns the pending record; the executor puts the record into its map. *)

From stdpp Require Import base list gmap strings pretty.
From Stdlib Require Import Ascii.
From S2P Require Import Prelude Text Float Json CondLexer CondParser CondEval Domain Token ProcessDef DataMappings Runtime History Graph Gateway Registry Index TopicIndex TimerIndex Engine Scripts Handlers Boundary Waits.
Local Open Scope rust_scope.

(** ** Texts *)

(** [str::parse::<usize>]: an optional plus sign and digits. *)
Definition usize_limit : N := 18446744073709551615.
Fixpoint parse_digits (cs : list char) (acc : N) : option N :=
  match cs with
  | [] => Some acc
  | c :: cs =>
    if is_ascii_digit c then
      let acc := (acc * 10 + (c - 48))%N in
      if (acc <=? usize_limit)%N then parse_digits cs acc else None
    else None
  end.
Definition parse_usize (cs : list char) : option N :=
  let digits := match cs with c :: rest => if (c =? 43)%N then rest else cs | [] => [] end in
  match digits with [] => None | _ => parse_digits digits 0 end.

(** [{:?}] of a string: quotes around it, and escapes for the quote, the backslash
    and the common control characters (other characters that are not printable
    are kept as they are). *)
Definition quote : string := String (ascii_of_nat 34) EmptyString.
Fixpoint debug_escape (s : string) : string :=
  match s with
  | EmptyString => EmptyString
  | String a s =>
    let n := nat_of_ascii a in
    (if n =? 34 then String "\"%char quote
     else if n =? 92 then "\\"
     else if n =? 10 then "\n" else if n =? 13 then "\r" else if n =? 9 then "\t" else if n =? 0 then "\0"
     else String a EmptyString) +:+ debug_escape s
  end.
Definition debug_string (s : string) : string := quote +:+ debug_escape s +:+ quote.

(** ** Multi-instance items *)

Definition json_type_name (v : Value) : string :=
  match v with
  | VNull => "null" | VBool _ => "boolean" | VNumber _ => "number" | VString _ => "string"
  | VArray _ => "array" | VObject _ => "object"
  end.

Definition bad_cardinality (element_id cardinality : string) : EngineError :=
  InvalidDefinition ("Multi-instance loopCardinality of service task '" +:+ element_id
    +:+ "' must be a positive integer, got '" +:+ cardinality +:+ "'").

Definition resolve_multi_instance_items (mi : MultiInstanceDef) (vars : Vars) (element_id : string)
    : EngineResult (list (option Value)) :=
  match collection mi with
  | Some c =>
    match vars !! c with
    | None => Err (InvalidDefinition ("Multi-instance collection variable '" +:+ c
        +:+ "' not found for service task '" +:+ element_id +:+ "'"))
    | Some (VArray items) => Ok (Some <$> items)
    | Some other => Err (InvalidDefinition ("Multi-instance collection variable '" +:+ c +:+ "' of service task '"
        +:+ element_id +:+ "' must be an array, got " +:+ json_type_name other))
    end
  | None =>
    match loop_cardinality mi with
    | None => Err (InvalidDefinition ("Multi-instance service task '" +:+ element_id
        +:+ "' has neither collection nor loopCardinality"))
    | Some cardinality =>
      match parse_usize (trim (chars cardinality)) with
      | None => Err (bad_cardinality element_id cardinality)
      | Some total =>
        if (total =? 0)%N then Err (bad_cardinality element_id cardinality)
        else Ok (replicate (N.to_nat total) None)
      end
    end
  end.

Definition key_of (i : ProcessInstance) : option string :=
  if bool_decide (pi_business_key i = EmptyString) then None else Some (pi_business_key i).

(** The token waits in the instance at its node. *)
Definition park (node : string) (t : Token) (entry : string) (i : ProcessInstance) : ProcessInstance :=
  push_audit_log entry (i <| pi_current_node := node |> <| pi_tokens ::= <[tok_id t := t]> |>).
(** The instance follows the token to its next node. *)
Definition move_on (next entry : string) (i : ProcessInstance) : ProcessInstance :=
  push_audit_log entry (i <| pi_current_node := next |>).

Section task_handlers.
  Context {U : UnicodeData} {S : ScriptEngine} {C : CronLib}.

(** ** Tasks *)

Definition handle_user_task (id : Uuid) (t : Token) (d : ProcessDefinition) (node assignee : string) : M Step :=
  install_boundary_events id t d node ;;
  i ← get_instance id;
  task_id ← new_uuid;
  at_ ← now;
  let pending := {| ut_task_id := task_id; ut_instance_id := id; ut_node_id := node; ut_assignee := assignee;
    ut_token_id := tok_id t; ut_created_at := at_; ut_business_key := key_of i |} in
  update_instance id (park node t ("👤 User task '" +:+ node +:+ "' assigned to '" +:+ debug_string assignee
    +:+ "' — waiting (task_id: " +:+ pretty task_id +:+ ")")) ;;
  mret (WaitForUser pending, t).

(** [register_compensation_handler]. *)
Definition register_compensation_handler (id : Uuid) (activity : string) (d : ProcessDefinition) : M unit :=
  match find_compensation_handler d activity with
  | Some handler =>
    try_update_instance id (λ i, push_audit_log
      ("♻ Registered compensation handler '" +:+ handler +:+ "' for activity '" +:+ activity +:+ "'")
      (i <| pi_compensation_log ::= (λ l, l ++ [{| activity_id := activity; handler_node_id := handler |}]) |>))
  | None => mret tt
  end.

Definition handle_script_task (id : Uuid) (t : Token) (d : ProcessDefinition) (node script : string) : M Step :=
  vars ← lift (execute_script script (variables t));
  t ← run_end_scripts id (set_variables vars t) d node;
  register_compensation_handler id node d ;;
  next ← lift (resolve_next_target d node (variables t));
  let t := set_node next t in
  update_instance id (λ i, move_on next ("📜 Script task '" +:+ node +:+ "' executed") (i <| pi_variables := variables t |>)) ;;
  mret (Continue t, t).

Definition handle_send_task (id : Uuid) (t : Token) (d : ProcessDefinition) (node message_name : string) : M Step :=
  t ← run_end_scripts id t d node;
  next ← lift (resolve_next_target d node (variables t));
  let t := set_node next t in
  update_instance id (move_on next ("📤 Send task '" +:+ node +:+ "' published message '" +:+ message_name +:+ "'")) ;;
  mret (Continue t, t).

(** A new task for workers: three tries, no lock. *)
Definition new_service_task (task_id : Uuid) (at_ : DateTime) (i : ProcessInstance) (id : Uuid) (t : Token)
    (d : ProcessDefinition) (node topic : string) (snapshot : Vars) : PendingServiceTask :=
  mkServiceTask task_id id (def_key d) node topic (tok_id t) (key_of i) snapshot at_ None None 3 None None.

(** The variables of item [k] (counted from 1) of a multi-instance activity. *)
Definition item_snapshot (mi : MultiInstanceDef) (d : ProcessDefinition) (node : string) (t : Token) (k : nat)
    (item : option Value) : EngineResult Vars :=
  let vars := <["loopCounter" := VNumber (NumInt (Z.of_nat k))]> (variables t) in
  let vars := match element_variable mi, item with
              | Some name, Some v => <[name := v]> vars
              | _, _ => vars
              end in
  apply_inputs d node vars.

(** The loop that builds the tasks of a parallel multi-instance activity. *)
Fixpoint build_item_tasks (mi : MultiInstanceDef) (id : Uuid) (t : Token) (d : ProcessDefinition)
    (node topic : string) (i : ProcessInstance) (k : nat) (items : list (option Value)) : M (list PendingServiceTask) :=
  match items with
  | [] => mret []
  | item :: items =>
    snapshot ← lift (item_snapshot mi d node t k item);
    task_id ← new_uuid;
    at_ ← now;
    rest ← build_item_tasks mi id t d node topic i (Datatypes.S k) items;
    mret (new_service_task task_id at_ i id t d node topic snapshot :: rest)
  end.

Definition handle_sequential_items (id : Uuid) (t : Token) (d : ProcessDefinition) (node topic : string)
    (mi : MultiInstanceDef) (items : list (option Value)) : M Step :=
  i ← get_instance id;
  snapshot ← lift (item_snapshot mi d node t 1 (default None (head items)));
  task_id ← new_uuid;
  at_ ← now;
  let first := new_service_task task_id at_ i id t d node topic snapshot in
  update_instance id (λ i, park node t ("🔗 Sequential multi-instance service task '" +:+ node +:+ "' started item 1/"
      +:+ pretty (length items) +:+ " for topic '" +:+ topic +:+ "'")
    (i <| pi_multi_instance_state ::= <[node := {| mi_node_id := node; mi_total := length items; mi_completed := 0;
        mi_sequential_token := Some t; mi_items := items |}]> |>)) ;;
  mret (WaitForServiceTask first, t).

Definition handle_parallel_items (id : Uuid) (t : Token) (d : ProcessDefinition) (node topic : string)
    (mi : MultiInstanceDef) (items : list (option Value)) : M Step :=
  i ← get_instance id;
  tasks ← build_item_tasks mi id t d node topic i 1 items;
  update_instance id (λ i, park node t ("🔗 Multi-instance service task '" +:+ node +:+ "' created "
      +:+ pretty (length items) +:+ " tasks for topic '" +:+ topic +:+ "'")
    (i <| pi_multi_instance_state ::= <[node := {| mi_node_id := node; mi_total := length items; mi_completed := 0;
        mi_sequential_token := None; mi_items := [] |}]> |>)) ;;
  match tasks with
  | [] => mret (Continue t, t)
  | first :: rest =>
    forM rest add_service_task ;;
    mret (WaitForServiceTask first, t)
  end.

Definition handle_service_task (id : Uuid) (t : Token) (d : ProcessDefinition) (node topic : string)
    (multi : option MultiInstanceDef) : M Step :=
  mi_items ← match multi with
             | Some mi => items ← lift (resolve_multi_instance_items mi (variables t) node); mret (Some (mi, items))
             | None => mret None
             end;
  match mi_items with
  | Some (_, []) =>
    next ← lift (resolve_next_target d node (variables t));
    let t := set_node next t in
    update_instance id (move_on next ("⏭ Multi-instance service task '" +:+ node +:+ "' skipped (empty collection)")) ;;
    mret (Continue t, t)
  | _ =>
    install_boundary_events id t d node ;;
    match mi_items with
    | Some (mi, items) =>
      if is_sequential mi then handle_sequential_items id t d node topic mi items
      else handle_parallel_items id t d node topic mi items
    | None =>
      i ← get_instance id;
      task_id ← new_uuid;
      at_ ← now;
      let task := new_service_task task_id at_ i id t d node topic (variables t) in
      update_instance id (park node t ("🔗 Service task '" +:+ node +:+ "' created for topic '" +:+ topic
        +:+ "' (task_id: " +:+ pretty task_id +:+ ")")) ;;
      mret (WaitForServiceTask task, t)
    end
  end.

(** [handle_call_activity]. *)
Definition handle_call_activity (id : Uuid) (t : Token) (d : ProcessDefinition) (node called_element : string) : M Step :=
  install_boundary_events id t d node ;;
  update_instance id (move_on node ("🔗 Call Activity '" +:+ node +:+ "' invoking '" +:+ called_element +:+ "'")) ;;
  mret (WaitForCallActivity called_element t, t).

(** ** Catch events *)

(** The pending records a catch event waits with. *)
Definition new_timer (id : Uuid) (t : Token) (node : string) (timer : TimerDefinition) : M PendingTimer :=
  at_ ← now;
  expires_at ← lift_call (expiry_or_now timer at_);
  timer_id ← new_uuid;
  mret (mkTimer timer_id id node expires_at (tok_id t) (Some timer) (initial_remaining_repetitions timer)).
Definition new_message_catch (id : Uuid) (t : Token) (node name : string) : M PendingMessageCatch :=
  catch_id ← new_uuid;
  mret {| mc_id := catch_id; mc_instance_id := id; mc_node_id := node; mc_message_name := name; mc_token_id := tok_id t |}.
Definition new_signal_catch (id : Uuid) (t : Token) (node name : string) : M PendingSignalCatch :=
  catch_id ← new_uuid;
  mret {| sc_id := catch_id; sc_instance_id := id; sc_node_id := node; sc_signal_name := name; sc_token_id := tok_id t |}.

Definition handle_timer_catch_event (id : Uuid) (t : Token) (node : string) (timer : TimerDefinition) : M Step :=
  pending ← new_timer id t node timer;
  update_instance id (park node t ("⏱ Timer catch event '" +:+ node +:+ "' — waiting")) ;;
  mret (WaitForTimer pending, t).
Definition handle_message_catch_event (id : Uuid) (t : Token) (node name : string) : M Step :=
  pending ← new_message_catch id t node name;
  update_instance id (park node t ("✉️ Message catch event '" +:+ node +:+ "' waiting for '" +:+ name +:+ "'")) ;;
  mret (WaitForMessage pending, t).
Definition handle_signal_catch_event (id : Uuid) (t : Token) (node name : string) : M Step :=
  pending ← new_signal_catch id t node name;
  update_instance id (park node t ("📡 Signal catch event '" +:+ node +:+ "' waiting for '" +:+ name +:+ "'")) ;;
  mret (WaitForSignal pending, t).
Definition handle_conditional_catch_event (id : Uuid) (t : Token) (node condition : string) : M Step :=
  catch_id ← new_uuid;
  update_instance id (park node t ("⏳ Conditional catch event '" +:+ node +:+ "' waiting for '" +:+ condition +:+ "'")) ;;
  mret (WaitForCondition {| cc_id := catch_id; cc_instance_id := id; cc_node_id := node; cc_condition := condition;
    cc_token_id := tok_id t; cc_last_result := false |}, t).

(** The loop over the flows of an event-based gateway; a target that is no node of
    the definition is skipped. *)
Fixpoint gateway_alternatives (id : Uuid) (t : Token) (d : ProcessDefinition) (flows : list SequenceFlow)
    : M (list NextAction) :=
  match flows with
  | [] => mret []
  | sf :: flows =>
    alternative ← match get_node d (target sf) with
                  | None => mret None
                  | Some (TimerCatchEvent timer) => p ← new_timer id t (target sf) timer; mret (Some (WaitForTimer p))
                  | Some (MessageCatchEvent name) =>
                    p ← new_message_catch id t (target sf) name; mret (Some (WaitForMessage p))
                  | Some (SignalCatchEvent name) =>
                    p ← new_signal_catch id t (target sf) name; mret (Some (WaitForSignal p))
                  | Some _ => throw (InvalidDefinition ("EventBasedGateway target '" +:+ target sf +:+ "' is not a catch event"))
                  end;
    rest ← gateway_alternatives id t d flows;
    mret (match alternative with Some a => a :: rest | None => rest end)
  end.

Definition handle_event_based_gateway (id : Uuid) (t : Token) (d : ProcessDefinition) (node : string) : M Step :=
  t ← run_end_scripts id t d node;
  actions ← gateway_alternatives id t d (next_nodes d node);
  update_instance id (park node t ("⭮ Event-based gateway '" +:+ node +:+ "' waiting for "
    +:+ pretty (length actions) +:+ " alternative events")) ;;
  mret (WaitForEventGroup actions, t).

(** ** End, boundary and link events *)

Definition handle_terminate_end_event (id : Uuid) (t : Token) (d : ProcessDefinition) (node : string) : M Step :=
  t ← run_end_scripts id t d node;
  update_instance id (move_on node ("⛔ Terminate end event '" +:+ node +:+ "' — killing all active tokens")) ;;
  mret (Terminate, t).
Definition handle_error_end_event (id : Uuid) (t : Token) (d : ProcessDefinition) (node error_code : string) : M Step :=
  t ← run_end_scripts id t d node;
  update_instance id (move_on node ("💥 Process completed at error end '" +:+ node +:+ "' with error '"
    +:+ debug_string error_code +:+ "'")) ;;
  mret (ErrorEnd error_code, t).
Definition handle_escalation_end_event (id : Uuid) (t : Token) (d : ProcessDefinition) (node code : string) : M Step :=
  t ← run_end_scripts id t d node;
  update_instance id (move_on node ("⚡ Escalation end event '" +:+ node +:+ "' with code '" +:+ code +:+ "'")) ;;
  mret (EscalationEnd code, t).
Definition handle_boundary_event (id : Uuid) (t : Token) (d : ProcessDefinition) (node : string) : M Step :=
  next ← lift (resolve_next_target d node (variables t));
  t ← run_end_scripts id t d node;
  let t := set_node next t in
  update_instance id (λ i, i <| pi_current_node := next |>) ;;
  mret (Continue t, t).
Definition handle_link_throw_event (id : Uuid) (t : Token) (d : ProcessDefinition) (node target : string) : M Step :=
  t ← run_end_scripts id t d node;
  let t := set_node target t in
  update_instance id (move_on target ("🔗 Link throw event '" +:+ node +:+ "' jumps to '" +:+ target +:+ "'")) ;;
  mret (Continue t, t).
End task_handlers.
