(* ===== verification/ThrowHandlers.v ===== *)
(** * Step handlers: thrown events and compensation

    The handlers of engine-core/src/engine/handlers/events.rs that act beyond the
    token: signals, escalations and compensation. *)

From stdpp Require Import base list gmap strings pretty.
From S2P Require Import Prelude Text Float Json CondLexer CondParser CondEval Domain Token ProcessDef DataMappings Runtime History Graph Gateway Registry Index TopicIndex TimerIndex Engine Scripts Handlers Boundary Waits TaskHandlers EventScope ProcessStart Signals.
Local Open Scope rust_scope.

Section throw_handlers.
  Context {U : UnicodeData} {S : ScriptEngine} {C : CronLib} {R : Nested}.

(** ** Signals *)

Definition handle_signal_throw_event (id : Uuid) (t : Token) (d : ProcessDefinition) (node name : string) : M Step :=
  t ← run_end_scripts id t d node;
  affected ← broadcast_signal name (variables t) false;
  record_history_event id SignalThrown ("Signal '" +:+ name +:+ "' thrown at '" +:+ node +:+ "'") ActorEngine None None ;;
  next ← lift (resolve_next_target d node (variables t));
  let t := set_node next t in
  update_instance id (move_on next ("📡 Signal '" +:+ name +:+ "' broadcast at '" +:+ node +:+ "' — "
    +:+ pretty (length affected) +:+ " local catch(es) resumed")) ;;
  mret (Continue t, t).

Definition handle_signal_end_event (id : Uuid) (t : Token) (d : ProcessDefinition) (node name : string) : M Step :=
  t ← run_end_scripts id t d node;
  affected ← broadcast_signal name (variables t) false;
  record_history_event id SignalThrown ("Signal '" +:+ name +:+ "' thrown at end event '" +:+ node +:+ "'")
    ActorEngine None None ;;
  update_instance id (move_on node ("📡 Signal '" +:+ name +:+ "' broadcast at end event '" +:+ node +:+ "' — "
    +:+ pretty (length affected) +:+ " local catch(es) resumed")) ;;
  mret (Complete, t).

(** ** Escalations *)

(** A boundary event catches the escalation. *)
Definition escalate_to_boundary (id : Uuid) (t : Token) (d : ProcessDefinition) (node code boundary : string)
    (cancel_activity : bool) : M Step :=
  handler ← lift (resolve_next_target d boundary (variables t));
  if cancel_activity then
    update_instance id (λ i, push_audit_log
      ("⚡ Escalation '" +:+ code +:+ "' caught (interrupting) by '" +:+ boundary +:+ "'") i
        <| pi_current_node := handler |>) ;;
    let t := set_node handler t in
    mret (Continue t, t)
  else
    hid ← new_uuid;
    let handler_token := with_variables hid handler (variables t) in
    next ← lift (resolve_next_target d node (variables t));
    let t := set_node next t in
    update_instance id (λ i, push_audit_log
      ("⚡ Escalation '" +:+ code +:+ "' caught (non-interrupting) by '" +:+ boundary +:+ "' — spawned handler token") i
        <| pi_current_node := next |>) ;;
    mret (SpawnAndContinue t [handler_token], t).

Definition handle_escalation_throw_event (id : Uuid) (t : Token) (d : ProcessDefinition) (node code : string) : M Step :=
  t ← run_end_scripts id t d node;
  record_history_event id EscalationThrown ("Escalation '" +:+ code +:+ "' thrown at '" +:+ node +:+ "'")
    ActorEngine None None ;;
  match find_any_boundary_escalation_event d code with
  | Some (boundary, _, cancel_activity) => escalate_to_boundary id t d node code boundary cancel_activity
  | None =>
    exclude ← event_handler_for_token id (tok_id t);
    activation ← try_activate_event_code id code true (process_variables t) exclude;
    match activation with
    | Some (Interrupting handler) => mret (InterruptScope handler, t)
    | Some (Parallel handler) =>
      next ← lift (resolve_next_target d node (variables t));
      let t := set_node next t in
      update_instance id (move_on next
        ("⚡ Escalation '" +:+ code +:+ "' caught by non-interrupting event subprocess")) ;;
      mret (SpawnAndContinue t [handler], t)
    | None =>
      next ← lift (resolve_next_target d node (variables t));
      let t := set_node next t in
      update_instance id (λ i, push_audit_log
        ("⚡ Escalation '" +:+ code +:+ "' thrown at '" +:+ node +:+ "' — no handler found, continuing") i
          <| pi_current_node := next |>) ;;
      mret (Continue t, t)
    end
  end.

(** ** Compensation *)

(** The handlers to run: of one activity in the order of their registration, or
    all of them, latest first. *)
Definition compensation_handlers (activity : option string) (log : list CompensationRecord) : list CompensationRecord :=
  match activity with
  | Some a => List.filter (λ r, bool_decide (activity_id r = a)) log
  | None => rev log
  end.
Definition compensation_left (activity : option string) (log : list CompensationRecord) : list CompensationRecord :=
  match activity with
  | Some a => List.filter (λ r, negb (bool_decide (activity_id r = a))) log
  | None => []
  end.

(** The loop over the handlers: each runs as a batch of its own, and the thrower
    takes over the instance's variables. *)
Fixpoint run_compensation (id : Uuid) (t : Token) (d : ProcessDefinition) (rs : list CompensationRecord) : M Token :=
  match rs with
  | [] => mret t
  | r :: rs =>
    match get_node d (handler_node_id r) with
    | None => run_compensation id t d rs
    | Some _ =>
      hid ← new_uuid;
      run_instance_batch id (with_variables hid (handler_node_id r) (variables t)) ;;
      mi ← gets (λ e, e_instances e !! id);
      run_compensation id (match mi with Some i => set_variables (pi_variables i) t | None => t end) d rs
    end
  end.

Definition handle_compensation_throw_event (id : Uuid) (t : Token) (d : ProcessDefinition) (node : string)
    (activity : option string) (is_end_event : bool) : M Step :=
  t ← run_end_scripts id t d node;
  i ← get_instance id;
  let handlers := compensation_handlers activity (pi_compensation_log i) in
  let n := pretty (length handlers) in
  update_instance id (λ i, push_audit_log
    ("♻ Compensation triggered at '" +:+ node +:+ "' — " +:+ n +:+ " handler(s) to execute") i
      <| pi_current_node := node |>) ;;
  record_history_event id CompensationTriggered
    ("Compensation triggered at '" +:+ node +:+ "' (" +:+ n +:+ " handlers)") ActorEngine None None ;;
  t ← run_compensation id t d handlers;
  update_instance id (λ i, push_audit_log ("♻ Compensation completed — " +:+ n +:+ " handler(s) executed")
    (i <| pi_compensation_log ::= compensation_left activity |>)) ;;
  if is_end_event then mret (Complete, t)
  else
    next ← lift (resolve_next_target d node (variables t));
    let t := set_node next t in
    update_instance id (λ i, i <| pi_current_node := next |>) ;;
    mret (Continue t, t).
End throw_handlers.

(** ** What compensation runs *)

(** Compensation runs a registered handler or keeps it, never both and never
    twice: the handlers it takes and those it leaves are together exactly the
    registered ones. A throw without an activity takes all of them, the latest
    registration first; a throw for an activity takes exactly that activity's, in
    the order of registration, and leaves the others in their order. *)
Theorem compensation_partition activity log :
  compensation_handlers activity log ++ compensation_left activity log ≡ₚ log ∧
  match activity with
  | None => compensation_handlers activity log = rev log ∧ compensation_left activity log = []
  | Some a => compensation_handlers activity log `sublist_of` log ∧ compensation_left activity log `sublist_of` log ∧
      (∀ r, r ∈ compensation_handlers activity log ↔ r ∈ log ∧ activity_id r = a) ∧
      ∀ r, r ∈ compensation_left activity log ↔ r ∈ log ∧ activity_id r ≠ a
  end.
Proof.
  destruct activity as [a|]; cbn.
  - split; [|split_and!].
    + induction log as [|r log IH]; [done|]. cbn. case_bool_decide; cbn; [by rewrite IH|]. by rewrite <- Permutation_middle, IH.
    + induction log as [|r log IH]; cbn; [done|]. case_bool_decide; by constructor.
    + induction log as [|r log IH]; cbn; [done|]. case_bool_decide; by constructor.
    + intros r. rewrite elem_of_filter_bool, bool_decide_eq_true. done.
    + intros r. rewrite elem_of_filter_bool, negb_true_iff, bool_decide_eq_false. done.
  - rewrite app_nil_r. split; [|done]. by rewrite <- Permutation_rev.
Qed.
