(* ===== verification/Executor.v ===== *)
(** * The executor

    engine-core/src/engine/executor/mod.rs: one step of a token, and the loop that
    runs the tokens of a batch until none is left and no condition fires.  The
    loop gives up after 10,000 steps; the fuel of [batch_loop] is more than such a
    run can use.  Nested batches (signals, compensation, called processes) go
    through the class [Nested], which [executor] instantiates with itself down to
    a nesting depth. *)

From stdpp Require Import base list gmap strings pretty.
From S2P Require Import Prelude Text Float Json CondLexer CondParser CondEval Domain Token ProcessDef DataMappings Runtime History Graph Gateway Registry Index TopicIndex TimerIndex Engine Scripts Handlers Join Boundary Waits TaskHandlers EventScope ProcessStart Signals Conditional ThrowHandlers NextAction.
Local Open Scope rust_scope.

Definition MAX_EXECUTION_STEPS : N := 10000.

Section executor.
  Context {U : UnicodeData} {S : ScriptEngine} {C : CronLib} {R : Nested}.

(** ** One step *)

(** The [match &element] of [execute_step]. *)
Definition dispatch (id : Uuid) (t : Token) (d : ProcessDefinition) (node : string) (element : BpmnElement) : M Step :=
  match element with
  | StartEvent | TimerStartEvent _ | MessageStartEvent _ | SignalStartEvent _ => handle_start_event id t d node
  | EndEvent => handle_end_event id t d node
  | TerminateEndEvent => handle_terminate_end_event id t d node
  | ErrorEndEvent code => handle_error_end_event id t d node code
  | UserTask assignee => handle_user_task id t d node assignee
  | ScriptTask script _ => handle_script_task id t d node script
  | SendTask name _ => handle_send_task id t d node name
  | ServiceTask topic multi => handle_service_task id t d node topic multi
  | ParallelGateway => handle_parallel_gateway id t d node
  | ExclusiveGateway dflt => handle_exclusive_gateway id t d node dflt
  | InclusiveGateway => handle_inclusive_gateway id t d node
  | ComplexGateway _ dflt => handle_complex_gateway id t d node dflt
  | EventBasedGateway => handle_event_based_gateway id t d node
  | TimerCatchEvent timer => handle_timer_catch_event id t node timer
  | MessageCatchEvent name => handle_message_catch_event id t node name
  | SignalCatchEvent name => handle_signal_catch_event id t node name
  | ConditionalCatchEvent cond => handle_conditional_catch_event id t node cond
  | SignalThrowEvent name => handle_signal_throw_event id t d node name
  | SignalEndEvent name => handle_signal_end_event id t d node name
  | CallActivity called => handle_call_activity id t d node called
  | EmbeddedSubProcess start => handle_embedded_sub_process t start
  | SubProcessEndEvent sub => handle_sub_process_end_event t d sub
  | EscalationEndEvent code => handle_escalation_end_event id t d node code
  | EscalationThrowEvent code => handle_escalation_throw_event id t d node code
  | CompensationThrowEvent activity => handle_compensation_throw_event id t d node activity false
  | CompensationEndEvent activity => handle_compensation_throw_event id t d node activity true
  | LinkThrowEvent tgt => handle_link_throw_event id t d node tgt
  | BoundaryTimerEvent _ _ _ | BoundaryMessageEvent _ _ _ | BoundarySignalEvent _ _ _ | BoundaryConditionalEvent _ _ _
  | BoundaryErrorEvent _ _ | BoundaryEscalationEvent _ _ _ => handle_boundary_event id t d node
  | BoundaryCompensationEvent _ => mret (Complete, t)
  end.

(** [execute_step]: inputs are mapped and start listeners run before the handler. *)
Definition execute_step (id : Uuid) (t : Token) : M Step :=
  i ← get_instance id;
  d ← get_definition (pi_definition_key i);
  let node := current_node t in
  element ← lift_option (NoSuchNode node) (get_node d node);
  t ← lift (enter t d node);
  '(t, audits) ← lift (run_node_scripts t d node LStart []);
  try_update_instance id (λ i,
    let i := i <| pi_audit_log ::= (λ l, l ++ audits) |> in
    if bool_decide (is_Some (listeners d !! node)) then i <| pi_variables := process_variables t |> else i) ;;
  dispatch id t d node element.

(** The history event of an action. *)
Definition describe_action (a : NextAction) : HistoryEventType * string :=
  match a with
  | Continue _ => (TokenAdvanced, "Token advanced")
  | ContinueMultiple _ => (TokenForked, "Token forked at gateway")
  | WaitForJoin _ _ => (TokenAdvanced, "Token arrived at join")
  | WaitForUser _ => (TokenAdvanced, "Waiting for user task")
  | WaitForServiceTask _ => (TokenAdvanced, "Waiting for service task")
  | WaitForTimer _ => (TokenAdvanced, "Waiting for timer")
  | WaitForMessage _ => (TokenAdvanced, "Waiting for message")
  | WaitForSignal _ => (TokenAdvanced, "Waiting for signal")
  | WaitForCondition _ => (TokenAdvanced, "Waiting for condition")
  | WaitForCallActivity _ _ => (CallActivityStarted, "Spawned call activity")
  | Complete => (BranchCompleted, "Execution path completed")
  | ErrorEnd code => (BranchCompleted, "Execution path completed with error '" +:+ code +:+ "'")
  | EscalationEnd code => (EscalationThrown, "Escalation '" +:+ code +:+ "' thrown at end event")
  | SpawnAndContinue _ _ => (TokenForked, "Escalation handler spawned (non-interrupting)")
  | InterruptScope _ => (TokenForked, "Interrupting event subprocess replaced the scope")
  | Terminate => (BranchCompleted, "Process terminated")
  | WaitForEventGroup _ => (TokenAdvanced, "Waiting for multiple alternative events")
  | MultiInstanceFork _ _ => (TokenForked, "Spawned Multi-Instance parallel tokens")
  | MultiInstanceNext _ _ => (TokenAdvanced, "Advanced to next Multi-Instance sequential iteration")
  end.

(** A step failed: a mapping error ends the instance, every error is saved. *)
Definition step_failed {A} (id : Uuid) (err : EngineError) : M A :=
  at_ ← now;
  match err with
  | DataMappingError _ =>
    try_update_instance id (λ i, push_audit_log (error_text err) (finish (CompletedWithError "DATA_MAPPING_ERROR") at_ i))
  | _ => mret tt
  end ;;
  persist_instance id ;;
  emit_event InstanceChanged ;;
  throw err.

(** One token of the batch: the queue after it. *)
Definition run_token (id : Uuid) (t : Token) (queue : list Token) : M (list Token) :=
  old ← gets (λ e, from_instance <$> e_instances e !! id);
  let node := current_node t in
  r ← try (execute_step id t);
  match r with
  | Err err => step_failed id err
  | Ok (a, t) =>
    let '(ev, description) := describe_action a in
    record_history_event_from_snapshot id ev description ActorEngine None old ;;
    handle_next_action a id (tok_id t) node queue
  end.

(** The hard abort of the loop. *)
Definition exceed_limit (id : Uuid) : M unit :=
  at_ ← now;
  try_update_instance id (λ i, push_audit_log ("ABORTED: Exceeded " +:+ pretty MAX_EXECUTION_STEPS +:+ " execution steps")
    (finish (CompletedWithError "EXECUTION_LIMIT_EXCEEDED") at_ i)) ;;
  persist_instance id ;;
  throw (ExecutionLimitExceeded ("Instance " +:+ pretty id +:+ " exceeded execution step limit ("
    +:+ pretty MAX_EXECUTION_STEPS +:+ ")")).

(** ** The batch *)

(** The two loops of the batch; [steps] have been made.  When the queue is empty
    the conditional catches are evaluated, and the loop goes on while one fires. *)
Fixpoint batch_loop (fuel : nat) (id : Uuid) (steps : N) (queue : list Token) : M unit :=
  match fuel with
  | 0 => fault OutOfFuel
  | Datatypes.S fuel =>
    match queue with
    | t :: queue =>
      if (MAX_EXECUTION_STEPS <? steps + 1)%N then exceed_limit id
      else queue ← run_token id t queue; batch_loop fuel id (steps + 1) queue
    | [] =>
      fired ← fire_conditional_catches id;
      match fired with
      | [] => mret tt
      | _ => batch_loop fuel id steps fired
      end
    end
  end.
Definition batch_fuel : nat := N.to_nat (2 * MAX_EXECUTION_STEPS + 4).

(** The loop without a bound on its turns: the outcomes it can reach. *)
Inductive Loop (id : Uuid) : N → list Token → Engine → result Fault unit * Engine → Prop :=
| loop_limit steps t queue e :
    (MAX_EXECUTION_STEPS < steps + 1)%N → Loop id steps (t :: queue) e (exceed_limit id e)
| loop_fault steps t queue e x e1 :
    (steps + 1 ≤ MAX_EXECUTION_STEPS)%N → run_token id t queue e = (Err x, e1) → Loop id steps (t :: queue) e (Err x, e1)
| loop_token steps t queue e queue' e1 r :
    (steps + 1 ≤ MAX_EXECUTION_STEPS)%N → run_token id t queue e = (Ok queue', e1) →
    Loop id (steps + 1) queue' e1 r → Loop id steps (t :: queue) e r
| loop_conditions_fault steps e x e1 :
    fire_conditional_catches id e = (Err x, e1) → Loop id steps [] e (Err x, e1)
| loop_done steps e e1 : fire_conditional_catches id e = (Ok [], e1) → Loop id steps [] e (Ok tt, e1)
| loop_conditions steps e t ts e1 r :
    fire_conditional_catches id e = (Ok (t :: ts), e1) → Loop id steps (t :: ts) e1 r → Loop id steps [] e r.

Lemma batch_loop_Loop fuel id steps queue e :
  (2 * (MAX_EXECUTION_STEPS + 1 - steps) + (match queue with [] => 2 | _ => 1 end) ≤ N.of_nat fuel)%N →
  (steps ≤ MAX_EXECUTION_STEPS)%N → Loop id steps queue e (batch_loop fuel id steps queue e).
Proof.
  revert steps queue e. induction fuel as [|fuel IH]; intros steps queue e Hfuel Hsteps; [destruct queue; lia|].
  cbn [batch_loop]. destruct queue as [|t queue].
  - rewrite bind_run. destruct (fire_conditional_catches id e) as [[[|t ts]|x] e1] eqn:Hf.
    + by apply loop_done.
    + eapply loop_conditions; [done|]. apply IH; lia.
    + by apply loop_conditions_fault.
  - destruct (N.ltb_spec MAX_EXECUTION_STEPS (steps + 1)); [by apply loop_limit|].
    rewrite bind_run. destruct (run_token id t queue e) as [[queue'|x] e1] eqn:Hr; [|by apply loop_fault].
    eapply loop_token; [done..|]. apply IH; [|lia]. destruct queue'; lia.
Qed.


(** After the batch: save, and hand over to the caller when the instance is done. *)
Definition finish_batch (id : Uuid) : M unit :=
  persist_instance id ;;
  state ← gets (λ e, pi_state <$> e_instances e !! id);
  match state with
  | Some Completed => resume_parent_if_needed id None ;; archive_completed_instance id
  | Some (CompletedWithError code) => resume_parent_if_needed id (Some code) ;; archive_completed_instance id
  | _ => mret tt
  end ;;
  emit_event InstanceChanged.

(** [run_instance_batch_with_tokens]. *)
Definition batch (id : Uuid) (ts : list Token) : M unit :=
  batch_loop batch_fuel id 0 ts ;;
  finish_batch id.
End executor.

(** ** Nesting *)

Fixpoint executor `{UnicodeData, ScriptEngine, CronLib} (depth : nat) : Nested :=
  {| run_instance_batch_with_tokens :=
       match depth with
       | 0 => λ _ _, fault OutOfFuel
       | S depth => batch (R := executor depth)
       end |}.
