(* ===== verification/TimerProcessor.v ===== *)
(** * Processing due timers

    engine-core/src/engine/timer_processor.rs: one round takes every due timer out
    of the pending map, fires it and isolates a failure, which puts the timer back
    with a delay. *)

From stdpp Require Import base list gmap strings pretty.
From S2P Require Import Prelude Text Float Json CondLexer CondParser CondEval Domain Token ProcessDef DataMappings Runtime History Graph Registry Index TopicIndex TimerIndex Engine Scripts Boundary Waits EventScope ProcessStart Signals InstanceOps.
Local Open Scope rust_scope.

Definition FAILED_TIMER_RETRY_DELAY_MS : Z := 2000.

(** [reschedule_failed_timer]. *)
Definition reschedule_failed_timer (t : PendingTimer) : M unit :=
  at_ ← now;
  add_timer (mkTimer (pt_id t) (pt_instance_id t) (pt_node_id t) (at_ + FAILED_TIMER_RETRY_DELAY_MS * 1000000)%Z
    (pt_token_id t) (pt_timer_def t) (pt_remaining_repetitions t)).

Section timer_processor.
  Context {U : UnicodeData} {S : ScriptEngine} {C : CronLib} {R : Nested}.

(** The service tasks of an interrupted token are removed from the map only; their
    entries in the topic index stay. *)
Definition remove_service_task_unindexed (id : Uuid) : M unit :=
  modify (λ e, e <| e_service_tasks ::= λ s, mkStore (delete id (primary s)) (index s) |>) ;;
  remove_persisted_service_task id.

(** The next firing of a recurring timer: after a fire with one repetition left
    there is none. *)
Definition repeat_timer (t : PendingTimer) : M unit :=
  match pt_timer_def t with
  | Some timer =>
    let exhausted := match pt_remaining_repetitions t with Some n => (n <=? 1)%N | None => false end in
    if is_recurring timer && negb exhausted then
      at_ ← now;
      expiry ← lift_call (next_expiry timer at_);
      match expiry with
      | Some expires_at =>
        new_id ← new_uuid;
        add_timer (mkTimer new_id (pt_instance_id t) (pt_node_id t) expires_at (pt_token_id t) (Some timer)
          ((λ n, n - 1)%N <$> pt_remaining_repetitions t))
      | None => mret tt
      end
    else mret tt
  | None => mret tt
  end.

(** The part of [process_expired_timer] for a timer of a token. *)
Definition fire_token_timer (t : PendingTimer) (d : ProcessDefinition) : M unit :=
  let id := pt_instance_id t in
  let non_interrupting := match nodes d !! pt_node_id t with
                          | Some (BoundaryTimerEvent _ _ false) => true
                          | _ => false
                          end in
  fresh ← new_uuid;
  tok ← with_instance id (resume_token non_interrupting (pt_token_id t) fresh);
  when (negb non_interrupting)
    (users ← gets (user_tasks_at id (pt_token_id t) (current_node tok));
     forM users drop_user_task ;;
     services ← gets (service_tasks_at id (pt_token_id t) (current_node tok));
     forM services remove_service_task_unindexed) ;;
  next ← lift (resolve_next_target d (pt_node_id t) (variables tok));
  update_instance id (λ i, i <| pi_current_node := next |>) ;;
  run_instance_batch id (set_node next tok) ;;
  repeat_timer t.

(** [process_expired_timer]. *)
Definition process_expired_timer (t : PendingTimer) : M unit :=
  let id := pt_instance_id t in
  clear_wait_states_for_token id (pt_token_id t) ;;
  subscription ← is_event_subscription id (pt_id t);
  if subscription : bool then
    activation ← activate_event_subscription id (ConsumedTimer t) ∅;
    match activation with
    | Some a => run_instance_batch id (activation_token a)
    | None => mret tt
    end
  else
    old_state ← gets (λ e, e_instances e !! id);
    i ← get_instance id;
    update_instance id (λ i, log_raw ("⏱ Timer '" +:+ pt_node_id t +:+ "' expired, resuming") (i <| pi_state := Running |>)) ;;
    record_history_event id TokenAdvanced "Timer expired" ActorTimer None old_state ;;
    if bool_decide (pt_token_id t = nil_uuid) then trigger_scope_listener id (pt_node_id t) ∅
    else
      d ← get_definition (pi_definition_key i);
      fire_token_timer t d.

(** One expired timer of a round. *)
Definition process_timer (tid : Uuid) : M unit :=
  found ← gets (λ e, primary (e_timers e) !! tid);
  match found with
  | None => mret tt
  | Some t =>
    remove_timer tid ;;
    r ← try (process_expired_timer t);
    match r with
    | Ok _ =>
      again ← gets (λ e, bool_decide (is_Some (primary (e_timers e) !! tid)));
      if again : bool then persist_timer tid else remove_persisted_timer tid
    | Err err =>
      recorded ← record_incident (pt_instance_id t) KTimer (Some (pt_node_id t)) None
                   ("Timer processing failed: " +:+ error_text err) None;
      match recorded with
      | Some (_, true) => persist_instance (pt_instance_id t)
      | _ => mret tt
      end ;;
      reschedule_failed_timer t
    end
  end.

(** [process_timers]: the number of due timers at the start of the round. *)
Definition process_timers : M nat :=
  at_ ← now;
  expired ← gets (λ e, expired_timers (e_instances e) (e_timers e) at_);
  forM expired process_timer ;;
  mret (length expired).

(** ** A round isolates failures *)

Lemma record_incident_contained id kind node task msg details : contained (record_incident id kind node task msg details).
Proof.
  apply contained_bind; [done|]. intros [i|]; [|done]. apply contained_bind; [done|]. intros u.
  apply contained_bind; [done|]. intros at_. by apply contained_bind.
Qed.
Lemma process_timer_contained tid : contained (process_timer tid).
Proof.
  apply contained_bind; [done|]. intros [t|]; [|done]. apply contained_bind; [done|]. intros _.
  apply contained_bind; [apply contained_try|]. intros [[]|err].
  - apply contained_bind; [done|]. intros [];
      [apply contained_quiet; unfold persist_timer; eauto with rust|apply contained_quiet, quiet_emit].
  - apply contained_bind; [apply record_incident_contained|]. intros recorded.
    apply contained_bind; [destruct recorded as [[? []]|]; auto with rust|]. intros _.
    apply contained_bind; [done|]. intros at_. apply contained_bind; [done|]. intros _.
    apply contained_quiet. unfold persist_timer. eauto with rust.
Qed.

(** A round of the timer processor never fails because one of its timers did: the
    error of a timer is recorded and the round goes on, so the round returns the
    number of timers that were due, unless the code panics, blocks or nests
    deeper than the model follows. *)
Theorem process_timers_isolates e :
  match process_timers e with
  | (Ok n, _) => n = length (expired_timers (e_instances e) (e_timers e) (e_now e))
  | (Err (Throws _), _) => False
  | (Err _, _) => True
  end.
Proof.
  unfold process_timers, now, gets. rewrite !bind_run.
  pose proof (contained_forM (expired_timers (e_instances e) (e_timers e) (e_now e)) process_timer process_timer_contained e) as H.
  destruct (forM _ _ e) as [[[]|[]] e']; cbn in *; try done. by eapply H.
Qed.
End timer_processor.
