(* ===== verification/ServiceTask.v ===== *)
(** * External service tasks: fetch-and-lock

    engine-core/src/engine/service_task.rs: workers fetch tasks by topic and
    hold a lock for a while; they complete, fail or extend what they hold.  The
    lock is the pair of [worker_id] and [lock_expiration] of a pending task; a
    future expiration without a worker is a retry delay.  Time spans are
    nanoseconds. *)

From stdpp Require Import base list gmap strings pretty.
From S2P Require Import Prelude Text Json Domain Token ProcessDef Runtime History Registry Index TopicIndex TimerIndex Engine.
Local Open Scope rust_scope.

#[export] Instance PendingServiceTask_settable : Settable PendingServiceTask := λ r,
  mkServiceTask (st_id r) (st_instance_id r) (st_definition_key r) (st_node_id r) (st_topic r) (st_token_id r)
    (st_business_key r) (st_variables_snapshot r) (st_created_at r) (st_worker_id r) (st_lock_expiration r)
    (st_retries r) (st_error_message r) (st_error_details r).

(** ** Time limits *)

Definition second : Z := 1000000000.
Definition millisecond : Z := 1000000.
Definition MIN_LOCK_SECONDS : Z := 1.
Definition MAX_LOCK_SECONDS : Z := 3600.
Definition FALLBACK_LOCK_SECONDS : Z := 30.
Definition MAX_RETRY_AFTER : Duration := (24 * 60 * 60 * second)%Z.

(** [lock_time_delta]. *)
Definition lock_time_delta (seconds : Z) : Duration :=
  (((seconds `max` MIN_LOCK_SECONDS) `min` MAX_LOCK_SECONDS) * second)%Z.

(** [retry_lock_expiration]; the delay is cut to whole milliseconds. *)
Definition retry_lock_expiration (now : DateTime) (retry_after : Duration) : option DateTime :=
  if (retry_after =? 0)%Z then None
  else
    let millis := ((retry_after `min` MAX_RETRY_AFTER) / millisecond)%Z in
    let at_ := (now + millis * millisecond)%Z in
    if (at_ <=? max_utc)%Z then Some at_ else None.

(** [verify_lock_ownership]. *)
Definition verify_lock_ownership (task_id : Uuid) (locked : option string) (worker : string) : EngineResult unit :=
  match locked with
  | Some by_ => if bool_decide (by_ = worker) then Ok tt else Err (ServiceTaskLocked task_id by_)
  | None => Err (ServiceTaskNotLocked task_id)
  end.

(** ** Fetch and lock *)

Inductive ServiceTaskFetchAudience := ExternalWorker | InProcessDispatcher.

(** The guards of the fetch loop for one pending task. *)
Definition claimable (handlers : gset string) (inflight : gset Uuid) (now : DateTime)
    (audience : ServiceTaskFetchAudience) (task_id : Uuid) (t : PendingServiceTask) : bool :=
  (0 <? st_retries t)%Z
  && negb (bool_decide (task_id ∈ inflight))
  && (let reserved := bool_decide (st_topic t ∈ handlers) in
      match audience with ExternalWorker => negb reserved | InProcessDispatcher => reserved end)
  && match st_lock_expiration t with Some expiration => (expiration <=? now)%Z | None => true end.

Definition lock_task (worker : string) (now : DateTime) (seconds : Z) (t : PendingServiceTask) : PendingServiceTask :=
  t <| st_worker_id := Some worker |> <| st_lock_expiration := Some (now + lock_time_delta seconds)%Z |>.

(** [topics.iter().collect::<HashMap>()]: the last duration of a name wins. *)
Definition durations_of (topics : list (string * Z)) : gmap string Z :=
  fold_left (λ m '(name, s), <[name := s]> m) topics ∅.

Section fetch.
  Variable worker : string.
  Variable max_tasks : nat.
  Variable durations : gmap string Z.
  Variable handlers : gset string.
  Variable inflight : gset Uuid.
  Variable audience : ServiceTaskFetchAudience.
  Variable now : DateTime.

Definition locked (topic : string) (t : PendingServiceTask) : PendingServiceTask :=
  lock_task worker now (default FALLBACK_LOCK_SECONDS (durations !! topic)) t.

(** The loop over the candidates. *)
Fixpoint fetch_loop (candidates : list (string * Uuid)) (s : ServiceTasks) (result : list PendingServiceTask)
    : list PendingServiceTask * ServiceTasks :=
  match candidates with
  | [] => (result, s)
  | (topic, task_id) :: rest =>
    if max_tasks <=? length result then (result, s)
    else
      match primary s !! task_id with
      | None => fetch_loop rest (mkStore (primary s) (topic_remove topic task_id (index s))) result
      | Some t =>
        if claimable handlers inflight now audience task_id t then
          fetch_loop rest (store_modify task_id (locked topic) s) (result ++ [locked topic t])
        else fetch_loop rest s result
      end
  end.
End fetch.

(** [fetch_and_lock_inner]. *)
Definition fetch_and_lock_inner (worker : string) (max_tasks : nat) (topics : list (string * Z))
    (audience : ServiceTaskFetchAudience) : M (list PendingServiceTask) :=
  now ← now;
  e ← gets id;
  let '(result, s) :=
    fetch_loop worker max_tasks (durations_of topics) (e_task_handlers e) (e_inflight e) audience now
      (candidate_ids (index (e_service_tasks e)) topics.*1) (e_service_tasks e) [] in
  _ ← modify (λ e, e <| e_service_tasks := s |>);
  _ ← forM result (λ t, persist_service_task (st_id t));
  mret result.

(** [fetch_and_lock_service_tasks_with_durations] and [fetch_and_lock_service_tasks]. *)
Definition fetch_and_lock_service_tasks_with_durations (worker : string) (max_tasks : nat)
    (topics : list (string * Z)) : M (list PendingServiceTask) :=
  fetch_and_lock_inner worker max_tasks topics ExternalWorker.
Definition fetch_and_lock_service_tasks (worker : string) (max_tasks : nat) (topics : list string)
    (lock_duration : Z) : M (list PendingServiceTask) :=
  fetch_and_lock_service_tasks_with_durations worker max_tasks ((λ t, (t, lock_duration)) <$> topics).
(** [fetch_and_lock_in_process]. *)
Definition fetch_and_lock_in_process (worker : string) (max_tasks : nat) (topics : list string)
    (lock_duration : Z) : M (list PendingServiceTask) :=
  fetch_and_lock_inner worker max_tasks ((λ t, (t, lock_duration)) <$> topics) InProcessDispatcher.

(** ** What a worker does with a task it holds *)

Definition modify_task (id : Uuid) (f : PendingServiceTask → PendingServiceTask) : M unit :=
  modify (λ e, e <| e_service_tasks ::= store_modify id f |>).
Definition get_task (id : Uuid) : M PendingServiceTask :=
  mt ← gets (λ e, primary (e_service_tasks e) !! id);
  match mt with Some t => mret t | None => throw (ServiceTaskNotFound id) end.

(** The atomic "verify and remove" that opens [complete_service_task] and
    [handle_bpmn_error_with_variables]. *)
Definition take_locked_task (id : Uuid) (worker : string) : M PendingServiceTask :=
  r ← gets (λ e, remove_pending_service_task_if id
                   (λ t, bool_decide (st_worker_id t = Some worker)) (e_service_tasks e));
  match r with
  | (Some t, s) => _ ← modify (λ e, e <| e_service_tasks := s |>); mret t
  | (None, s) =>
    mt ← gets (λ e, primary (e_service_tasks e) !! id);
    match mt with
    | Some t =>
      match st_worker_id t with
      | None => throw (ServiceTaskNotLocked id)
      | Some by_ => throw (ServiceTaskLocked id by_)
      end
    | None => throw (ServiceTaskNotFound id)
    end
  end.

(** The incident of a task without retries, on its instance if that still exists. *)
Definition record_task_incident (at_ : DateTime) (id : Uuid) (t : PendingServiceTask)
    (message details : option string) : M unit :=
  mi ← gets (λ e, e_instances e !! st_instance_id t);
  match mi with
  | Some i =>
    let msg := default "Unknown error" message in
    fresh ← new_uuid;
    let i := push_audit_log ("🚨 INCIDENT: Service task '" +:+ st_node_id t +:+
               "' failed with 0 retries — " +:+ msg) i in
    put_instance (st_instance_id t)
      (push_or_touch_incident at_ fresh KServiceTask (Some (st_node_id t)) (Some id) msg details i).2
  | None => mret tt
  end.

(** [fail_service_task_with_retry_timeout].  A held task has a positive retry
    count ([tasks_ok]), so the [i32] decrement does not overflow. *)
Definition fail_service_task_with_retry_timeout (id : Uuid) (worker : string) (retries : option Z)
    (message details : option string) (retry_after : Duration) : M unit :=
  t ← get_task id;
  _ ← lift (verify_lock_ownership id (st_worker_id t) worker);
  at_ ← now;
  let new_retries := default (st_retries t - 1)%Z retries in
  _ ← modify_task id (λ t, t <| st_retries := new_retries |> <| st_error_message := message |>
        <| st_error_details := details |> <| st_worker_id := None |>
        <| st_lock_expiration := if (new_retries <=? 0)%Z then None else retry_lock_expiration at_ retry_after |>);
  _ ← (if (0 <? new_retries)%Z then notify_service_tasks_available else mret tt);
  _ ← (if (new_retries <=? 0)%Z then record_task_incident at_ id t message details else mret tt);
  _ ← record_history_event (st_instance_id t) HistoryError ("Service task '" +:+ pretty id +:+ "' failed")
        ActorServiceWorker (Some worker) None;
  _ ← persist_service_task id;
  persist_instance (st_instance_id t).

(** [fail_service_task]. *)
Definition fail_service_task (id : Uuid) (worker : string) (retries : option Z) (message details : option string) : M unit :=
  fail_service_task_with_retry_timeout id worker retries message details 0.

(** [retry_incident]. *)
Definition retry_incident (id : Uuid) (new_retries : option Z) : M unit :=
  t ← get_task id;
  if (0 <? st_retries t)%Z then throw (InvalidDefinition "Task is not an incident (retries > 0)")
  else
    let retries := default 3%Z new_retries in
    _ ← modify_task id (λ t, t <| st_retries := retries |> <| st_error_message := None |>
          <| st_error_details := None |> <| st_worker_id := None |> <| st_lock_expiration := None |>);
    _ ← try_update_instance (st_instance_id t) (push_audit_log
          ("🔄 Incident on service task '" +:+ st_node_id t +:+ "' retried (" +:+ pretty retries +:+ " retries)"));
    _ ← record_history_event (st_instance_id t) TaskCompleted ("Incident retried (task " +:+ pretty id +:+ ")")
          ActorUser None None;
    _ ← persist_service_task id;
    _ ← persist_instance (st_instance_id t);
    notify_service_tasks_available.

(** [extend_lock]. *)
Definition extend_lock (id : Uuid) (worker : string) (additional : Z) : M unit :=
  t ← get_task id;
  _ ← lift (verify_lock_ownership id (st_worker_id t) worker);
  at_ ← now;
  _ ← modify_task id (λ t, t <| st_lock_expiration := Some (at_ + lock_time_delta additional)%Z |>);
  persist_service_task id.

(** ** What a fetch returns *)

Section fetch_spec.
  Variable worker : string.
  Variable max_tasks : nat.
  Variable durations : gmap string Z.
  Variable handlers : gset string.
  Variable inflight : gset Uuid.
  Variable audience : ServiceTaskFetchAudience.
  Variable now : DateTime.

Local Abbreviation claim := (claimable handlers inflight now audience).
Local Abbreviation lock := (locked worker durations now).
Local Abbreviation loop := (fetch_loop worker max_tasks durations handlers inflight audience now).

(** [new] are the tasks a fetch locked: each was a claimable candidate, and in
    the store exactly they are replaced by their locked versions. *)
Record fetched (candidates : list (string * Uuid)) (s : ServiceTasks) (new : list PendingServiceTask)
    (s' : ServiceTasks) : Prop := {
  fetched_from : ∀ v, v ∈ new → ∃ topic old, (topic, st_id v) ∈ candidates ∧
    primary s !! st_id v = Some old ∧ claim (st_id v) old = true ∧ v = lock topic old;
  fetched_once : NoDup (st_id <$> new);
  fetched_stored : ∀ u v, primary s' !! u = Some v ↔
    (v ∈ new ∧ st_id v = u) ∨ (primary s !! u = Some v ∧ u ∉ st_id <$> new);
  fetched_consistent : consistent s';
}.

Lemma lock_id topic t : st_id (lock topic t) = st_id t.
Proof. done. Qed.

Lemma fetched_cons topic id rest s old new s' :
  consistent s → primary s !! id = Some old → claim id old = true → id ∉ rest.*2 →
  fetched rest (store_modify id (lock topic) s) new s' → fetched ((topic, id) :: rest) s (lock topic old :: new) s'.
Proof.
  intros Hc Hold Hclaim Hnotin [Hfrom Honce Hst Hcons].
  assert (st_id old = id) as Hid by (by apply (cons_id _ Hc)).
  assert (id ∉ st_id <$> new) as Hfresh.
  { intros (v & -> & Hv)%list_elem_of_fmap. destruct (Hfrom v Hv) as (tp & o & Hin & _).
    apply Hnotin. by apply (list_elem_of_fmap_2 snd _ (tp, st_id v)). }
  split.
  - intros v [->|Hv]%elem_of_cons.
    + exists topic, old. rewrite lock_id, Hid. split_and!; [set_solver|done..].
    + destruct (Hfrom v Hv) as (tp & o & Hin & Ho & Hcl & Heq). exists tp, o. split; [set_solver|].
      assert (st_id v ≠ id) as Hne by (intros Heq'; apply Hfresh; rewrite <- Heq'; by apply list_elem_of_fmap_2).
      cbn in Ho. rewrite lookup_alter_ne in Ho by done. done.
  - rewrite fmap_cons, lock_id, Hid. by constructor.
  - intros u v. rewrite Hst, fmap_cons, lock_id, Hid, elem_of_cons, not_elem_of_cons. cbn.
    destruct (decide (u = id)) as [->|Hne].
    + rewrite lookup_alter_eq, Hold. cbn. split.
      * intros [[Hv <-]|[[= <-] _]]; [|left; split; [by left|done]].
        exfalso. apply Hfresh. by apply list_elem_of_fmap_2.
      * intros [[[->|Hv] Hvid]|[_ [? _]]]; [by right| |done].
        exfalso. apply Hfresh. rewrite <- Hvid. by apply list_elem_of_fmap_2.
    + rewrite lookup_alter_ne by done. split.
      * intros [[? ?]|[? ?]]; [left; split; [by right|done]|by right].
      * intros [[[->|?] Hvid]|[? [_ ?]]]; [|by left|by right]. rewrite lock_id in Hvid. congruence.
  - done.
Qed.

Lemma fetched_skip p rest s new s' : fetched rest s new s' → fetched (p :: rest) s new s'.
Proof.
  intros [Hfrom ? ? ?]. split; [|done..]. intros v Hv. destruct (Hfrom v Hv) as (tp & o & ? & ?).
  exists tp, o. split; [set_solver|done].
Qed.

Lemma fetched_none candidates s : consistent s → fetched candidates s [] s.
Proof.
  intros. split; [set_solver|constructor| |done]. intros u v. split; [|set_solver].
  intros ?. right. split; [done|apply not_elem_of_nil].
Qed.

Lemma fetch_loop_spec candidates s res :
  consistent s → NoDup candidates.*2 → (∀ topic id, (topic, id) ∈ candidates → is_Some (primary s !! id)) →
  ∃ new s', loop candidates s res = (res ++ new, s') ∧ fetched candidates s new s' ∧
    length (res ++ new) ≤ max_tasks `max` length res ∧
    (length (res ++ new) < max_tasks → ∀ topic id old, (topic, id) ∈ candidates →
       primary s !! id = Some old → claim id old = true → id ∈ st_id <$> new).
Proof.
  revert s res. induction candidates as [|[topic id] rest IH]; intros s res Hc Hnd Hin; cbn [fetch_loop].
  { exists [], s. rewrite app_nil_r. split; [done|]. split; [by apply fetched_none|]. split; [lia|set_solver]. }
  apply NoDup_cons in Hnd as [Hnotin Hnd]. cbn in Hnotin.
  destruct (Nat.leb_spec max_tasks (length res)) as [Hfull|Hroom].
  { exists [], s. rewrite app_nil_r. split; [done|]. split; [by apply fetched_none|]. split; [lia|lia]. }
  destruct (Hin topic id) as [old Hold]; [set_solver|]. rewrite Hold. destruct (claim id old) eqn:Hclaim.
  - destruct (IH (store_modify id (lock topic) s) (res ++ [lock topic old])) as (new & s' & Hrun & Hf & Hlen & Hall).
    + apply store_modify_consistent; [done|done].
    + done.
    + intros tp u Hu. cbn. destruct (decide (u = id)) as [->|]; [rewrite lookup_alter_eq, Hold; by eexists|].
      rewrite lookup_alter_ne by done. apply (Hin tp u). set_solver.
    + exists (lock topic old :: new), s'. rewrite Hrun, <- app_assoc. split; [done|].
      split; [by apply fetched_cons|]. rewrite <- app_assoc in Hlen, Hall. rewrite !length_app in *. cbn in Hlen |- *.
      split; [lia|]. intros Hlt tp u o Hu Ho Hcl.
      assert (st_id old = id) as Hid by (by apply (cons_id _ Hc)).
      change (st_id <$> lock topic old :: new) with (st_id old :: (st_id <$> new)). rewrite Hid, elem_of_cons.
      destruct (decide (u = id)) as [->|Hne]; [by left|]. right.
      apply (Hall Hlt tp u o); [set_solver|cbn; by rewrite lookup_alter_ne|done].
  - destruct (IH s res) as (new & s' & Hrun & Hf & Hlen & Hall); [done|done|intros tp u ?; apply (Hin tp u); set_solver|].
    exists new, s'. split; [done|]. split; [by apply fetched_skip|]. split; [done|].
    intros Hlt tp u o [[= -> ->]|Hu]%elem_of_cons Ho Hcl; [congruence|by eapply Hall].
Qed.
End fetch_spec.

Lemma forM_persist (l : list PendingServiceTask) e :
  (∀ v, v ∈ l → is_Some (primary (e_service_tasks e) !! st_id v)) →
  forM l (λ t, persist_service_task (st_id t)) e =
  (Ok tt, e <| e_trace := e_trace e ++ ((λ t, PersistServiceTask (st_id t)) <$> l) |>).
Proof.
  revert e. induction l as [|x l IH]; intros e Hl; cbn [forM].
  - destruct e. cbn. by rewrite app_nil_r.
  - rewrite bind_run. unfold persist_service_task at 1, persist_if, gets. rewrite bind_run.
    rewrite bool_decide_true by (apply Hl; set_solver). cbn [when emit modify].
    rewrite IH by (intros v Hv; apply Hl; set_solver). cbn. by rewrite <- app_assoc.
Qed.

(** A run of [fetch_and_lock_inner] in terms of the loop. *)
Lemma fetch_and_lock_fetched worker max_tasks topics audience e :
  consistent (e_service_tasks e) →
  let candidates := candidate_ids (index (e_service_tasks e)) topics.*1 in
  ∃ r s', fetch_and_lock_inner worker max_tasks topics audience e =
      (Ok r, e <| e_service_tasks := s' |> <| e_trace := e_trace e ++ ((λ t, PersistServiceTask (st_id t)) <$> r) |>) ∧
    fetched worker (durations_of topics) (e_task_handlers e) (e_inflight e) audience (e_now e)
      candidates (e_service_tasks e) r s' ∧ length r ≤ max_tasks ∧
    (length r < max_tasks → ∀ topic id old, (topic, id) ∈ candidates → primary (e_service_tasks e) !! id = Some old →
       claimable (e_task_handlers e) (e_inflight e) (e_now e) audience id old = true → id ∈ st_id <$> r).
Proof.
  intros Hc candidates. destruct (candidate_ids_consistent (e_service_tasks e) topics.*1 Hc) as (Hnd & Hall & Htopic).
  unfold fetch_and_lock_inner, now, gets. rewrite bind_run, bind_run. unfold id.
  destruct (fetch_loop_spec worker max_tasks (durations_of topics) (e_task_handlers e) (e_inflight e) audience (e_now e)
    candidates (e_service_tasks e) []) as (r & s' & Hrun & Hf & Hlen & Hcomp); [done|done| |].
  { intros topic u Hin. destruct (Htopic topic u Hin) as (t & Ht & _). by eexists. }
  cbn in Hrun. fold candidates. rewrite Hrun. cbn iota. rewrite bind_run. cbn [modify].
  rewrite bind_run, forM_persist.
  2:{ intros v Hv. exists v. cbn. apply (fetched_stored _ _ _ _ _ _ _ _ _ _ Hf). by left. }
  exists r, s'. split; [done|]. split; [done|]. cbn in Hlen. split; [lia|done].
Qed.

Lemma lock_time_delta_bounds s : (second ≤ lock_time_delta s ≤ 3600 * second)%Z.
Proof. unfold lock_time_delta, MIN_LOCK_SECONDS, MAX_LOCK_SECONDS, second. lia. Qed.

(** C19: A fetch never fails and returns at most [max_tasks] different tasks. Each was
    pending under a requested topic and claimable (retries left, no running
    in-process call, the right audience, no lock or delay in the future), and
    it is now stored and persisted with the worker's lock for one second to
    one hour; all other tasks are unchanged. When fewer than [max_tasks] come
    back, nothing claimable was left out. *)
Theorem fetch_and_lock_spec worker max_tasks topics audience e :
  consistent (e_service_tasks e) →
  let claim := claimable (e_task_handlers e) (e_inflight e) (e_now e) audience in
  ∃ r e', fetch_and_lock_inner worker max_tasks topics audience e = (Ok r, e') ∧
    length r ≤ max_tasks ∧ NoDup (st_id <$> r) ∧ consistent (e_service_tasks e') ∧
    e_trace e' = e_trace e ++ (PersistServiceTask <$> (st_id <$> r)) ∧
    (∀ v, v ∈ r → ∃ old seconds, primary (e_service_tasks e) !! st_id v = Some old ∧ claim (st_id v) old = true ∧
       st_topic old ∈ topics.*1 ∧ v = lock_task worker (e_now e) seconds old ∧
       ∃ x, st_lock_expiration v = Some x ∧ (e_now e + second ≤ x ≤ e_now e + 3600 * second)%Z) ∧
    (∀ u v, primary (e_service_tasks e') !! u = Some v ↔
       (v ∈ r ∧ st_id v = u) ∨ (primary (e_service_tasks e) !! u = Some v ∧ u ∉ st_id <$> r)) ∧
    (length r < max_tasks → ∀ u old, primary (e_service_tasks e) !! u = Some old → st_topic old ∈ topics.*1 →
       claim u old = true → u ∈ st_id <$> r).
Proof.
  intros Hc claim. destruct (fetch_and_lock_fetched worker max_tasks topics audience e Hc)
    as (r & s' & Hrun & [Hfrom Honce Hst Hcons] & Hlen & Hall).
  destruct (candidate_ids_consistent (e_service_tasks e) topics.*1 Hc) as (_ & Hcand & Htopic).
  eexists _, _. split; [exact Hrun|]. cbn. split_and!; [done..| | |done|].
  - by rewrite <- list_fmap_compose.
  - intros v Hv. destruct (Hfrom v Hv) as (topic & old & Hin & Hold & Hcl & ->). exists old. eexists.
    split; [done|]. split; [done|]. split; [|split; [done|]].
    2:{ eexists. split; [done|]. pose proof (lock_time_delta_bounds
          (default FALLBACK_LOCK_SECONDS (durations_of topics !! topic))). lia. }
    assert (st_id (locked worker (durations_of topics) (e_now e) topic old) ∈
      (candidate_ids (index (e_service_tasks e)) topics.*1).*2) as Hin' by (by apply (list_elem_of_fmap_2 snd _ (topic, _))).
    apply Hcand in Hin' as (t & Ht & ?). congruence.
  - intros Hlt u old Hu Ht Hcl.
    assert (u ∈ (candidate_ids (index (e_service_tasks e)) topics.*1).*2) as ([topic u'] & -> & Hin)%list_elem_of_fmap
      by (apply Hcand; eauto).
    by eapply Hall.
Qed.

(** A lock excludes every other fetch until it expires: whoever fetches next,
    for whatever topics and audience, does not get a task whose lock time has
    not passed. *)
Theorem locks_exclude w1 n1 topics1 a1 e r1 e1 w2 n2 topics2 a2 later r2 e2 v expiration :
  consistent (e_service_tasks e) →
  fetch_and_lock_inner w1 n1 topics1 a1 e = (Ok r1, e1) →
  fetch_and_lock_inner w2 n2 topics2 a2 (e1 <| e_now := later |>) = (Ok r2, e2) →
  v ∈ r1 → st_lock_expiration v = Some expiration → (later < expiration)%Z →
  st_id v ∉ st_id <$> r2.
Proof.
  intros Hc H1 H2 Hv Hexp Hlater.
  destruct (fetch_and_lock_fetched w1 n1 topics1 a1 e Hc) as (r & s' & Hrun & [_ _ Hst Hcons] & _).
  rewrite H1 in Hrun. injection Hrun as -> ->. cbn in *.
  match type of H2 with fetch_and_lock_inner _ _ _ _ ?e' = _ => set (eng := e') in * end.
  destruct (fetch_and_lock_fetched w2 n2 topics2 a2 eng Hcons) as (r' & s2 & Hrun2 & [Hfrom2 _ _ _] & _).
  rewrite H2 in Hrun2. injection Hrun2 as -> _. intros (v2 & Hid & Hv2)%list_elem_of_fmap.
  destruct (Hfrom2 v2 Hv2) as (topic & old & _ & Hold & Hcl & _). rewrite <- Hid in Hold.
  assert (primary s' !! st_id v = Some v) as Hvs by (apply Hst; by left).
  assert (old = v) as -> by (cbn in Hold; congruence).
  unfold claimable in Hcl. rewrite Hexp in Hcl. apply andb_true_iff in Hcl as [_ Hle%Z.leb_le]. cbn in Hle. lia.
Qed.

(** ** Who may touch a locked task *)

Lemma get_task_run id e :
  get_task id e =
  (match primary (e_service_tasks e) !! id with Some t => Ok t | None => Err (Throws (ServiceTaskNotFound id)) end, e).
Proof. unfold get_task, gets. rewrite bind_run. by destruct (primary (e_service_tasks e) !! id). Qed.

(** What a worker gets for a task: the task it holds, or why it does not hold it. *)
Definition held_by (e : Engine) (id : Uuid) (worker : string) : EngineResult PendingServiceTask :=
  match primary (e_service_tasks e) !! id with
  | None => Err (ServiceTaskNotFound id)
  | Some t =>
    match st_worker_id t with
    | None => Err (ServiceTaskNotLocked id)
    | Some w => if bool_decide (w = worker) then Ok t else Err (ServiceTaskLocked id w)
    end
  end.

Lemma take_locked_task_run id worker e :
  take_locked_task id worker e =
  match held_by e id worker with
  | Ok t => (Ok t, e <| e_service_tasks := (store_remove_if id (λ _, true) (e_service_tasks e)).2 |>)
  | Err err => (Err (Throws err), e)
  end.
Proof.
  unfold take_locked_task, held_by, gets. rewrite bind_run. cbn beta iota.
  unfold remove_pending_service_task_if, store_remove_if.
  destruct (primary (e_service_tasks e) !! id) as [t|] eqn:Ht; [|by rewrite bind_run, Ht].
  destruct (st_worker_id t) as [w|] eqn:Hw.
  - case_bool_decide as Heq; case_bool_decide as Heq'; try congruence; [done|].
    rewrite bind_run, Ht. by rewrite Hw.
  - rewrite bool_decide_false by done. rewrite bind_run, Ht. by rewrite Hw.
Qed.

Lemma held_by_verify e id worker t :
  primary (e_service_tasks e) !! id = Some t →
  held_by e id worker = match verify_lock_ownership id (st_worker_id t) worker with Ok _ => Ok t | Err x => Err x end.
Proof. intros Ht. unfold held_by, verify_lock_ownership. rewrite Ht. destruct (st_worker_id t); [|done]. by case_bool_decide. Qed.

(** A guarded operation: the checks of [get_task] and [verify_lock_ownership]. *)
Lemma guarded_run {A} id worker (k : PendingServiceTask → M A) e :
  (t ← get_task id; _ ← lift (verify_lock_ownership id (st_worker_id t) worker); k t) e =
  match held_by e id worker with Ok t => k t e | Err err => (Err (Throws err), e) end.
Proof.
  rewrite bind_run, get_task_run. destruct (primary (e_service_tasks e) !! id) as [t|] eqn:Ht.
  - rewrite (held_by_verify _ _ _ _ Ht), bind_run. cbn [lift map_err]. by destruct (verify_lock_ownership _ _ _).
  - unfold held_by. by rewrite Ht.
Qed.

(** Completing (its opening check), failing and extending a task are reserved for
    the worker that holds its lock: everybody else gets an error that tells
    apart a missing task, an unlocked task and another worker's lock, and
    nothing changes. *)
Theorem only_the_owner id worker e err :
  held_by e id worker = Err err →
  take_locked_task id worker e = (Err (Throws err), e) ∧
  (∀ retries message details delay,
     fail_service_task_with_retry_timeout id worker retries message details delay e = (Err (Throws err), e)) ∧
  (∀ seconds, extend_lock id worker seconds e = (Err (Throws err), e)).
Proof.
  intros H. split_and!.
  - by rewrite take_locked_task_run, H.
  - intros. unfold fail_service_task_with_retry_timeout. by rewrite guarded_run, H.
  - intros. unfold extend_lock. by rewrite guarded_run, H.
Qed.

(** ** Failing a task *)

(** The last steps of a report: the history, the stored task and instance. *)
Lemma report_spares id ev descr actor actor_id old u :
  spares e_service_tasks (record_history_event id ev descr actor actor_id old ;; persist_service_task u ;; persist_instance id).
Proof. repeat apply spares_bind; eauto with rust. Qed.

Lemma record_task_incident_run at_ id t message details e :
  ∃ e', record_task_incident at_ id t message details e = (Ok tt, e') ∧ e_service_tasks e' = e_service_tasks e.
Proof.
  unfold record_task_incident, gets. rewrite bind_run. destruct (e_instances e !! st_instance_id t) as [i|].
  - rewrite bind_run. cbn [new_uuid]. eexists. split; [reflexivity|]. done.
  - by eexists.
Qed.

Lemma fail_run id worker retries message details delay e t :
  held_by e id worker = Ok t →
  ∃ e', fail_service_task_with_retry_timeout id worker retries message details delay e = (Ok tt, e') ∧
    let n := default (st_retries t - 1)%Z retries in
    primary (e_service_tasks e') = alter (λ t, t <| st_retries := n |> <| st_error_message := message |>
        <| st_error_details := details |> <| st_worker_id := None |>
        <| st_lock_expiration := if (n <=? 0)%Z then None else retry_lock_expiration (e_now e) delay |>)
      id (primary (e_service_tasks e)) ∧
    index (e_service_tasks e') = index (e_service_tasks e).
Proof.
  intros H. unfold fail_service_task_with_retry_timeout. rewrite guarded_run, H. unfold now, gets.
  rewrite bind_run. cbn zeta. set (n := default (st_retries t - 1)%Z retries).
  rewrite bind_run. cbn [modify_task modify]. rewrite bind_run.
  destruct (Z.ltb_spec 0 n), (Z.leb_spec n 0); try lia; cbn [notify_service_tasks_available emit modify mret M_ret].
  - rewrite bind_run. cbn [mret M_ret]. edestruct report_spares as (e2 & Hr & Hs). rewrite Hr. exists e2. split; [done|]. by rewrite Hs.
  - rewrite bind_run. match goal with |- context [record_task_incident ?a ?b ?c ?d ?x ?e] =>
      destruct (record_task_incident_run a b c d x e) as (e2 & Hr & Hs); rewrite Hr end.
    edestruct report_spares as (e3 & Hr3 & Hs3). rewrite Hr3. exists e3. split; [done|]. by rewrite Hs3, Hs.
Qed.

(** When a task becomes fetchable again after a failure with a delay. *)
Definition retry_time (now : DateTime) (delay : Duration) : DateTime :=
  (now + (delay `min` MAX_RETRY_AFTER) / millisecond * millisecond)%Z.

(** A worker that reports a failure loses its lock. With retries left the task can
    be fetched again exactly from the (capped) retry time on; without any it
    cannot be fetched at all until somebody retries the incident. *)
Theorem fail_service_task_spec id worker retries message details delay e t :
  held_by e id worker = Ok t → (0 ≤ delay)%Z → (retry_time (e_now e) delay ≤ max_utc)%Z →
  let n := default (st_retries t - 1)%Z retries in
  ∃ e' t', fail_service_task_with_retry_timeout id worker retries message details delay e = (Ok tt, e') ∧
    primary (e_service_tasks e') !! id = Some t' ∧ st_worker_id t' = None ∧ st_retries t' = n ∧
    ∀ handlers inflight later audience,
      claimable handlers inflight later audience id t' = true ↔
      (0 < n)%Z ∧ (delay = 0%Z ∨ (retry_time (e_now e) delay ≤ later)%Z) ∧ id ∉ inflight ∧
      (audience = InProcessDispatcher ↔ st_topic t ∈ handlers).
Proof.
  intros Hheld Hdelay Hmax n. destruct (fail_run id worker retries message details delay e t Hheld) as (e' & Hrun & Hp & _).
  fold n in Hp. assert (primary (e_service_tasks e) !! id = Some t) as Ht.
  { unfold held_by in Hheld. destruct (primary _ !! id) as [x|]; [|done].
    destruct (st_worker_id x); [|done]. case_bool_decide; congruence. }
  eexists e', _. split; [done|]. rewrite Hp, lookup_alter_eq, Ht. cbn [fmap option_fmap option_map]. split; [reflexivity|].
  split; [done|]. split; [done|]. intros handlers inflight later audience.
  unfold claimable. cbn [st_retries st_topic st_lock_expiration set_field].
  rewrite !andb_true_iff, Z.ltb_lt, negb_true_iff, bool_decide_eq_false.
  assert ((match audience with ExternalWorker => negb (bool_decide (st_topic t ∈ handlers))
             | InProcessDispatcher => bool_decide (st_topic t ∈ handlers) end) = true ↔
    (audience = InProcessDispatcher ↔ st_topic t ∈ handlers)) as Haud.
  { destruct audience; case_bool_decide; naive_solver. }
  assert ((0 < n)%Z → match (if (n <=? 0)%Z then None else retry_lock_expiration (e_now e) delay) with
      Some x => (x <=? later)%Z | None => true end = true ↔ delay = 0%Z ∨ (retry_time (e_now e) delay ≤ later)%Z) as Hexp.
  { intros Hn. destruct (Z.leb_spec n 0); [lia|]. unfold retry_lock_expiration. fold (retry_time (e_now e) delay).
    destruct (Z.eqb_spec delay 0); [naive_solver|].
    assert ((retry_time (e_now e) delay <=? max_utc)%Z = true) as -> by lia. rewrite Z.leb_le. naive_solver. }
  cbn in Haud, Hexp |- *. rewrite Haud. tauto.
Qed.

(** ** The lock protocol *)

(** A locked task has retries left and an expiration. *)
Definition task_ok (t : PendingServiceTask) : Prop :=
  is_Some (st_worker_id t) → (0 < st_retries t)%Z ∧ is_Some (st_lock_expiration t).
Definition tasks_ok (s : ServiceTasks) : Prop :=
  consistent s ∧ ∀ u t, primary s !! u = Some t → task_ok t.

(** The steps of workers, administrators, the executor and the clock. *)
Inductive lock_step : Engine → Engine → Prop :=
| ls_fetch worker n topics audience e r e' :
    fetch_and_lock_inner worker n topics audience e = (r, e') → lock_step e e'
| ls_take id worker e r e' : take_locked_task id worker e = (r, e') → lock_step e e'
| ls_fail id worker retries message details delay e r e' :
    fail_service_task_with_retry_timeout id worker retries message details delay e = (r, e') → lock_step e e'
| ls_retry id retries e r e' : retry_incident id retries e = (r, e') → lock_step e e'
| ls_extend id worker seconds e r e' : extend_lock id worker seconds e = (r, e') → lock_step e e'
| ls_create t e : st_worker_id t = None → primary (e_service_tasks e) !! st_id t = None →
    lock_step e (e <| e_service_tasks ::= insert_pending_service_task t |>)
| ls_clock later e : lock_step e (e <| e_now := later |>).

Lemma store_modify_tasks_ok id f s :
  (∀ t, st_id (f t) = st_id t ∧ st_topic (f t) = st_topic t) → (∀ t, primary s !! id = Some t → task_ok (f t)) →
  tasks_ok s → tasks_ok (store_modify id f s).
Proof.
  intros Hf Hok [Hc Ht]. split; [by apply store_modify_consistent|]. intros u t. cbn.
  destruct (decide (u = id)) as [->|]; [|rewrite lookup_alter_ne by done; apply Ht].
  rewrite lookup_alter_eq. intros (x & Hx & ->)%fmap_Some. by apply Hok.
Qed.

Lemma held_by_stored e id worker t : held_by e id worker = Ok t → primary (e_service_tasks e) !! id = Some t.
Proof.
  unfold held_by. destruct (primary _ !! id) as [x|]; [|done]. destruct (st_worker_id x); [|done].
  case_bool_decide; congruence.
Qed.

Lemma held_by_worker e id worker t : held_by e id worker = Ok t → st_worker_id t = Some worker.
Proof.
  unfold held_by. destruct (primary _ !! id) as [x|]; [|done]. destruct (st_worker_id x) eqn:Hw; [|done].
  case_bool_decide; [|done]. intros [= <-]. congruence.
Qed.

Lemma fetch_tasks_ok worker n topics audience e :
  tasks_ok (e_service_tasks e) → tasks_ok (e_service_tasks (fetch_and_lock_inner worker n topics audience e).2).
Proof.
  intros [Hc Ht]. destruct (fetch_and_lock_fetched worker n topics audience e Hc)
    as (r & s' & Hrun & [Hfrom _ Hst Hcons] & _). rewrite Hrun. cbn. split; [done|].
  intros u t [[Hr <-]|[Hp _]]%Hst; [|by eapply Ht].
  destruct (Hfrom t Hr) as (topic & old & _ & _ & Hcl & ->). intros _. cbn. split; [|by eexists].
  unfold claimable in Hcl. rewrite !andb_true_iff in Hcl. destruct Hcl as [[[?%Z.ltb_lt _] _] _]. done.
Qed.

Lemma retry_incident_run id retries e :
  e_service_tasks (retry_incident id retries e).2 = e_service_tasks e ∨
  e_service_tasks (retry_incident id retries e).2 =
    store_modify id (λ t, t <| st_retries := default 3%Z retries |> <| st_error_message := None |>
      <| st_error_details := None |> <| st_worker_id := None |> <| st_lock_expiration := None |>) (e_service_tasks e).
Proof.
  unfold retry_incident. rewrite bind_run, get_task_run.
  destruct (primary (e_service_tasks e) !! id) as [t|]; [|by left]. destruct (0 <? st_retries t)%Z; [by left|].
  right. do 2 (rewrite bind_run; cbn [modify_task try_update_instance modify]).
  match goal with |- context [?m ?e] => match type of e with Engine => assert (spares e_service_tasks m) as Hs end end.
  { repeat apply spares_bind; eauto with rust. }
  edestruct Hs as (e2 & -> & Hv). cbn [snd]. by rewrite Hv.
Qed.

Lemma lock_step_tasks_ok e e' : lock_step e e' → tasks_ok (e_service_tasks e) → tasks_ok (e_service_tasks e').
Proof.
  intros Hstep [Hc Ht]. destruct Hstep as
    [worker n topics audience e r e' Hrun|id worker e r e' Hrun|id worker retries message details delay e r e' Hrun
    |id retries e r e' Hrun|id worker seconds e r e' Hrun|t e Hw Hnew|later e].
  - pose proof (fetch_tasks_ok worker n topics audience e (conj Hc Ht)) as H. by rewrite Hrun in H.
  - rewrite take_locked_task_run in Hrun. destruct (held_by e id worker) as [t|]; simplify_eq; [|by split].
    cbn -[store_remove_if]. split; [by eauto with rust typeclass_instances|]. intros u x. unfold store_remove_if.
    destruct (primary (e_service_tasks e) !! id); [|apply Ht]. cbn. intros [_ Hx]%lookup_delete_Some. by eapply Ht.
  - destruct (held_by e id worker) as [t|err] eqn:Hh.
    + destruct (fail_run id worker retries message details delay e t Hh) as (e2 & Hrun2 & Hp & Hi).
      rewrite Hrun2 in Hrun. injection Hrun as <- <-.
      destruct (e_service_tasks e2) as [p ix]. cbn in Hp, Hi. subst p ix.
      apply (store_modify_tasks_ok id _ (e_service_tasks e)); [done| |by split]. intros t' _ [w Hw]. done.
    + unfold fail_service_task_with_retry_timeout in Hrun. rewrite guarded_run, Hh in Hrun.
      injection Hrun as <- <-. by split.
  - destruct (retry_incident_run id retries e) as [H|H]; rewrite Hrun in H; cbn [snd] in H; rewrite H; [by split|].
    apply store_modify_tasks_ok; [done| |by split]. intros t' _ [w Hw]. done.
  - unfold extend_lock in Hrun. rewrite guarded_run in Hrun.
    destruct (held_by e id worker) as [t|] eqn:Hh; [|injection Hrun as <- <-; by split].
    unfold now, gets in Hrun. rewrite bind_run, bind_run in Hrun. cbn [modify_task modify] in Hrun.
    edestruct (quiet_persist_if (λ e, primary (e_service_tasks e) !! id)) as (u & l & Hq & _).
    unfold persist_service_task in Hrun. rewrite Hq in Hrun. injection Hrun as <- <-. cbn -[store_modify].
    apply store_modify_tasks_ok; [done| |by split]. intros t' Ht' Hw. cbn. split; [|by eexists].
    apply (Ht _ _ Ht'). done.
  - cbn. split; [apply store_insert_consistent; [done|]; intros old Hold; cbn in Hold; congruence|].
    intros u x. cbn.
    intros [[<- <-]|[_ Hx]]%lookup_insert_Some; [|by eapply Ht]. intros [w Hw']. congruence.
  - by split.
Qed.


(** ** A concrete worker *)

Definition task_engine : Engine :=
  engine_new <| e_service_tasks := insert_pending_service_task (example_task 10 "mail") store_empty |>.
Definition locked_engine : Engine := (fetch_and_lock_service_tasks "w1" 5 ["mail"] 30 task_engine).2.
Lemma task_engine_step : lock_step engine_new task_engine.
Proof. apply (ls_create (example_task 10 "mail") engine_new); reflexivity. Qed.
Lemma task_engine_consistent : consistent (e_service_tasks task_engine).
Proof. apply store_insert_consistent; [apply store_empty_consistent|]. intros old H. cbn in H. by rewrite lookup_empty in H. Qed.

Lemma fetch_and_lock_spec_witness :
  ∃ r e', fetch_and_lock_inner "w1" 5 [("mail", 30%Z)] ExternalWorker task_engine = (Ok r, e') ∧ length r ≤ 5 ∧
    NoDup (st_id <$> r) ∧ st_id <$> r = [10%N].
Proof.
  destruct (fetch_and_lock_spec "w1" 5 [("mail", 30%Z)] ExternalWorker task_engine task_engine_consistent)
    as (r & e' & H1 & H2 & H3 & _).
  exists r, e'. split; [exact H1|]. split; [exact H2|]. split; [exact H3|].
  assert (Ok r = (fetch_and_lock_inner "w1" 5 [("mail", 30%Z)] ExternalWorker task_engine).1) as Hr by (by rewrite H1).
  vm_compute in Hr. injection Hr as ->. reflexivity.
Defined.

Lemma locks_exclude_witness :
  ∃ v, (fetch_and_lock_inner "w1" 5 [("mail", 30%Z)] ExternalWorker task_engine).1 = Ok [v] ∧
  ∃ r2, (fetch_and_lock_inner "w2" 5 [("mail", 30%Z)] ExternalWorker locked_engine).1 = Ok r2 ∧ st_id v ∉ st_id <$> r2.
Proof.
  eexists. split; [vm_compute; reflexivity|]. eexists. split; [vm_compute; reflexivity|].
  eapply (locks_exclude "w1" 5 [("mail", 30%Z)] ExternalWorker task_engine _ locked_engine "w2" 5 [("mail", 30%Z)]
    ExternalWorker 0 _ _ _ 30000000000).
  - exact task_engine_consistent.
  - vm_compute. reflexivity.
  - vm_compute. reflexivity.
  - apply list_elem_of_singleton. reflexivity.
  - vm_compute. reflexivity.
  - vm_compute. reflexivity.
Defined.

Lemma only_the_owner_witness :
  take_locked_task 10 "w2" locked_engine = (Err (Throws (ServiceTaskLocked 10 "w1")), locked_engine).
Proof.
  refine (proj1 (only_the_owner 10 "w2" locked_engine (ServiceTaskLocked 10 "w1") _)). vm_compute. reflexivity.
Defined.

Lemma fail_service_task_spec_witness :
  ∃ e' t', fail_service_task 10 "w1" None (Some "boom") None locked_engine = (Ok tt, e') ∧
    primary (e_service_tasks e') !! 10%N = Some t' ∧ st_worker_id t' = None ∧ st_retries t' = 2%Z.
Proof.
  destruct (fail_service_task_spec 10 "w1" None (Some "boom") None 0 locked_engine
    (lock_task "w1" 0 30 (example_task 10 "mail"))) as (e' & t' & H1 & H2 & H3 & H4 & _);
    [vm_compute; reflexivity|lia|vm_compute; discriminate|]. exists e', t'. exact (conj H1 (conj H2 (conj H3 H4))).
Defined.

