(* ===== verification/TaskCompletion.v ===== *)
(** * Completing tasks

    engine-core/src/engine/user_task.rs ([complete_user_task]) and the rest of
    service_task.rs: completion by a worker (with multi-instance progress and
    rollback), manual resolution of an incident, and BPMN errors reported by a
    worker. *)

From stdpp Require Import base list gmap strings pretty.
From S2P Require Import Prelude Text Float Json CondLexer CondParser CondEval Domain Token ProcessDef DataMappings Runtime History Graph Gateway Registry Index TopicIndex TimerIndex Engine Scripts Handlers Boundary ServiceTask Waits TaskHandlers EventScope ProcessStart Signals NextAction.
Local Open Scope rust_scope.

(** The token of a task leaves the instance. *)
Definition take_token (token_id : Uuid) (i : ProcessInstance) : EngineResult Token * ProcessInstance :=
  resume_token false token_id nil_uuid i.

(** The instance goes on at the task's node. *)
Definition resume_at (node entry : string) (i : ProcessInstance) : ProcessInstance :=
  (if is_parallel (pi_state i) then i else i <| pi_state := Running |>) <| pi_current_node := node |>
    <| pi_audit_log ::= (λ l, l ++ [entry]) |>.

Section completion.
  Context {U : UnicodeData} {S : ScriptEngine} {C : CronLib} {R : Nested}.

(** ** User tasks *)

(** The second half of [complete_user_task], after the token was taken. *)
Definition finish_user_task (task_id : Uuid) (p : PendingUserTask) (t : Token) : M unit :=
  let id := ut_instance_id p in
  let node := ut_node_id p in
  remove_persisted_user_task task_id ;;
  cancel_boundary_timers id node ;;
  cancel_boundary_waits id node ;;
  old_state ← gets (λ e, e_instances e !! id);
  i ← get_instance id;
  update_instance id (resume_at node ("✅ User task '" +:+ node +:+ "' completed")) ;;
  d ← get_definition (pi_definition_key i);
  r ← try (run_end_scripts id t d node);
  match r with
  | Err err =>
    try_update_instance id (λ i, i <| pi_state := WaitingOnUserTask task_id |> <| pi_tokens ::= <[tok_id t := t]> |>) ;;
    put_user_task task_id p ;;
    throw err
  | Ok t =>
    register_compensation_handler id node d ;;
    next ← lift (resolve_next_target d node (variables t));
    update_instance id (λ i, i <| pi_current_node := next |>) ;;
    record_history_event id TaskCompleted ("User task '" +:+ node +:+ "' completed") ActorUser (Some (ut_assignee p)) old_state ;;
    run_instance_batch id (set_node next t)
  end.

(** [complete_user_task]. *)
Definition complete_user_task (task_id : Uuid) (additional_vars : Vars) : M unit :=
  mp ← gets (λ e, e_user_tasks e !! task_id);
  p ← lift_option (TaskNotPending task_id "not found in pending tasks") mp;
  remove_user_task task_id ;;
  let id := ut_instance_id p in
  mi ← gets (λ e, e_instances e !! id);
  if bool_decide (is_Some (mi ≫= λ i, if is_suspended (pi_state i) then Some i else None)) then
    put_user_task task_id p ;;
    throw (InstanceSuspended id)
  else
    t ← with_instance id (take_token (ut_token_id p));
    finish_user_task task_id p (extend_token additional_vars t).

(** ** Completion by a worker *)

(** [restore_mapped_service_task]. *)
Definition restore_mapped_service_task (id : Uuid) (t : Token) (task : PendingServiceTask)
    (previous : option ProcessInstance) : M unit :=
  try_update_instance id (λ i,
    (match previous with
     | Some p => i <| pi_variables := pi_variables p |> <| pi_state := pi_state p |>
     | None => i
     end) <| pi_tokens ::= <[tok_id t := t]> |>) ;;
  insert_service_task task.

(** The next open task of the same multi-instance group. *)
Definition next_open_multi_instance_task_id (id : Uuid) (node : string) (token_id exclude : Uuid) (e : Engine) : option Uuid :=
  st_id <$> List.find (λ t, bool_decide (st_instance_id t = id) && bool_decide (st_node_id t = node)
                            && bool_decide (st_token_id t = token_id) && negb (bool_decide (st_id t = exclude)))
    (map_to_list (primary (e_service_tasks e))).*2.

(** The item variables of the completed task go to the central token. *)
Definition merge_item (element : option string) (snapshot : Vars) (t : Token) : Token :=
  let vars := match snapshot !! "loopCounter" with Some v => <["loopCounter" := v]> (variables t) | None => variables t end in
  let vars := match element with
              | Some name => match snapshot !! name with Some v => <[name := v]> vars | None => vars end
              | None => vars
              end in
  set_variables vars t.

(** [usize::saturating_add(1)]. *)
Definition saturating_succ (n : nat) : nat := if (N.of_nat n <? usize_limit)%N then Datatypes.S n else n.
Definition advance_item (p : MultiInstanceProgress) : MultiInstanceProgress :=
  {| mi_node_id := mi_node_id p; mi_total := mi_total p; mi_completed := saturating_succ (mi_completed p);
     mi_sequential_token := mi_sequential_token p; mi_items := mi_items p |}.

(** The instance after an item that is not the last. *)
Definition note_item (node : string) (t : Token) (next_task : Uuid) (entry : string) (i : ProcessInstance) : ProcessInstance :=
  push_audit_log entry (i <| pi_variables := process_variables t |> <| pi_tokens ::= <[tok_id t := t]> |>
    <| pi_multi_instance_state ::= alter advance_item node |> <| pi_state := WaitingOnServiceTask next_task |>).

(** What a completion knows before it touches the token. *)
Record Completing := mkCompleting {
  co_id : Uuid;
  co_task : PendingServiceTask;
  co_worker : string;
  co_old : option ProcessInstance;
  co_definition : ProcessDefinition;
  co_progress : option MultiInstanceProgress;
}.
Definition co_multi (c : Completing) : option MultiInstanceDef :=
  match get_node (co_definition c) (st_node_id (co_task c)) with
  | Some (ServiceTask _ (Some mi)) => Some mi
  | _ => None
  end.
Definition co_element (c : Completing) : option string := co_multi c ≫= element_variable.
Definition co_is_multi (c : Completing) : bool := bool_decide (is_Some (co_progress c)).
Definition co_is_last (c : Completing) : bool :=
  match co_progress c with Some p => mi_total p <=? saturating_succ (mi_completed p) | None => false end.
Definition co_is_sequential (c : Completing) : bool :=
  co_is_multi c && match co_multi c with Some mi => is_sequential mi | None => false end.

(** The token, taken out of the instance unless items are left. *)
Definition take_completing_token (c : Completing) (i : ProcessInstance) : EngineResult Token * ProcessInstance :=
  let token_id := st_token_id (co_task c) in
  match pi_tokens i !! token_id with
  | None => (Err (token_missing token_id), i)
  | Some t =>
    (Ok (if co_is_multi c then merge_item (co_element c) (st_variables_snapshot (co_task c)) t else t),
     if co_is_multi c && negb (co_is_last c) then i else i <| pi_tokens ::= delete token_id |>)
  end.

Definition completed_history (c : Completing) (description : string) : M unit :=
  record_history_event (st_instance_id (co_task c)) TaskCompleted description ActorServiceWorker
    (Some (co_worker c)) (co_old c).

(** The texts of one item. *)
Definition item_text (kind : string) (c : Completing) : string :=
  let '(completed, total) := match co_progress c with
                             | Some p => (saturating_succ (mi_completed p), mi_total p)
                             | None => (0, 0)
                             end in
  kind +:+ " service task '" +:+ st_node_id (co_task c) +:+ "' item " +:+ pretty completed +:+ "/"
    +:+ pretty total +:+ " completed".

(** A sequential activity before its last item: the next task is created. *)
Definition next_sequential_item (c : Completing) (t rollback : Token) : M unit :=
  let task := co_task c in
  let id := st_instance_id task in
  let '(completed, items) := match co_progress c with
                             | Some p => (saturating_succ (mi_completed p), mi_items p)
                             | None => (0, [])
                             end in
  let vars := <["loopCounter" := VNumber (NumInt (Z.of_nat (saturating_succ completed)))]> (variables t) in
  let vars := match co_element c, items !! completed with
              | Some name, Some (Some v) => <[name := v]> vars
              | _, _ => vars
              end in
  match apply_inputs (co_definition c) (st_node_id task) vars with
  | Err err => restore_mapped_service_task id rollback task (co_old c) ;; throw err
  | Ok snapshot =>
    next_id ← new_uuid;
    at_ ← now;
    let next := mkServiceTask next_id id (def_key (co_definition c)) (st_node_id task) (st_topic task) (tok_id t)
                  (co_old c ≫= key_of) snapshot at_ None None 3 None None in
    update_instance id (note_item (st_node_id task) t next_id
      ("✅ " +:+ item_text "Sequential multi-instance" c +:+ " by worker '" +:+ co_worker c +:+ "'")) ;;
    add_service_task next ;;
    remove_persisted_service_task (co_id c) ;;
    completed_history c (item_text "Sequential multi-instance" c) ;;
    persist_instance id
  end.

(** A parallel activity before its last item. *)
Definition next_parallel_item (c : Completing) (t : Token) : M unit :=
  let task := co_task c in
  let id := st_instance_id task in
  open ← gets (next_open_multi_instance_task_id id (st_node_id task) (st_token_id task) (co_id c));
  update_instance id (note_item (st_node_id task) t (default (co_id c) open)
    ("✅ " +:+ item_text "Multi-instance" c +:+ " by worker '" +:+ co_worker c +:+ "'")) ;;
  remove_persisted_service_task (co_id c) ;;
  completed_history c (item_text "Multi-instance" c) ;;
  persist_instance id.

(** The activity is done: its token leaves the node. *)
Definition finish_service_task (c : Completing) (t rollback : Token) : M unit :=
  let task := co_task c in
  let id := st_instance_id task in
  let node := st_node_id task in
  let d := co_definition c in
  cancel_boundary_timers id node ;;
  cancel_boundary_waits id node ;;
  update_instance id (λ i,
    let i := if co_is_multi c then i <| pi_multi_instance_state ::= delete node |> else i in
    let i := push_audit_log ("✅ Service task '" +:+ node +:+ "' completed by worker '" +:+ co_worker c +:+ "'") i in
    (if is_parallel (pi_state i) then i else i <| pi_state := Running |>) <| pi_variables := process_variables t |>) ;;
  r ← try (run_end_scripts id t d node);
  match r with
  | Err err => restore_mapped_service_task id rollback task (co_old c) ;; throw err
  | Ok t =>
    next ← lift (resolve_next_target d node (variables t));
    update_instance id (λ i, i <| pi_current_node := next |>) ;;
    remove_persisted_service_task (co_id c) ;;
    completed_history c ("Service task '" +:+ node +:+ "' completed") ;;
    run_instance_batch id (set_node next t)
  end.

(** [complete_service_task]. *)
Definition complete_service_task (task_id : Uuid) (worker : string) (vars : Vars) : M unit :=
  task ← take_locked_task task_id worker;
  let id := st_instance_id task in
  old_state ← gets (λ e, e_instances e !! id);
  if bool_decide (is_Some (old_state ≫= λ i, if is_suspended (pi_state i) then Some i else None)) then
    insert_service_task task ;;
    throw (InstanceSuspended id)
  else
    i ← get_instance id;
    d ← get_definition (pi_definition_key i);
    let c := mkCompleting task_id task worker old_state d (pi_multi_instance_state i !! st_node_id task) in
    rollback ← with_instance id (take_completing_token c);
    if co_is_multi c then
      match publish_multi_instance_outputs rollback d (st_node_id task) (st_variables_snapshot task) vars with
      | Err err => restore_mapped_service_task id rollback task old_state ;; throw err
      | Ok t =>
        if co_is_last c then finish_service_task c t rollback
        else if co_is_sequential c then next_sequential_item c t rollback
        else next_parallel_item c t
      end
    else finish_service_task c (extend_token vars rollback) rollback.

(** ** Manual resolution *)

(** The incident, removed from the map. *)
Definition take_incident (task_id : Uuid) : M PendingServiceTask :=
  '(found, s) ← gets (λ e, remove_pending_service_task_if task_id (λ t, (st_retries t <=? 0)%Z) (e_service_tasks e));
  match found with
  | Some task => modify (λ e, e <| e_service_tasks := s |>) ;; mret task
  | None =>
    present ← gets (λ e, bool_decide (is_Some (primary (e_service_tasks e) !! task_id)));
    throw (if present : bool then InvalidDefinition "Task is not an incident (retries > 0)" else ServiceTaskNotFound task_id)
  end.

(** [resolve_incident]. *)
Definition resolve_incident (task_id : Uuid) (vars : Vars) : M unit :=
  task ← take_incident task_id;
  let id := st_instance_id task in
  let node := st_node_id task in
  old_state ← gets (λ e, e_instances e !! id);
  t ← with_instance id (take_token (st_token_id task));
  let t := extend_token vars t in
  cancel_boundary_timers id node ;;
  cancel_boundary_waits id node ;;
  i ← get_instance id;
  update_instance id (λ i, wake ("✅ Incident on service task '" +:+ node +:+ "' resolved manually") i
    <| pi_current_node := node |>) ;;
  d ← get_definition (pi_definition_key i);
  t ← run_end_scripts id t d node;
  register_compensation_handler id node d ;;
  next ← lift (resolve_next_target d node (variables t));
  update_instance id (λ i, i <| pi_current_node := next |>) ;;
  record_history_event id TaskCompleted ("Incident on service task '" +:+ node +:+ "' resolved manually")
    ActorUser None old_state ;;
  remove_persisted_service_task task_id ;;
  run_instance_batch id (set_node next t).

(** ** BPMN errors of a worker *)

(** The message and the variables of the error, noted on the instance. *)
Definition note_bpmn_error (token_id : Uuid) (vars : Vars) (message : option string) (i : ProcessInstance) : ProcessInstance :=
  let i := match message with Some m => push_audit_log ("BPMN error detail: " +:+ m) i | None => i end in
  i <| pi_tokens ::= alter (extend_token vars) token_id |> <| pi_variables ::= (λ vs, extend vs vars) |>.

(** A boundary event catches the error. *)
Definition error_to_boundary (task_id : Uuid) (task : PendingServiceTask) (code boundary : string) (vars : Vars)
    (key : Uuid) : M unit :=
  let id := st_instance_id task in
  old_state ← gets (λ e, e_instances e !! id);
  update_instance id (λ i, push_audit_log
    ("💥 BPMN Error '" +:+ code +:+ "' caught by boundary event '" +:+ boundary +:+ "'") i <| pi_state := Running |>) ;;
  record_history_event id TokenAdvanced ("Error '" +:+ code +:+ "' caught") ActorEngine None old_state ;;
  t ← with_instance id (take_token (st_token_id task));
  let t := extend_token vars (discard_data_scope t) in
  d ← get_definition key;
  next ← lift (resolve_next_target d boundary (variables t));
  let t := set_node next t in
  update_instance id (λ i, i <| pi_current_node := next |> <| pi_variables := process_variables t |>) ;;
  remove_persisted_service_task task_id ;;
  persist_instance id ;;
  run_instance_batch id t.

(** Nobody catches the error: the task comes back as an incident. *)
Definition error_to_incident (task_id : Uuid) (task : PendingServiceTask) (worker code : string)
    (message : option string) : M unit :=
  let id := st_instance_id task in
  let text := "Unhandled BPMN error '" +:+ code +:+ "'" in
  let incident := task <| st_retries := 0%Z |> <| st_worker_id := None |> <| st_lock_expiration := None |>
                    <| st_error_message := Some text |>
                    <| st_error_details := match message with Some _ => message | None => st_error_details task end |> in
  fresh ← new_uuid;
  at_ ← now;
  try_update_instance id (λ i,
    (push_or_touch_incident at_ fresh KServiceTask (Some (st_node_id task)) (Some task_id) text message
      (push_audit_log ("🚨 BPMN error '" +:+ code +:+ "' thrown by worker '" +:+ worker +:+ "' at service task '"
        +:+ st_node_id task +:+ "' (No boundary event caught it)") i)).2) ;;
  insert_service_task incident ;;
  persist_service_task task_id ;;
  persist_instance id.

(** [handle_bpmn_error_with_variables]. *)
Definition handle_bpmn_error_with_variables (task_id : Uuid) (worker code : string) (vars : Vars)
    (message : option string) : M unit :=
  task ← take_locked_task task_id worker;
  let id := st_instance_id task in
  let node := st_node_id task in
  when (negb (bool_decide (vars = ∅)) || bool_decide (is_Some message))
    (try_update_instance id (note_bpmn_error (st_token_id task) vars message)) ;;
  i ← get_instance id;
  cancel_boundary_timers id node ;;
  cancel_boundary_waits id node ;;
  md ← gets (λ e, e_definitions e !! pi_definition_key i);
  match md ≫= λ d, find_boundary_error_event d node code with
  | Some boundary => error_to_boundary task_id task code boundary vars (pi_definition_key i)
  | None =>
    _ ← get_instance id;
    '(exclude, handler_vars) ← token_event_context id (st_token_id task);
    activation ← try_activate_event_code id code false handler_vars exclude;
    match activation with
    | Some a =>
      remove_persisted_service_task task_id ;;
      persist_instance id ;;
      run_instance_batch id (activation_token a)
    | None => error_to_incident task_id task worker code message
    end
  end.
Definition handle_bpmn_error (task_id : Uuid) (worker code : string) : M unit :=
  handle_bpmn_error_with_variables task_id worker code ∅ None.

(** ** Refusals *)

(** Completing a user task that is not pending, or whose instance is suspended, is
    refused with the matching error, and the engine is exactly as before. *)
Theorem complete_user_task_refused task_id vars e :
  match e_user_tasks e !! task_id with
  | None =>
    complete_user_task task_id vars e = (Err (Throws (TaskNotPending task_id "not found in pending tasks")), e)
  | Some p => ∀ i, e_instances e !! ut_instance_id p = Some i → is_suspended (pi_state i) = true →
    complete_user_task task_id vars e = (Err (Throws (InstanceSuspended (ut_instance_id p))), e)
  end.
Proof.
  unfold complete_user_task. rewrite bind_run. cbn [gets].
  destruct (e_user_tasks e !! task_id) as [p|] eqn:Hp; [|done]. intros i Hi Hs.
  rewrite bind_run. cbn [lift_option lift ok_or map_err]. rewrite bind_run. cbn [remove_user_task modify].
  rewrite bind_run. cbn [gets e_instances set_field]. rewrite Hi. cbn [mbind option_bind]. rewrite Hs, bool_decide_true by eauto.
  rewrite bind_run. cbn. f_equal. destruct e. cbn in *. f_equal. by apply insert_delete_id.
Qed.
End completion.

(** ** A suspended instance *)

Definition review_task : PendingUserTask :=
  {| ut_task_id := 5; ut_instance_id := 7; ut_node_id := "review"; ut_assignee := "amy"; ut_token_id := 3;
     ut_created_at := 0; ut_business_key := None |}.
Definition review_engine : Engine :=
  engine_new <| e_user_tasks := {[5%N := review_task]} |>
    <| e_instances := {[7%N := example_instance <| pi_state := Suspended Running |>]} |>.

Lemma complete_user_task_refused_witness :
  @complete_user_task ascii_only no_scripts no_nesting 5 ∅ review_engine = (Err (Throws (InstanceSuspended 7)), review_engine).
Proof.
  exact (@complete_user_task_refused ascii_only no_scripts no_nesting 5 ∅ review_engine
    (example_instance <| pi_state := Suspended Running |>) eq_refl eq_refl).
Defined.
