(* ===== verification/Nesting.v ===== *)
(** * The nesting depth does not matter

    Batches run inside batches: a thrown signal resumes other instances, a called
    process runs before its caller goes on, compensation handlers run as batches.
    The model bounds this nesting.  [refines m m'] reads: unless [m] runs into the
    bound, [m'] does the same.  Every operation refines itself with a deeper
    executor, so a result that does not mention the bound is the result at every
    larger bound. *)

From stdpp Require Import base list gmap strings pretty sorting.
From S2P Require Import Prelude Text Float Json CondLexer CondParser CondEval Domain Token ProcessDef DataMappings Runtime History Graph Gateway Registry Index TopicIndex TimerIndex Engine Scripts Handlers Join Boundary Waits TaskHandlers EventScope ProcessStart Signals InstanceOps TimerProcessor Conditional ThrowHandlers NextAction Executor TaskCompletion.
Local Open Scope rust_scope.

Definition refines {A} (m m' : M A) : Prop := ∀ e, (m e).1 = Err OutOfFuel ∨ m' e = m e.

Lemma refines_refl {A} (m : M A) : refines m m.
Proof. by right. Qed.
Lemma refines_bind {A B} (m m' : M A) (k k' : A → M B) :
  refines m m' → (∀ a, refines (k a) (k' a)) → refines (m ≫= k) (m' ≫= k').
Proof.
  intros Hm Hk e. rewrite !bind_run. destruct (Hm e) as [H| ->].
  - destruct (m e) as [[a|x] e']; cbn in *; [done|]. left. congruence.
  - destruct (m e) as [[a|x] e']; [apply Hk|by right].
Qed.
Lemma refines_try {A} (m m' : M A) : refines m m' → refines (try m) (try m').
Proof.
  intros Hm e. unfold try. destruct (Hm e) as [H| ->]; [|by right].
  destruct (m e) as [[a|x] e']; cbn in *; [done|]. left. by simplify_eq.
Qed.
Lemma refines_when b m m' : refines m m' → refines (when b m) (when b m').
Proof. destruct b; [done|]. intros _. apply refines_refl. Qed.
Lemma refines_forM {A} (l : list A) f f' : (∀ x, refines (f x) (f' x)) → refines (forM l f) (forM l f').
Proof. intros Hf. induction l; cbn [forM]; [apply refines_refl|]. by apply refines_bind. Qed.
Lemma refines_mapM {A B} (l : list A) (f f' : A → M B) : (∀ x, refines (f x) (f' x)) → refines (mapM l f) (mapM l f').
Proof.
  intros Hf. induction l; cbn [mapM]; [apply refines_refl|]. apply refines_bind; [done|]. intros y.
  apply refines_bind; [done|]. intros ys. apply refines_refl.
Qed.

(** A second executor that gives every result of the first. *)
Class Deeper (R R' : Nested) : Prop :=
  deeper_batch id ts : refines (run_instance_batch_with_tokens (Nested := R) id ts)
    (run_instance_batch_with_tokens (Nested := R') id ts).

Create HintDb deeper.
#[export] Hint Constants Opaque : deeper.
Ltac deeper :=
  repeat lazymatch goal with
  | |- refines ?m ?m => apply refines_refl
  | |- refines (mbind _ _) _ => apply refines_bind; [|intros ?]
  | |- refines (try _) _ => apply refines_try
  | |- refines (when _ _) _ => apply refines_when
  | |- refines (forM _ _) _ => apply refines_forM; intros ?
  | |- refines (mapM _ _) _ => apply refines_mapM; intros ?
  | |- refines (match ?x with _ => _ end) _ => destruct x
  | |- refines (let _ := _ in _) _ => cbv zeta
  | |- refines _ _ => solve [eauto 2 with deeper]
  end.

Section deeper.
  Context {U : UnicodeData} {S : ScriptEngine} {C : CronLib} {R R' : Nested} {D : Deeper R R'}.
Hint Resolve deeper_batch : deeper.

Lemma run_instance_batch_deeper id t : refines (run_instance_batch (H := R) id t) (run_instance_batch (H := R') id t).
Proof. apply deeper_batch. Qed.
Hint Resolve run_instance_batch_deeper : deeper.
Lemma launch_deeper id t : refines (launch (R := R) id t) (launch (R := R') id t).
Proof. unfold launch. deeper. Qed.
Hint Resolve launch_deeper : deeper.
Lemma start_instance_with_deeper a b c d e :
  refines (start_instance_with (R := R) a b c d e) (start_instance_with (R := R') a b c d e).
Proof. unfold start_instance_with. deeper. Qed.
Hint Resolve start_instance_with_deeper : deeper.
Lemma start_instance_with_variables_and_parent_deeper a b c :
  refines (start_instance_with_variables_and_parent (R := R) a b c) (start_instance_with_variables_and_parent (R := R') a b c).
Proof. unfold start_instance_with_variables_and_parent. deeper. Qed.
Hint Resolve start_instance_with_variables_and_parent_deeper : deeper.
Lemma start_instance_with_variables_deeper a b :
  refines (start_instance_with_variables (R := R) a b) (start_instance_with_variables (R := R') a b).
Proof. unfold start_instance_with_variables. deeper. Qed.
Hint Resolve start_instance_with_variables_deeper : deeper.
Lemma start_instance_from_signal_deeper a b :
  refines (start_instance_from_signal (R := R) a b) (start_instance_from_signal (R := R') a b).
Proof. unfold start_instance_from_signal. deeper. Qed.
Hint Resolve start_instance_from_signal_deeper : deeper.
Lemma start_instance_latest_deeper a b :
  refines (start_instance_latest (R := R) a b) (start_instance_latest (R := R') a b).
Proof. unfold start_instance_latest. deeper. Qed.
Hint Resolve start_instance_latest_deeper : deeper.
Lemma spawn_call_activity_deeper a b c d :
  refines (spawn_call_activity (R := R) a b c d) (spawn_call_activity (R := R') a b c d).
Proof. unfold spawn_call_activity. deeper. Qed.
Hint Resolve spawn_call_activity_deeper : deeper.
Lemma spawn_call_activity_for_parent_deeper a b c :
  refines (spawn_call_activity_for_parent (R := R) a b c) (spawn_call_activity_for_parent (R := R') a b c).
Proof. unfold spawn_call_activity_for_parent. deeper. Qed.
Hint Resolve spawn_call_activity_for_parent_deeper : deeper.
Lemma continue_parent_deeper a b c : refines (continue_parent (R := R) a b c) (continue_parent (R := R') a b c).
Proof. unfold continue_parent. deeper. Qed.
Hint Resolve continue_parent_deeper : deeper.
Lemma resume_parent_if_needed_deeper a b :
  refines (resume_parent_if_needed (R := R) a b) (resume_parent_if_needed (R := R') a b).
Proof. unfold resume_parent_if_needed. deeper. Qed.
Hint Resolve resume_parent_if_needed_deeper : deeper.
Lemma start_by_timer_deeper a b c d e f g :
  refines (start_by_timer (R := R) a b c d e f g) (start_by_timer (R := R') a b c d e f g).
Proof. unfold start_by_timer. deeper. Qed.
Hint Resolve start_by_timer_deeper : deeper.
Lemma trigger_timer_start_deeper a b : refines (trigger_timer_start (R := R) a b) (trigger_timer_start (R := R') a b).
Proof. unfold trigger_timer_start. deeper. Qed.
Hint Resolve trigger_timer_start_deeper : deeper.
Lemma spawn_timer_instance_deeper a b c d e f :
  refines (spawn_timer_instance (R := R) a b c d e f) (spawn_timer_instance (R := R') a b c d e f).
Proof. unfold spawn_timer_instance. deeper. Qed.
Hint Resolve spawn_timer_instance_deeper : deeper.
Lemma start_timer_instance_deeper a b :
  refines (start_timer_instance (R := R) a b) (start_timer_instance (R := R') a b).
Proof. unfold start_timer_instance. deeper. Qed.
Hint Resolve start_timer_instance_deeper : deeper.
Lemma timer_cycle_turn_deeper a b c d :
  refines (timer_cycle_turn (R := R) a b c d) (timer_cycle_turn (R := R') a b c d).
Proof. unfold timer_cycle_turn. deeper. Qed.
Hint Resolve timer_cycle_turn_deeper : deeper.
Lemma resume_signal_catch_deeper a b c :
  refines (resume_signal_catch (R := R) a b c) (resume_signal_catch (R := R') a b c).
Proof. unfold resume_signal_catch. deeper. Qed.
Hint Resolve resume_signal_catch_deeper : deeper.
Lemma deliver_signal_deeper a b c : refines (deliver_signal (R := R) a b c) (deliver_signal (R := R') a b c).
Proof. unfold deliver_signal. deeper. Qed.
Hint Resolve deliver_signal_deeper : deeper.
Lemma broadcast_signal_deeper a b c : refines (broadcast_signal (R := R) a b c) (broadcast_signal (R := R') a b c).
Proof. unfold broadcast_signal. deeper. Qed.
Hint Resolve broadcast_signal_deeper : deeper.
Lemma correlate_signal_deeper a b : refines (correlate_signal (R := R) a b) (correlate_signal (R := R') a b).
Proof. unfold correlate_signal. deeper. Qed.
Hint Resolve correlate_signal_deeper : deeper.
Lemma trigger_scope_listener_deeper a b c :
  refines (trigger_scope_listener (R := R) a b c) (trigger_scope_listener (R := R') a b c).
Proof. unfold trigger_scope_listener. deeper. Qed.
Hint Resolve trigger_scope_listener_deeper : deeper.
Lemma resume_message_catch_deeper a b c :
  refines (resume_message_catch (R := R) a b c) (resume_message_catch (R := R') a b c).
Proof. unfold resume_message_catch. deeper. Qed.
Hint Resolve resume_message_catch_deeper : deeper.
Lemma deliver_message_deeper a b c : refines (deliver_message (R := R) a b c) (deliver_message (R := R') a b c).
Proof. unfold deliver_message. deeper. Qed.
Hint Resolve deliver_message_deeper : deeper.
Lemma correlate_message_deeper a b c : refines (correlate_message (R := R) a b c) (correlate_message (R := R') a b c).
Proof. unfold correlate_message. deeper. Qed.
Hint Resolve correlate_message_deeper : deeper.
Lemma fire_token_timer_deeper a b : refines (fire_token_timer (R := R) a b) (fire_token_timer (R := R') a b).
Proof. unfold fire_token_timer. deeper. Qed.
Hint Resolve fire_token_timer_deeper : deeper.
Lemma process_expired_timer_deeper a : refines (process_expired_timer (R := R) a) (process_expired_timer (R := R') a).
Proof. unfold process_expired_timer. deeper. Qed.
Hint Resolve process_expired_timer_deeper : deeper.
Lemma process_timer_deeper a : refines (process_timer (R := R) a) (process_timer (R := R') a).
Proof. unfold process_timer. deeper. Qed.
Hint Resolve process_timer_deeper : deeper.
Lemma process_timers_deeper : refines (process_timers (R := R)) (process_timers (R := R')).
Proof. unfold process_timers. deeper. Qed.
Hint Resolve process_timers_deeper : deeper.
Lemma resume_unparked_deeper a b : refines (resume_unparked (N := R) a b) (resume_unparked (N := R') a b).
Proof. unfold resume_unparked. deeper. Qed.
Hint Resolve resume_unparked_deeper : deeper.
Lemma reconcile_instance_deeper a : refines (reconcile_instance (N := R) a) (reconcile_instance (N := R') a).
Proof. unfold reconcile_instance. deeper. Qed.
Hint Resolve reconcile_instance_deeper : deeper.
Lemma reconcile_event_subprocesses_deeper :
  refines (reconcile_event_subprocesses (N := R)) (reconcile_event_subprocesses (N := R')).
Proof. unfold reconcile_event_subprocesses. deeper. Qed.
Hint Resolve reconcile_event_subprocesses_deeper : deeper.
Lemma handle_signal_throw_event_deeper a b c d e :
  refines (handle_signal_throw_event (R := R) a b c d e) (handle_signal_throw_event (R := R') a b c d e).
Proof. unfold handle_signal_throw_event. deeper. Qed.
Hint Resolve handle_signal_throw_event_deeper : deeper.
Lemma handle_signal_end_event_deeper a b c d e :
  refines (handle_signal_end_event (R := R) a b c d e) (handle_signal_end_event (R := R') a b c d e).
Proof. unfold handle_signal_end_event. deeper. Qed.
Hint Resolve handle_signal_end_event_deeper : deeper.
Lemma run_compensation_deeper a b c d :
  refines (run_compensation (R := R) a b c d) (run_compensation (R := R') a b c d).
Proof. revert b. induction d as [|r rs IH]; intros t; cbn [run_compensation]; deeper. Qed.
Hint Resolve run_compensation_deeper : deeper.
Lemma handle_compensation_throw_event_deeper a b c d e f :
  refines (handle_compensation_throw_event (R := R) a b c d e f) (handle_compensation_throw_event (R := R') a b c d e f).
Proof. unfold handle_compensation_throw_event. deeper. Qed.
Hint Resolve handle_compensation_throw_event_deeper : deeper.
Lemma start_call_deeper a b c d : refines (start_call (R := R) a b c d) (start_call (R := R') a b c d).
Proof. unfold start_call. deeper. Qed.
Hint Resolve start_call_deeper : deeper.
Lemma handle_next_action_deeper a b c d e :
  refines (handle_next_action (R := R) a b c d e) (handle_next_action (R := R') a b c d e).
Proof. unfold handle_next_action. deeper. Qed.
Hint Resolve handle_next_action_deeper : deeper.
Lemma dispatch_deeper a b c d e : refines (dispatch (R := R) a b c d e) (dispatch (R := R') a b c d e).
Proof. unfold dispatch. deeper. Qed.
Hint Resolve dispatch_deeper : deeper.
Lemma execute_step_deeper a b : refines (execute_step (R := R) a b) (execute_step (R := R') a b).
Proof. unfold execute_step. deeper. Qed.
Hint Resolve execute_step_deeper : deeper.
Lemma run_token_deeper a b c : refines (run_token (R := R) a b c) (run_token (R := R') a b c).
Proof. unfold run_token. deeper. Qed.
Hint Resolve run_token_deeper : deeper.
Lemma batch_loop_deeper a b c d : refines (batch_loop (R := R) a b c d) (batch_loop (R := R') a b c d).
Proof.
  revert c d. induction a as [|fuel IH]; intros steps queue; cbn [batch_loop]; [apply refines_refl|].
  revert IH. generalize (batch_loop (R := R) fuel b) (batch_loop (R := R') fuel b). intros l l' IH. deeper.
Qed.
Hint Resolve batch_loop_deeper : deeper.
Lemma finish_batch_deeper a : refines (finish_batch (R := R) a) (finish_batch (R := R') a).
Proof. unfold finish_batch. deeper. Qed.
Hint Resolve finish_batch_deeper : deeper.
Lemma batch_deeper a b : refines (batch (R := R) a b) (batch (R := R') a b).
Proof. unfold batch. deeper. Qed.
Hint Resolve batch_deeper : deeper.
Lemma finish_user_task_deeper a b c : refines (finish_user_task (R := R) a b c) (finish_user_task (R := R') a b c).
Proof. unfold finish_user_task. deeper. Qed.
Hint Resolve finish_user_task_deeper : deeper.
Lemma complete_user_task_deeper a b : refines (complete_user_task (R := R) a b) (complete_user_task (R := R') a b).
Proof. unfold complete_user_task. deeper. Qed.
Hint Resolve complete_user_task_deeper : deeper.
Lemma finish_service_task_deeper a b c :
  refines (finish_service_task (R := R) a b c) (finish_service_task (R := R') a b c).
Proof. unfold finish_service_task. deeper. Qed.
Hint Resolve finish_service_task_deeper : deeper.
Lemma complete_service_task_deeper a b c :
  refines (complete_service_task (R := R) a b c) (complete_service_task (R := R') a b c).
Proof. unfold complete_service_task. deeper. Qed.
Hint Resolve complete_service_task_deeper : deeper.
Lemma resolve_incident_deeper a b : refines (resolve_incident (R := R) a b) (resolve_incident (R := R') a b).
Proof. unfold resolve_incident. deeper. Qed.
Hint Resolve resolve_incident_deeper : deeper.
Lemma error_to_boundary_deeper a b c d e f :
  refines (error_to_boundary (R := R) a b c d e f) (error_to_boundary (R := R') a b c d e f).
Proof. unfold error_to_boundary. deeper. Qed.
Hint Resolve error_to_boundary_deeper : deeper.
Lemma handle_bpmn_error_with_variables_deeper a b c d e :
  refines (handle_bpmn_error_with_variables (R := R) a b c d e) (handle_bpmn_error_with_variables (R := R') a b c d e).
Proof. unfold handle_bpmn_error_with_variables. deeper. Qed.
Hint Resolve handle_bpmn_error_with_variables_deeper : deeper.
Lemma update_instance_variables_deeper a b :
  refines (update_instance_variables (R := R) a b) (update_instance_variables (R := R') a b).
Proof. unfold update_instance_variables. deeper. Qed.
Hint Resolve update_instance_variables_deeper : deeper.
Lemma move_token_deeper a b c d : refines (move_token (R := R) a b c d) (move_token (R := R') a b c d).
Proof. unfold move_token. deeper. Qed.
Hint Resolve move_token_deeper : deeper.
End deeper.

Lemma refines_trans {A} (m1 m2 m3 : M A) : refines m1 m2 → refines m2 m3 → refines m1 m3.
Proof.
  intros H12 H23 e. destruct (H12 e) as [?|H1]; [by left|]. destruct (H23 e) as [H|H].
  - left. by rewrite <- H1.
  - right. by rewrite H.
Qed.
Lemma executor_deeper_one `{UnicodeData, ScriptEngine, CronLib} depth : Deeper (executor depth) (executor (S depth)).
Proof.
  induction depth as [|depth IH]; intros id ts.
  - by left.
  - apply (batch_deeper (D := IH)).
Qed.
Lemma executor_deeper `{UnicodeData, ScriptEngine, CronLib} k depth : Deeper (executor depth) (executor (k + depth)).
Proof.
  induction k as [|k IH]; intros id ts; [apply refines_refl|]. eapply refines_trans; [apply IH|apply executor_deeper_one].
Qed.
