(* ===== verification/EngineInv.v ===== *)
(** * Every operation keeps the engine sound

    The triples of [Hoare] for the operations of the engine, bottom up: waits,
    scripts and joins, step handlers, the executor, and the operations offered to
    clients. *)

From stdpp Require Import base list gmap strings pretty.
From S2P Require Import Prelude Text Float Json CondLexer CondParser CondEval Domain Token ProcessDef DataMappings Runtime History Graph Gateway Registry Index TopicIndex TimerIndex Engine Scripts Handlers Join Boundary Waits Hoare TaskHandlers EventScope ProcessStart Signals InstanceOps TimerProcessor Conditional ThrowHandlers NextAction Executor TaskCompletion ServiceTask.
Local Open Scope rust_scope.

(** ** Adding and dropping pending work (Waits, Boundary) *)

Lemma add_user_task_ok ids p : ut_instance_id p ∈ ids → sound ids (add_user_task p).
Proof. intros. unfold add_user_task. hoare. Qed.
Lemma add_service_task_ok ids p : st_instance_id p ∈ ids → sound ids (add_service_task p).
Proof. intros. unfold add_service_task. hoare. Qed.
Lemma add_timer_ok ids p : pt_instance_id p ∈ ids → sound ids (add_timer p).
Proof. intros. unfold add_timer. hoare. Qed.
Lemma add_message_catch_ok ids p : mc_instance_id p ∈ ids → sound ids (add_message_catch p).
Proof. intros. unfold add_message_catch. hoare. Qed.
Lemma add_signal_catch_ok ids p : sc_instance_id p ∈ ids → sound ids (add_signal_catch p).
Proof. intros. unfold add_signal_catch. hoare. Qed.
Lemma add_conditional_catch_ok ids p : cc_instance_id p ∈ ids → sound ids (add_conditional_catch p).
Proof. intros. unfold add_conditional_catch. hoare. Qed.
Lemma drop_user_task_ok ids id : sound ids (drop_user_task id).
Proof. unfold drop_user_task. hoare. Qed.
Lemma drop_service_task_ok ids id : sound ids (drop_service_task id).
Proof. unfold drop_service_task. hoare. Qed.
Lemma drop_timer_ok ids id : sound ids (drop_timer id).
Proof. unfold drop_timer. hoare. Qed.
Lemma drop_message_catch_ok ids id : sound ids (drop_message_catch id).
Proof. unfold drop_message_catch. hoare. Qed.
Lemma drop_signal_catch_ok ids id : sound ids (drop_signal_catch id).
Proof. unfold drop_signal_catch. hoare. Qed.
Lemma drop_conditional_catch_ok ids id : sound ids (drop_conditional_catch id).
Proof. unfold drop_conditional_catch. hoare. Qed.
#[export] Hint Resolve add_user_task_ok add_service_task_ok add_timer_ok add_message_catch_ok add_signal_catch_ok
  add_conditional_catch_ok drop_user_task_ok drop_service_task_ok drop_timer_ok drop_message_catch_ok
  drop_signal_catch_ok drop_conditional_catch_ok : hoare.
Lemma drop_waits_ok ids a b c d e f : sound ids (drop_waits a b c d e f).
Proof. unfold drop_waits. hoare. Qed.
#[export] Hint Resolve drop_waits_ok : hoare.
Lemma cancel_scope_waits_ok ids id : sound ids (cancel_scope_waits id).
Proof. unfold cancel_scope_waits. hoare. Qed.
Lemma cancel_pending_activity_ok ids id t : sound ids (cancel_pending_activity id t).
Proof. unfold cancel_pending_activity. hoare. Qed.
Lemma close_event_scope_ok ids id : sound ids (close_event_scope id).
Proof. unfold close_event_scope. hoare. Qed.
Lemma cancel_boundary_timers_ok ids id node : sound ids (cancel_boundary_timers id node).
Proof. unfold cancel_boundary_timers. hoare. Qed.
Lemma cancel_boundary_waits_ok ids id node : sound ids (cancel_boundary_waits id node).
Proof. unfold cancel_boundary_waits. hoare. Qed.
#[export] Hint Unfold log_cancelled : inst.
Lemma clear_wait_states_ok ids id t : sound ids (clear_wait_states_for_token id t).
Proof. unfold clear_wait_states_for_token. hoare. Qed.
#[export] Hint Resolve cancel_scope_waits_ok cancel_pending_activity_ok close_event_scope_ok cancel_boundary_timers_ok
  cancel_boundary_waits_ok clear_wait_states_ok : hoare.

(** ** Scripts, boundary events and joins *)

(** The records a step asks the executor to store belong to its instance. *)
Definition alternative_ok (id : Uuid) (a : NextAction) : Prop :=
  match a with
  | WaitForTimer p => pt_instance_id p = id
  | WaitForMessage p => mc_instance_id p = id
  | WaitForSignal p => sc_instance_id p = id
  | _ => True
  end.
Definition action_ok (id : Uuid) (a : NextAction) : Prop :=
  match a with
  | WaitForUser p => ut_instance_id p = id
  | WaitForServiceTask p => st_instance_id p = id
  | WaitForCondition p => cc_instance_id p = id
  | WaitForEventGroup l => Forall (alternative_ok id) l
  | a => alternative_ok id a
  end.
Definition step_ok (id : Uuid) (s : Step) : Prop := action_ok id s.1.

(** A nested batch keeps the engine sound. *)
Class NestedOk (R : Nested) : Prop :=
  nested_ok ids id ts : id ∈ ids → sound ids (run_instance_batch_with_tokens id ts).

Section sound.
  Context {U : UnicodeData} {S : ScriptEngine} {C : CronLib} {R : Nested} {RO : NestedOk R}.

Lemma setup_boundary_events_owner ids now0 d node id t b :
  setup_boundary_events ids now0 d node id t = Returns b →
  Forall (λ p, pt_instance_id p = id) (be_timers b) ∧ Forall (λ p, mc_instance_id p = id) (be_messages b) ∧
  Forall (λ p, sc_instance_id p = id) (be_signals b) ∧ Forall (λ p, cc_instance_id p = id) (be_conditionals b).
Proof.
  unfold setup_boundary_events. pose proof (setup_timers_spec ids 0 now0 id t (bounds d (bound_timer node))) as Hts.
  destruct (setup_timers _ _ _ _ _ _) as [ts|]; [|done]. destruct Hts as (_ & _ & Hts). intros [= <-]. cbn.
  split_and!; apply Forall_forall.
  1: intros p Hp; apply (Hts p Hp).
  all: intros p (k & [] & -> & _)%elem_of_lookup_imap_1; done.
Qed.
Lemma forM_owned {V} ids (inst : V → Uuid) id (l : list V) (f : V → M unit) :
  (∀ p, inst p ∈ ids → sound ids (f p)) → id ∈ ids → Forall (λ p, inst p = id) l → sound ids (forM l f).
Proof. intros Hf Hid Hl. apply holds_forM. intros p Hp. apply Hf. rewrite Forall_forall in Hl. by rewrite Hl. Qed.
Lemma install_boundary_events_ok ids id t d node : id ∈ ids → sound ids (install_boundary_events id t d node).
Proof.
  intros Hid. unfold install_boundary_events. do 3 hoare_step.
  match goal with H : setup_boundary_events _ _ _ _ _ _ = _ |- _ => destruct (setup_boundary_events_owner _ _ _ _ _ _ _ H) as (?&?&?&?) end.
  hoare_step; [pending_solve|].
  repeat (eapply holds_bind; [eapply forM_owned; [|done..]; eauto with hoare|intros _ _]).
  eapply forM_owned; [|done..]. eauto with hoare.
Qed.

Lemma run_end_scripts_ok ids id t d node : sound ids (run_end_scripts id t d node).
Proof.
  unfold run_end_scripts. hoare. match goal with H : scripting_run_end_scripts _ _ _ _ = Ok _ |- _ => revert H end.
  intros (c & _ & ((x & y) & _ & [= <- <-])%result_bind_Ok)%result_bind_Ok. inst_solve.
Qed.
Hint Resolve install_boundary_events_ok run_end_scripts_ok : hoare.

Lemma register_join_barrier_ok ids id split n : sound ids (register_join_barrier_if_needed id split n).
Proof. unfold register_join_barrier_if_needed. hoare. Qed.
Lemma register_active_token_ok ids id fork n t : sound ids (register_active_token id fork n t).
Proof. unfold register_active_token. hoare. Qed.
Lemma complete_branch_token_ok ids id t : sound ids (complete_branch_token id t).
Proof. unfold complete_branch_token. hoare. Qed.
Lemma all_tokens_completed_ok ids id : sound ids (all_tokens_completed id).
Proof. unfold all_tokens_completed. hoare. Qed.
Lemma arrive_at_join_ok ids id gateway t : sound ids (arrive_at_join id gateway t).
Proof. unfold arrive_at_join. hoare. Qed.
Hint Resolve register_join_barrier_ok register_active_token_ok complete_branch_token_ok all_tokens_completed_ok
  arrive_at_join_ok : hoare.

(** ** Gateways and plain events (Handlers) *)

Lemma with_supply_ok ids id f :
  (∀ supply s, f supply = Ok s → step_ok id s) → holds ids (with_supply f) (step_ok id).
Proof. intros Hf. unfold with_supply. hoare. Qed.
Lemma note_fork_ok ids id node label a : sound ids (note_fork id node label a).
Proof. unfold note_fork. hoare. Qed.
Hint Resolve note_fork_ok : hoare.
Lemma take_targets_ok id supply t l s : Ok (E := EngineError) (take_targets supply t l) = Ok s → step_ok id s.
Proof. intros [= <-]. by destruct l as [|? []]. Qed.
Lemma parallel_ok id supply d node t s : execute_parallel_gateway supply d node t = Ok s → step_ok id s.
Proof. unfold execute_parallel_gateway. destruct (waits_for_join _ _ _); [by intros [= <-]|apply take_targets_ok]. Qed.
Lemma exclusive_ok id d node t dflt s : execute_exclusive_gateway d node t dflt = Ok s → step_ok id s.
Proof. unfold execute_exclusive_gateway. by intros (x & _ & [= <-])%result_bind_Ok. Qed.
Lemma inclusive_ok id supply d node t s : execute_inclusive_gateway supply d node t = Ok s → step_ok id s.
Proof.
  unfold execute_inclusive_gateway. destruct (waits_for_join _ _ _); [by intros [= <-]|].
  destruct (target <$> _); [done|apply take_targets_ok].
Qed.
Lemma complex_ok id supply d node t dflt s : execute_complex_gateway supply d node t dflt = Ok s → step_ok id s.
Proof.
  unfold execute_complex_gateway. destruct (waits_for_join _ _ _); [by intros [= <-]|].
  destruct (target <$> _), dflt; try done; apply take_targets_ok.
Qed.
Hint Resolve with_supply_ok parallel_ok exclusive_ok inclusive_ok complex_ok : hoare.
Lemma handle_parallel_gateway_ok ids id t d node : holds ids (handle_parallel_gateway id t d node) (step_ok id).
Proof. unfold handle_parallel_gateway. hoare. Qed.
Lemma handle_exclusive_gateway_ok ids id t d node dflt : holds ids (handle_exclusive_gateway id t d node dflt) (step_ok id).
Proof. unfold handle_exclusive_gateway. hoare. Qed.
Lemma handle_inclusive_gateway_ok ids id t d node : holds ids (handle_inclusive_gateway id t d node) (step_ok id).
Proof. unfold handle_inclusive_gateway. hoare. Qed.
Lemma handle_complex_gateway_ok ids id t d node dflt : holds ids (handle_complex_gateway id t d node dflt) (step_ok id).
Proof. unfold handle_complex_gateway. hoare. Qed.
Lemma handle_start_event_ok ids id t d node : holds ids (handle_start_event id t d node) (step_ok id).
Proof. unfold handle_start_event. hoare. Qed.
Lemma handle_end_event_ok ids id t d node : holds ids (handle_end_event id t d node) (step_ok id).
Proof. unfold handle_end_event. hoare. Qed.
Lemma handle_embedded_sub_process_ok ids id t start : holds ids (handle_embedded_sub_process t start) (step_ok id).
Proof. unfold handle_embedded_sub_process. hoare. Qed.
Lemma handle_sub_process_end_event_ok ids id t d sub : holds ids (handle_sub_process_end_event t d sub) (step_ok id).
Proof. unfold handle_sub_process_end_event. hoare. Qed.
Hint Resolve handle_parallel_gateway_ok handle_exclusive_gateway_ok handle_inclusive_gateway_ok
  handle_complex_gateway_ok handle_start_event_ok handle_end_event_ok handle_embedded_sub_process_ok
  handle_sub_process_end_event_ok : hoare.

(** ** Tasks, catch events and end events (TaskHandlers) *)

Hint Unfold park move_on : inst.
Lemma handle_user_task_ok ids id t d node x : id ∈ ids → holds ids (handle_user_task id t d node x) (step_ok id).
Proof. intros. unfold handle_user_task. hoare. Qed.
Lemma register_compensation_handler_ok ids id node d : sound ids (register_compensation_handler id node d).
Proof. unfold register_compensation_handler. hoare. Qed.
Hint Resolve register_compensation_handler_ok : hoare.
Lemma handle_script_task_ok ids id t d node x : holds ids (handle_script_task id t d node x) (step_ok id).
Proof. unfold handle_script_task. hoare. Qed.
Lemma handle_send_task_ok ids id t d node x : holds ids (handle_send_task id t d node x) (step_ok id).
Proof. unfold handle_send_task. hoare. Qed.
Lemma handle_sequential_items_ok ids id t d node topic mi items :
  holds ids (handle_sequential_items id t d node topic mi items) (step_ok id).
Proof. unfold handle_sequential_items. hoare. Qed.
Lemma build_item_tasks_ok ids mi id t d node topic i k items :
  holds ids (build_item_tasks mi id t d node topic i k items) (Forall (λ p, st_instance_id p = id)).
Proof. revert k. induction items as [|x items IH]; intros k; cbn [build_item_tasks]; [by apply holds_ret|]. hoare. Qed.
Hint Resolve handle_sequential_items_ok build_item_tasks_ok : hoare.
Lemma handle_parallel_items_ok ids id t d node topic mi items :
  holds ids (handle_parallel_items id t d node topic mi items) (step_ok id).
Proof.
  unfold handle_parallel_items. hoare; match goal with H : Forall _ (_ :: _) |- _ => apply Forall_cons in H as [Hp Hl] end; [|done].
  apply add_service_task_ok. rewrite Forall_forall in Hl. rewrite Hl by done. known.
Qed.
Hint Resolve handle_parallel_items_ok : hoare.
Lemma handle_service_task_ok ids id t d node topic mi :
  id ∈ ids → holds ids (handle_service_task id t d node topic mi) (step_ok id).
Proof. intros. unfold handle_service_task. hoare. Qed.
Lemma handle_call_activity_ok ids id t d node x : id ∈ ids → holds ids (handle_call_activity id t d node x) (step_ok id).
Proof. intros. unfold handle_call_activity. hoare. Qed.
Lemma new_timer_ok ids id t node timer : holds ids (new_timer id t node timer) (λ p, pt_instance_id p = id).
Proof. unfold new_timer. hoare. Qed.
Lemma new_message_catch_ok ids id t node x : holds ids (new_message_catch id t node x) (λ p, mc_instance_id p = id).
Proof. unfold new_message_catch. hoare. Qed.
Lemma new_signal_catch_ok ids id t node x : holds ids (new_signal_catch id t node x) (λ p, sc_instance_id p = id).
Proof. unfold new_signal_catch. hoare. Qed.
Hint Resolve new_timer_ok new_message_catch_ok new_signal_catch_ok : hoare.
Lemma handle_timer_catch_event_ok ids id t node x : holds ids (handle_timer_catch_event id t node x) (step_ok id).
Proof. unfold handle_timer_catch_event. hoare. Qed.
Lemma handle_message_catch_event_ok ids id t node x : holds ids (handle_message_catch_event id t node x) (step_ok id).
Proof. unfold handle_message_catch_event. hoare. Qed.
Lemma handle_signal_catch_event_ok ids id t node x : holds ids (handle_signal_catch_event id t node x) (step_ok id).
Proof. unfold handle_signal_catch_event. hoare. Qed.
Lemma handle_conditional_catch_event_ok ids id t node x :
  holds ids (handle_conditional_catch_event id t node x) (step_ok id).
Proof. unfold handle_conditional_catch_event. hoare. Qed.
Lemma gateway_alternatives_ok ids id t d flows :
  holds ids (gateway_alternatives id t d flows) (Forall (alternative_ok id)).
Proof. induction flows as [|sf flows IH]; cbn [gateway_alternatives]; [by apply holds_ret|]. hoare. Qed.
Hint Resolve gateway_alternatives_ok : hoare.
Lemma handle_event_based_gateway_ok ids id t d node : holds ids (handle_event_based_gateway id t d node) (step_ok id).
Proof. unfold handle_event_based_gateway. hoare. Qed.
Lemma handle_terminate_end_event_ok ids id t d node : holds ids (handle_terminate_end_event id t d node) (step_ok id).
Proof. unfold handle_terminate_end_event. hoare. Qed.
Lemma handle_error_end_event_ok ids id t d node x : holds ids (handle_error_end_event id t d node x) (step_ok id).
Proof. unfold handle_error_end_event. hoare. Qed.
Lemma handle_escalation_end_event_ok ids id t d node x : holds ids (handle_escalation_end_event id t d node x) (step_ok id).
Proof. unfold handle_escalation_end_event. hoare. Qed.
Lemma handle_boundary_event_ok ids id t d node : holds ids (handle_boundary_event id t d node) (step_ok id).
Proof. unfold handle_boundary_event. hoare. Qed.
Lemma handle_link_throw_event_ok ids id t d node x : holds ids (handle_link_throw_event id t d node x) (step_ok id).
Proof. unfold handle_link_throw_event. hoare. Qed.
Hint Resolve handle_user_task_ok handle_script_task_ok handle_send_task_ok handle_service_task_ok handle_call_activity_ok
  handle_timer_catch_event_ok handle_message_catch_event_ok handle_signal_catch_event_ok
  handle_conditional_catch_event_ok handle_event_based_gateway_ok handle_terminate_end_event_ok
  handle_error_end_event_ok handle_escalation_end_event_ok handle_boundary_event_ok handle_link_throw_event_ok : hoare.

(** ** Event sub-processes (EventScope) *)

Definition opened_ok (id : Uuid) (o : Opened) : Prop :=
  Forall (λ p, pt_instance_id p = id) (op_timers o) ∧ Forall (λ p, mc_instance_id p = id) (op_messages o) ∧
  Forall (λ p, sc_instance_id p = id) (op_signals o).
Lemma subscribe_ok ids id at_ x h : holds ids (subscribe id at_ x h) (opened_ok id).
Proof. unfold subscribe. hoare; unfold opened_ok; cbn; auto. all: try case_match; cbn; auto. Qed.
Hint Resolve subscribe_ok : hoare.
Lemma opened_app_ok id a b : opened_ok id a → opened_ok id b → opened_ok id (opened_app a b).
Proof. intros (?&?&?) (?&?&?). repeat split; by apply Forall_app. Qed.
Hint Resolve opened_app_ok : hoare.
Lemma subscribe_all_ok ids id at_ hs : holds ids (subscribe_all id at_ hs) (opened_ok id).
Proof. induction hs; cbn [subscribe_all]; [by apply holds_ret; repeat split|]. hoare. Qed.
Hint Resolve subscribe_all_ok : hoare.
(** An entry of a list of entries of the instance. *)
Ltac owner :=
  lazymatch goal with
  | |- holds _ (add_timer _) _ => apply add_timer_ok
  | |- holds _ (add_message_catch _) _ => apply add_message_catch_ok
  | |- holds _ (add_signal_catch _) _ => apply add_signal_catch_ok
  | |- holds _ (add_service_task _) _ => apply add_service_task_ok
  end;
  match goal with
  | H : Forall _ ?l, Hx : ?x ∈ ?l |- _ ∈ _ =>
    let Heq := fresh in pose proof (proj1 (Forall_forall _ _) H x Hx) as Heq; cbn in Heq; rewrite Heq; known
  end.
Lemma open_event_scope_ok ids id : sound ids (open_event_scope id).
Proof.
  unfold open_event_scope. hoare. all: match goal with H : opened_ok _ _ |- _ => destruct H as (?&?&?) end; owner.
Qed.
Hint Resolve open_event_scope_ok : hoare.
Lemma event_handler_for_token_ok ids id t : sound ids (event_handler_for_token id t).
Proof. unfold event_handler_for_token. hoare. Qed.
Lemma is_event_subscription_ok ids id x : sound ids (is_event_subscription id x).
Proof. unfold is_event_subscription. hoare. Qed.
Hint Resolve event_handler_for_token_ok is_event_subscription_ok : hoare.
Hint Unfold clear_scope : inst.
Lemma abort_interrupted_ok ids fuel id : sound ids (abort_interrupted fuel id).
Proof.
  revert ids id. induction fuel as [|fuel IH]; cbn [abort_interrupted]; [intros; apply holds_fault|].
  revert IH. generalize (abort_interrupted fuel). intros abort IH ids id. hoare.
Qed.
Hint Resolve abort_interrupted_ok : hoare.
Lemma abort_interrupted_instance_ok ids id : sound ids (abort_interrupted_instance id).
Proof. unfold abort_interrupted_instance. hoare. Qed.
Hint Resolve abort_interrupted_instance_ok : hoare.

Definition consumption_ok (ids : list Uuid) (c : EventConsumption) : Prop :=
  match c with
  | ConsumedTimer t => pt_instance_id t ∈ ids
  | ConsumedMessage c => mc_instance_id c ∈ ids
  | ConsumedSignal c => sc_instance_id c ∈ ids
  | ConsumedCode => True
  end.
Lemma consumption_ok_cons id ids c : consumption_ok ids c → consumption_ok (id :: ids) c.
Proof. destruct c; cbn; auto using list_elem_of_further. Qed.
Hint Resolve consumption_ok_cons : hoare.
Hint Extern 2 (consumption_ok _ _) => solve [cbn; first [exact I | known]] : hoare.
Lemma reinsert_consumption_ok ids c : consumption_ok ids c → sound ids (reinsert_consumption c).
Proof. destruct c; cbn; intros; hoare. Qed.
Lemma retain_consumption_ok ids c s r : consumption_ok ids c → sound ids (retain_consumption c s r).
Proof. destruct c, r; cbn; intros; hoare. Qed.
Hint Resolve reinsert_consumption_ok retain_consumption_ok : hoare.
Lemma enter_handler_ok id h s r vars tid i : inst_ok id i → inst_ok id (enter_handler h s r vars tid i).2.
Proof. intros Hi. unfold enter_handler. cbv zeta. cbn [snd]. inst_solve. Qed.
Lemma activate_handler_ok ids id h s vars c : consumption_ok ids c → sound ids (activate_handler id h s vars c).
Proof.
  intros Hc. unfold activate_handler. hoare.
  match goal with H : enter_handler _ _ _ _ _ _ = _ |- _ => eapply enter_handler_ok in H1; by rewrite H in H1 end.
Qed.
Hint Resolve activate_handler_ok : hoare.
Lemma activate_event_subscription_ok ids id c vars :
  consumption_ok ids c → sound ids (activate_event_subscription id c vars).
Proof. intros Hc. unfold activate_event_subscription. hoare. Qed.
Lemma try_activate_event_code_ok ids id code esc vars exclude : sound ids (try_activate_event_code id code esc vars exclude).
Proof. unfold try_activate_event_code. hoare. Qed.
Hint Resolve activate_event_subscription_ok try_activate_event_code_ok : hoare.

(** ** Starting instances and resuming callers (ProcessStart) *)

Lemma nested_one_ok ids id t : id ∈ ids → sound ids (run_instance_batch id t).
Proof. apply nested_ok. Qed.
Hint Resolve nested_ok nested_one_ok : hoare.
Lemma fresh_instance_ok key id bk parent start entry vars at_ : inst_ok id (fresh_instance key id bk parent start entry vars at_).
Proof. split; cbn; [done| |apply keyed_empty]. split; [cbn; lia|]. intros k n t. cbn. lia. Qed.
Hint Resolve fresh_instance_ok : hoare inst.
Lemma validate_start_request_ok ids key b : sound ids (validate_start_request key b).
Proof. unfold validate_start_request. hoare. Qed.
Lemma build_initial_instance_ok ids key id start vars parent :
  holds ids (build_initial_instance key id start vars parent) (inst_ok id).
Proof. unfold build_initial_instance. hoare. Qed.
Lemma take_business_key_ok ids vars : sound ids (take_business_key vars).
Proof. unfold take_business_key. hoare. Qed.
Lemma install_listener_ok ids id l : id ∈ ids → sound ids (install_listener id l).
Proof. intros. unfold install_listener. hoare. Qed.
Lemma launch_ok ids id t : id ∈ ids → sound ids (launch id t).
Proof. intros. unfold launch. hoare. Qed.
Hint Resolve validate_start_request_ok build_initial_instance_ok take_business_key_ok install_listener_ok launch_ok : hoare.
Lemma start_instance_with_ok ids key vars parent pre b : sound ids (start_instance_with key vars parent pre b).
Proof. unfold start_instance_with. hoare. Qed.
Hint Resolve start_instance_with_ok : hoare.
Lemma start_instance_parent_ok ids key vars parent : sound ids (start_instance_with_variables_and_parent key vars parent).
Proof. unfold start_instance_with_variables_and_parent. hoare. Qed.
Hint Resolve start_instance_parent_ok : hoare.
Lemma start_instance_vars_ok ids key vars : sound ids (start_instance_with_variables key vars).
Proof. unfold start_instance_with_variables. hoare. Qed.
Hint Resolve start_instance_vars_ok : hoare.
Lemma start_instance_ok ids key : sound ids (start_instance key).
Proof. unfold start_instance. hoare. Qed.
Lemma start_instance_from_signal_ok ids key vars : sound ids (start_instance_from_signal key vars).
Proof. unfold start_instance_from_signal. hoare. Qed.
Lemma start_instance_latest_ok ids x vars : sound ids (start_instance_latest x vars).
Proof. unfold start_instance_latest. hoare. Qed.
Lemma call_started_ok ids p node c : sound ids (call_started p node c).
Proof. unfold call_started. hoare. Qed.
Hint Resolve start_instance_ok start_instance_from_signal_ok start_instance_latest_ok call_started_ok : hoare.
Lemma spawn_call_activity_ok ids k p node vars : sound ids (spawn_call_activity k p node vars).
Proof. unfold spawn_call_activity. hoare. Qed.
Lemma spawn_call_activity_for_parent_ok ids k p t : sound ids (spawn_call_activity_for_parent k p t).
Proof. unfold spawn_call_activity_for_parent. hoare. Qed.
Hint Resolve spawn_call_activity_ok spawn_call_activity_for_parent_ok : hoare.
Hint Unfold end_call : inst.
Lemma leave_call_ok ids p t d node failed : sound ids (leave_call p t d node failed).
Proof. unfold leave_call. hoare. Qed.
Lemma unhandled_child_error_ok ids p c t node code : sound ids (unhandled_child_error p c t node code).
Proof. unfold unhandled_child_error. hoare. Qed.
Lemma continue_parent_ok ids p t next : p ∈ ids → sound ids (continue_parent p t next).
Proof. intros. unfold continue_parent. hoare. Qed.
Hint Resolve leave_call_ok unhandled_child_error_ok continue_parent_ok : hoare.
Lemma resume_parent_if_needed_ok ids child err : sound ids (resume_parent_if_needed child err).
Proof. unfold resume_parent_if_needed. hoare. Qed.
Hint Resolve resume_parent_if_needed_ok : hoare.
Lemma start_by_timer_ok ids key bk start entry descr vars id : sound ids (start_by_timer key bk start entry descr vars id).
Proof. unfold start_by_timer. hoare. Qed.
Hint Resolve start_by_timer_ok : hoare.
Lemma trigger_timer_start_ok ids key d : sound ids (trigger_timer_start key d).
Proof. unfold trigger_timer_start. hoare. Qed.
Lemma spawn_timer_instance_ok ids key start vars a b c : sound ids (spawn_timer_instance key start vars a b c).
Proof. unfold spawn_timer_instance. hoare. Qed.
Hint Resolve trigger_timer_start_ok spawn_timer_instance_ok : hoare.
Lemma start_timer_instance_ok ids key vars : sound ids (start_timer_instance key vars).
Proof. unfold start_timer_instance. hoare. Qed.
Lemma timer_cycle_turn_ok ids key vars cy i : sound ids (timer_cycle_turn key vars cy i).
Proof. unfold timer_cycle_turn. hoare. Qed.
Hint Resolve start_timer_instance_ok timer_cycle_turn_ok : hoare.

(** ** Signals and thrown events (Signals, ThrowHandlers) *)

Hint Unfold resume_token wake : inst.
Lemma keyed_rename fresh t m : keyed tok_id m → keyed tok_id (<[fresh := rename_token fresh t]> m).
Proof. by apply keyed_insert. Qed.
Hint Resolve keyed_rename : inst.
Lemma resume_signal_catch_ok ids c name vars : sound ids (resume_signal_catch c name vars).
Proof. unfold resume_signal_catch. hoare. Qed.
Hint Resolve resume_signal_catch_ok : hoare.
Lemma deliver_signal_ok ids name vars x : sound ids (deliver_signal name vars x).
Proof. unfold deliver_signal. hoare. Qed.
Hint Resolve deliver_signal_ok : hoare.
Lemma mapM_ok {A B} ids (l : list A) (f : A → M B) : (∀ x, sound ids (f x)) → sound ids (mapM l f).
Proof. intros Hf. eapply holds_weaken; [by apply (holds_mapM _ _ _ (λ _, True))|done]. Qed.
Hint Resolve mapM_ok : hoare.
Lemma broadcast_signal_ok ids name vars b : sound ids (broadcast_signal name vars b).
Proof. unfold broadcast_signal. hoare. Qed.
Hint Resolve broadcast_signal_ok : hoare.
Lemma correlate_signal_ok ids name vars : sound ids (correlate_signal name vars).
Proof. unfold correlate_signal. hoare. Qed.
Lemma handle_signal_throw_event_ok ids id t d node x : holds ids (handle_signal_throw_event id t d node x) (step_ok id).
Proof. unfold handle_signal_throw_event. hoare. Qed.
Lemma handle_signal_end_event_ok ids id t d node x : holds ids (handle_signal_end_event id t d node x) (step_ok id).
Proof. unfold handle_signal_end_event. hoare. Qed.
Lemma escalate_to_boundary_ok ids id t d node code b c : holds ids (escalate_to_boundary id t d node code b c) (step_ok id).
Proof. unfold escalate_to_boundary. hoare. Qed.
Hint Resolve escalate_to_boundary_ok : hoare.
Lemma handle_escalation_throw_event_ok ids id t d node x :
  holds ids (handle_escalation_throw_event id t d node x) (step_ok id).
Proof. unfold handle_escalation_throw_event. hoare. Qed.
Lemma run_compensation_ok ids id t d rs : id ∈ ids → sound ids (run_compensation id t d rs).
Proof. intros Hid. revert ids t Hid. induction rs as [|r rs IH]; intros ids t Hid; cbn [run_compensation]; hoare. Qed.
Hint Resolve run_compensation_ok : hoare.
Lemma handle_compensation_throw_event_ok ids id t d node x b :
  holds ids (handle_compensation_throw_event id t d node x b) (step_ok id).
Proof. unfold handle_compensation_throw_event. hoare. Qed.
Hint Resolve correlate_signal_ok handle_signal_throw_event_ok handle_signal_end_event_ok
  handle_escalation_throw_event_ok handle_compensation_throw_event_ok : hoare.

(** ** Conditional events (Conditional) *)

Hint Unfold release_token spawn_token : inst.
Lemma keyed_spawn next vars fresh t m :
  keyed tok_id m → keyed tok_id (<[fresh := set_node next (set_variables vars (rename_token fresh t))]> m).
Proof. by apply keyed_insert. Qed.
Hint Resolve keyed_spawn : inst.
Lemma fire_catch_ok ids id d vars c : cc_instance_id c ∈ ids → sound ids (fire_catch id d vars c).
Proof. intros. unfold fire_catch, record_conditional_caught. hoare. Qed.
Hint Resolve fire_catch_ok : hoare.
Lemma evaluate_catch_ok ids id d vars c : sound ids (evaluate_catch id d vars c).
Proof. unfold evaluate_catch. hoare. Qed.
Hint Resolve evaluate_catch_ok : hoare.
Lemma fire_conditional_catches_ok ids id : sound ids (fire_conditional_catches id).
Proof. unfold fire_conditional_catches. hoare. Qed.
Hint Resolve fire_conditional_catches_ok : hoare.

(** ** Actions and the executor (NextAction, Executor) *)

Hint Unfold set_waiting finish fork_state finish_with_error finish_with_escalation : inst.
Lemma node_is_inclusive_split_ok ids id node : sound ids (node_is_inclusive_split id node).
Proof. unfold node_is_inclusive_split. hoare. Qed.
Lemma token_event_context_ok ids id t : sound ids (token_event_context id t).
Proof. unfold token_event_context. hoare. Qed.
Lemma fail_call_activity_ok ids id code detail : sound ids (fail_call_activity id code detail).
Proof. unfold fail_call_activity. hoare. Qed.
Lemma queue_branches_ok ids id fork k ts queue : sound ids (queue_branches id fork k ts queue).
Proof. revert k queue. induction ts as [|t ts IH]; intros k queue; cbn [queue_branches]; hoare. Qed.
Lemma add_alternative_ok ids id a : id ∈ ids → alternative_ok id a → sound ids (add_alternative a).
Proof. intros Hid. destruct a; cbn; intros; subst; hoare. Qed.
Hint Resolve node_is_inclusive_split_ok token_event_context_ok fail_call_activity_ok queue_branches_ok add_alternative_ok : hoare.
Lemma start_call_ok ids id called t queue : sound ids (start_call id called t queue).
Proof. unfold start_call. hoare. Qed.
Lemma end_branch_ok ids id t : sound ids (end_branch id t).
Proof. unfold end_branch. hoare. Qed.
Hint Resolve start_call_ok end_branch_ok : hoare.
Lemma complete_path_ok ids id t : sound ids (complete_path id t).
Proof. unfold complete_path. hoare. Qed.
Lemma end_with_code_ok ids id t code esc descr finishes queue :
  (∀ at_ fresh i, inst_ok id i → inst_ok id (finishes at_ fresh i)) →
  sound ids (end_with_code id t code esc descr finishes queue).
Proof. intros Hf. unfold end_with_code. hoare. Qed.
Lemma terminate_ok ids id : sound ids (terminate id).
Proof. unfold terminate. hoare. Qed.
Hint Resolve complete_path_ok terminate_ok : hoare.
Lemma handle_next_action_ok ids a id t node queue :
  id ∈ ids → action_ok id a → sound ids (handle_next_action a id t node queue).
Proof.
  intros Hid Ha. destruct a; cbn [handle_next_action action_ok alternative_ok] in *; subst; hoare.
  - apply add_alternative_ok with id; [known|]. by eapply Forall_forall.
  - apply end_with_code_ok. intros. inst_solve.
  - apply end_with_code_ok. intros. inst_solve.
Qed.
Hint Resolve handle_next_action_ok : hoare.
Lemma dispatch_ok ids id t d node element : id ∈ ids → holds ids (dispatch id t d node element) (step_ok id).
Proof. intros. unfold dispatch. destruct element; hoare. Qed.
Hint Resolve dispatch_ok : hoare.
Lemma execute_step_ok ids id t : holds ids (execute_step id t) (step_ok id).
Proof. unfold execute_step. hoare. Qed.
Lemma step_failed_ok {A} ids id err (Q : A → Prop) : holds ids (step_failed id err) Q.
Proof. unfold step_failed. hoare. Qed.
Hint Resolve execute_step_ok step_failed_ok : hoare.
Lemma run_token_ok ids id t queue : id ∈ ids → sound ids (run_token id t queue).
Proof.
  intros. unfold run_token. hoare. apply handle_next_action_ok; [known|].
  match goal with H : ∀ a, Ok _ = Ok a → _ |- _ => by apply (H _ eq_refl) end.
Qed.
Lemma exceed_limit_ok ids id : sound ids (exceed_limit id).
Proof. unfold exceed_limit. hoare. Qed.
Hint Resolve run_token_ok exceed_limit_ok : hoare.
Lemma batch_loop_ok ids fuel id steps queue : id ∈ ids → sound ids (batch_loop fuel id steps queue).
Proof.
  intros Hid. revert steps queue. induction fuel as [|fuel IH]; cbn [batch_loop]; [intros; apply holds_fault|].
  revert IH. generalize (batch_loop fuel id). intros loop IH steps queue. hoare.
Qed.
Lemma finish_batch_ok ids id : sound ids (finish_batch id).
Proof. unfold finish_batch. hoare. Qed.
Hint Resolve batch_loop_ok finish_batch_ok : hoare.
Lemma batch_ok ids id ts : id ∈ ids → sound ids (batch id ts).
Proof. intros. unfold batch. hoare. Qed.
Hint Resolve batch_ok : hoare.

(** ** Messages, timers and incidents (Messages, TimerProcessor, Incidents) *)

Lemma trigger_scope_listener_ok ids id tgt vars : sound ids (trigger_scope_listener id tgt vars).
Proof. unfold trigger_scope_listener. hoare. Qed.
Lemma resume_message_catch_ok ids c name vars : sound ids (resume_message_catch c name vars).
Proof. unfold resume_message_catch. hoare. Qed.
Hint Resolve trigger_scope_listener_ok resume_message_catch_ok : hoare.
Lemma deliver_message_ok ids name vars x : sound ids (deliver_message name vars x).
Proof. unfold deliver_message. hoare. Qed.
Hint Resolve deliver_message_ok : hoare.
Lemma correlate_message_ok ids name bk vars : sound ids (correlate_message name bk vars).
Proof. unfold correlate_message. hoare. apply mapM_ok. intros key. hoare. Qed.
Lemma record_incident_ok ids id kind node task msg details : sound ids (record_incident id kind node task msg details).
Proof. unfold record_incident. hoare. Qed.
Hint Resolve record_incident_ok : hoare.
Lemma resolve_incident_in_ok incident by_ at_ id i : inst_ok id i → inst_ok id (resolve_incident_in incident by_ at_ i).2.
Proof.
  intros [Hid [Hlen Huniq] Htok]. unfold resolve_incident_in. destruct (List.find _ _) as [x|]; [|by split].
  destruct (resolved_at x); [by split|]. split; cbn; [done| |done]. split; [by rewrite update_first_length|].
  intros k n t. etrans; [by apply update_first_count_le|apply Huniq].
Qed.
Lemma resolve_instance_incident_ok ids id incident by_ : sound ids (resolve_instance_incident id incident by_).
Proof. unfold resolve_instance_incident. hoare. by apply resolve_incident_in_ok. Qed.
Lemma reschedule_failed_timer_ok ids t : pt_instance_id t ∈ ids → sound ids (reschedule_failed_timer t).
Proof. intros. unfold reschedule_failed_timer. hoare. Qed.
Lemma remove_service_task_unindexed_ok ids id : sound ids (remove_service_task_unindexed id).
Proof. unfold remove_service_task_unindexed. hoare. Qed.
Lemma repeat_timer_ok ids t : pt_instance_id t ∈ ids → sound ids (repeat_timer t).
Proof. intros. unfold repeat_timer. hoare. Qed.
Hint Resolve reschedule_failed_timer_ok remove_service_task_unindexed_ok repeat_timer_ok : hoare.
Lemma fire_token_timer_ok ids t d : pt_instance_id t ∈ ids → sound ids (fire_token_timer t d).
Proof. intros. unfold fire_token_timer. hoare. Qed.
Hint Resolve fire_token_timer_ok : hoare.
Lemma process_expired_timer_ok ids t : pt_instance_id t ∈ ids → sound ids (process_expired_timer t).
Proof. intros. unfold process_expired_timer. hoare. Qed.
Hint Resolve process_expired_timer_ok : hoare.
Lemma process_timer_ok ids x : sound ids (process_timer x).
Proof. unfold process_timer. hoare. Qed.
Hint Resolve process_timer_ok : hoare.
Lemma process_timers_ok ids : sound ids process_timers.
Proof. unfold process_timers. hoare. Qed.
Hint Resolve correlate_message_ok resolve_instance_incident_ok process_timers_ok : hoare.

(** ** Restart (EventScope) *)

Lemma restore_subscription_ok ids id h s : id ∈ ids → sound ids (restore_subscription id h s).
Proof. intros. unfold restore_subscription. hoare. Qed.
Hint Resolve restore_subscription_ok : hoare.
Lemma restore_missing_subscriptions_ok ids id i : id ∈ ids → sound ids (restore_missing_subscriptions id i).
Proof. intros. unfold restore_missing_subscriptions. hoare. Qed.
Lemma drop_orphan_waits_ok ids id i : sound ids (drop_orphan_waits id i).
Proof. unfold drop_orphan_waits. hoare. Qed.
Lemma resume_unparked_ok ids id t : sound ids (resume_unparked id t).
Proof. unfold resume_unparked. hoare. Qed.
Hint Resolve restore_missing_subscriptions_ok drop_orphan_waits_ok resume_unparked_ok : hoare.
Lemma reconcile_instance_ok ids id : sound ids (reconcile_instance id).
Proof. unfold reconcile_instance. hoare. Qed.
Hint Resolve reconcile_instance_ok : hoare.
Lemma reconcile_event_subprocesses_ok ids : sound ids reconcile_event_subprocesses.
Proof. unfold reconcile_event_subprocesses. hoare. Qed.
Hint Resolve reconcile_event_subprocesses_ok : hoare.

(** ** Tasks (ServiceTask, TaskCompletion) *)

Definition tasks_sound (ins : gmap Uuid ProcessInstance) (s : ServiceTasks) : Prop :=
  covers s ∧ owned st_instance_id ins (primary s).
Lemma tasks_sound_modify ins id f s :
  (∀ t, st_id (f t) = st_id t ∧ st_topic (f t) = st_topic t ∧ st_instance_id (f t) = st_instance_id t) →
  tasks_sound ins s → tasks_sound ins (store_modify id f s).
Proof.
  intros Hf [Hc Ho]. split; [apply store_modify_covers; [intros v; split; apply Hf|done]|].
  apply owned_alter; [apply Hf|done].
Qed.
(** A stale entry of the index is dropped. *)
Lemma tasks_sound_stale ins topic id s :
  primary s !! id = None → tasks_sound ins s → tasks_sound ins (mkStore (primary s) (topic_remove topic id (index s))).
Proof.
  intros Hnone [[Hok Hid Hhas] Ho]. split; [|done]. split.
  - exact (idx_ok_remove topic id (index s) Hok).
  - done.
  - intros u v Hv. refine (proj2 (idx_has_remove topic id (index s) _ _) (conj _ (Hhas _ _ Hv))). cbn in Hv. naive_solver.
Qed.
Lemma fetch_loop_sound ins worker n durations handlers inflight audience at_ candidates s res :
  tasks_sound ins s →
  tasks_sound ins (fetch_loop worker n durations handlers inflight audience at_ candidates s res).2.
Proof.
  revert s res. induction candidates as [|[topic id] rest IH]; intros s res Hs; cbn [fetch_loop]; [done|].
  destruct (n <=? length res); [done|]. destruct (primary s !! id) eqn:Hid; [|by apply IH, tasks_sound_stale].
  destruct (claimable _ _ _ _ _ _); apply IH; [|done]. by apply tasks_sound_modify.
Qed.
Lemma fetch_and_lock_inner_ok ids worker n topics audience : sound ids (fetch_and_lock_inner worker n topics audience).
Proof.
  intros e He. unfold fetch_and_lock_inner, now, gets. rewrite !bind_run. cbn [Datatypes.id].
  assert (tasks_sound (e_instances e) (e_service_tasks e)) as Hs by apply He.
  match goal with |- context [fetch_loop ?a ?b ?c ?d ?f ?g ?h ?i ?j ?k] =>
    apply (fetch_loop_sound _ a b c d f g h i j k) in Hs; destruct (fetch_loop a b c d f g h i j k) as [r s]
  end. cbn in Hs.
  rewrite bind_run. cbn [modify].
  enough (Inv ids (e <| e_service_tasks := s |>)) as He'.
  { assert (sound ids (forM r (λ t, persist_service_task (st_id t)) ;; mret r)) as Hp by hoare. by apply Hp. }
  eapply Inv_step; [done|done|]. destruct He as [[] _]. by split.
Qed.
Lemma get_task_ok ids id : holds ids (get_task id) (λ t, st_id t = id).
Proof. unfold get_task. hoare. Qed.
Lemma modify_task_ok ids id f :
  (∀ t, st_id (f t) = st_id t ∧ st_topic (f t) = st_topic t ∧ st_instance_id (f t) = st_instance_id t) →
  sound ids (modify_task id f).
Proof.
  intros Hf. unfold modify_task. apply holds_modify. intros e He. split; [|done].
  assert (tasks_sound (e_instances e) (e_service_tasks e)) as Hs by apply He.
  apply (tasks_sound_modify _ id f) in Hs; [|done]. destruct He. by split.
Qed.
Hint Resolve fetch_and_lock_inner_ok get_task_ok : hoare.
Lemma record_task_incident_ok ids at_ id t msg details : sound ids (record_task_incident at_ id t msg details).
Proof. unfold record_task_incident. hoare. Qed.
Hint Resolve record_task_incident_ok : hoare.
Lemma fail_service_task_ok ids id worker retries msg details after :
  sound ids (fail_service_task_with_retry_timeout id worker retries msg details after).
Proof. unfold fail_service_task_with_retry_timeout. hoare. by apply modify_task_ok. Qed.
Lemma retry_incident_ok ids id n : sound ids (retry_incident id n).
Proof. unfold retry_incident. hoare. by apply modify_task_ok. Qed.
Lemma extend_lock_ok ids id worker n : sound ids (extend_lock id worker n).
Proof. unfold extend_lock. hoare. by apply modify_task_ok. Qed.
Hint Resolve fail_service_task_ok retry_incident_ok extend_lock_ok : hoare.

(** An operation that takes a task out of the map, or fails without a change. *)
Definition takes (id : Uuid) (m : M PendingServiceTask) : Prop := ∀ e,
  (∃ x, m e = (Err x, e)) ∨
  ∃ f t, primary (e_service_tasks e) !! id = Some t ∧
    m e = (Ok t, e <| e_service_tasks ::= λ s, (store_remove_if id f s).2 |>).
Lemma take_locked_task_takes id worker : takes id (take_locked_task id worker).
Proof.
  intros e. unfold take_locked_task, remove_pending_service_task_if, store_remove_if, gets. rewrite bind_run.
  destruct (primary (e_service_tasks e) !! id) as [t|] eqn:Ht.
  - case_bool_decide as Hw.
    + right. exists (λ t, bool_decide (st_worker_id t = Some worker)), t. split; [done|].
      rewrite bind_run. cbn. unfold store_remove_if. by rewrite Ht, bool_decide_true.
    + left. rewrite bind_run, Ht. destruct (st_worker_id t); by eexists.
  - left. rewrite bind_run, Ht. by eexists.
Qed.
Lemma take_incident_takes id : takes id (take_incident id).
Proof.
  intros e. unfold take_incident, remove_pending_service_task_if, store_remove_if, gets. rewrite bind_run.
  destruct (primary (e_service_tasks e) !! id) as [t|] eqn:Ht.
  - destruct (st_retries t <=? 0)%Z eqn:Hr.
    + right. exists (λ t, st_retries t <=? 0)%Z, t. split; [done|].
      rewrite bind_run. cbn. unfold store_remove_if. by rewrite Ht, Hr.
    + left. rewrite bind_run. by eexists.
  - left. rewrite bind_run. by eexists.
Qed.
Lemma holds_takes_bind {B} ids id m (k : PendingServiceTask → M B) Q :
  takes id m → (∀ t, st_id t = id → holds (st_instance_id t :: ids) (k t) Q) → holds ids (m ≫= k) Q.
Proof.
  intros Hm Hk e He. rewrite bind_run. destruct (Hm e) as [[x ->]|(f & t & Ht & ->)]; [by split|].
  destruct (ok_services _ (proj1 He)) as [Hc Ho].
  destruct (Hk t (cov_id _ Hc _ _ Ht) (e <| e_service_tasks ::= λ s, (store_remove_if id f s).2 |>)) as [[? ?]%Inv_cons ?].
  - apply Inv_cons. split; [by eapply Ho|]. eapply Inv_step; [done|done|]. destruct He as [[] _].
    split; cbn; [done|done| |done..]. split; [by apply store_remove_if_covers|by apply owned_store_remove].
  - by split.
Qed.

Hint Unfold take_token resume_at note_item take_completing_token note_bpmn_error : inst.
Lemma finish_user_task_ok ids task_id p t :
  ut_task_id p = task_id → ut_instance_id p ∈ ids → sound ids (finish_user_task task_id p t).
Proof. intros. unfold finish_user_task. hoare. Qed.
Hint Resolve finish_user_task_ok : hoare.
Lemma complete_user_task_ok ids task_id vars : sound ids (complete_user_task task_id vars).
Proof. unfold complete_user_task. hoare. Qed.
Lemma restore_mapped_service_task_ok ids id t task prev :
  st_instance_id task ∈ ids → sound ids (restore_mapped_service_task id t task prev).
Proof. intros. unfold restore_mapped_service_task. hoare. Qed.
Lemma completed_history_ok ids c x : sound ids (completed_history c x).
Proof. unfold completed_history. hoare. Qed.
Hint Resolve restore_mapped_service_task_ok completed_history_ok : hoare.
Lemma next_sequential_item_ok ids c t rb : st_instance_id (co_task c) ∈ ids → sound ids (next_sequential_item c t rb).
Proof. intros. unfold next_sequential_item. hoare. Qed.
Lemma next_parallel_item_ok ids c t : sound ids (next_parallel_item c t).
Proof. unfold next_parallel_item. hoare. Qed.
Lemma finish_service_task_ok ids c t rb : st_instance_id (co_task c) ∈ ids → sound ids (finish_service_task c t rb).
Proof. intros. unfold finish_service_task. hoare. Qed.
Hint Resolve next_sequential_item_ok next_parallel_item_ok finish_service_task_ok : hoare.
Lemma complete_service_task_ok ids id worker vars : sound ids (complete_service_task id worker vars).
Proof. unfold complete_service_task. eapply holds_takes_bind; [apply take_locked_task_takes|]. intros. hoare. Qed.
Lemma resolve_incident_ok ids id vars : sound ids (resolve_incident id vars).
Proof. unfold resolve_incident. eapply holds_takes_bind; [apply take_incident_takes|]. intros. hoare. Qed.
Lemma error_to_boundary_ok ids id task code b vars key : sound ids (error_to_boundary id task code b vars key).
Proof. unfold error_to_boundary. hoare. Qed.
Lemma error_to_incident_ok ids id task worker code msg :
  st_instance_id task ∈ ids → sound ids (error_to_incident id task worker code msg).
Proof. intros. unfold error_to_incident. hoare. Qed.
Hint Resolve error_to_boundary_ok error_to_incident_ok : hoare.
Lemma handle_bpmn_error_ok ids id worker code vars msg :
  sound ids (handle_bpmn_error_with_variables id worker code vars msg).
Proof.
  unfold handle_bpmn_error_with_variables. eapply holds_takes_bind; [apply take_locked_task_takes|]. intros. hoare.
Qed.
Hint Resolve complete_user_task_ok complete_service_task_ok resolve_incident_ok handle_bpmn_error_ok : hoare.

(** ** Administration (InstanceOps) *)

Lemma put_token_vars_id updates t : tok_id (put_token_vars updates t) = tok_id t.
Proof.
  unfold put_token_vars. revert t. induction (map_to_list updates) as [|kv l IH]; intros t; [done|]. cbn [fold_left].
  rewrite IH. unfold put_token_var. destruct (data_scope t); [|done]. by destruct (existsb _ _).
Qed.
Hint Resolve put_token_vars_id : inst.
Hint Unfold update_variables_in suspend_in resume_in migrate_in : inst.
Lemma update_instance_variables_ok ids id updates : sound ids (update_instance_variables id updates).
Proof. unfold update_instance_variables. hoare. Qed.
Lemma suspend_instance_ok ids id : sound ids (suspend_instance id).
Proof. unfold suspend_instance. hoare. Qed.
Lemma resume_instance_ok ids id : sound ids (resume_instance id).
Proof. unfold resume_instance. hoare. Qed.
Lemma move_token_ok ids id tgt vars b : sound ids (move_token id tgt vars b).
Proof. unfold move_token. hoare. Qed.
Lemma remap_pending_ok ids mapping id key : sound ids (modify (remap_pending mapping id key)).
Proof.
  apply holds_modify. intros e []. split; [|done]. unfold remap_pending.
  assert (∀ v, entry_id (remap_service_task mapping id key v) = entry_id v ∧
    entry_key (remap_service_task mapping id key v) = entry_key v)
    by (intros v; unfold remap_service_task; by case_bool_decide).
  assert (∀ v, entry_id (remap_timer mapping id v) = entry_id v ∧ entry_key (remap_timer mapping id v) = entry_key v)
    by (intros v; unfold remap_timer; by case_bool_decide).
  split; cbn; [done|..]; destruct_and!; (split; [first [apply keyed_fmap | apply store_fmap_covers] | apply owned_fmap]; try done).
  all: intros v; unfold remap_user_task, remap_service_task, remap_timer, remap_message, remap_signal, remap_conditional;
    by case_bool_decide.
Qed.
Hint Resolve remap_pending_ok : hoare.
Lemma migrate_instance_ok ids id key mapping : sound ids (migrate_instance id key mapping).
Proof. unfold migrate_instance. hoare. Qed.
End sound.

(** The executor keeps the engine sound at every nesting depth. *)
#[export] Instance executor_ok `{UnicodeData, ScriptEngine, CronLib} depth : NestedOk (executor depth).
Proof.
  induction depth as [|depth IH]; intros ids id ts Hid; cbn [executor run_instance_batch_with_tokens].
  - apply holds_fault.
  - by apply batch_ok.
Qed.
