(* ===== verification/EngineSteps.v ===== *)
(** * Clients and reachable engines

    The requests that clients, workers, timers and a restart make of the engine,
    the engines they can lead to, and what holds in all of them. *)

From stdpp Require Import base list gmap strings pretty sorting.
From S2P Require Import Prelude Text Float Json CondLexer CondParser CondEval Domain Token ProcessDef DataMappings Runtime History Graph Gateway Registry Index TopicIndex TimerIndex Engine Scripts Handlers Join Boundary Waits Hoare TaskHandlers EventScope ProcessStart Signals InstanceOps TimerProcessor Conditional ThrowHandlers NextAction Executor TaskCompletion DefinitionOps MessageRouting Collections ServiceTask Nesting EngineInv.
Local Open Scope rust_scope.

Inductive Request :=
| RStart (key : Uuid) (vars : Vars)
| RStartLatest (bpmn_id : string) (vars : Vars)
| RTriggerTimerStart (key : Uuid) (d : Duration)
| RStartTimer (key : Uuid) (vars : Vars)
| RTimerTurn (key : Uuid) (vars : Vars) (cy : TimerCycle) (i : N)
| RCompleteUserTask (task : Uuid) (vars : Vars)
| RFetch (worker : string) (n : nat) (topics : list (string * Z)) (audience : ServiceTaskFetchAudience)
| RComplete (task : Uuid) (worker : string) (vars : Vars)
| RFail (task : Uuid) (worker : string) (retries : option Z) (message details : option string) (after : Duration)
| RExtend (task : Uuid) (worker : string) (seconds : Z)
| RBpmnError (task : Uuid) (worker code : string) (vars : Vars) (message : option string)
| RRetryIncident (task : Uuid) (retries : option Z)
| RResolveIncident (task : Uuid) (vars : Vars)
| RResolveInstanceIncident (id incident : Uuid) (by_ : option string)
| RMessage (name : string) (business_key : option string) (vars : Vars)
| RSignal (name : string) (vars : Vars)
| RTimers
| RUpdateVariables (id : Uuid) (updates : Vars)
| RSuspend (id : Uuid)
| RResume (id : Uuid)
| RMoveToken (id : Uuid) (target : string) (vars : Vars) (cancel_current : bool)
| RMigrate (id key : Uuid) (mapping : gmap string string)
| RDelete (id : Uuid)
| RReconcile
| RDeploy (d : ProcessDefinition)
| RRestoreDefinitions (ds : list ProcessDefinition)
| RDeployCollection (answer : EngineResult unit) (processes : list ProcessDefinition) (xml : string) (collaborations : Value)
| RRestoreCollection (c : DefinitionCollection)
| RDeleteDefinition (key : Uuid) (cascade : bool)
| RDeleteAllDefinitions (bpmn_id : string) (cascade : bool)
| RHandlers (topics : gset string) (inflight : gset Uuid)
| RTick (d : Z).

Definition ignore {A} (m : M A) : M unit := m ≫= λ _, mret tt.

Section requests.
  Context {U : UnicodeData} {S : ScriptEngine} {C : CronLib} {CR : CollaborationReader} {R : Nested}.

(** A tick lets time pass; [RHandlers] is the in-process dispatcher registering
    topics and claiming tasks.  The store answers a deletion. *)
Definition perform (rq : Request) : M unit :=
  match rq with
  | RStart key vars => ignore (start_instance_with_variables key vars)
  | RStartLatest x vars => ignore (start_instance_latest x vars)
  | RTriggerTimerStart key d => ignore (trigger_timer_start key d)
  | RStartTimer key vars => ignore (start_timer_instance key vars)
  | RTimerTurn key vars cy i => ignore (timer_cycle_turn key vars cy i)
  | RCompleteUserTask task vars => complete_user_task task vars
  | RFetch worker n topics audience => ignore (fetch_and_lock_inner worker n topics audience)
  | RComplete task worker vars => complete_service_task task worker vars
  | RFail task worker retries m d after => fail_service_task_with_retry_timeout task worker retries m d after
  | RExtend task worker s => extend_lock task worker s
  | RBpmnError task worker code vars m => handle_bpmn_error_with_variables task worker code vars m
  | RRetryIncident task n => retry_incident task n
  | RResolveIncident task vars => resolve_incident task vars
  | RResolveInstanceIncident id incident by_ => ignore (resolve_instance_incident id incident by_)
  | RMessage name bk vars => ignore (correlate_message name bk vars)
  | RSignal name vars => ignore (correlate_signal name vars)
  | RTimers => ignore process_timers
  | RUpdateVariables id updates => update_instance_variables id updates
  | RSuspend id => suspend_instance id
  | RResume id => resume_instance id
  | RMoveToken id tgt vars b => move_token id tgt vars b
  | RMigrate id key mapping => migrate_instance id key mapping
  | RDelete id => delete_instance (Ok tt) id
  | RReconcile => reconcile_event_subprocesses
  | RDeploy d => ignore (deploy d)
  | RRestoreDefinitions ds => restore_definitions ds
  | RDeployCollection answer ds xml cols => ignore (deploy_collection answer ds xml cols)
  | RRestoreCollection c => restore_definition_collection c
  | RDeleteDefinition key cascade => delete_definition (λ _, Ok tt) (Ok tt) key cascade
  | RDeleteAllDefinitions x cascade => delete_all_definitions (λ _, Ok tt) (λ _, Ok tt) x cascade
  | RHandlers topics inflight => modify (λ e, e <| e_task_handlers := topics |> <| e_inflight := inflight |>)
  | RTick d => modify (λ e, e <| e_now := (e_now e + d)%Z |>)
  end.

(** One request, whatever it returns. *)
Inductive engine_step (e : Engine) : Engine → Prop :=
| request_step rq : engine_step e (perform rq e).2.

(** ** Requests keep the engine sound *)

(** An operation that keeps the engine sound but may remove instances. *)
Definition preserves {A} (m : M A) : Prop := ∀ e, engine_ok e → engine_ok (m e).2.
Lemma sound_preserves {A} (m : M A) : sound [] m → preserves m.
Proof. intros Hm e He. by apply (Hm e). Qed.
Lemma preserves_bind {A B} (m : M A) (k : A → M B) : preserves m → (∀ a, preserves (k a)) → preserves (m ≫= k).
Proof.
  intros Hm Hk e He. rewrite bind_run. specialize (Hm e He). destruct (m e) as [[a|] e']; [by apply Hk|done].
Qed.
Lemma preserves_forM {A} (l : list A) f : (∀ x, preserves (f x)) → preserves (forM l f).
Proof.
  intros Hf. induction l as [|x l IH]; cbn [forM]; [by intros e He|]. apply preserves_bind; [done|]. by intros _.
Qed.
Lemma preserves_ignore {A} (m : M A) : preserves m → preserves (ignore m).
Proof. intros Hm. apply preserves_bind; [done|]. by intros _ e He. Qed.

Lemma keyed_without {V} (id : V → Uuid) inst x m m' : others inst x m m' → keyed id m → keyed id m'.
Proof. intros Ho Hm k v [Hv _]%Ho. by apply Hm. Qed.
Lemma owned_without {V} (inst : V → Uuid) x ins m m' :
  others inst x m m' → owned inst ins m → owned inst (delete x ins) m'.
Proof. intros Ho Hm k v [Hv Hne]%Ho. rewrite lookup_delete_ne by done. by eapply Hm. Qed.
Lemma without_ok id e : engine_ok e → engine_ok (without id e).
Proof.
  intros []. destruct (forget_pending_cleared id (e <| e_instances ::= delete id |>)). destruct_and!.
  split; [|split..].
  - intros id' i Hi. change (delete id (e_instances e) !! id' = Some i) in Hi. apply lookup_delete_Some in Hi as [_ ?]. auto.
  - by eapply keyed_without.
  - by eapply owned_without.
  - by apply store_retain_covers.
  - by eapply owned_without.
  - by apply store_retain_covers.
  - by eapply owned_without.
  - by eapply keyed_without.
  - by eapply owned_without.
  - by eapply keyed_without.
  - by eapply owned_without.
  - by eapply keyed_without.
  - by eapply owned_without.
Qed.
Lemma delete_instance_preserves id : preserves (delete_instance (Ok tt) id).
Proof.
  intros e He. pose proof (delete_instance_run id e) as H. destruct (e_instances e !! id).
  - destruct H as (u & l & ->). by apply engine_ok_sent, without_ok.
  - by rewrite H.
Qed.

(** Definitions are no part of the invariant. *)
Lemma preserves_definitions f : preserves (modify (λ e, e <| e_definitions ::= f |>)).
Proof. intros e []. by split. Qed.
Lemma quiet_preserves m : quiet m → preserves m.
Proof. intros Hm. apply sound_preserves. by apply holds_quiet. Qed.
Lemma deploy_preserves d : preserves (deploy d).
Proof.
  apply preserves_bind; [by apply sound_preserves, (holds_gets _ _ (λ _, True))|]. intros reg.
  destruct (deploy_definition d reg) as [[reg' persisted] r]. apply preserves_bind; [apply (preserves_definitions (λ _, reg'))|].
  intros _. apply preserves_bind; [|by intros _ e]. apply quiet_preserves. unfold emit_event. eauto with rust.
Qed.
Lemma deploy_collection_preserves answer ds xml cols : preserves (deploy_collection answer ds xml cols).
Proof.
  intros e He. pose proof (deploy_collection_run answer ds xml cols e) as H.
  destruct (deploy_collection answer ds xml cols e) as [[c|x] e'].
  - destruct H as (u & l & rs & _ & _ & _ & ->). apply engine_ok_sent. destruct He. by split.
  - destruct H as (_ & u & l & ->). by apply engine_ok_sent.
Qed.
Lemma restore_collection_preserves c : preserves (restore_definition_collection c).
Proof.
  unfold restore_definition_collection. apply preserves_bind; [by intros e He; unfold lift; destruct (compile_routes c)|].
  intros rs. apply preserves_bind; [intros e []; by split|]. intros _. apply preserves_definitions.
Qed.
Lemma delete_definition_preserves key cascade : preserves (delete_definition (λ _, Ok tt) (Ok tt) key cascade).
Proof.
  apply preserves_bind; [apply sound_preserves, holds_get_definition|]. intros d.
  apply preserves_bind; [by apply sound_preserves, (holds_gets _ _ (λ _, True))|]. intros associated.
  apply preserves_bind.
  { destruct associated; [by intros e|]. destruct cascade; [|by intros e].
    apply preserves_forM. intros id. apply delete_instance_preserves. }
  intros _. apply preserves_bind; [apply preserves_definitions|]. intros _.
  apply preserves_bind; [by apply quiet_preserves, quiet_emit|]. intros _.
  apply preserves_bind; [by intros e|]. intros _. by apply quiet_preserves, quiet_emit.
Qed.

Context {RO : NestedOk R}.

Lemma perform_preserves rq : preserves (perform rq).
Proof.
  destruct rq; cbn [perform]; try apply preserves_ignore.
  - apply sound_preserves, start_instance_vars_ok.
  - apply sound_preserves, start_instance_latest_ok.
  - apply sound_preserves, trigger_timer_start_ok.
  - apply sound_preserves, start_timer_instance_ok.
  - apply sound_preserves, timer_cycle_turn_ok.
  - apply sound_preserves, complete_user_task_ok.
  - apply sound_preserves, fetch_and_lock_inner_ok.
  - apply sound_preserves, complete_service_task_ok.
  - apply sound_preserves, fail_service_task_ok.
  - apply sound_preserves, extend_lock_ok.
  - apply sound_preserves, handle_bpmn_error_ok.
  - apply sound_preserves, retry_incident_ok.
  - apply sound_preserves, resolve_incident_ok.
  - apply sound_preserves, resolve_instance_incident_ok.
  - apply sound_preserves, correlate_message_ok.
  - apply sound_preserves, correlate_signal_ok.
  - apply sound_preserves, process_timers_ok.
  - apply sound_preserves, update_instance_variables_ok.
  - apply sound_preserves, suspend_instance_ok.
  - apply sound_preserves, resume_instance_ok.
  - apply sound_preserves, move_token_ok.
  - apply sound_preserves, migrate_instance_ok.
  - apply delete_instance_preserves.
  - apply sound_preserves, reconcile_event_subprocesses_ok.
  - apply deploy_preserves.
  - apply preserves_definitions.
  - apply deploy_collection_preserves.
  - apply restore_collection_preserves.
  - apply delete_definition_preserves.
  - apply preserves_bind; [by apply sound_preserves, (holds_gets _ _ (λ _, True))|]. intros versions.
    apply preserves_forM. intros k. apply delete_definition_preserves.
  - intros e []. by split.
  - intros e []. by split.
Qed.

Lemma reachable_ok e : rtc engine_step engine_new e → engine_ok e.
Proof.
  intros H. remember engine_new as e0. assert (engine_ok e0) as H0 by (subst; apply engine_new_ok).
  clear Heqe0. induction H as [|x y z [rq] _ IH]; [done|]. by apply IH, perform_preserves.
Qed.

End requests.

(** ** Requests do not depend on the nesting bound *)

Lemma ignore_deeper {A} (m m' : M A) : refines m m' → refines (ignore m) (ignore m').
Proof. intros. by apply refines_bind; [|intros a; apply refines_refl]. Qed.

Lemma perform_deeper `{UnicodeData, ScriptEngine, CronLib, CollaborationReader} (R R' : Nested) {D : Deeper R R'} rq :
  refines (perform (R := R) rq) (perform (R := R') rq).
Proof.
  destruct rq; cbn [perform]; try lazymatch goal with |- refines ?m ?m => apply refines_refl end.
  - apply ignore_deeper, start_instance_with_variables_deeper.
  - apply ignore_deeper, start_instance_latest_deeper.
  - apply ignore_deeper, trigger_timer_start_deeper.
  - apply ignore_deeper, start_timer_instance_deeper.
  - apply ignore_deeper, timer_cycle_turn_deeper.
  - apply complete_user_task_deeper.
  - apply complete_service_task_deeper.
  - apply handle_bpmn_error_with_variables_deeper.
  - apply resolve_incident_deeper.
  - apply ignore_deeper, correlate_message_deeper.
  - apply ignore_deeper, correlate_signal_deeper.
  - apply ignore_deeper, process_timers_deeper.
  - apply update_instance_variables_deeper.
  - apply move_token_deeper.
  - apply reconcile_event_subprocesses_deeper.
Qed.

(** The bound on nested batches is only a bound: a request whose outcome does not
    mention it (success, error, panic) has the same outcome and leaves the same
    engine at every larger bound. *)
Theorem nesting_bound_irrelevant `{UnicodeData, ScriptEngine, CronLib, CollaborationReader} depth k rq e r e' :
  perform (R := executor depth) rq e = (r, e') → r ≠ Err OutOfFuel →
  perform (R := executor (k + depth)) rq e = (r, e').
Proof.
  intros Hrun Hr. destruct (perform_deeper _ _ (D := executor_deeper k depth) rq e) as [Hf|Heq].
  - rewrite Hrun in Hf. done.
  - by rewrite Heq.
Qed.

(** ** What every reachable engine guarantees *)

Section reachable.
  Context {U : UnicodeData} {S : ScriptEngine} {C : CronLib} {CR : CollaborationReader}.
Local Abbreviation reachable depth e := (rtc (engine_step (R := executor depth)) engine_new e).


Lemma expired_timers_covers instances (s : Timers) now0 id :
  covers s → valid_ids s →
  id ∈ expired_timers instances s now0 ↔ ∃ t, primary s !! id = Some t ∧ (pt_expires_at t ≤ now0)%Z ∧
    ∀ i, instances !! pt_instance_id t = Some i → is_suspended (pi_state i) = false.
Proof.
  intros [_ _ Hhas] Hv. unfold expired_timers, actionable, due_ids. rewrite elem_of_filter_bool, list_elem_of_fmap. split.
  - intros [_ Ha]. destruct (primary s !! id) as [t|]; [|done]. exists t. split; [done|].
    destruct (Z.ltb_spec now0 (pt_expires_at t)); [done|]. split; [lia|]. intros i Hi. rewrite Hi in Ha.
    by apply negb_true_iff in Ha.
  - intros (t & Ht & Hle & Hs). rewrite Ht. split.
    + exists (pt_expires_at t, id). split; [done|]. apply elem_of_filter_bool.
      split; [by apply (Hhas id t)|]. apply negb_true_iff, key_le_now; [by eapply Hv|done].
    + destruct (Z.ltb_spec now0 (pt_expires_at t)); [lia|].
      destruct (instances !! pt_instance_id t) as [i|]; [|done]. by rewrite (Hs i eq_refl).
Qed.

(** C7: No due timer is missed: in every reachable engine the next round of the timer
    processor takes exactly the pending timers whose time has come and whose
    instance is not suspended, although interruptions and failures may leave
    stale entries in the due index. *)
Theorem due_timers_fire depth e :
  reachable depth e → valid_ids (e_timers e) → ∀ id,
  id ∈ expired_timers (e_instances e) (e_timers e) (e_now e) ↔
  ∃ t, primary (e_timers e) !! id = Some t ∧ (pt_expires_at t ≤ e_now e)%Z ∧
    ∃ i, e_instances e !! pt_instance_id t = Some i ∧ is_suspended (pi_state i) = false.
Proof.
  intros He%reachable_ok Hv id. destruct (ok_timers _ He) as [Hc Ho]. rewrite expired_timers_covers by done.
  split; intros (t & Ht & Hle & Hs); exists t; (split; [done|]; split; [done|]).
  - destruct (Ho _ _ Ht) as [i Hi]. eauto.
  - destruct Hs as (i & Hi & Hs). by intros ? [= <-]%(eq_trans (eq_sym Hi)).
Qed.

Section offer.
  Context (worker : string) (n : nat) (durations : gmap string Z) (handlers : gset string) (inflight : gset Uuid)
    (audience : ServiceTaskFetchAudience) (at_ : DateTime).
Local Abbreviation loop := (fetch_loop worker n durations handlers inflight audience at_).

Lemma fetch_loop_prefix candidates s res : ∃ new, (loop candidates s res).1 = res ++ new.
Proof.
  revert s res. induction candidates as [|[topic id] rest IH]; intros s res; cbn [fetch_loop]; [exists []; by rewrite app_nil_r|].
  destruct (n <=? length res); [exists []; by rewrite app_nil_r|]. destruct (primary s !! id); [|apply IH].
  destruct (claimable _ _ _ _ _ _); [|apply IH]. edestruct IH as [new ->]. rewrite <- app_assoc. eauto.
Qed.
Lemma fetch_loop_offers candidates s res id t :
  NoDup candidates.*2 → id ∈ candidates.*2 → primary s !! id = Some t → st_id t = id →
  claimable handlers inflight at_ audience id t = true →
  n ≤ length (loop candidates s res).1 ∨ id ∈ st_id <$> (loop candidates s res).1.
Proof.
  intros Hnd Hin Ht Hid Hc. revert s res Ht. induction candidates as [|[topic x] rest IH]; intros s res Ht.
  { by apply not_elem_of_nil in Hin. }
  apply NoDup_cons in Hnd as [Hnot Hnd]. cbn [fetch_loop]. destruct (Nat.leb_spec n (length res)); [by left|].
  destruct (decide (x = id)) as [->|Hne].
  - rewrite Ht, Hc. right. edestruct fetch_loop_prefix as [new ->]. rewrite !fmap_app, !elem_of_app. left. right.
    cbn. rewrite Hid. apply list_elem_of_here.
  - assert (id ∈ rest.*2) as Hin' by (cbn in Hin; set_solver). destruct (primary s !! x) as [v|] eqn:Hx; [|by apply IH].
    destruct (claimable _ _ _ _ x v); [|by apply IH]. apply IH; [done..|]. cbn. by rewrite lookup_alter_ne.
Qed.
End offer.

(** C8: No task is starved: in every reachable engine a fetch for the topic of a task
    that a worker may claim (tries left, not in flight, for this audience, lock
    absent or expired) returns that task, unless it already returns as many
    tasks as the worker asked for. *)
Theorem pending_task_is_offered depth e worker n topics audience id t :
  reachable depth e → primary (e_service_tasks e) !! id = Some t → st_topic t ∈ topics.*1 →
  claimable (e_task_handlers e) (e_inflight e) (e_now e) audience id t = true →
  ∃ r e', fetch_and_lock_inner worker n topics audience e = (Ok r, e') ∧ (n ≤ length r ∨ id ∈ st_id <$> r).
Proof.
  intros He%reachable_ok Ht Htopic Hc. destruct (ok_services _ He) as [[Hok Hid Hhas] _].
  unfold fetch_and_lock_inner, now, gets. rewrite !bind_run. cbn [Datatypes.id].
  destruct (candidate_loop_spec (index (e_service_tasks e)) topics.*1 ∅ []) as (Hnd & Hin & _); [set_solver|constructor|].
  assert (id ∈ (candidate_ids (index (e_service_tasks e)) topics.*1).*2) as Hcand.
  { apply Hin. right. exists (st_topic t). split; [done|]. by apply (Hhas id t). }
  pose proof (fetch_loop_offers worker n (durations_of topics) (e_task_handlers e) (e_inflight e) audience (e_now e)
    (candidate_ids (index (e_service_tasks e)) topics.*1) (e_service_tasks e) [] id t Hnd Hcand Ht (Hid _ _ Ht) Hc) as Hr.
  destruct (fetch_loop _ _ _ _ _ _ _ (candidate_ids _ _) _ _) as [r s]. rewrite bind_run. cbn [modify].
  destruct (quiet_run (forM r (λ t, persist_service_task (st_id t))) (mret r) (e <| e_service_tasks := s |>))
    as (u & l & -> & _); [unfold persist_service_task; eauto with rust|].
  eexists r, _. split; [done|exact Hr].
Qed.
End reachable.

(** ** A concrete history *)

Definition mail_process : ProcessDefinition :=
  mkDefinition 1 "mail" 1
    {["start" := StartEvent; "send" := ServiceTask "mail" None; "end" := EndEvent]}
    {["start" := [flow_simple "send"]; "send" := [flow_simple "end"]]} ∅ [] [] [] [] ∅ ∅.
Definition wait_process : ProcessDefinition :=
  mkDefinition 2 "wait" 1
    {["start" := StartEvent; "pause" := TimerCatchEvent (TimerDuration (5 * second)%Z); "end" := EndEvent]}
    {["start" := [flow_simple "pause"]; "pause" := [flow_simple "end"]]} ∅ [] [] [] [] ∅ ∅.
Definition example_requests : list Request :=
  [RDeploy mail_process; RDeploy wait_process; RStart 1 ∅; RStart 2 ∅; RTick (10 * second)].
Definition example_perform (rq : Request) : M unit :=
  @perform ascii_only no_scripts no_cron order_reader (@executor ascii_only no_scripts no_cron 2) rq.
Definition run_all (rqs : list Request) (e : Engine) : Engine := fold_left (λ e rq, (example_perform rq e).2) rqs e.
Definition history_engine : Engine := run_all example_requests engine_new.

Lemma run_all_reachable rqs e : rtc (@engine_step ascii_only no_scripts no_cron order_reader (@executor ascii_only no_scripts no_cron 2)) e (run_all rqs e).
Proof.
  revert e. induction rqs as [|rq rqs IH]; intros e; [done|]. eapply rtc_l; [apply (request_step _ rq)|apply IH].
Qed.


Lemma example_valid_ids : valid_ids (e_timers history_engine).
Proof.
  intros u t Ht. revert u t Ht. change (map_Forall (λ u _, (u ≤ uuid_max)%N) (primary (e_timers history_engine))).
  apply (bool_decide_eq_true_1 _). vm_compute. reflexivity.
Qed.
Lemma due_timers_fire_witness : 1013%N ∈ expired_timers (e_instances history_engine) (e_timers history_engine) (e_now history_engine).
Proof.
  apply (@due_timers_fire ascii_only no_scripts no_cron order_reader 2 history_engine (run_all_reachable _ _) example_valid_ids).
  eexists. split; [vm_compute; reflexivity|]. split; [vm_compute; discriminate|].
  eexists. split; vm_compute; reflexivity.
Defined.

Lemma pending_task_is_offered_witness :
  ∃ r e', fetch_and_lock_inner "worker" 5 [("mail", 30%Z)] ExternalWorker history_engine = (Ok r, e') ∧
    (5 ≤ length r ∨ 1006%N ∈ st_id <$> r).
Proof.
  eapply (@pending_task_is_offered ascii_only no_scripts no_cron order_reader 2 history_engine); [apply run_all_reachable|..].
  - vm_compute. reflexivity.
  - apply list_elem_of_here.
  - vm_compute. reflexivity.
Defined.

Lemma nesting_bound_irrelevant_witness :
  let e := run_all [RDeploy mail_process] engine_new in
  ∃ e', @perform ascii_only no_scripts no_cron order_reader (@executor ascii_only no_scripts no_cron 7) (RStart 1 ∅) e = (Ok tt, e') ∧
    size (e_instances e') = 1.
Proof.
  intros e. eexists. split; [|].
  - eapply (@nesting_bound_irrelevant ascii_only no_scripts no_cron order_reader 2 5); [vm_compute; reflexivity|done].
  - reflexivity.
Defined.
