(* ===== verification/Startup.v ===== *)
(** * Restart

    engine-server/src/startup.rs ([StartupCoordinator]) and the restoring
    operations of engine-core/src/engine/mod.rs: a new engine is filled from a
    store.  The parser of BPMN XML, which is used when the store has no
    definitions, is the argument [parse_bpmn_xml]. *)

From stdpp Require Import base list gmap strings pretty sorting.
From S2P Require Import Prelude Text Float Json CondLexer CondParser CondEval Domain Token ProcessDef DataMappings MessageRouting Runtime History Graph Registry Index TopicIndex TimerIndex Engine Scripts Handlers Boundary Waits Hoare EventScope DefinitionOps Collections Persistence Executor Nesting EngineInv EngineSteps.
Local Open Scope rust_scope.

(** ** Restoring single records (engine/mod.rs) *)

Definition restore_instance (i : ProcessInstance) : M unit := modify (λ e, e <| e_instances ::= <[pi_id i := i]> |>).
Definition restore_user_task (p : PendingUserTask) : M unit := insert_user_task p.
Definition restore_service_task (p : PendingServiceTask) : M unit := insert_service_task p.
Definition restore_timer (p : PendingTimer) : M unit := insert_timer p.
Definition restore_message_catch (p : PendingMessageCatch) : M unit := insert_message_catch p.
Definition restore_signal_catch (p : PendingSignalCatch) : M unit := insert_signal_catch p.
Definition restore_conditional_catch (p : PendingConditionalCatch) : M unit := insert_conditional_catch p.

(** ** The coordinator *)

Record RestoreStats := mkStats {
  rs_definitions : nat;
  rs_instances : nat;
  rs_user_tasks : nat;
  rs_service_tasks : nat;
  rs_timers : nat;
  rs_message_catches : nat;
  rs_signal_catches : nat;
  rs_conditional_catches : nat;
}.

(** The XML texts of the server, by the text of the definition's key. *)
Definition DeployedXml : Type := gmap string string.

Fixpoint foldM {A B} (f : B → A → M B) (b : B) (l : list A) : M B :=
  match l with [] => mret b | x :: l => b ← f b x; foldM f b l end.

Section restore.
  Context {St : Type} {W : WorkflowPersistence St} {T : UuidText} (parse_bpmn_xml : string → EngineResult ProcessDefinition)
    (s : St).

(** [restore_definitions_from_json]: oldest versions first. *)
Definition definition_lt (d d' : ProcessDefinition) : bool :=
  String.ltb (def_id d) (def_id d') || (bool_decide (def_id d = def_id d') && (version d <? version d')%Z).
Definition restore_definition_json (xml : DeployedXml) (d : ProcessDefinition) : M DeployedXml :=
  restore_definitions [d] ;;
  mret (match load_bpmn_xml (pretty (def_key d)) s with
        | Ok text => <[pretty (def_key d) := text]> xml
        | Err _ => xml
        end).
Definition restore_definitions_from_json (xml : DeployedXml) (ds : list ProcessDefinition) : M (nat * DeployedXml) :=
  xml ← foldM restore_definition_json xml (sort_by definition_lt ds);
  mret (length ds, xml).

(** [restore_definitions_from_xml]: texts that cannot be loaded or parsed are
    skipped. *)
Definition restore_definition_xml (acc : nat * DeployedXml) (nats_key : string) : M (nat * DeployedXml) :=
  let '(count, xml) := acc in
  match load_bpmn_xml nats_key s with
  | Err _ => mret acc
  | Ok text =>
    match parse_bpmn_xml text with
    | Err _ => mret acc
    | Ok d =>
      let d := match parse_uuid nats_key with Ok old => d <| def_key := old |> | Err _ => d end in
      '(key, _) ← deploy d;
      mret (Datatypes.S count, <[pretty key := text]> xml)
    end
  end.
Definition restore_definitions_from_xml (xml : DeployedXml) : M (nat * DeployedXml) :=
  match list_bpmn_xml_ids s with
  | Ok ids => foldM restore_definition_xml (0, xml) ids
  | Err _ => mret (0, xml)
  end.

Definition coordinator_restore_definitions (xml : DeployedXml) : M (nat * DeployedXml) :=
  match stored_definitions s with
  | Ok (d :: ds) => restore_definitions_from_json xml (d :: ds)
  | _ => restore_definitions_from_xml xml
  end.

(** A collection: its members that were not deleted. *)
Definition restore_collection `{CollaborationReader} (acc : nat * DeployedXml) (c : DefinitionCollection)
    : M (nat * DeployedXml) :=
  restore_definition_collection c ;;
  mret (fold_left (λ '(count, xml) d,
    if existsb (λ k, bool_decide (k = def_key d)) (dc_deleted c) then (count, xml)
    else (Datatypes.S count, <[pretty (def_key d) := dc_xml c]> xml)) (dc_definitions c) acc).

(** [restore_instances] and its siblings: a list the store cannot give counts as
    empty. *)
Definition restore_records {A} (answer : EngineResult (list A)) (put : A → M unit) : M nat :=
  match answer with
  | Ok l => forM l put ;; mret (length l)
  | Err _ => mret 0
  end.
Definition restore_instances : M nat := restore_records (stored_instances s) restore_instance.
Definition restore_user_tasks : M nat := restore_records (list_user_tasks s) restore_user_task.
Definition restore_service_tasks : M nat := restore_records (list_service_tasks s) restore_service_task.
Definition restore_timers : M nat := restore_records (list_timers s) restore_timer.
Definition restore_message_catches : M nat := restore_records (list_message_catches s) restore_message_catch.
Definition restore_signal_catches : M nat := restore_records (list_signal_catches s) restore_signal_catch.
Definition restore_conditional_catches : M nat := restore_records (list_conditional_catches s) restore_conditional_catch.

(** [StartupCoordinator::restore] up to the reconciliation, and whole. *)
Definition load_all `{CollaborationReader} (xml : DeployedXml) : M (RestoreStats * DeployedXml) :=
  collections ← lift (list_definition_collections s);
  acc ← coordinator_restore_definitions xml;
  '(definitions, xml) ← foldM restore_collection acc collections;
  instances ← restore_instances;
  user_tasks ← restore_user_tasks;
  service_tasks ← restore_service_tasks;
  timers ← restore_timers;
  message_catches ← restore_message_catches;
  signal_catches ← restore_signal_catches;
  conditional_catches ← restore_conditional_catches;
  mret (mkStats definitions instances user_tasks service_tasks timers message_catches signal_catches conditional_catches, xml).
Definition restore `{CollaborationReader, Nested} (xml : DeployedXml) : M (RestoreStats * DeployedXml) :=
  r ← load_all xml;
  reconcile_event_subprocesses ;;
  mret r.
End restore.

(** ** Inserting all values of a map *)

Definition put {V} (id : V → Uuid) (v : V) (m : gmap Uuid V) : gmap Uuid V := <[id v := v]> m.
Lemma fold_insert_values {V} (id : V → Uuid) (m : gmap Uuid V) (l : list V) :
  keyed id m → l ≡ₚ (map_to_list m).*2 → fold_left (λ acc v, put id v acc) l ∅ = m.
Proof.
  intros Hk Hl. rewrite <- fold_left_rev_right. set (pairs := (λ v, (id v, v)) <$> rev l).
  trans (list_to_map pairs : gmap Uuid V).
  { unfold pairs. induction (rev l) as [|v k IH]; [done|]. cbn. by rewrite IH. }
  assert (pairs ≡ₚ map_to_list m) as Hp.
  { unfold pairs. rewrite <- Permutation_rev, Hl, <- list_fmap_compose. rewrite <- (list_fmap_id (map_to_list m)) at 2.
    erewrite list_fmap_ext; [done|]. intros n [k v] Hn. cbn. f_equal. apply Hk, elem_of_map_to_list.
    by eapply list_elem_of_lookup_2. }
  rewrite (list_to_map_proper pairs (map_to_list m)); [apply list_to_map_to_list| |done].
  rewrite Hp. apply NoDup_fst_map_to_list.
Qed.

Lemma fold_values {V} (id : V → Uuid) (m m' : gmap Uuid V) l :
  keyed id m' → m = m' → l ≡ₚ (map_to_list m).*2 → fold_left (λ acc v, put id v acc) l ∅ = m'.
Proof. intros Hk ->. by apply fold_insert_values. Qed.

(** Many updates of one field are one update. *)
Lemma forM_field {F A} (update : (F → F) → Engine → Engine) (g : A → F → F) l e :
  (∀ h h' e, update h (update h' e) = update (λ m, h (h' m)) e) → (∀ e, update (λ m, m) e = e) →
  forM l (λ x, modify (update (g x))) e = (Ok tt, update (λ m, fold_left (λ m x, g x m) l m) e).
Proof.
  intros Hcomp Hid. revert e. induction l as [|x l IH]; intros e; cbn [forM fold_left].
  - by rewrite Hid.
  - rewrite bind_run. cbn [modify]. by rewrite IH, Hcomp.
Qed.

Section indexed.
  Context {I K V : Type} {KE : EqDecision K} {IO : IndexOps I K} {IX : Index I K} {KV : Keyed V K}.

Lemma fold_store_insert (l : list V) (st : Store I V) :
  covers st →
  let st' := fold_left (λ st v, store_insert v st) l st in
  covers st' ∧ primary st' = fold_left (λ m v, <[entry_id v := v]> m) l (primary st).
Proof.
  revert st. induction l as [|v l IH]; intros st Hst; [done|]. cbn. apply (IH (store_insert v st)).
  by apply store_insert_covers.
Qed.
End indexed.

(** ** What a restart brings back *)

(** The store holds the definitions, the instances and the pending work of an engine. *)
Record mirrors (m : InMemoryPersistence) (e : Engine) : Prop := {
  mir_collections : m_collections m = ∅;
  mir_definitions : m_definitions m = e_definitions e;
  mir_xmls : m_definitions m = ∅ → m_bpmn_xmls m = ∅;
  mir_instances : m_instances m = e_instances e;
  mir_users : m_user_tasks m = e_user_tasks e;
  mir_services : m_service_tasks m = primary (e_service_tasks e);
  mir_timers : m_timers m = primary (e_timers e);
  mir_messages : m_message_catches m = e_message_catches e;
  mir_signals : m_signal_catches m = e_signal_catches e;
  mir_conditionals : m_conditional_catches m = e_conditional_catches e;
}.

(** The store answers every list of a restart, with what it holds. *)
Definition answers_with {A} (r : EngineResult (list A)) (l : list A) : Prop := ∃ k, r = Ok k ∧ k ≡ₚ l.
Record answers {St : Type} {W : WorkflowPersistence St} (s : St) (m : InMemoryPersistence) : Prop := {
  ans_collections : answers_with (list_definition_collections s) (map_to_list (m_collections m)).*2;
  ans_definitions : answers_with (stored_definitions s) (map_to_list (m_definitions m)).*2;
  ans_xml_ids : answers_with (list_bpmn_xml_ids s) (map_to_list (m_bpmn_xmls m)).*1;
  ans_instances : answers_with (stored_instances s) (map_to_list (m_instances m)).*2;
  ans_users : answers_with (list_user_tasks s) (map_to_list (m_user_tasks m)).*2;
  ans_services : answers_with (list_service_tasks s) (map_to_list (m_service_tasks m)).*2;
  ans_timers : answers_with (list_timers s) (map_to_list (m_timers m)).*2;
  ans_messages : answers_with (list_message_catches s) (map_to_list (m_message_catches m)).*2;
  ans_signals : answers_with (list_signal_catches s) (map_to_list (m_signal_catches m)).*2;
  ans_conditionals : answers_with (list_conditional_catches s) (map_to_list (m_conditional_catches m)).*2;
}.
Lemma memory_answers {T : UuidText} (m : InMemoryPersistence) : answers m m.
Proof. split; eexists; (split; [reflexivity|]); first [apply sort_by_perm|reflexivity]. Qed.

(** The same definitions, instances and pending work. *)
Definition same_work (e e' : Engine) : Prop :=
  e_definitions e = e_definitions e' ∧ e_instances e = e_instances e' ∧ e_user_tasks e = e_user_tasks e' ∧
  primary (e_service_tasks e) = primary (e_service_tasks e') ∧ primary (e_timers e) = primary (e_timers e') ∧
  e_message_catches e = e_message_catches e' ∧ e_signal_catches e = e_signal_catches e' ∧
  e_conditional_catches e = e_conditional_catches e'.

Lemma same_work_ok e1 e :
  same_work e1 e → covers (e_service_tasks e1) → covers (e_timers e1) → engine_ok e → engine_ok e1.
Proof.
  intros (_ & Hi & Hu & Hs & Ht & Hm & Hg & Hc) Hcs Hct []. split; rewrite ?Hi, ?Hu, ?Hs, ?Ht, ?Hm, ?Hg, ?Hc; by destruct_and?.
Qed.

Section restart.
  Context {St : Type} {W : WorkflowPersistence St} {T : UuidText} {CR : CollaborationReader}
    (parse_bpmn_xml : string → EngineResult ProcessDefinition) (s : St).

Lemma restore_records_run {F A} (update : (F → F) → Engine → Engine) (g : A → F → F) r l e :
  (∀ h h' e, update h (update h' e) = update (λ m, h (h' m)) e) → (∀ e, update (λ m, m) e = e) → r = Ok l →
  restore_records r (λ x, modify (update (g x))) e = (Ok (length l), update (λ m, fold_left (λ m x, g x m) l m) e).
Proof. intros ? ? ->. unfold restore_records. by rewrite bind_run, forM_field. Qed.

(** Loading the definitions one by one. *)
Lemma restore_json_run xml ds e :
  ∃ xml', foldM (restore_definition_json s) xml ds e =
    (Ok xml', e <| e_definitions ::= (λ reg, fold_left (λ reg d, <[def_key d := d]> reg) ds reg) |>).
Proof.
  revert xml e. induction ds as [|d ds IH]; intros xml e; cbn [foldM fold_left].
  - exists xml. by destruct e.
  - rewrite bind_run. unfold restore_definition_json at 1. rewrite bind_run. cbn [restore_definitions modify mret M_ret].
    destruct (IH (match load_bpmn_xml (pretty (def_key d)) s with Ok text => <[pretty (def_key d) := text]> xml | Err _ => xml end)
      (e <| e_definitions ::= (λ reg, insert_collection reg [d]) |>)) as [xml' ->].
    by exists xml'.
Qed.

Lemma restore_definitions_run (m : InMemoryPersistence) xml e :
  answers s m → keyed def_key (m_definitions m) → (m_definitions m = ∅ → m_bpmn_xmls m = ∅) → e_definitions e = ∅ →
  ∃ n xml', coordinator_restore_definitions parse_bpmn_xml s xml e = (Ok (n, xml'), e <| e_definitions := m_definitions m |>).
Proof.
  intros Ha Hk Hxml He. unfold coordinator_restore_definitions. destruct (ans_definitions s m Ha) as (ds0 & -> & Hds).
  destruct ds0 as [|d ds].
  - apply Permutation_nil_l in Hds. symmetry in Hds. apply fmap_nil_inv, map_to_list_empty_iff in Hds.
    unfold restore_definitions_from_xml. destruct (ans_xml_ids s m Ha) as (ids & -> & Hids).
    rewrite (Hxml Hds), map_to_list_empty in Hids. apply Permutation_nil_r in Hids as ->. rewrite Hds.
    eexists _, _. rewrite <- He. by destruct e.
  - unfold restore_definitions_from_json. rewrite bind_run.
    pose proof (sort_by_perm definition_lt (d :: ds)) as Hp. generalize dependent (sort_by definition_lt (d :: ds)). intros l Hp.
    destruct (restore_json_run xml l e) as [xml' ->]. eexists _, xml'. cbn [mret M_ret]. f_equal.
    assert (fold_left (λ reg d, <[def_key d := d]> reg) l ∅ = m_definitions m) as <-; [|by rewrite <- He; destruct e].
    apply fold_insert_values; [done|]. by rewrite Hp.
Qed.

Ltac restore_run field g :=
  intros; apply (restore_records_run (λ h, set_field field h) g); try done; by intros; lazymatch goal with e : Engine |- _ => destruct e end.
Lemma restore_instances_run l e : stored_instances s = Ok l →
  restore_instances s e = (Ok (length l), e <| e_instances ::= (λ acc, fold_left (λ acc x, put pi_id x acc) l acc) |>).
Proof. restore_run e_instances (put pi_id). Qed.
Lemma restore_user_tasks_run l e : list_user_tasks s = Ok l →
  restore_user_tasks s e = (Ok (length l), e <| e_user_tasks ::= (λ acc, fold_left (λ acc x, put ut_task_id x acc) l acc) |>).
Proof. restore_run e_user_tasks (put ut_task_id). Qed.
Lemma restore_service_tasks_run l e : list_service_tasks s = Ok l →
  restore_service_tasks s e = (Ok (length l), e <| e_service_tasks ::= (λ acc, fold_left (λ acc x, insert_pending_service_task x acc) l acc) |>).
Proof. restore_run e_service_tasks insert_pending_service_task. Qed.
Lemma restore_timers_run l e : list_timers s = Ok l →
  restore_timers s e = (Ok (length l), e <| e_timers ::= (λ acc, fold_left (λ acc x, insert_pending_timer x acc) l acc) |>).
Proof. restore_run e_timers insert_pending_timer. Qed.
Lemma restore_message_catches_run l e : list_message_catches s = Ok l →
  restore_message_catches s e = (Ok (length l), e <| e_message_catches ::= (λ acc, fold_left (λ acc x, put mc_id x acc) l acc) |>).
Proof. restore_run e_message_catches (put mc_id). Qed.
Lemma restore_signal_catches_run l e : list_signal_catches s = Ok l →
  restore_signal_catches s e = (Ok (length l), e <| e_signal_catches ::= (λ acc, fold_left (λ acc x, put sc_id x acc) l acc) |>).
Proof. restore_run e_signal_catches (put sc_id). Qed.
Lemma restore_conditional_catches_run l e : list_conditional_catches s = Ok l →
  restore_conditional_catches s e = (Ok (length l), e <| e_conditional_catches ::= (λ acc, fold_left (λ acc x, put cc_id x acc) l acc) |>).
Proof. restore_run e_conditional_catches (put cc_id). Qed.

Lemma load_all_run (m : InMemoryPersistence) (e : Engine) :
  engine_ok e → keyed def_key (e_definitions e) → answers s m → mirrors m e →
  ∃ stats xml e1, load_all parse_bpmn_xml s ∅ engine_new = (Ok (stats, xml), e1) ∧ same_work e1 e ∧ engine_ok e1.
Proof.
  intros He Hdefs Ha Hm. destruct Hm. unfold load_all. rewrite bind_run.
  destruct (ans_collections s m Ha) as (cs & -> & Hcs). rewrite mir_collections0, map_to_list_empty in Hcs.
  apply Permutation_nil_r in Hcs as ->. cbn [lift map_err].
  rewrite bind_run. destruct (restore_definitions_run m ∅ engine_new Ha) as (n & xml & ->); [by rewrite mir_definitions0|done..|].
  rewrite bind_run. cbn [foldM mret M_ret].
  destruct (ans_instances s m Ha) as (li & Hi & Pi), (ans_users s m Ha) as (lu & Hu & Pu),
    (ans_services s m Ha) as (ls & Hs & Ps), (ans_timers s m Ha) as (lt & Ht & Pt), (ans_messages s m Ha) as (lm & Hm & Pm),
    (ans_signals s m Ha) as (lg & Hg & Pg), (ans_conditionals s m Ha) as (lc & Hc & Pc).
  rewrite bind_run, (restore_instances_run _ _ Hi), bind_run, (restore_user_tasks_run _ _ Hu), bind_run,
    (restore_service_tasks_run _ _ Hs), bind_run, (restore_timers_run _ _ Ht), bind_run,
    (restore_message_catches_run _ _ Hm), bind_run, (restore_signal_catches_run _ _ Hg), bind_run,
    (restore_conditional_catches_run _ _ Hc). cbn [mret M_ret].
  eexists _, _, _. split; [reflexivity|]. pose proof He as [].
  destruct (fold_store_insert ls (e_service_tasks engine_new)) as [Hcs Hps];
    [apply consistent_covers, store_empty_consistent|].
  destruct (fold_store_insert lt (e_timers engine_new)) as [Hct Hpt];
    [apply consistent_covers, store_empty_consistent|].
  match goal with |- same_work ?e1 _ ∧ _ => assert (same_work e1 e) as Hw; [|split; [exact Hw|by eapply same_work_ok]] end.
  destruct_and!. unfold same_work. cbn. split_and!; [done| | |etrans; [apply Hps|]|etrans; [apply Hpt|]| | |].
  all: eapply fold_values; [|done|done].
  all: try done; intros k v Hv; first [by destruct (ok_instances k v Hv)|by eapply cov_id in Hv].
Qed.
End restart.


(** ** A concrete restart *)

Definition saved (e : Engine) : InMemoryPersistence :=
  mkMemory ∅ ∅ (e_instances e) (e_definitions e) (e_user_tasks e) (primary (e_service_tasks e)) (primary (e_timers e))
    (e_message_catches e) (e_signal_catches e) (e_conditional_catches e) ∅ ∅ ∅ ∅.
Definition no_xml (_ : string) : EngineResult ProcessDefinition := Err (InvalidDefinition "no process").

