(* ===== verification/HttpServer.v ===== *)
(** * The application state and its handlers' monad

    engine-server/src/server/state.rs and mod.rs: the state all REST handlers share,
    and how a handler runs: it calls the engine, the store and the cache of XML texts,
    and ends with a value or an error that becomes a response.  The saves the engine
    makes itself go through its trace ([RetryQueue]); only the calls a handler makes to
    the store are made here.  Then the start of the server in main.rs: the log, the store
    or the refusal to run without it, the restore, the settings; the layer of CORS and the
    paths of the metrics (observability.rs). *)

From stdpp Require Import base list gmap strings pretty.
From Stdlib Require Import Ascii.
From S2P Require Import Prelude Text TextSplit Json Domain Token ProcessDef Runtime Engine MessageRouting Collections Persistence Redact ModelCheck LogBuffer HttpState HttpAuth Startup.
Local Open Scope rust_scope.

Record AppState {St : Type} := mkApp {
  a_engine : Engine;
  a_persistence : option St;
  a_deployed_xml : DeployedXml;
  a_nats_url : string;
  a_log_buffer : InnerBuffer;
  a_storage_status : StorageStatus;
  a_require_nats : bool;
  a_max_upload_bytes : N;
  a_max_xml_bytes : N;
  a_gate : Gate;
  a_cors_origins : list string;
  a_model_checker : ModelChecker;
}.
Arguments AppState : clear implicits.
Arguments mkApp {St} _ _ _ _ _ _ _ _ _ _ _ _.
#[export] Instance AppState_settable {St} : Settable (AppState St) := λ r,
  mkApp (a_engine r) (a_persistence r) (a_deployed_xml r) (a_nats_url r) (a_log_buffer r) (a_storage_status r)
    (a_require_nats r) (a_max_upload_bytes r) (a_max_xml_bytes r) (a_gate r) (a_cors_origins r) (a_model_checker r).

(** Settings of a server; those not given come from the environment. *)
Record ServerConfig := mkServerConfig {
  sc_gate : AppBuildConfig;
  sc_require_nats : option bool;
  sc_max_upload_bytes : option N;
  sc_max_xml_bytes : option N;
  sc_cors_origins : option (list string);
  sc_storage_status : option StorageStatus;
  sc_nats_url : option string;
  sc_model_check : option ModelCheckMode;
  sc_model_check_timeout_ms : option N;
}.
(** [build_app_with_config] up to the router. *)
Definition build_state {St} (env : string → option string) (engine : Engine) (persistence : option St) (xml_cache : DeployedXml)
    (log : InnerBuffer) (config : ServerConfig) : AppState St :=
  mkApp engine persistence xml_cache
    (redact_nats_url (default (default "nats://localhost:4222" (env "NATS_URL")) (sc_nats_url config)))
    log
    (default (storage_inferred (bool_decide (is_Some persistence))) (sc_storage_status config))
    (default (parse_require_nats (env "REQUIRE_NATS")) (sc_require_nats config))
    (default (parse_positive_usize (env "MAX_UPLOAD_BYTES") DEFAULT_MAX_UPLOAD_BYTES) (sc_max_upload_bytes config))
    (default (parse_positive_usize (env "MAX_XML_BYTES") MAX_XML_BYTES) (sc_max_xml_bytes config))
    (build_gate env (sc_gate config))
    (match sc_cors_origins config with
     | Some [] => DEFAULT_CORS_ORIGINS
     | Some origins => origins
     | None => parse_cors_origins (env "CORS_ORIGINS")
     end)
    (checker_new (default (mode_parse (env "MODEL_CHECK")) (sc_model_check config))
       (default (parse_timeout_ms (env "MODEL_CHECK_TIMEOUT_MS")) (sc_model_check_timeout_ms config))).

(** ** Handlers *)

(** A handler returns an error, or the engine did not return. *)
Inductive HttpFault := Refused (err : AppError) | Crashed (f : Fault).
Coercion Refused : AppError >-> HttpFault.
Definition Hd (St A : Type) : Type := AppState St → result HttpFault A * AppState St.
#[export] Instance Hd_ret {St} : MRet (Hd St) := λ A a s, (Ok a, s).
#[export] Instance Hd_bind {St} : MBind (Hd St) := λ A B k m s,
  match m s with (Ok a, s) => k a s | (Err e, s) => (Err e, s) end.

Section handlers.
  Context {St : Type}.

Definition refuse {A} (err : AppError) : Hd St A := λ s, (Err (Refused err), s).
Definition app_gets {A} (f : AppState St → A) : Hd St A := λ s, (Ok (f s), s).
Definition app_modify (f : AppState St → AppState St) : Hd St unit := λ s, (Ok tt, f s).
Definition app_lift {A} (r : result AppError A) : Hd St A := λ s, (map_err Refused r, s).
(** [state.engine.operation(..).await?]. *)
Definition http_fault (f : Fault) : HttpFault := match f with Throws err => Refused (EngineFailed err) | _ => Crashed f end.
Definition on_engine {A} (m : M A) : Hd St A := λ s,
  let '(r, e) := m (a_engine s) in (map_err http_fault r, s <| a_engine := e |>).
(** A read of the engine that fails only with an error of its own. *)
Definition engine_reads {A} (f : Engine → EngineResult A) : Hd St A := λ s, (map_err (λ e, Refused (EngineFailed e)) (f (a_engine s)), s).
(** [if let Some(persistence) = &state.persistence { persistence.write(..).await }]. *)
Definition on_store (w : Write St) : Hd St (option (EngineResult unit)) := λ s,
  match a_persistence s with
  | Some store => let '(r, store) := w store in (Ok (Some r), s <| a_persistence := Some store |>)
  | None => (Ok None, s)
  end.
Definition store_reads {A} (f : Read St A) : Hd St (option (EngineResult A)) := app_gets (λ s, f <$> a_persistence s).

(** A path segment as an id. *)
Definition path_uuid `{UuidText} (raw : string) : Hd St Uuid := app_lift (parse_path_uuid raw).
End handlers.

(** The text [Debug] prints for an engine error, which messages quote. *)
Class DebugText := { debug_error : EngineError → string }.

Lemma hd_bind_run {St A B} (m : Hd St A) (k : A → Hd St B) s :
  (m ≫= k) s = match m s with (Ok a, s') => k a s' | (Err e, s') => (Err e, s') end.
Proof. done. Qed.

(** ** The start of the server (main.rs) *)

(** [HeaderValue::from_str] of the http crate: the value has the text it was made of. *)
Class HeaderLib := {
  header_from_str : string → option string;
  header_from_str_text s v : header_from_str s = Some v → v = s;
}.
(** [build_cors_layer]: any origin, or those of a list. *)
Inductive AllowOrigin := AnyOrigin | Origins (values : list string).
Record CorsLayer := mkCors { cl_origin : AllowOrigin; cl_methods : list Method; cl_headers : list string }.
Definition build_cors_layer `{HeaderLib} (origins : list string) : CorsLayer :=
  let values := omap header_from_str origins in
  mkCors
    (if existsb (String.eqb "*") origins then AnyOrigin
     else Origins (match values with [] => omap header_from_str DEFAULT_CORS_ORIGINS | _ => values end))
    [GET; POST; PUT; DELETE; OPTIONS] ["authorization"; "content-type"; "accept"; "x-api-key"].

(** [normalize_path] of observability.rs: ids are not part of a metric's name. *)
Definition is_id_segment (seg : list char) : bool :=
  ((String.length (of_chars seg) =? 36) && (length (List.filter (N.eqb 45) seg) =? 4))
  || (negb (bool_decide (seg = [])) && forallb is_ascii_digit seg).
Definition normalize_path (path : string) : string :=
  of_chars (join_on (ch "/") ((λ seg, if is_id_segment seg then chars "{id}" else seg) <$> split_on (ch "/") (chars path))).

(** Why the server does not start: a message, or the engine did not return. *)
Inductive StartFailure := Refuses (msg : string) | Breaks (f : Fault).
Definition start_failure (f : Fault) : StartFailure := match f with Throws err => Refuses (error_text err) | _ => Breaks f end.

Section start.
  Context {CR : CollaborationReader} {R : Nested} {UT : UuidText} {LJ : LogJson} {St : Type} {W : WorkflowPersistence St}.
  Context (parse_bpmn_xml : string → EngineResult ProcessDefinition) (env : string → option string).

Definition start_log_buffer (file : LogFile) : InnerBuffer :=
  if eq_ignore_ascii_case (default "engine_logs.jsonl" (env "LOG_FILE")) "off" then buffer_new else new_with_persistence file.
Definition start_host : string := bind_addr_from_env (env "BIND_ADDR") (env "BIND_ADDRESS").
Definition start_address : string := start_host +:+ ":" +:+ default "8081" (env "PORT").
Definition start_config (status : StorageStatus) : ServerConfig :=
  mkServerConfig (mkBuildConfig None None (Some start_host) None) None None None None (Some status) None None None.
Definition refuses_start (cause : string) : string :=
  "NATS/JetStream bootstrap failed at " +:+ redact_nats_url (default "nats://localhost:4222" (env "NATS_URL"))
  +:+ " and REQUIRE_NATS is enabled (default) — refusing to start with in-memory fallback. Set REQUIRE_NATS=false for ephemeral local runs. Error: "
  +:+ cause.
(** [main] up to the listener; [connected] is the store with the summary of its
    bootstrap, [recent] the log entries of NATS. *)
Definition start_server (connected : result string (St * string)) (recent : list LogEntry) (file : LogFile)
    : result StartFailure (AppState St) :=
  let log := start_log_buffer file in
  match connected with
  | Ok (store, summary) =>
    match restore parse_bpmn_xml store ∅ engine_new with
    | (Ok (_, xml), e) =>
      Ok (build_state env e (Some store) xml (attach_nats_sink recent log).1 (start_config (mkStatus StorageReady summary)))
    | (Err f, _) => Err (start_failure f)
    end
  | Err cause =>
    if parse_require_nats (env "REQUIRE_NATS") then Err (Refuses (refuses_start cause))
    else Ok (build_state env engine_new None ∅ log (start_config (mkStatus StorageFailed cause)))
  end.

(** A server that starts has its store, unless the operator gave up durability; then it
    says so. *)
Lemma started_storage connected recent file s :
  start_server connected recent file = Ok s →
  (∃ store summary, connected = Ok (store, summary) ∧ a_persistence s = Some store ∧ storage_state (a_storage_status s) = StorageReady) ∨
  (parse_require_nats (env "REQUIRE_NATS") = false ∧ a_persistence s = None ∧ storage_state (a_storage_status s) = StorageFailed).
Proof.
  unfold start_server. destruct connected as [[store summary]|cause].
  - destruct (restore _ _ _ _) as [[[stats xml]|f] e]; [|done]. intros [= <-]. left. by exists store, summary.
  - destruct (parse_require_nats _); [done|]. intros [= <-]. by right.
Qed.
(** The settings of a start are those of the environment, and the gate looks at the
    address the server listens on. *)
Lemma started_gate connected recent file s :
  start_server connected recent file = Ok s → a_gate s = build_gate env (mkBuildConfig None None (Some start_host) None).
Proof.
  unfold start_server. destruct connected as [[store summary]|cause].
  - destruct (restore _ _ _ _) as [[[stats xml]|f] e]; [|done]. by intros [= <-].
  - destruct (parse_require_nats _); [done|]. by intros [= <-].
Qed.
End start.

(** A path in a metric has no id, and normalizing it again changes nothing. *)
Lemma normalized_segments path seg :
  seg ∈ ((λ seg, if is_id_segment seg then chars "{id}" else seg) <$> split_on (ch "/") (chars path)) → is_id_segment seg = false.
Proof. intros (x & -> & _)%list_elem_of_fmap. destruct (is_id_segment x) eqn:Hx; [by vm_compute|done]. Qed.

(** ** A server for examples *)

Definition plain_debug : DebugText := {| debug_error := error_text |}.
Definition default_server : ServerConfig := mkServerConfig HttpAuth.default_config None None None None None None None None.
Definition example_server {St} (e : Engine) (store : option St) : AppState St :=
  build_state (λ _, None) e store ∅ buffer_new default_server.
