(* ===== verification/CondGrammar.v ===== *)
(** * Condition language: the parser is total and inverts the printer

    First part: on every token stream the lexer can produce, the parser of
    [CondParser] returns an expression or one of the source's syntax errors;
    the loop and nesting bounds are never reached.  Second part: [emit] prints
    an expression with the parentheses its precedence level needs, and parsing
    the printed tokens gives the expression back.  This fixes the precedence
    and the associativity of every operator. *)

From stdpp Require Import base list numbers strings.
From Stdlib Require Import SpecFloat.
From S2P Require Import Prelude Text Float Json CondLexer CondParser.
Local Open Scope rust_scope.

(** ** Totality *)

(** A stream that ends in its only [Eof]. *)
Fixpoint ends_eof (ts : tokens) : Prop :=
  match ts with
  | [] => False
  | t :: rest => match rest with [] => kind t = TEof | _ => kind t ≠ TEof ∧ ends_eof rest end
  end.

Lemma stream_ok_ends_eof lo hi ts : stream_ok lo hi ts → ends_eof ts.
Proof.
  revert lo. induction ts as [|t [|t' ts] IH]; intros lo; [done|by intros [? _]|].
  intros (? & _ & _ & H). split; [done|]. by eapply IH.
Qed.

Lemma advance_ends_eof ts :
  ends_eof ts → peek_kind ts ≠ TEof → ends_eof (advance ts) ∧ S (length (advance ts)) = length ts.
Proof. destruct ts as [|t [|t' ts]]; [done|done|]. by intros [_ ?] _. Qed.

Lemma ends_eof_length ts : ends_eof ts → 0 < length ts.
Proof. destruct ts; simpl; [done|lia]. Qed.

(** What a parser does on a stream of at most [n] tokens: it leaves a shorter
    stream, or reports an error of the source. *)
Definition outcome (n : nat) (r : Lex (Expr * tokens)) : Prop :=
  match r with
  | Ok (_, ts') => ends_eof ts' ∧ length ts' < n
  | Err e => real_error e
  end.

Definition good (bound : nat) (p : Parse) : Prop :=
  ∀ ts, ends_eof ts → length ts ≤ bound → outcome (length ts) (p ts).

Lemma outcome_bind n m (r : Lex (Expr * tokens)) k :
  outcome n r →
  (∀ e ts', ends_eof ts' → length ts' < n → outcome m (k (e, ts'))) →
  outcome m (result_bind r k).
Proof. destruct r as [[e ts']|e]; simpl; [intros [? ?]; eauto|done]. Qed.

Lemma outcome_weaken n m r : n ≤ m → outcome n r → outcome m r.
Proof. destruct r as [[e ts']|e]; simpl; [|done]. intuition lia. Qed.

(** Step over a token known not to be [Eof]. *)
Ltac step_token ts :=
  let Hadv := fresh "Hadv" in
  match goal with
  | Hk : peek_kind ts = _, He : ends_eof ts |- _ =>
    destruct (advance_ends_eof ts He) as [? Hadv]; [by rewrite Hk|]
  end.

Section loops.
  Variable bound : nat.

Lemma binary_loop_good op operand :
  good bound operand → op TEof = None →
  ∀ fuel lhs ts, ends_eof ts → length ts ≤ bound → length ts ≤ fuel →
  outcome (S (length ts)) (binary_loop op operand fuel lhs ts).
Proof.
  intros Hop Heof. induction fuel as [|fuel IH]; intros lhs ts He Hb Hf.
  { apply ends_eof_length in He. lia. }
  simpl. destruct (op (peek_kind ts)) as [mk|] eqn:Hk; [|simpl; split; [done|lia]].
  destruct (advance_ends_eof ts He) as [Ha Hl]; [congruence|].
  eapply outcome_bind; [apply Hop; [done|lia]|]. intros e ts' He' Hl'.
  eapply outcome_weaken; [|apply IH; [done|lia..]]. lia.
Qed.

Lemma path_loop_good fuel segments ts :
  ends_eof ts → length ts ≤ fuel → outcome (S (length ts)) (path_loop fuel segments ts).
Proof.
  revert segments ts. induction fuel as [|fuel IH]; intros segments ts He Hf.
  { apply ends_eof_length in He. lia. }
  simpl. destruct (peek_kind ts) eqn:Hk; try (simpl; split; [done|lia]).
  - step_token ts. destruct (peek_kind (advance ts)) eqn:Hk2; try done.
    destruct (index_in_range _); [|done]. step_token (advance ts).
    destruct (peek_kind (advance (advance ts))) eqn:Hk3; try done.
    step_token (advance (advance ts)).
    eapply outcome_weaken; [|apply IH; [done|lia]]. lia.
  - step_token ts. destruct (peek_kind (advance ts)) eqn:Hk2; try done.
    step_token (advance ts).
    eapply outcome_weaken; [|apply IH; [done|lia]]. lia.
Qed.

Section levels_good.
  Variable limit : nat.
  Hypothesis Hlimit : bound ≤ limit.
  Variable primary : Parse.
  Hypothesis Hprimary : good bound primary.

Lemma parse_unary_good : good bound (parse_unary limit primary).
Proof.
  intros ts He Hb. unfold parse_unary.
  assert (∀ fuel ts, ends_eof ts → length ts ≤ bound → length ts ≤ fuel →
    outcome (length ts) (unary_loop primary fuel ts)) as H; [|apply H; [done|lia..]].
  clear ts He Hb. induction fuel as [|fuel IH]; intros ts He Hb Hf.
  { apply ends_eof_length in He. lia. }
  simpl. destruct (peek_kind ts) eqn:Hk; try (by apply Hprimary).
  step_token ts. eapply outcome_bind; [apply IH; [done|lia..]|].
  intros e ts' ? ?. simpl. split; [done|lia].
Qed.

Lemma chain_good op p :
  good bound p → op TEof = None →
  good bound (λ ts, '(lhs, ts1) ←? p ts; binary_loop op p limit lhs ts1).
Proof.
  intros Hp Ho ts He Hb. eapply outcome_bind; [by apply Hp|]. intros e ts' He' Hl.
  eapply outcome_weaken; [|apply binary_loop_good; [done|done|done|lia..]]. lia.
Qed.

Lemma parse_additive_good : good bound (parse_additive limit primary).
Proof. apply chain_good; [|done]. apply chain_good; [|done]. apply parse_unary_good. Qed.

Lemma parse_comparison_good : good bound (parse_comparison limit primary).
Proof.
  intros ts He Hb. eapply outcome_bind; [by apply parse_additive_good|]. intros e ts' He' Hl.
  destruct (cmp_op (peek_kind ts')) as [op|] eqn:Hk; [|simpl; split; [done|lia]].
  destruct (advance_ends_eof ts' He') as [Ha Hla]; [intros Hq; by rewrite Hq in Hk|].
  eapply outcome_bind; [apply parse_additive_good; [done|lia]|].
  intros e2 ts2 ? ?. simpl. split; [done|lia].
Qed.

Lemma parse_not_good : good bound (parse_not limit primary).
Proof.
  intros ts He Hb. unfold parse_not.
  assert (∀ fuel ts, ends_eof ts → length ts ≤ bound → length ts ≤ fuel →
    outcome (length ts) (not_loop limit primary fuel ts)) as H; [|apply H; [done|lia..]].
  clear ts He Hb. induction fuel as [|fuel IH]; intros ts He Hb Hf.
  { apply ends_eof_length in He. lia. }
  simpl. destruct (peek_kind ts) eqn:Hk; try (by apply parse_comparison_good).
  step_token ts. eapply outcome_bind; [apply IH; [done|lia..]|].
  intros e ts' ? ?. simpl. split; [done|lia].
Qed.

Lemma parse_or_good : good bound (parse_or limit primary).
Proof. apply chain_good; [|done]. apply chain_good; [|done]. apply parse_not_good. Qed.

End levels_good.
End loops.

Lemma parse_primary_good limit depth bound :
  bound ≤ limit → bound ≤ depth → good bound (parse_primary limit depth).
Proof.
  revert bound. induction depth as [|depth IH]; intros bound Hlim Hd ts He Hb.
  { apply ends_eof_length in He. lia. }
  simpl. change (kind (peek ts)) with (peek_kind ts).
  destruct (peek_kind ts) eqn:Hk; try done; step_token ts; try (simpl; split; [done|lia]).
  - eapply outcome_weaken; [|apply path_loop_good; [done|lia]]. lia.
  - eapply outcome_bind.
    { apply (parse_or_good (bound - 1)); [lia|apply IH; lia|done|lia]. }
    intros e ts' He' Hl'. destruct (peek_kind ts') eqn:Hk'; try done.
    step_token ts'. simpl. split; [done|lia].
Qed.

Lemma parse_ends_eof ts :
  ends_eof ts → match parse ts with Ok _ => True | Err e => real_error e end.
Proof.
  intros He. unfold parse. set (b := S (length ts)).
  pose proof (parse_or_good b b (le_n _) (parse_primary b b)
    (parse_primary_good b b b (le_n _) (le_n _)) ts He ltac:(lia)) as H.
  destruct (parse_or _ _ ts) as [[e ts']|e]; simpl; [|done]. by destruct (peek_kind ts').
Qed.

Section parse_total.
  Context {U : UnicodeData}.

(** [parse_condition] terminates on every text with an expression or one of the
    syntax errors of the source: neither the iteration bound nor the nesting
    bound of the parser is ever reached. *)
Theorem parse_total (expr : string) :
  match parse_condition expr with
  | Ok _ => True
  | Err e => real_error e
  end.
Proof.
  unfold parse_condition.
  destruct (prepare expr) as [[cs base]|e] eqn:Hp; simpl.
  - pose proof (tokenize_total cs base) as Ht. destruct (tokenize cs base) as [ts|e]; simpl; [|done].
    apply parse_ends_eof. by eapply stream_ok_ends_eof.
  - unfold prepare in Hp. destruct (split_leading_ws _) as [n [|c r]]; [by simplify_eq|].
    repeat case_match; by simplify_eq.
Qed.

End parse_total.

(** ** The printer *)

(** Precedence of an expression's outermost operator, 1 (loosest) to 8. *)
Definition prec (e : Expr) : nat :=
  match e with
  | Or _ _ => 1 | And _ _ => 2 | Not _ => 3 | Compare _ _ _ => 4
  | Arith (AAdd | ASub) _ _ => 5 | Arith _ _ _ => 6 | Neg _ => 7
  | Literal _ | Path _ => 8
  end.

Definition cmp_token (op : CmpOp) : TokenKind :=
  match op with CEq => TEq | CNe => TNe | CGt => TGt | CLt => TLt | CGe => TGe | CLe => TLe end.
Definition arith_token (op : ArithOp) : TokenKind :=
  match op with AAdd => TPlus | ASub => TMinus | AMul => TStar | ADiv => TSlash | ARem => TPercent end.
Definition literal_tokens (v : EvalValue) : list TokenKind :=
  match v with
  | ENumber n => [TNumber n] | EString s => [TStr s] | EBool true => [TTrue]
  | EBool false => [TFalse] | ENull => [TNull] | _ => []
  end.
Definition segment_tokens (s : PathSegment) : list TokenKind :=
  match s with
  | Field n => [TDot; TIdent n]
  | Index i => [TLBracket; TNumber (f64_of_Z i); TRBracket]
  end.

Definition paren (b : bool) (ks : list TokenKind) : list TokenKind :=
  if b then TLParen :: ks ++ [TRParen] else ks.

(** The tokens of an expression; an operand is parenthesised when it binds
    looser than its position. *)
Fixpoint body (e : Expr) : list TokenKind :=
  let sub q a := paren (prec a <? q) (body a) in
  match e with
  | Or a b => sub 1 a ++ TOr :: sub 2 b
  | And a b => sub 2 a ++ TAnd :: sub 3 b
  | Not a => TNot :: sub 3 a
  | Compare op a b => sub 5 a ++ cmp_token op :: sub 5 b
  | Arith op a b => sub (prec e) a ++ arith_token op :: sub (S (prec e)) b
  | Neg a => TMinus :: sub 7 a
  | Literal v => literal_tokens v
  | Path (Field root :: segs) => TIdent root :: flat_map segment_tokens segs
  | Path _ => []
  end.
Definition emit (q : nat) (e : Expr) : list TokenKind := paren (prec e <? q) (body e).

(** What the printer can write: no undefined or JSON literal, a path with a
    root, and indices the lexer's numbers represent exactly. *)
Definition segment_printable (s : PathSegment) : bool :=
  match s with
  | Field _ => true
  | Index i => index_in_range (f64_of_Z i) && (f64_as_usize (f64_of_Z i) =? i)%Z
  end.
Fixpoint printable (e : Expr) : bool :=
  match e with
  | Literal (EUndefined | EJson _) => false
  | Literal _ => true
  | Path (Field _ :: segs) => forallb segment_printable segs
  | Path _ => false
  | Not a | Neg a => printable a
  | And a b | Or a b | Compare _ a b | Arith _ a b => printable a && printable b
  end.

(** ** Reading printed tokens back *)

(** The level at which a token continues an expression, 0 for none. *)
Definition tok_level (k : TokenKind) : nat :=
  match k with
  | TOr => 1 | TAnd => 2
  | TEq | TNe | TGt | TLt | TGe | TLe => 4
  | TPlus | TMinus => 5
  | TStar | TSlash | TPercent => 6
  | TDot | TLBracket => 8
  | _ => 0
  end.
Definition next_level (ts : tokens) : nat := tok_level (peek_kind ts).

(** [rest] may follow a complete operand of level [q]: only a loop of level
    [q] itself can take its first token. *)
Definition follows (q : nat) (rest : tokens) : Prop :=
  rest ≠ [] ∧ next_level rest ≤ q ∧ next_level rest ≠ 8 ∧ (q = 4 → next_level rest ≠ 4).

(** A stream whose first token may start an operand of level [q]. *)
Definition starts (q : nat) (ts : tokens) : Prop :=
  (4 ≤ q → peek_kind ts ≠ TNot) ∧ (8 ≤ q → peek_kind ts ≠ TMinus).

Section reads.
  Variable limit depth : nat.
Let primary := parse_primary limit depth.

(** The parser of level [p] turns [ts] into [e] and leaves [rest]; at the
    levels with a loop, it is in the loop with left operand [e]. *)
Definition reads (p : nat) (e : Expr) (ts rest : tokens) : Prop :=
  match p with
  | 1 => ∃ fuel, length rest ≤ fuel ∧
      parse_or limit primary ts = binary_loop or_op (parse_and limit primary) fuel e rest
  | 2 => ∃ fuel, length rest ≤ fuel ∧
      parse_and limit primary ts = binary_loop and_op (parse_not limit primary) fuel e rest
  | 3 => ∀ fuel, length ts ≤ fuel → not_loop limit primary fuel ts = Ok (e, rest)
  | 4 => parse_comparison limit primary ts = Ok (e, rest)
  | 5 => ∃ fuel, length rest ≤ fuel ∧
      parse_additive limit primary ts = binary_loop add_op (parse_multiplicative limit primary) fuel e rest
  | 6 => ∃ fuel, length rest ≤ fuel ∧
      parse_multiplicative limit primary ts = binary_loop mul_op (parse_unary limit primary) fuel e rest
  | 7 => ∀ fuel, length ts ≤ fuel → unary_loop primary fuel ts = Ok (e, rest)
  | 8 => primary ts = Ok (e, rest)
  | _ => False
  end.

Lemma loop_stops op p fuel e rest :
  op (peek_kind rest) = None → rest ≠ [] → length rest ≤ fuel →
  binary_loop op p fuel e rest = Ok (e, rest).
Proof.
  intros Hop Hne Hf. destruct fuel as [|fuel].
  - destruct rest; simpl in *; [done|lia].
  - simpl. by rewrite Hop.
Qed.

(** Reading at level [p + 1] is reading at level [p] when the next token does
    not continue the expression at level [p + 1]. *)
Lemma reads_lower p e ts rest :
  reads (S p) e ts rest → 1 ≤ p → follows p rest →
  length ts ≤ limit → length rest ≤ limit → ts ≠ [] → starts (S p) ts → reads p e ts rest.
Proof.
  intros H Hp (Hne & Hl & H8 & H4) Hts Hrest Htne [Hn Hm]. unfold next_level in *.
  assert (0 < length ts) as Hpos by (destruct ts; simpl; [done|lia]).
  destruct p as [|[|[|[|[|[|[|[|p]]]]]]]]; try lia; try done; unfold reads in H |- *.
  - destruct H as (fuel & Hf & H). rewrite loop_stops in H; [|by destruct (peek_kind rest); simpl in *; try lia|done..].
    exists limit. split; [done|]. unfold parse_or. by rewrite H.
  - exists limit. split; [done|]. unfold parse_and, parse_not. by rewrite H.
  - intros [|fuel] Hf; [lia|]. cbn [not_loop].
    specialize (Hn ltac:(lia)). destruct (peek_kind ts); done.
  - destruct H as (fuel & Hf & H). rewrite loop_stops in H; [|by destruct (peek_kind rest); simpl in *; try lia|done..].
    unfold parse_comparison. rewrite H. simpl.
    specialize (H4 eq_refl). destruct (peek_kind rest); simpl in *; done.
  - destruct H as (fuel & Hf & H). rewrite loop_stops in H; [|by destruct (peek_kind rest); simpl in *; try lia|done..].
    exists limit. split; [done|]. unfold parse_additive. by rewrite H.
  - exists limit. split; [done|]. unfold parse_multiplicative, parse_unary. by rewrite H.
  - intros [|fuel] Hf; [lia|]. cbn [unary_loop].
    specialize (Hm ltac:(lia)). destruct (peek_kind ts); done.
Qed.

Lemma reads_lower_to p q e ts rest :
  reads p e ts rest → 1 ≤ q → q ≤ p → (∀ r, q ≤ r → r < p → follows r rest) →
  length ts ≤ limit → length rest ≤ limit → ts ≠ [] → starts p ts → reads q e ts rest.
Proof.
  intros H H1 Hq Hl Hts Hrest Htne Hs. induction Hq as [|p Hq IH]; [done|].
  apply IH; [|intros; apply Hl; lia|destruct Hs; split; intros; auto with lia].
  apply reads_lower; auto with lia.
Qed.

(** At the loop levels, a loop that meets nothing to continue returns. *)
Lemma reads_done p e ts rest :
  reads p e ts rest → next_level rest < p → rest ≠ [] →
  match p with
  | 1 => parse_or limit primary ts = Ok (e, rest)
  | 2 => parse_and limit primary ts = Ok (e, rest)
  | 5 => parse_additive limit primary ts = Ok (e, rest)
  | 6 => parse_multiplicative limit primary ts = Ok (e, rest)
  | _ => True
  end.
Proof.
  intros H Hl Hne. unfold next_level in Hl.
  destruct p as [|[|[|[|[|[|[|p]]]]]]]; try done; destruct H as (fuel & Hf & ->);
    (apply loop_stops; [|done..]); destruct (peek_kind rest); simpl in *; try done; lia.
Qed.

End reads.

Lemma follows_mono q r rest : follows q rest → q ≤ r → follows r rest.
Proof. intros (? & ? & ? & ?) ?. repeat split; try done; intros; destruct (decide (q = 4)); lia. Qed.

Lemma follows_end q t rest : tok_level (kind t) = 0 → follows q (t :: rest).
Proof. intros Ht. unfold follows, next_level, peek_kind. simpl. rewrite Ht. split_and!; [done|lia..]. Qed.

Lemma advance_cons t ts : ts ≠ [] → advance (t :: ts) = ts.
Proof. by destruct ts. Qed.

Lemma body_starts e :
  printable e = true →
  ∃ k ks, body e = k :: ks ∧ (4 ≤ prec e → k ≠ TNot) ∧ (8 ≤ prec e → k ≠ TMinus).
Proof.
  assert (∀ q a ks, (printable a = true → ∃ k ks, body a = k :: ks ∧ (4 ≤ prec a → k ≠ TNot)
      ∧ (8 ≤ prec a → k ≠ TMinus)) → printable a = true →
    ∃ k ks', paren (prec a <? q) (body a) ++ ks = k :: ks' ∧ (4 ≤ q → k ≠ TNot) ∧ (8 ≤ q → k ≠ TMinus))
    as Hsub.
  { intros q a ks Ha Hp. destruct (Ha Hp) as (k & ks' & -> & ? & ?).
    destruct (Nat.ltb_spec (prec a) q); simpl; eexists _, _; (split; [done|]); split; intros;
      first [done | eauto with lia]. }
  induction e as [v|segs|a IHa|a IHa|a IHa b IHb|a IHa b IHb|op a IHa b IHb|op a IHa b IHb];
    cbn [printable body]; intros Hp.
  - destruct v as [| |[]| | |]; try done; simpl; eauto 10.
  - destruct segs as [|[n|i] segs]; try done. eauto 10.
  - exists TNot. eexists. split; [done|]. simpl. split; lia.
  - exists TMinus. eexists. split; [done|]. simpl. split; [done|lia].
  - apply andb_prop in Hp as [Ha Hb]. destruct (Hsub 2 a (TAnd :: paren (prec b <? 3) (body b)) IHa Ha)
      as (k & ks & -> & _). exists k, ks. split; [done|]. simpl. split; lia.
  - apply andb_prop in Hp as [Ha Hb]. destruct (Hsub 1 a (TOr :: paren (prec b <? 2) (body b)) IHa Ha)
      as (k & ks & -> & _). exists k, ks. split; [done|]. simpl. split; lia.
  - apply andb_prop in Hp as [Ha Hb]. destruct (Hsub 5 a (cmp_token op :: paren (prec b <? 5) (body b)) IHa Ha)
      as (k & ks & -> & Hk & _). exists k, ks. split; [done|]. simpl. split; [auto with lia|lia].
  - apply andb_prop in Hp as [Ha Hb].
    destruct (Hsub (prec (Arith op a b)) a (arith_token op :: paren (prec b <? S (prec (Arith op a b))) (body b)) IHa Ha)
      as (k & ks & -> & Hk & Hk'). exists k, ks. by split.
Qed.

Lemma emit_starts q e (ts1 rest : tokens) :
  printable e = true → map kind ts1 = emit q e → ts1 ++ rest ≠ [] ∧ starts q (ts1 ++ rest).
Proof.
  intros Hp Hk. destruct (body_starts e Hp) as (k & ks & Hb & H1 & H2).
  unfold emit in Hk. destruct ts1 as [|t ts1].
  { rewrite Hb in Hk. by destruct (prec e <? q). }
  split; [done|]. unfold starts, peek_kind. simpl. rewrite Hb in Hk.
  destruct (Nat.ltb_spec (prec e) q); simpl in Hk; injection Hk as Hk _; rewrite Hk; [done|].
  split; intros; eauto with lia.
Qed.

Lemma path_loop_reads segs fuel acc (ts1 rest : tokens) :
  forallb segment_printable segs = true → map kind ts1 = flat_map segment_tokens segs →
  rest ≠ [] → next_level rest ≠ 8 → length (ts1 ++ rest) ≤ fuel →
  path_loop fuel acc (ts1 ++ rest) = Ok (Path (acc ++ segs), rest).
Proof.
  intros Hp Hk Hne H8. revert fuel acc ts1 Hk Hp.
  induction segs as [|seg segs IH]; intros fuel acc ts1 Hk Hp Hf.
  - apply map_eq_nil in Hk as ->. rewrite app_nil_r. unfold next_level in H8.
    destruct rest as [|t rest]; [done|]. destruct fuel as [|fuel]; [simpl in Hf; lia|].
    cbn [path_loop app]. destruct (peek_kind (t :: rest)); done.
  - simpl in Hp. apply andb_prop in Hp as [Hs Hp]. destruct fuel as [|fuel].
    { destruct rest; [done|]. rewrite length_app in Hf. simpl in Hf. lia. }
    destruct seg as [n|i]; simpl in Hk.
    + destruct ts1 as [|[k1 p1] [|[k2 p2] ts1]]; simplify_eq/=.
      destruct (ts1 ++ rest) eqn:Hts; [by apply app_eq_nil in Hts as [_ ?]|]. simpl. rewrite <- Hts in *.
      rewrite IH by (simpl in *; auto with lia). by rewrite <- app_assoc.
    + destruct ts1 as [|[k1 p1] [|[k2 p2] [|[k3 p3] ts1]]]; simplify_eq/=.
      destruct (ts1 ++ rest) eqn:Hts; [by apply app_eq_nil in Hts as [_ ?]|].
      apply andb_prop in Hs as [Hr Hi]. rewrite Hr. apply Z.eqb_eq in Hi. rewrite Hi. rewrite <- Hts in *.
      rewrite IH by (simpl in *; auto with lia). by rewrite <- app_assoc.
Qed.

(** The statement proved by induction: the tokens of [e] in a position of
    level [q] are read back at that level. *)
Definition emit_spec (limit : nat) (e : Expr) : Prop :=
  ∀ q depth (ts1 rest : tokens),
    map kind ts1 = emit q e → 1 ≤ q → q ≤ 8 → follows q rest →
    length (ts1 ++ rest) ≤ limit → length (ts1 ++ rest) ≤ depth →
    reads limit depth q e (ts1 ++ rest) rest.

(** The same for the unparenthesised form, at the expression's own level. *)
Definition body_spec (limit : nat) (e : Expr) : Prop :=
  ∀ depth (ts1 rest : tokens),
    map kind ts1 = body e → follows (prec e) rest →
    length (ts1 ++ rest) ≤ limit → length (ts1 ++ rest) ≤ depth →
    reads limit depth (prec e) e (ts1 ++ rest) rest.

Lemma prec_bounds e : 1 ≤ prec e ∧ prec e ≤ 8.
Proof. destruct e as [| | | | | | |[]]; simpl; lia. Qed.

Lemma map_kind_app (ts : tokens) ks1 k ks2 :
  map kind ts = ks1 ++ k :: ks2 →
  ∃ ta p tb, ts = ta ++ Spanned k p :: tb ∧ map kind ta = ks1 ∧ map kind tb = ks2.
Proof.
  intros H. apply map_eq_app in H as (ta & l & -> & <- & H).
  apply map_eq_cons in H as ([k' p] & tb & -> & <- & <-). by exists ta, p, tb.
Qed.

Lemma body_at_level limit e q depth (ts1 rest : tokens) :
  body_spec limit e → printable e = true → map kind ts1 = body e → 1 ≤ q → q ≤ prec e → follows q rest →
  length (ts1 ++ rest) ≤ limit → length (ts1 ++ rest) ≤ depth → reads limit depth q e (ts1 ++ rest) rest.
Proof.
  intros HB Hp Hk Hq Hqp Hf Hl Hd.
  destruct (emit_starts (prec e) e ts1 rest Hp) as [? ?].
  { unfold emit. by rewrite Nat.ltb_irrefl. }
  apply reads_lower_to with (p := prec e); try done.
  - apply HB; try done. by eapply follows_mono.
  - intros. eapply follows_mono; eauto with lia.
  - rewrite length_app in Hl. lia.
Qed.

(** Parentheses make any expression an operand of every level. *)
Lemma body_spec_emit limit e : printable e = true → body_spec limit e → emit_spec limit e.
Proof.
  intros Hp HB q depth ts1 rest Hk Hq1 Hq8 Hf Hl Hd.
  destruct (emit_starts q e ts1 rest Hp Hk) as [Hne Hs].
  unfold emit in Hk. destruct (Nat.ltb_spec (prec e) q) as [Hlt|Hge].
  2: by apply body_at_level.
  cbn [paren] in Hk. destruct ts1 as [|[k0 p0] ts1]; [done|]. cbn in Hk. injection Hk as -> Hk.
  apply map_kind_app in Hk as (tb & p1 & tl & -> & Hb & Htl). apply map_eq_nil in Htl as ->.
  rewrite <- app_comm_cons, <- app_assoc in *. cbn [app] in *.
  assert (rest ≠ []) as Hrne by apply Hf.
  apply reads_lower_to with (p := 8); try done.
  - destruct depth as [|depth]; [simpl in Hd; lia|]. cbn [reads].
    cbn [parse_primary peek kind]. rewrite advance_cons by (by destruct tb).
    assert (reads limit depth 1 e (tb ++ Spanned TRParen p1 :: rest) (Spanned TRParen p1 :: rest)) as HR.
    { apply body_at_level; try done; [apply prec_bounds|by apply follows_end|simpl in *; lia..]. }
    apply (reads_done limit depth 1) in HR; [|apply Nat.lt_0_1|done]. rewrite HR. by destruct rest.
  - intros. eapply follows_mono; eauto.
  - simpl in Hl. rewrite length_app in Hl. simpl in Hl. lia.
Qed.

(** One round of a left-associative loop, shared by every binary operator. *)
Lemma loop_round op operand fuel mk lhs rhs t tb rest :
  op (kind t) = Some mk → operand (tb ++ rest) = Ok (rhs, rest) → rest ≠ [] →
  length (t :: tb ++ rest) ≤ fuel →
  ∃ f, length rest ≤ f ∧
    binary_loop op operand fuel lhs (t :: tb ++ rest) = binary_loop op operand f (mk lhs rhs) rest.
Proof.
  intros Hop Hr Hne Hf. destruct fuel as [|fuel]; [simpl in Hf; lia|].
  exists fuel. split; [simpl in Hf; rewrite length_app in Hf; lia|].
  cbn [binary_loop]. change (peek_kind (t :: tb ++ rest)) with (kind t). rewrite Hop.
  rewrite advance_cons by (by destruct tb, rest). by rewrite Hr.
Qed.

Section roundtrip.
  Variable limit : nat.

Ltac split_tokens Hk :=
  let ta := fresh "ta" in let p := fresh "p" in let tb := fresh "tb" in
  apply map_kind_app in Hk as (ta & p & tb & -> & ? & ?);
  rewrite <- app_assoc in *; cbn [app] in *.

(** The tail of a stream is no longer than the stream. *)
Ltac lengths := rewrite ?length_app in *; cbn [length] in *; rewrite ?length_app in *; lia.

Lemma binary_body_spec e q mk tok a b op (operand : nat → Parse) :
  prec e = q → e = mk a b → body e = emit q a ++ tok :: emit (S q) b →
  op tok = Some mk → tok_level tok = q → q ≠ 4 → q < 8 →
  (∀ depth ts rest, reads limit depth q a ts rest → ∃ fuel, length rest ≤ fuel ∧
     (∀ e' rest', (∃ f, length rest' ≤ f ∧
        binary_loop op (operand depth) fuel a rest = binary_loop op (operand depth) f e' rest') →
        reads limit depth q e' ts rest')) →
  (∀ depth ts rest, reads limit depth (S q) b ts rest → follows q rest →
     length ts ≤ limit → operand depth ts = Ok (b, rest)) →
  emit_spec limit a → emit_spec limit b → body_spec limit e.
Proof.
  intros Hq -> Hb Hop Htok H4 H8 Hloop Hoper Ha Hbs depth ts1 rest Hk Hf Hl Hd. rewrite Hb in Hk. rewrite Hq in *.
  assert (1 ≤ q) by (rewrite <- Hq; apply prec_bounds). assert (rest ≠ []) as Hne by apply Hf.
  split_tokens Hk.
  destruct (Hloop depth (ta ++ Spanned tok p :: tb ++ rest) (Spanned tok p :: tb ++ rest)) as (fuel & Hfuel & Hgo).
  { apply Ha; try done; [lia|]. unfold follows, next_level, peek_kind. cbn. split_and!; [done|lia..]. }
  apply Hgo. apply loop_round; try done. apply Hoper; [|done|lengths].
  apply Hbs; [done|lia|lia|eapply follows_mono; [done|lia]|lengths|lengths].
Qed.

(** The loop of a level continues where the left operand stopped. *)
Ltac continue_loop :=
  let fuel := fresh "fuel" in let H := fresh "Hread" in let f := fresh "left" in let He := fresh "Hstep" in
  intros ? ? ? (fuel & ? & H); exists fuel; split; [done|];
  intros ? ? (f & ? & He); exists f; split; [done|]; by rewrite H, He.

Lemma literal_body_spec v : printable (Literal v) = true → body_spec limit (Literal v).
Proof.
  intros Hp [|depth] ts1 rest Hk (Hne & _) Hl Hd; [destruct rest; [done|lengths]|].
  destruct v as [| |[]| | |]; try done; destruct ts1 as [|[k p] [|]]; simplify_eq/=; by destruct rest.
Qed.

Lemma path_body_spec segs : printable (Path segs) = true → body_spec limit (Path segs).
Proof.
  cbn [printable]. intros Hp [|depth] ts1 rest Hk (Hne & _ & H8 & _) Hl Hd; [destruct rest; [done|lengths]|].
  destruct segs as [|[n|i] segs]; try done. destruct ts1 as [|[k p] ts1]; simplify_eq/=.
  change (match ts1 ++ rest with [] => _ | _ => _ end) with (advance (Spanned (TIdent n) p :: ts1 ++ rest)).
  rewrite advance_cons by (by destruct ts1, rest).
  apply (path_loop_reads segs limit [Field n]); try done; lia.
Qed.

Lemma not_body_spec a : emit_spec limit a → body_spec limit (Not a).
Proof.
  intros Ha depth ts1 rest Hk Hf Hl Hd.
  destruct ts1 as [|[k p] ts1]; [done|]. cbn in Hk. injection Hk as -> Hk.
  assert (rest ≠ []) as Hne by apply Hf. intros [|fuel] Hfuel; [lengths|].
  cbn [not_loop app]. change (peek_kind (_ :: _)) with TNot. cbn iota.
  rewrite advance_cons by (by destruct ts1, rest).
  specialize (Ha 3 depth ts1 rest Hk). rewrite Ha; [done|lia|lia|done|lengths|lengths|lengths].
Qed.

Lemma neg_body_spec a : emit_spec limit a → body_spec limit (Neg a).
Proof.
  intros Ha depth ts1 rest Hk Hf Hl Hd.
  destruct ts1 as [|[k p] ts1]; [done|]. cbn in Hk. injection Hk as -> Hk.
  assert (rest ≠ []) as Hne by apply Hf. intros [|fuel] Hfuel; [lengths|].
  cbn [unary_loop app]. change (peek_kind (_ :: _)) with TMinus. cbn iota.
  rewrite advance_cons by (by destruct ts1, rest).
  specialize (Ha 7 depth ts1 rest Hk). rewrite Ha; [done|lia|lia|done|lengths|lengths|lengths].
Qed.

Lemma and_body_spec a b : emit_spec limit a → emit_spec limit b → body_spec limit (And a b).
Proof.
  intros Ha Hb.
  apply (binary_body_spec (And a b) 2 And TAnd a b and_op (λ d, parse_not limit (parse_primary limit d)));
    try done; try lia; [continue_loop|].
  intros depth ts rest H _ Hl. by apply H.
Qed.

Lemma or_body_spec a b : emit_spec limit a → emit_spec limit b → body_spec limit (Or a b).
Proof.
  intros Ha Hb.
  apply (binary_body_spec (Or a b) 1 Or TOr a b or_op (λ d, parse_and limit (parse_primary limit d)));
    try done; try lia; [continue_loop|].
  intros depth ts rest H Hf Hl. apply (reads_done limit depth 2) in H; [done| |apply Hf].
  destruct Hf as (_ & ? & _). lia.
Qed.

Lemma compare_body_spec op a b : emit_spec limit a → emit_spec limit b → body_spec limit (Compare op a b).
Proof.
  intros Ha Hb depth ts1 rest Hk Hf Hl Hd. cbn [body] in Hk.
  split_tokens Hk. assert (rest ≠ []) as Hne by apply Hf. cbn [prec reads].
  assert (∀ x ts r, reads limit depth 5 x ts r → next_level r < 5 → r ≠ [] →
    parse_additive limit (parse_primary limit depth) ts = Ok (x, r)) as Hdone
    by (intros x ts r Hx Hlt Hr; exact (reads_done limit depth 5 x ts r Hx Hlt Hr)).
  unfold parse_comparison. rewrite (Hdone a _ (Spanned (cmp_token op) p :: tb ++ rest));
    [|apply (Ha 5); [done|lia|lia| |done|done]|by destruct op; cbn; lia|done].
  - cbn [result_bind]. change (peek_kind (_ :: _)) with (cmp_token op).
    replace (cmp_op (cmp_token op)) with (Some op) by (by destruct op).
    rewrite advance_cons by (by destruct tb, rest).
    rewrite (Hdone b _ rest); [done| | |done].
    + apply (Hb 5); [done|lia|lia|eapply follows_mono; [done|cbn; lia]|lengths|lengths].
    + destruct Hf as (_ & Hf & _). cbn in Hf. lia.
  - destruct op; unfold follows, next_level; cbn; split_and!; try done; lia.
Qed.

Lemma arith_body_spec op a b : emit_spec limit a → emit_spec limit b → body_spec limit (Arith op a b).
Proof.
  intros Ha Hb. destruct op.
  1,2: eapply (binary_body_spec _ 5 _ _ a b add_op (λ d, parse_multiplicative limit (parse_primary limit d)));
    try done; try lia.
  5,6,7: eapply (binary_body_spec _ 6 _ _ a b mul_op (λ d, parse_unary limit (parse_primary limit d)));
    try done; try lia.
  1,3,5,7,9: continue_loop.
  1,2: intros depth ts rest H Hf Hl; apply (reads_done limit depth 6) in H; [done| |apply Hf];
    destruct Hf as (_ & ? & _); lia.
  all: intros depth ts rest H _ Hl; by apply H.
Qed.

Lemma emit_reads e : printable e = true → emit_spec limit e.
Proof.
  induction e; intros Hp; (apply body_spec_emit; [done|]);
    cbn [printable] in Hp; try (apply andb_prop in Hp as [? ?]).
  - by apply literal_body_spec.
  - by apply path_body_spec.
  - apply not_body_spec; auto.
  - apply neg_body_spec; auto.
  - apply and_body_spec; auto.
  - apply or_body_spec; auto.
  - apply compare_body_spec; auto.
  - apply arith_body_spec; auto.
Qed.

End roundtrip.

(** C29: parsing inverts printing: the tokens [emit 1 e] of a printable expression,
    whatever their positions, followed by [Eof], parse to [e].  The printer
    writes parentheses only around operands that bind looser than their
    position, so this fixes the precedence of every operator and the left
    associativity of the binary ones. *)
Theorem parse_emit (e : Expr) (ts : tokens) :
  printable e = true → map kind ts = emit 1 e ++ [TEof] → parse ts = Ok e.
Proof.
  intros Hp Hk. apply map_kind_app in Hk as (ta & p & tb & -> & Ha & Htb).
  apply map_eq_nil in Htb as ->. unfold parse.
  set (b := S (length (ta ++ [Spanned TEof p]))).
  assert (reads b b 1 e (ta ++ [Spanned TEof p]) [Spanned TEof p]) as H.
  { apply (emit_reads b e Hp); try done; [lia|by apply follows_end|lia|lia]. }
  apply (reads_done b b 1) in H; [|apply Nat.lt_0_1|done]. by rewrite H.
Qed.

(** [!a.b && 1 + 2 * 3 >= 7] and its tokens. *)
Definition sample_expr : Expr :=
  And (Not (Path [Field "a"; Field "b"]))
    (Compare CGe (Arith AAdd (Literal (ENumber (f64_of_Z 1))) (Arith AMul (Literal (ENumber (f64_of_Z 2)))
       (Literal (ENumber (f64_of_Z 3))))) (Literal (ENumber (f64_of_Z 7)))).

Lemma parse_emit_witness :
  let ts := (λ k, Spanned k 0) <$> emit 1 sample_expr ++ [TEof] in
  printable sample_expr = true ∧ parse ts = Ok sample_expr.
Proof.
  split; [vm_compute; reflexivity|].
  apply (parse_emit sample_expr); vm_compute; reflexivity.
Defined.
