(* ===== verification/Iso8601.v ===== *)
(** * ISO 8601 durations and timer definitions

    bpmn-parser/src/parser.rs: [parse_iso8601_duration],
    [parse_repeating_interval] and [parse_timer_definition].  Strings are
    sequences of [char]s; the calendar parser of chrono and the cron parser of
    croner are operations of the class [TimeLib]. *)

From stdpp Require Import base list gmap strings numbers pretty.
From Stdlib Require Import Ascii.
From S2P Require Import Prelude Text Json Domain BpmnModels.
Local Open Scope rust_scope.

(** ** Helpers of the standard library *)

Definition checked_u64 (n : N) : option N := if (n <=? u64_max)%N then Some n else None.

Definition invalid {A} (msg : string) : EngineResult A := Err (InvalidDefinition msg).

(** ** Durations *)

(** The seconds of a unit before and after the [T]. *)
Definition unit_seconds (in_time_part : bool) (c : char) : option N :=
  if in_time_part then
    if (c =? ch "H")%N then Some 3600%N
    else if (c =? ch "M")%N then Some 60%N
    else if (c =? ch "S")%N then Some 1%N
    else None
  else
    if (c =? ch "Y")%N then Some (365 * 86400)%N
    else if (c =? ch "M")%N then Some (30 * 86400)%N
    else if (c =? ch "W")%N then Some (7 * 86400)%N
    else if (c =? ch "D")%N then Some 86400%N
    else None.

(** The loop over the characters after the [P]. *)
Fixpoint duration_loop (s : string) (body : list char) (total_secs : N) (current_num : list char)
    (in_time_part has_value : bool) : EngineResult N :=
  match body with
  | [] =>
    match current_num with
    | _ :: _ => invalid ("Invalid ISO 8601 duration '" +:+ s +:+ "': trailing digits without unit")
    | [] =>
      if has_value then Ok total_secs
      else invalid ("Invalid ISO 8601 duration '" +:+ s +:+ "': no duration components found")
    end
  | c :: body =>
    if (c =? ch "T")%N then
      match current_num with
      | _ :: _ => invalid ("Invalid ISO 8601 duration '" +:+ s +:+ "': digits before 'T' without unit")
      | [] => duration_loop s body total_secs [] true has_value
      end
    else if is_ascii_digit c then duration_loop s body total_secs (current_num ++ [c]) in_time_part has_value
    else
      match current_num with
      | [] => invalid ("Invalid ISO 8601 duration '" +:+ s +:+ "': missing number before '" +:+ of_chars [c] +:+ "'")
      | _ :: _ =>
        val ←? ok_or (InvalidDefinition ("Invalid number in duration '" +:+ s +:+ "'"))
                 (checked_u64 (digits_value current_num));
        multiplier ←? ok_or (InvalidDefinition ("Invalid ISO 8601 duration '" +:+ s +:+ "': unknown unit '"
                               +:+ of_chars [c] +:+ "' (time_part=" +:+ (if in_time_part then "true" else "false") +:+ ")"))
                      (unit_seconds in_time_part c);
        added_secs ←? ok_or (InvalidDefinition ("Duration segment '" +:+ pretty val +:+ of_chars [c]
                               +:+ "' overflows seconds")) (checked_u64 (val * multiplier)%N);
        total_secs ←? ok_or (InvalidDefinition ("Total duration '" +:+ s +:+ "' overflows maximum allowed seconds"))
                        (checked_u64 (total_secs + added_secs)%N);
        duration_loop s body total_secs [] in_time_part true
      end
  end.

(** [Duration::from_secs]. *)
Definition from_secs (secs : N) : Duration := (Z.of_N secs * 1000000000)%Z.

(** [parse_iso8601_duration] on the characters of its argument. *)
Definition parse_duration_chars (l : list char) : EngineResult Duration :=
  let l := trim l in
  let s := of_chars l in
  match l with
  | [] => invalid "Timer duration is empty"
  | c :: body =>
    if (c =? ch "P")%N then
      match body with
      | [] => invalid ("Invalid ISO 8601 duration '" +:+ s +:+ "': no value after 'P'")
      | _ => secs ←? duration_loop s body 0 [] false false; Ok (from_secs secs)
      end
    else invalid ("Invalid ISO 8601 duration '" +:+ s +:+ "': must start with 'P'")
  end.
Definition parse_iso8601_duration (s : string) : EngineResult Duration := parse_duration_chars (chars s).

(** ** Repeating intervals *)

(** [str::parse::<u32>]: an optional plus sign and digits. *)
Definition u32_max_value : N := 4294967295.
Definition parse_u32 : list char → option N := parse_unsigned u32_max_value.

(** [str::find] of a character and of ["PT"]: the text before and from it on. *)
Fixpoint split_at_char (c : char) (l : list char) : option (list char * list char) :=
  match l with
  | [] => None
  | x :: l => if (x =? c)%N then Some ([], x :: l)
              else '(a, b) ← split_at_char c l; Some (x :: a, b)
  end.
Fixpoint split_at_pt (l : list char) : option (list char * list char) :=
  match l with
  | [] => None
  | x :: l' =>
    if (x =? ch "P")%N && match l' with y :: _ => (y =? ch "T")%N | [] => false end then Some ([], l)
    else '(a, b) ← split_at_pt l'; Some (x :: a, b)
  end.

(** [parse_repeating_interval]; the caller has checked that the text starts
    with ['R']. *)
Definition parse_repeating_interval (l : list char) : EngineResult TimerDefinition :=
  let s := of_chars l in
  '(r_part, dur_part) ←?
    match split_at_char (ch "/") l with
    | Some (a, b) => Ok (a, tail b)
    | None =>
      match l with
      | [] => invalid "unreachable: empty text"
      | r :: rest =>
        match split_at_pt rest with
        | Some (a, b) => Ok (r :: a, b)
        | None => invalid ("Invalid repeating interval '" +:+ s +:+ "': expected R[n]/duration or R[n]PTduration")
        end
      end
    end;
  repetitions ←?
    (if bool_decide (r_part = [ch "R"]) then Ok None
     else
       match parse_u32 (tail r_part) with
       | Some count => Ok (Some count)
       | None => invalid ("Invalid repetition count in '" +:+ s +:+ "': '" +:+ of_chars (tail r_part) +:+ "' is not a number")
       end);
  interval ←? parse_duration_chars dur_part;
  Ok (RepeatingInterval repetitions interval).

(** ** Timer definitions *)

Class TimeLib := { parse_datetime : string → option DateTime; cron_parses : string → bool }.

(** [text_value]: trimmed, and absent when blank. *)
Definition text_value (expr : option BpmnTextValue) : option (list char) :=
  v ← expr; s ← tv_value v; match trim (chars s) with [] => None | l => Some l end.

Definition parse_timer_definition {T : TimeLib} (node_id : string) (t : BpmnTimerEventDefinition)
    : EngineResult TimerDefinition :=
  match text_value (time_duration t) with
  | Some dur => d ←? parse_duration_chars dur; Ok (TimerDuration d)
  | None =>
    match text_value (time_date t) with
    | Some date =>
      dt ←? ok_or (InvalidDefinition ("Invalid timeDate '" +:+ of_chars date +:+ "'")) (parse_datetime (of_chars (trim date)));
      Ok (AbsoluteDate dt)
    | None =>
      match text_value (time_cycle t) with
      | Some cycle =>
        let l := trim cycle in
        match l with
        | c :: _ =>
          if (c =? ch "R")%N then parse_repeating_interval l
          else if cron_parses (of_chars l) then Ok (CronCycle (of_chars l) None)
          else invalid ("Invalid cron expression '" +:+ of_chars l +:+ "'")
        | [] => if cron_parses "" then Ok (CronCycle "" None) else invalid "Invalid cron expression ''"
        end
      | None => invalid ("timerEventDefinition on '" +:+ node_id +:+ "' has no timeDuration, timeDate, or timeCycle")
      end
    end
  end.

Example duration_mixed : parse_iso8601_duration " P1DT2H30M15S " = Ok (from_secs 95415).
Proof. vm_compute. reflexivity. Qed.
Example interval_compact : parse_repeating_interval (chars "R3PT30S") = Ok (RepeatingInterval (Some 3%N) (from_secs 30)).
Proof. vm_compute. reflexivity. Qed.

(** ** The language of durations *)

(** A duration text after the [P] is a sequence of [T] marks and of numbers with
    a unit. *)
Inductive item :=
| TimeMark
| Component (digits : list char) (unit : char).
Definition item_chars (x : item) : list char :=
  match x with TimeMark => [ch "T"] | Component ds u => ds ++ [u] end.
Definition text_of (items : list item) : list char := mjoin (item_chars <$> items).

(** Units before the first [T] are date units, after it time units. *)
Fixpoint legal (in_time : bool) (items : list item) : Prop :=
  match items with
  | [] => True
  | TimeMark :: rest => legal true rest
  | Component ds u :: rest =>
    ds ≠ [] ∧ forallb is_ascii_digit ds = true ∧ is_Some (unit_seconds in_time u) ∧ legal in_time rest
  end.

(** The seconds of a sequence, as an unbounded number. *)
Fixpoint seconds_of (in_time : bool) (items : list item) : N :=
  match items with
  | [] => 0
  | TimeMark :: rest => seconds_of true rest
  | Component ds u :: rest => digits_value ds * default 0 (unit_seconds in_time u) + seconds_of in_time rest
  end%N.

Definition is_component (x : item) : bool := match x with Component _ _ => true | TimeMark => false end.

Lemma unit_seconds_pos b c m : unit_seconds b c = Some m → (1 ≤ m)%N.
Proof. unfold unit_seconds. repeat case_match; intros; simplify_eq; lia. Qed.

Lemma unit_not_digit b c : is_Some (unit_seconds b c) → is_ascii_digit c = false ∧ (c =? ch "T")%N = false.
Proof.
  unfold unit_seconds. intros [m Hm]. repeat case_match; simplify_eq;
    match goal with H : (c =? _)%N = true |- _ => apply N.eqb_eq in H as -> end; done.
Qed.

Lemma checked_u64_Some n m : checked_u64 n = Some m ↔ m = n ∧ (n ≤ u64_max)%N.
Proof. unfold checked_u64. destruct (N.leb_spec n u64_max); split; intros; simplify_eq; naive_solver lia. Qed.

(** Two digit strings that end at a non-digit agree. *)
Lemma digits_agree ds ds' c c' x y :
  forallb is_ascii_digit ds = true → forallb is_ascii_digit ds' = true →
  is_ascii_digit c = false → is_ascii_digit c' = false →
  ds ++ c :: x = ds' ++ c' :: y → ds = ds' ∧ c = c' ∧ x = y.
Proof.
  revert ds'. induction ds as [|d ds IH]; intros [|d' ds']; cbn; intros H1 H2 Hc Hc' [= -> Heq].
  - done.
  - by rewrite Hc in H2.
  - by rewrite Hc' in H1.
  - apply andb_true_iff in H1 as [_ H1], H2 as [_ H2]. destruct (IH ds' H1 H2 Hc Hc' Heq) as (-> & -> & ->). done.
Qed.

(** What the loop accepts from a state: the digits read so far and the rest of
    the text are the text of legal items. *)
Definition accepts (body num : list char) (total : N) (in_time has : bool) (r : N) : Prop :=
  ∃ items, num ++ body = text_of items ∧ legal in_time items ∧ (has || existsb is_component items) = true ∧
    r = (total + seconds_of in_time items)%N ∧ (r ≤ u64_max)%N.

Lemma text_of_cons x items : text_of (x :: items) = item_chars x ++ text_of items.
Proof. done. Qed.

Lemma accepts_nil num total in_time has r :
  (total ≤ u64_max)%N → forallb is_ascii_digit num = true →
  accepts [] num total in_time has r ↔ num = [] ∧ has = true ∧ r = total.
Proof.
  intros Hle Hnum. unfold accepts. rewrite app_nil_r. split.
  - intros ([|[|ds u] items] & Htext & Hlegal & Hhas & -> & Hr).
    + cbn in *. rewrite orb_false_r in Hhas. split_and!; [done..|lia].
    + rewrite text_of_cons in Htext. subst num. done.
    + rewrite text_of_cons in Htext. cbn in Htext. subst num. destruct Hlegal as (_ & _ & [Hu _]%unit_not_digit & _).
      rewrite !forallb_app in Hnum. cbn in Hnum. rewrite Hu in Hnum. rewrite andb_false_r in Hnum. done.
  - intros (-> & -> & ->). exists []. cbn. split_and!; [done..|lia|done].
Qed.

Lemma accepts_mark body num total in_time has r :
  forallb is_ascii_digit num = true →
  accepts (ch "T" :: body) num total in_time has r ↔ num = [] ∧ accepts body [] total true has r.
Proof.
  intros Hnum. split.
  - intros ([|[|ds u] items] & Htext & Hlegal & Hhas & Hr).
    + by destruct num.
    + rewrite text_of_cons in Htext. destruct num as [|d num]; cbn in Htext.
      * injection Htext as ->. split; [done|]. exists items. done.
      * injection Htext as -> _. done.
    + rewrite text_of_cons in Htext. cbn in Htext, Hlegal. destruct Hlegal as (Hne & Hds & Hu & _).
      destruct (unit_not_digit _ _ Hu) as [Hud HuT]. rewrite <- app_assoc in Htext. cbn in Htext.
      apply digits_agree in Htext as (_ & <- & _); [|done..]. by rewrite N.eqb_refl in HuT.
  - intros (-> & items & Htext & Hlegal & Hhas & Hr). exists (TimeMark :: items). rewrite text_of_cons. cbn in *.
    by rewrite Htext.
Qed.

Lemma accepts_digit c body num total in_time has r :
  accepts (c :: body) num total in_time has r ↔ accepts body (num ++ [c]) total in_time has r.
Proof. unfold accepts. by rewrite <- app_assoc. Qed.

Lemma accepts_unit c body num total in_time has r :
  forallb is_ascii_digit num = true → is_ascii_digit c = false → (c =? ch "T")%N = false →
  accepts (c :: body) num total in_time has r ↔
  num ≠ [] ∧ ∃ m, unit_seconds in_time c = Some m ∧
    accepts body [] (total + digits_value num * m) in_time true r.
Proof.
  intros Hnum Hc HcT. split.
  - intros ([|[|ds u] items] & Htext & Hlegal & Hhas & Hr).
    + by destruct num.
    + rewrite text_of_cons in Htext. destruct num as [|d num]; cbn in Htext; injection Htext as -> _.
      * by rewrite N.eqb_refl in HcT.
      * done.
    + rewrite text_of_cons in Htext. cbn in Htext, Hlegal. destruct Hlegal as (Hne & Hds & Hu & Hrest).
      destruct (unit_not_digit _ _ Hu) as [Hud _]. rewrite <- app_assoc in Htext. cbn in Htext.
      apply digits_agree in Htext as (-> & -> & ->); [|done..]. destruct Hu as [m Hm].
      split; [done|]. exists m. split; [done|]. exists items. destruct Hr as [-> Hle]. cbn in *. rewrite Hm in *. cbn in *.
      split_and!; [done..|lia|lia].
  - intros (Hne & m & Hm & items & Htext & Hlegal & _ & -> & Hle). exists (Component num c :: items).
    rewrite text_of_cons. cbn in *. rewrite Hm, <- app_assoc, <- Htext. cbn.
    split_and!; [done..|by eexists|done|by rewrite orb_true_r|lia|lia].
Qed.

Lemma accepts_le body num total in_time has r : accepts body num total in_time has r → (total ≤ r ≤ u64_max)%N.
Proof. intros (items & _ & _ & _ & -> & ?). lia. Qed.

Lemma duration_loop_accepts s body total num in_time has r :
  (total ≤ u64_max)%N → forallb is_ascii_digit num = true →
  duration_loop s body total num in_time has = Ok r ↔ accepts body num total in_time has r.
Proof.
  revert total num in_time has. induction body as [|c body IH]; intros total num in_time has Htot Hnum; cbn [duration_loop].
  { rewrite accepts_nil by done. destruct num; [|naive_solver]. destruct has; naive_solver. }
  destruct (N.eqb_spec c (ch "T")) as [->|HcT].
  { rewrite accepts_mark by done. destruct num; [|naive_solver]. rewrite IH by done. naive_solver. }
  destruct (is_ascii_digit c) eqn:Hc.
  { rewrite IH, <- accepts_digit; [done|done|]. rewrite forallb_app, Hnum. cbn. by rewrite Hc. }
  rewrite accepts_unit by (done || by apply N.eqb_neq). destruct num as [|d num]; [naive_solver|].
  remember (d :: num) as ds eqn:Hds. assert (ds ≠ []) as Hne by (by subst). clear Hds d num.
  destruct (unit_seconds in_time c) as [m|] eqn:Hm; cbn [ok_or].
  - pose proof (unit_seconds_pos _ _ _ Hm). split.
    + intros (v & Hv & (m' & [= <-] & (a & Ha & (t & Ht & Hrec)%result_bind_Ok)%result_bind_Ok)%result_bind_Ok)%result_bind_Ok.
      unfold ok_or in Hv, Ha, Ht.
      destruct (checked_u64 (digits_value ds)) as [v'|] eqn:E1; simplify_eq. apply checked_u64_Some in E1 as [-> _].
      destruct (checked_u64 (digits_value ds * m)) as [a'|] eqn:E2; simplify_eq. apply checked_u64_Some in E2 as [-> _].
      destruct (checked_u64 (total + digits_value ds * m)) as [t'|] eqn:E3; simplify_eq.
      apply checked_u64_Some in E3 as [-> ?]. rewrite IH in Hrec by done. eauto.
    + intros (_ & m' & [= <-] & Hacc). pose proof (accepts_le _ _ _ _ _ _ Hacc) as Hle.
      assert (∀ n, (n ≤ u64_max)%N → checked_u64 n = Some n) as Hok by (intros; by apply checked_u64_Some).
      rewrite (Hok (digits_value ds)) by nia. cbn [ok_or result_bind]. rewrite Hok by lia. cbn [ok_or result_bind].
      rewrite Hok by lia. cbn [ok_or result_bind]. rewrite IH; [done|lia|done].
  - split; [|naive_solver]. intros (v & _ & (m' & ? & _)%result_bind_Ok)%result_bind_Ok. done.
Qed.

(** The duration parser accepts exactly the texts that, without surrounding white
    space, are a [P] followed by numbers with date units and, after a [T],
    numbers with time units, at least one of them, whose seconds fit 64 bits;
    it returns exactly that many seconds. Anything else, overflow included, is
    an error. *)
Theorem parse_iso8601_duration_spec (s : string) (d : Duration) :
  parse_iso8601_duration s = Ok d ↔
  ∃ items, trim (chars s) = ch "P" :: text_of items ∧ legal false items ∧ existsb is_component items = true ∧
    (seconds_of false items ≤ u64_max)%N ∧ d = from_secs (seconds_of false items).
Proof.
  unfold parse_iso8601_duration, parse_duration_chars. destruct (trim (chars s)) as [|c body]; [naive_solver|].
  cbn zeta. generalize (of_chars (c :: body)). intros msg. destruct (N.eqb_spec c (ch "P")) as [->|Hc]; [|naive_solver].
  assert ((secs ←? duration_loop msg body 0 [] false false; Ok (from_secs secs)) = Ok d ↔
    ∃ items, ch "P" :: body = ch "P" :: text_of items ∧ legal false items ∧ existsb is_component items = true ∧
      (seconds_of false items ≤ u64_max)%N ∧ d = from_secs (seconds_of false items)) as Hloop.
  { rewrite result_bind_Ok. split.
    - intros (r & (items & Htext & ? & ? & -> & ?)%duration_loop_accepts & [= <-]); [|done..].
      cbn in *. exists items. split; [by rewrite Htext|]. done.
    - intros (items & [= Htext] & Hl & Hcomp & Hle & ->). exists (seconds_of false items). split; [|done].
      apply duration_loop_accepts; [done..|]. exists items. split_and!; [done..|lia]. }
  destruct body as [|c body]; [|done]. split; [done|]. intros H. exfalso. apply Hloop in H. cbn in H. done.
Qed.

(** ** Durations that cannot be scheduled *)

Lemma add_duration_panics now d :
  add_duration now d = Panics ↔ (d ≤ chrono_max)%Z ∧ (max_utc < now + d)%Z.
Proof.
  unfold add_duration. destruct (Z.leb_spec d chrono_max); [|naive_solver lia].
  destruct (Z.leb_spec (now + d) max_utc); naive_solver lia.
Qed.

(** A duration text that the parser accepts can make the engine panic when the
    timer is armed: [P300000Y] is below chrono's largest duration, but any
    current time plus it is beyond chrono's last representable instant, where
    the addition panics instead of returning [None]. *)
Theorem accepted_duration_panics :
  ∃ d, parse_iso8601_duration "P300000Y" = Ok d ∧
    ∀ (C : CronLib) (now : DateTime), (0 ≤ now)%Z →
      next_expiry (TimerDuration d) now = Panics ∧ next_expiry (RepeatingInterval None d) now = Panics.
Proof.
  eexists. split; [vm_compute; reflexivity|]. intros C now Hnow. cbn [next_expiry].
  split; apply add_duration_panics; unfold chrono_max, max_utc; lia.
Qed.
