(* ===== verification/RetryQueue.v ===== *)
(** * Failed saves and their retries

    engine-core/src/engine/retry_queue.rs and the calls of
    engine-core/src/engine/persistence_ops.rs to the store: three attempts at
    once, then a bounded queue whose worker retries with growing pauses.  The
    worker runs beside the engine: between two attempts of a job the engine and
    the store may change in any way, which is the function [env] of the number
    of pauses so far.  Time spent is the list of pauses in milliseconds. *)

From stdpp Require Import base list gmap strings pretty.
From S2P Require Import Prelude Text Json Domain Token ProcessDef MessageRouting Runtime History Registry Index TopicIndex TimerIndex Engine InstanceOps Persistence.
Local Open Scope rust_scope.

Definition MAX_RETRIES : nat := 50.
Definition INITIAL_BACKOFF_MS : N := 1000.
Definition MAX_BACKOFF_MS : N := 60000.
Definition INLINE_RETRIES : nat := 2.
Definition INLINE_BACKOFF_MS : N := 50.
Definition DEFAULT_RETRY_QUEUE_CAPACITY : N := 10000.
Definition DEFAULT_SHUTDOWN_DRAIN_MS : N := 5000.

(** [retry_queue_capacity_from_env] and [shutdown_drain_budget_from_env]; the
    variable of the environment is the argument. *)
Definition retry_queue_capacity_from_env (var : option string) : N :=
  match var ≫= parse_u64 with
  | Some n => if (0 <? n)%N then n else DEFAULT_RETRY_QUEUE_CAPACITY
  | None => DEFAULT_RETRY_QUEUE_CAPACITY
  end.
Definition shutdown_drain_budget_from_env (var : option string) : N :=
  default DEFAULT_SHUTDOWN_DRAIN_MS (var ≫= parse_u64).
Definition create_retry_queue_with_capacity (capacity : N) : N := N.max capacity 1.
Definition create_retry_queue (var : option string) : N :=
  create_retry_queue_with_capacity (retry_queue_capacity_from_env var).

(** ** Jobs *)

Inductive PersistJob :=
| JSaveInstance (id : Uuid)
| JSaveDefinition (id : Uuid)
| JSaveUserTask (id : Uuid)
| JDeleteUserTask (id : Uuid)
| JSaveServiceTask (id : Uuid)
| JDeleteServiceTask (id : Uuid)
| JSaveTimer (id : Uuid)
| JDeleteTimer (id : Uuid)
| JSaveMessageCatch (id : Uuid)
| JDeleteMessageCatch (id : Uuid)
| JSaveSignalCatch (id : Uuid)
| JDeleteSignalCatch (id : Uuid)
| JSaveConditionalCatch (id : Uuid)
| JDeleteConditionalCatch (id : Uuid)
| JAppendHistoryEntry (x : HistoryEntry)
| JShutdown.

(** [Display]. *)
Definition job_text (job : PersistJob) : string :=
  let call name id := name +:+ "(" +:+ pretty id +:+ ")" in
  match job with
  | JSaveInstance id => call "SaveInstance" id
  | JSaveDefinition id => call "SaveDefinition" id
  | JSaveUserTask id => call "SaveUserTask" id
  | JDeleteUserTask id => call "DeleteUserTask" id
  | JSaveServiceTask id => call "SaveServiceTask" id
  | JDeleteServiceTask id => call "DeleteServiceTask" id
  | JSaveTimer id => call "SaveTimer" id
  | JDeleteTimer id => call "DeleteTimer" id
  | JSaveMessageCatch id => call "SaveMessageCatch" id
  | JDeleteMessageCatch id => call "DeleteMessageCatch" id
  | JSaveSignalCatch id => call "SaveSignalCatch" id
  | JDeleteSignalCatch id => call "DeleteSignalCatch" id
  | JSaveConditionalCatch id => call "SaveConditionalCatch" id
  | JDeleteConditionalCatch id => call "DeleteConditionalCatch" id
  | JAppendHistoryEntry x => call "AppendHistoryEntry" (he_instance_id x)
  | JShutdown => "Shutdown"
  end.

(** [job_instance_id]: an entry that is gone cannot be assigned. *)
Definition job_instance_id (job : PersistJob) (e : Engine) : option Uuid :=
  match job with
  | JSaveInstance id => Some id
  | JSaveDefinition _ | JShutdown => None
  | JAppendHistoryEntry x => Some (he_instance_id x)
  | JSaveUserTask id | JDeleteUserTask id => ut_instance_id <$> e_user_tasks e !! id
  | JSaveServiceTask id | JDeleteServiceTask id => st_instance_id <$> primary (e_service_tasks e) !! id
  | JSaveTimer id | JDeleteTimer id => pt_instance_id <$> primary (e_timers e) !! id
  | JSaveMessageCatch id | JDeleteMessageCatch id => mc_instance_id <$> e_message_catches e !! id
  | JSaveSignalCatch id | JDeleteSignalCatch id => sc_instance_id <$> e_signal_catches e !! id
  | JSaveConditionalCatch id | JDeleteConditionalCatch id => cc_instance_id <$> e_conditional_catches e !! id
  end.

(** [record_exhausted_job]. *)
Definition record_exhausted_job (job : PersistJob) (error : string) : M unit :=
  mid ← gets (job_instance_id job);
  match mid with
  | None => mret tt
  | Some id =>
    _ ← record_incident id KPersistence None None
          ("Persistence job '" +:+ job_text job +:+ "' failed after " +:+ pretty MAX_RETRIES +:+ " retries") (Some error);
    mret tt
  end.

(** ** One attempt *)

Section store.
  Context {St : Type} {W : WorkflowPersistence St}.

Definition attempt (w : Write St) (s : St) : result string unit * St :=
  let '(r, s) := w s in (map_err error_text r, s).
(** The current record in memory, or nothing to do. *)
Definition attempt_current {A} (found : option A) (w : A → Write St) (s : St) : result string unit * St :=
  match found with Some a => attempt (w a) s | None => (Ok tt, s) end.

(** [execute_job]. *)
Definition execute_job (job : PersistJob) (e : Engine) : St → result string unit * St :=
  match job with
  | JSaveInstance id => attempt_current (e_instances e !! id) save_instance
  | JSaveDefinition id => attempt_current (e_definitions e !! id) save_definition
  | JSaveUserTask id => attempt_current (e_user_tasks e !! id) save_user_task
  | JDeleteUserTask id => attempt (delete_user_task id)
  | JSaveServiceTask id => attempt_current (primary (e_service_tasks e) !! id) save_service_task
  | JDeleteServiceTask id => attempt (delete_service_task id)
  | JSaveTimer id => attempt_current (primary (e_timers e) !! id) save_timer
  | JDeleteTimer id => attempt (delete_timer id)
  | JSaveMessageCatch id => attempt_current (e_message_catches e !! id) save_message_catch
  | JDeleteMessageCatch id => attempt (delete_message_catch id)
  | JSaveSignalCatch id => attempt_current (e_signal_catches e !! id) save_signal_catch
  | JDeleteSignalCatch id => attempt (delete_signal_catch id)
  | JSaveConditionalCatch id => attempt_current (e_conditional_catches e !! id) save_conditional_catch
  | JDeleteConditionalCatch id => attempt (delete_conditional_catch id)
  | JAppendHistoryEntry x => attempt (append_history_entry x)
  | JShutdown => λ s, (Ok tt, s)
  end.

(** ** The worker *)

Definition next_backoff (ms : N) : N := N.min (ms * 2) MAX_BACKOFF_MS.

  Context (env : nat → Engine * St → Engine * St).

(** The attempts at one job; [more] is how many may follow this one.  The pauses
    are added to those of earlier jobs. *)
Fixpoint retry_loop (job : PersistJob) (more : nat) (backoff : N) (pauses : list N) (e : Engine) (s : St)
    : result string unit * (Engine * St * list N) :=
  match execute_job job e s with
  | (Ok _, s) => (Ok tt, (e, s, pauses))
  | (Err err, s) =>
    match more with
    | 0 => (Err err, (e, s, pauses))
    | Datatypes.S more =>
      let '(e, s) := env (length pauses) (e, s) in
      retry_loop job more (next_backoff backoff) (pauses ++ [backoff]) e s
    end
  end.

Record Worker := mkWorker {
  w_engine : Engine;
  w_store : St;
  w_errors : N;
  w_pauses : list N;
}.

(** [AtomicU64::fetch_add]. *)
Definition count_error (n : N) : N := ((n + 1) mod 2 ^ 64)%N.

(** The body of the worker's loop for a job: an exhausted one is counted and
    recorded as an incident. *)
Definition process_job (job : PersistJob) (w : Worker) : Worker :=
  match retry_loop job (MAX_RETRIES - 1) INITIAL_BACKOFF_MS (w_pauses w) (w_engine w) (w_store w) with
  | (Ok _, (e, s, pauses)) => mkWorker e s (w_errors w) pauses
  | (Err err, (e, s, pauses)) =>
    mkWorker (record_exhausted_job job err e).2 s (count_error (w_errors w)) pauses
  end.

(** ** Draining *)

Record DrainResult := mkDrain {
  dr_processed : nat;
  dr_failed : nat;
  dr_remaining : nat;
}.

(** What the clock says when a job is taken: the deadline has passed, the call
    answers in time, or it is given up at the deadline, when the store may or
    may not have done it. *)
Inductive Timing := TooLate | InTime | TimedOut (done : bool).

Definition drain_one (job : PersistJob) (t : Timing) (d : DrainResult) (w : Worker) : DrainResult * Worker :=
  let failed s :=
    (mkDrain (dr_processed d) (Datatypes.S (dr_failed d)) (dr_remaining d),
     mkWorker (w_engine w) s (count_error (w_errors w)) (w_pauses w)) in
  match t with
  | TooLate => (mkDrain (dr_processed d) (dr_failed d) (Datatypes.S (dr_remaining d)), w)
  | InTime =>
    match execute_job job (w_engine w) (w_store w) with
    | (Ok _, s) =>
      (mkDrain (Datatypes.S (dr_processed d)) (dr_failed d) (dr_remaining d),
       mkWorker (w_engine w) s (w_errors w) (w_pauses w))
    | (Err _, s) => failed s
    end
  | TimedOut done => failed (if done then (execute_job job (w_engine w) (w_store w)).2 else w_store w)
  end.

(** [drain_retry_queue]; [timing] says how the [n]-th job is met. *)
Fixpoint drain_retry_queue (timing : nat → Timing) (n : nat) (queue : list PersistJob) (d : DrainResult) (w : Worker)
    : DrainResult * Worker :=
  match queue with
  | [] => (d, w)
  | JShutdown :: queue => drain_retry_queue timing n queue d w
  | job :: queue =>
    let '(d, w) := drain_one job (timing n) d w in
    drain_retry_queue timing (Datatypes.S n) queue d w
  end.

(** [spawn_retry_worker]: the jobs in the order of the channel, until it is closed
    or a shutdown is received, after which the rest is drained. *)
Fixpoint retry_worker (timing : nat → Timing) (queue : list PersistJob) (w : Worker) : option DrainResult * Worker :=
  match queue with
  | [] => (None, w)
  | JShutdown :: queue =>
    let '(d, w) := drain_retry_queue timing 0 queue (mkDrain 0 0 0) w in (Some d, w)
  | job :: queue => retry_worker timing queue (process_job job w)
  end.
End store.

(** ** Saving with retries (persistence_ops.rs) *)

(** The store with the sending side of the queue. *)
Record Outbox {St : Type} := mkOutbox {
  o_store : St;
  o_queue : list PersistJob;
  o_capacity : nat;
  o_closed : bool;
  o_errors : N;
}.
Arguments Outbox : clear implicits.

Section outbox.
  Context {St : Type} {W : WorkflowPersistence St}.

(** [log_persistence_error] and [enqueue_retry] with a [try_send] that never
    waits. *)
Definition log_persistence_error (o : Outbox St) : Outbox St :=
  mkOutbox _ (o_store o) (o_queue o) (o_capacity o) (o_closed o) (count_error (o_errors o)).
Definition enqueue_retry (job : PersistJob) (o : Outbox St) : Outbox St :=
  if o_closed o then o
  else if o_capacity o <=? length (o_queue o) then log_persistence_error o
  else mkOutbox _ (o_store o) (o_queue o ++ [job]) (o_capacity o) (o_closed o) (o_errors o).

(** The attempts of [inline_retry!]: the last error, if none succeeded, and the
    pauses. *)
Fixpoint inline_attempts (w : Write St) (more : nat) (delay : N) (s : St) : option EngineError * St * list N :=
  match w s with
  | (Ok _, s) => (None, s, [])
  | (Err err, s) =>
    match more with
    | 0 => (Some err, s, [])
    | Datatypes.S more =>
      let '(r, s, pauses) := inline_attempts w more (delay * 2) s in (r, s, delay :: pauses)
    end
  end.
Definition inline_retry (w : Write St) (job : PersistJob) (o : Outbox St) : Outbox St :=
  let '(r, s, _) := inline_attempts w INLINE_RETRIES INLINE_BACKOFF_MS (o_store o) in
  let o := mkOutbox _ s (o_queue o) (o_capacity o) (o_closed o) (o_errors o) in
  match r with
  | None => o
  | Some _ => enqueue_retry job (log_persistence_error o)
  end.

(** What the persistence calls of a step do at the store, in the state of the
    engine at the call; [payload_size] is the length of an instance's JSON.
    Archiving is tried once; deletions of instances, definitions and files and
    the commit of a collection are answered to the caller. *)
Definition MAX_INSTANCE_PAYLOAD_BYTES : N := 921600.
Definition deliver (payload_size : ProcessInstance → N) (e : Engine) (x : Effect) (o : Outbox St) : Outbox St :=
  let current {A} (found : option A) (w : A → Write St) job :=
    match found with Some a => inline_retry (w a) job o | None => o end in
  match x with
  | PersistInstance id =>
    match e_instances e !! id with
    | Some i =>
      if (MAX_INSTANCE_PAYLOAD_BYTES <? payload_size i)%N then log_persistence_error o
      else inline_retry (save_instance i) (JSaveInstance id) o
    | None => o
    end
  | PersistDefinition id => current (e_definitions e !! id) save_definition (JSaveDefinition id)
  | PersistUserTask id => current (e_user_tasks e !! id) save_user_task (JSaveUserTask id)
  | PersistServiceTask id => current (primary (e_service_tasks e) !! id) save_service_task (JSaveServiceTask id)
  | PersistTimer id => current (primary (e_timers e) !! id) save_timer (JSaveTimer id)
  | PersistMessageCatch id => current (e_message_catches e !! id) save_message_catch (JSaveMessageCatch id)
  | PersistSignalCatch id => current (e_signal_catches e !! id) save_signal_catch (JSaveSignalCatch id)
  | PersistConditionalCatch id => current (e_conditional_catches e !! id) save_conditional_catch (JSaveConditionalCatch id)
  | DeleteUserTask id => inline_retry (delete_user_task id) (JDeleteUserTask id) o
  | DeleteServiceTask id => inline_retry (delete_service_task id) (JDeleteServiceTask id) o
  | DeleteTimer id => inline_retry (delete_timer id) (JDeleteTimer id) o
  | DeleteMessageCatch id => inline_retry (delete_message_catch id) (JDeleteMessageCatch id) o
  | DeleteSignalCatch id => inline_retry (delete_signal_catch id) (JDeleteSignalCatch id) o
  | DeleteConditionalCatch id => inline_retry (delete_conditional_catch id) (JDeleteConditionalCatch id) o
  | History entry => inline_retry (append_history_entry entry) (JAppendHistoryEntry entry) o
  | ArchiveInstance id =>
    match e_instances e !! id with
    | Some i => mkOutbox _ (save_completed_instance i (o_store o)).2 (o_queue o) (o_capacity o) (o_closed o) (o_errors o)
    | None => o
    end
  | _ => o
  end.
End outbox.

(** ** What a job does to the contents of the store *)

Definition on_current {A} (found : option A) (f : A → InMemoryPersistence → InMemoryPersistence)
    (m : InMemoryPersistence) : InMemoryPersistence :=
  match found with Some a => f a m | None => m end.
Definition job_effect (job : PersistJob) (e : Engine) : InMemoryPersistence → InMemoryPersistence :=
  match job with
  | JSaveInstance id => on_current (e_instances e !! id) mem_save_instance
  | JSaveDefinition id => on_current (e_definitions e !! id) mem_save_definition
  | JSaveUserTask id => on_current (e_user_tasks e !! id) mem_save_user_task
  | JDeleteUserTask id => mem_delete_user_task id
  | JSaveServiceTask id => on_current (primary (e_service_tasks e) !! id) mem_save_service_task
  | JDeleteServiceTask id => mem_delete_service_task id
  | JSaveTimer id => on_current (primary (e_timers e) !! id) mem_save_timer
  | JDeleteTimer id => mem_delete_timer id
  | JSaveMessageCatch id => on_current (e_message_catches e !! id) mem_save_message_catch
  | JDeleteMessageCatch id => mem_delete_message_catch id
  | JSaveSignalCatch id => on_current (e_signal_catches e !! id) mem_save_signal_catch
  | JDeleteSignalCatch id => mem_delete_signal_catch id
  | JSaveConditionalCatch id => on_current (e_conditional_catches e !! id) mem_save_conditional_catch
  | JDeleteConditionalCatch id => mem_delete_conditional_catch id
  | JAppendHistoryEntry x => mem_append_history_entry x
  | JShutdown => id
  end.
Definition is_append (job : PersistJob) : bool := match job with JAppendHistoryEntry _ => true | _ => false end.

Lemma job_effect_idempotent job e m : is_append job = false → job_effect job e (job_effect job e m) = job_effect job e m.
Proof.
  destruct job; cbn [is_append job_effect]; try done; intros _; unfold on_current; repeat case_match; try done;
    destruct m; unfold mem_save_instance, mem_save_definition, mem_save_user_task, mem_save_service_task, mem_save_timer,
      mem_save_message_catch, mem_save_signal_catch, mem_save_conditional_catch, mem_delete_user_task, mem_delete_service_task,
      mem_delete_timer, mem_delete_message_catch, mem_delete_signal_catch, mem_delete_conditional_catch; cbn; f_equal;
    first [apply insert_insert_eq | apply delete_delete_eq].
Qed.

Section laws.
  Context {St : Type} {W : WorkflowPersistence St} {PL : PersistenceLaws St}.

(** [writes] for an attempt with its error as a text. *)
Definition tries (f : InMemoryPersistence → InMemoryPersistence) (w : St → result string unit * St) : Prop :=
  ∀ s, match w s with
       | (Ok _, s') => contents s' = f (contents s)
       | (Err _, s') => contents s' = contents s ∨ contents s' = f (contents s)
       end.
Lemma tries_attempt f w : writes contents f w → tries f (attempt w).
Proof. intros H s. specialize (H s). unfold attempt. by destruct (w s) as [[]]. Qed.
Lemma tries_current {A} (found : option A) f w :
  (∀ a, writes contents (f a) (w a)) → tries (on_current found f) (attempt_current found w).
Proof. intros H. destruct found as [a|]; [apply tries_attempt, H|by intros s]. Qed.
Lemma execute_job_tries job e : is_append job = false → tries (job_effect job e) (execute_job job e).
Proof.
  destruct job; intros Hj; try done; cbn [job_effect execute_job]; try (apply tries_current; intros a); try apply tries_attempt; by try apply PL.
Qed.

(** A job whose attempts end in success wrote the record as it is in memory at the
    successful attempt, whatever happened to the engine and to the store during
    the pauses. *)
Theorem retry_saves_latest env job more backoff pauses e s e' s' pauses' :
  is_append job = false → retry_loop env job more backoff pauses e s = (Ok tt, (e', s', pauses')) →
  ∃ s0, execute_job job e' s0 = (Ok tt, s') ∧ contents s' = job_effect job e' (contents s0).
Proof.
  intros Hj. revert backoff pauses e s. induction more as [|more IH]; intros backoff pauses e s; cbn [retry_loop];
    pose proof (execute_job_tries job e Hj s) as Htry; destruct (execute_job job e s) as [[[]|err] s1] eqn:Hrun; try done.
  - intros [= <- <- <-]. by exists s.
  - intros [= <- <- <-]. by exists s.
  - destruct (env (length pauses) (e, s1)) as [e2 s2]. apply IH.
Qed.

(** Without interference the attempts of a job repeat one write. *)
Lemma retry_loop_quiet job more backoff pauses e s :
  is_append job = false →
  match retry_loop (λ _ x, x) job more backoff pauses e s with
  | (r, (e', s', _)) => e' = e ∧
    (contents s' = job_effect job e (contents s) ∨ r ≠ Ok tt ∧ contents s' = contents s)
  end.
Proof.
  intros Hidem. revert backoff pauses s. induction more as [|more IH]; intros backoff pauses s; cbn [retry_loop];
    pose proof (execute_job_tries job e Hidem s) as Htry; destruct (execute_job job e s) as [[[]|err] s1]; [by eauto|by naive_solver|by eauto|].
  specialize (IH (next_backoff backoff) (pauses ++ [backoff]) s1).
  destruct (retry_loop _ _ _ _ _ _ _) as [r [[e' s'] ps]]. destruct IH as [-> IH]. split; [done|].
  destruct Htry as [Hs|Hs], IH as [IH|[Hr IH]]; rewrite IH, Hs; rewrite ?job_effect_idempotent by done; auto.
Qed.

End laws.

(** ** How long a job is retried *)

Fixpoint backoffs (n : nat) (ms : N) : list N :=
  match n with 0 => [] | Datatypes.S n => ms :: backoffs n (next_backoff ms) end.
Definition total (l : list N) : N := foldr N.add 0%N l.

Lemma total_app l k : total (l ++ k) = (total l + total k)%N.
Proof. unfold total. rewrite foldr_app. induction l as [|x l IH]; [done|]. cbn. rewrite IH. lia. Qed.

Lemma retry_loop_pauses {St} `{WorkflowPersistence St} env job more backoff pauses e s :
  ∃ k, k ≤ more ∧ (retry_loop env job more backoff pauses e s).2.2 = pauses ++ take k (backoffs more backoff).
Proof.
  revert backoff pauses e s. induction more as [|more IH]; intros backoff pauses e s; cbn [retry_loop];
    destruct (execute_job job e s) as [[[]|err] s1]; try (exists 0; split; [lia|by rewrite take_0, app_nil_r]).
  destruct (env (length pauses) (e, s1)) as [e2 s2].
  destruct (IH (next_backoff backoff) (pauses ++ [backoff]) e2 s2) as (k & Hk & Hp).
  exists (Datatypes.S k). split; [lia|]. rewrite Hp. cbn. by rewrite <- app_assoc.
Qed.

(** The worker is never stuck at one job: whatever the store answers and whatever
    happens in between, it gives up after at most 50 attempts with at most 49
    pauses of one second to one minute each, 2643 seconds together. *)
Theorem retry_gives_up {St} `{WorkflowPersistence St} env job (w : Worker (St := St)) :
  ∃ new, w_pauses (process_job env job w) = w_pauses w ++ new ∧ length new ≤ 49 ∧
    Forall (λ ms, 1000 ≤ ms ≤ 60000)%N new ∧ (total new ≤ 2643000)%N.
Proof.
  destruct (retry_loop_pauses env job (MAX_RETRIES - 1) INITIAL_BACKOFF_MS (w_pauses w) (w_engine w) (w_store w))
    as (k & Hk & Hp).
  exists (take k (backoffs (MAX_RETRIES - 1) INITIAL_BACKOFF_MS)). split.
  { unfold process_job. destruct (retry_loop _ _ _ _ _ _ _) as [[[]|] [[e' s'] ps]]; exact Hp. }
  split; [rewrite length_take; change (MAX_RETRIES - 1) with 49 in Hk; lia|].
  set (l := backoffs (MAX_RETRIES - 1) INITIAL_BACKOFF_MS). split.
  - apply Forall_take. apply (bool_decide_eq_true_1 _). vm_compute. reflexivity.
  - assert (total l = 2643000)%N as <- by (vm_compute; reflexivity).
    rewrite <- (take_drop k l) at 2. rewrite total_app. lia.
Qed.

(** ** Draining accounts for every job *)

Definition carries_work (job : PersistJob) : bool := match job with JShutdown => false | _ => true end.
Definition accounted (d : DrainResult) : nat := dr_processed d + dr_failed d + dr_remaining d.

Section drain.
  Context {St : Type} {W : WorkflowPersistence St}.

Lemma drain_one_accounted job t d (w : Worker (St := St)) :
  let '(d', w') := drain_one job t d w in
  accounted d' = Datatypes.S (accounted d) ∧ dr_failed d ≤ dr_failed d' ∧
  w_errors w' = Nat.iter (dr_failed d' - dr_failed d) count_error (w_errors w).
Proof.
  unfold drain_one, accounted. destruct t; cbn.
  - rewrite Nat.sub_diag. split; [lia|]. done.
  - destruct (execute_job job (w_engine w) (w_store w)) as [[[]|err] s]; cbn; (split; [lia|]; split; [lia|]).
    + by rewrite Nat.sub_diag.
    + by replace (Datatypes.S (dr_failed d) - dr_failed d) with 1 by lia.
  - split; [lia|]. split; [lia|]. by replace (Datatypes.S (dr_failed d) - dr_failed d) with 1 by lia.
Qed.

Lemma iter_count_error a b n : Nat.iter a count_error (Nat.iter b count_error n) = Nat.iter (a + b) count_error n.
Proof. symmetry. apply Nat.iter_add. Qed.

Lemma drain_accounted timing n queue d (w : Worker (St := St)) :
  let '(d', w') := drain_retry_queue timing n queue d w in
  accounted d' = accounted d + count carries_work queue ∧ dr_failed d ≤ dr_failed d' ∧
  w_errors w' = Nat.iter (dr_failed d' - dr_failed d) count_error (w_errors w).
Proof.
  revert n d w. induction queue as [|job queue IH]; intros n d w.
  { cbn. rewrite Nat.sub_diag. split; [lia|]. done. }
  rewrite count_cons. destruct (carries_work job) eqn:Hj.
  - assert (drain_retry_queue timing n (job :: queue) d w =
      let '(d, w) := drain_one job (timing n) d w in drain_retry_queue timing (Datatypes.S n) queue d w) as -> by (by destruct job).
    pose proof (drain_one_accounted job (timing n) d w) as H1. destruct (drain_one _ _ _ _) as [d1 w1].
    specialize (IH (Datatypes.S n) d1 w1). destruct (drain_retry_queue _ _ _ _ _) as [d' w'].
    destruct H1 as (Ha1 & Hf1 & He1), IH as (Ha & Hf & He). split; [lia|]. split; [lia|].
    rewrite He, He1, iter_count_error. f_equal. lia.
  - destruct job; try done. apply IH.
Qed.

(** At shutdown every job still queued is accounted for: it was saved, its single
    attempt failed or timed out (and the error counter grew), or it was left
    because the time was up; nothing is dropped silently. *)
Theorem shutdown_drain_accounts env timing before queue (w : Worker (St := St)) :
  Forall (λ job, carries_work job = true) before →
  ∃ d w1, retry_worker env timing (before ++ JShutdown :: queue) w = (Some d, w1) ∧
    accounted d = count carries_work queue ∧
    w_errors w1 = Nat.iter (dr_failed d) count_error (w_errors (fold_left (λ w job, process_job env job w) before w)).
Proof.
  intros Hb. revert w. induction Hb as [|job before Hj Hb IH]; intros w.
  - cbn [retry_worker app fold_left].
    pose proof (drain_accounted timing 0 queue (mkDrain 0 0 0) w) as H. destruct (drain_retry_queue _ _ _ _ _) as [d w1].
    destruct H as (Ha & _ & He). exists d, w1. split; [done|]. split; [done|]. cbn in He. by rewrite Nat.sub_0_r in He.
  - destruct (IH (process_job env job w)) as (d & w1 & Hrun & H). exists d, w1. split; [|exact H].
    destruct job; try done; exact Hrun.
Qed.
End drain.

(** ** Saving with retries *)

Section saving.
  Context {St : Type} {W : WorkflowPersistence St}.

(** [n] failing calls lead from a store to another. *)
Fixpoint fails (w : Write St) (n : nat) (s s' : St) : Prop :=
  match n with 0 => s' = s | Datatypes.S n => ∃ err s1, w s = (Err err, s1) ∧ fails w n s1 s' end.

Lemma inline_attempts_spec w more delay s :
  match inline_attempts w more delay s with
  | (None, s', pauses) => ∃ s1, fails w (length pauses) s s1 ∧ w s1 = (Ok tt, s') ∧ length pauses ≤ more
  | (Some _, s', pauses) => fails w (Datatypes.S more) s s' ∧ length pauses = more
  end.
Proof.
  revert delay s. induction more as [|more IH]; intros delay s; cbn [inline_attempts]; destruct (w s) as [[[]|err] s1] eqn:Hw.
  - exists s. split; [done|]. split; [done|]. cbn. lia.
  - split; [|done]. exists err, s1. split; [done|]. done.
  - exists s. split; [done|]. split; [done|]. cbn. lia.
  - specialize (IH (delay * 2)%N s1). destruct (inline_attempts _ _ _ _) as [[[err'|] s'] pauses].
    + destruct IH as [Hf Hl]. split; [|cbn; lia]. exists err, s1. split; [done|exact Hf].
    + destruct IH as (s2 & Hf & Hok & Hl). exists s2. split; [|split; [done|cbn; lia]]. exists err, s1. split; [done|exact Hf].
Qed.

(** C17: A save is never lost silently: it succeeds within three calls and nothing else
    changes, or all three calls fail, the error is counted, and the job is in
    the queue (unless the worker has stopped, or the queue is full, which is
    counted again); the queue never outgrows its capacity. *)
Theorem inline_retry_spec w job (o : Outbox St) :
  let o' := inline_retry w job o in
  length (o_queue o') ≤ Nat.max (o_capacity o) (length (o_queue o)) ∧ o_capacity o' = o_capacity o ∧
  ((∃ n s1, n ≤ 2 ∧ fails w n (o_store o) s1 ∧ w s1 = (Ok tt, o_store o') ∧
      o_queue o' = o_queue o ∧ o_errors o' = o_errors o) ∨
   (fails w 3 (o_store o) (o_store o') ∧
    if o_closed o then o_queue o' = o_queue o ∧ o_errors o' = count_error (o_errors o)
    else if o_capacity o <=? length (o_queue o)
    then o_queue o' = o_queue o ∧ o_errors o' = count_error (count_error (o_errors o))
    else o_queue o' = o_queue o ++ [job] ∧ o_errors o' = count_error (o_errors o))).
Proof.
  cbv zeta. unfold inline_retry.
  pose proof (inline_attempts_spec w INLINE_RETRIES INLINE_BACKOFF_MS (o_store o)) as H.
  destruct (inline_attempts _ _ _ _) as [[[err|] s'] pauses].
  - destruct H as [Hf _]. unfold enqueue_retry. cbn. destruct (o_closed o); [split; [cbn; lia|]; by eauto|].
    destruct (Nat.leb_spec (o_capacity o) (length (o_queue o))); cbn; rewrite ?length_app; cbn; (split; [lia|]; by eauto).
  - destruct H as (s1 & Hf & Hok & Hl). cbn. split; [lia|]. split; [done|]. left. by exists (length pauses), s1.
Qed.
End saving.

(** ** Concrete runs *)

Definition saving_engine : Engine := engine_new <| e_instances := {[7%N := example_instance]} |>.
Definition saving_worker : Worker := mkWorker saving_engine mem_new 0 [].


Lemma shutdown_drain_accounts_witness :
  ∃ d w1, retry_worker (λ _ x, x) (λ n, if decide (n = 1) then TooLate else InTime)
      ([JSaveInstance 7] ++ JShutdown :: [JDeleteTimer 1; JShutdown; JSaveTimer 2]) saving_worker = (Some d, w1) ∧
    accounted d = 2.
Proof.
  destruct (shutdown_drain_accounts (λ _ x, x) (λ n, if decide (n = 1) then TooLate else InTime)
    [JSaveInstance 7] [JDeleteTimer 1; JShutdown; JSaveTimer 2] saving_worker) as (d & w1 & Hrun & Ha & _).
  - repeat constructor.
  - exists d, w1. split; [exact Hrun|exact Ha].
Defined.
