(* ===== verification/TaskDispatch.v ===== *)
(** * In-process task handlers

    engine-core/src/engine/task_handler.rs: handlers registered for a topic run
    inside the engine.  A dispatcher fetches their tasks, starts at most 64
    invocations at a time and applies the outcome of each like an external
    worker would.  What a handler returns is an argument; waiting is the choice
    of the next step, and the shutdown flag is an argument where it is read. *)

From stdpp Require Import base list gmap strings pretty.
From S2P Require Import Prelude Text Float Json CondLexer CondParser CondEval Domain Token ProcessDef DataMappings Runtime History Graph Registry Index TopicIndex TimerIndex Engine Scripts Handlers Boundary Waits Hoare EventScope ServiceTask TaskCompletion RetryQueue.
Local Open Scope rust_scope.

Definition IN_PROCESS_WORKER_ID : string := "bpmninja-in-process".
Definition IN_PROCESS_LOCK_SECONDS : Z := 60.
Definition LOCK_EXTEND_INTERVAL : Duration := (20 * second)%Z.
Definition MAX_CONCURRENT_HANDLERS : nat := 64.
Definition FALLBACK_TICK : Duration := second.
Definition DEFAULT_HANDLER_DRAIN_MS : N := 30000.

(** ** Outcomes *)

Inductive TaskOutcome :=
| OutcomeComplete (variables : Vars)
| OutcomeFailure (message : string) (details : option string) (retries : option Z) (retry_after : Duration)
| OutcomeBpmnError (code : string) (message : option string) (variables : Vars).

Definition outcome_success : TaskOutcome := OutcomeComplete ∅.
(** [complete] and [bpmn_error] collect their pairs, the last of a name wins. *)
Definition collect_pairs (l : list (string * Value)) : Vars := fold_left (λ m '(k, v), <[k := v]> m) l ∅.
Definition outcome_complete (l : list (string * Value)) : TaskOutcome := OutcomeComplete (collect_pairs l).
Definition outcome_bpmn_error (code : string) (message : option string) (l : list (string * Value)) : TaskOutcome :=
  OutcomeBpmnError code message (collect_pairs l).

(** How an invocation ended: with an outcome, cancelled, or in a panic; the text
    is tokio's. *)
Inductive Invocation :=
| Returned (o : TaskOutcome)
| Cancelled (err : string)
| HandlerPanicked (err : string).

Definition panic_outcome (err : string) : TaskOutcome :=
  OutcomeFailure "In-process task handler panicked" (Some err) None 0.
(** [invoke_handler] after the invocation. *)
Definition invocation_outcome (i : Invocation) : TaskOutcome :=
  match i with
  | Returned o => o
  | Cancelled err => OutcomeFailure "In-process task handler was cancelled" (Some err) None second
  | HandlerPanicked err => panic_outcome err
  end.

Definition handler_drain_budget (var : option string) : N := default DEFAULT_HANDLER_DRAIN_MS (var ≫= parse_u64).

(** ** Registration *)

Definition register_task_handler (topic : string) : M bool :=
  if bool_decide (topic = "") then mret false
  else
    replaced ← gets (λ e, bool_decide (topic ∈ e_task_handlers e));
    modify (λ e, e <| e_task_handlers ::= union {[topic]} |>) ;;
    notify_service_tasks_available ;;
    mret replaced.
Definition unregister_task_handler (topic : string) : M bool :=
  removed ← gets (λ e, bool_decide (topic ∈ e_task_handlers e));
  modify (λ e, e <| e_task_handlers ::= (.∖ {[topic]}) |>) ;;
  when removed notify_service_tasks_available ;;
  mret removed.

(** ** Locks of the dispatcher *)

Definition is_ours (t : PendingServiceTask) : bool := bool_decide (st_worker_id t = Some IN_PROCESS_WORKER_ID).
(** [release_in_process_lock]. *)
Definition release_in_process_lock (task_id : Uuid) : M unit :=
  mt ← gets (λ e, primary (e_service_tasks e) !! task_id);
  match mt with
  | Some t =>
    if is_ours t then
      modify_task task_id (λ t, t <| st_worker_id := None |> <| st_lock_expiration := None |>) ;;
      persist_service_task task_id ;;
      notify_service_tasks_available
    else mret tt
  | None => mret tt
  end.

(** [next_in_process_wait]: until five milliseconds after the next lock runs out,
    at most one second. *)
Definition lock_wait (e : Engine) (id : Uuid) : option Duration :=
  if bool_decide (id ∈ e_inflight e) then None
  else
    t ← primary (e_service_tasks e) !! id;
    if (st_retries t <=? 0)%Z then None
    else
      expiration ← st_lock_expiration t;
      if (expiration <=? e_now e)%Z then None else Some (expiration - e_now e + 5 * millisecond)%Z.
Definition sooner (soonest : option Duration) (wait : Duration) : option Duration :=
  match soonest with
  | Some current => if (current <=? wait)%Z then Some current else Some wait
  | None => Some wait
  end.
Definition next_in_process_wait (topics : list string) (e : Engine) : Duration :=
  let ids (topic : string) : list Uuid := from_option base.elements [] (index (e_service_tasks e) !! topic) in
  let soonest := fold_left sooner (omap (lock_wait e) (concat (ids <$> topics))) None in
  Z.min (default FALLBACK_TICK soonest) FALLBACK_TICK.

Section dispatcher.
  Context {U : UnicodeData} {S : ScriptEngine} {C : CronLib} {R : Nested}.

(** [apply_task_outcome]. *)
Definition apply_task_outcome (task_id : Uuid) (o : TaskOutcome) : M unit :=
  match o with
  | OutcomeComplete vars => complete_service_task task_id IN_PROCESS_WORKER_ID vars
  | OutcomeFailure message details retries after =>
    fail_service_task_with_retry_timeout task_id IN_PROCESS_WORKER_ID retries (Some message) details after
  | OutcomeBpmnError code message vars =>
    handle_bpmn_error_with_variables task_id IN_PROCESS_WORKER_ID code vars message
  end.
(** [execute_task_handler]: an error or panic while applying is only logged. *)
Definition execute_task_handler (task_id : Uuid) (i : Invocation) : M unit := λ e,
  match apply_task_outcome task_id (invocation_outcome i) e with
  | (Err Blocked, e') => (Err Blocked, e')
  | (Err OutOfFuel, e') => (Err OutOfFuel, e')
  | (_, e') => (Ok tt, e')
  end.
End dispatcher.

(** ** The dispatcher *)

(** [spawn_handler_invocation] and the end of its [InFlightGuard]. *)
Definition spawn_handler_invocation (task_id : Uuid) (running : list Uuid) : M (list Uuid) :=
  modify (λ e, e <| e_inflight ::= union {[task_id]} |>) ;;
  mret (running ++ [task_id]).
Definition end_invocation (task_id : Uuid) (running : list Uuid) : M (list Uuid) :=
  modify (λ e, e <| e_inflight ::= (.∖ {[task_id]}) |>) ;;
  mret (List.filter (λ id, negb (bool_decide (id = task_id))) running).

(** The loop over the fetched tasks: a task whose handler is gone, or for which
    there is no permit, is released. *)
Fixpoint dispatch_tasks (tasks : list PendingServiceTask) (running : list Uuid) : M (list Uuid) :=
  match tasks with
  | [] => mret running
  | t :: tasks =>
    handlers ← gets e_task_handlers;
    if bool_decide (st_topic t ∈ handlers) && (length running <? MAX_CONCURRENT_HANDLERS) then
      running ← spawn_handler_invocation (st_id t) running;
      dispatch_tasks tasks running
    else
      release_in_process_lock (st_id t) ;;
      dispatch_tasks tasks running
  end.

(** One turn of [run_task_handler_dispatcher] with the invocations that are
    running; [stopping] is the shutdown flag after the fetch. *)
Definition dispatcher_turn (stopping : bool) (running : list Uuid) : M (list Uuid) :=
  let capacity := MAX_CONCURRENT_HANDLERS - length running in
  if capacity =? 0 then mret running
  else
    topics ← gets (λ e, base.elements (e_task_handlers e));
    tasks ← match topics with
            | [] => mret []
            | _ => fetch_and_lock_in_process IN_PROCESS_WORKER_ID capacity topics IN_PROCESS_LOCK_SECONDS
            end;
    if stopping then
      forM tasks (λ t, release_in_process_lock (st_id t)) ;;
      mret running
    else dispatch_tasks tasks running.

(** A look at the running invocations during the shutdown: the clock, what the engine did
    since the last one, and the invocations that ended since. *)
Record Look := mkLook { lk_now : Z; lk_during : Engine → Engine; lk_ended : list Uuid }.
Fixpoint end_all (ids : list Uuid) (running : list Uuid) : M (list Uuid) :=
  match ids with
  | [] => mret running
  | id :: ids => running ← end_invocation id running; end_all ids running
  end.
(** [join_with_budget]: the number of invocations that had to be aborted, or [None] while
    it waits for the next look.  The guard of an aborted invocation is dropped. *)
Fixpoint join_with_budget (deadline : Z) (looks : list Look) (running : list Uuid) : M (option nat) :=
  match looks with
  | [] => mret None
  | look :: looks =>
    modify (lk_during look) ;;
    running ← end_all (lk_ended look) running;
    match running with
    | [] => mret (Some 0)
    | _ =>
      if (deadline <=? lk_now look)%Z then
        _ ← end_all running running;
        mret (Some (length running))
      else join_with_budget deadline looks running
    end
  end.

(** ** The dispatcher never runs a task twice *)

(** What happens in the engine's process: a turn of the dispatcher, the end of an
    invocation (also when it is aborted), and everything else, the outcomes of
    handlers included, which leaves the set of running invocations alone. *)
Inductive dispatch_step : Engine * list Uuid → Engine * list Uuid → Prop :=
| turn_step stopping e running running' e' :
    dispatcher_turn stopping running e = (Ok running', e') → dispatch_step (e, running) (e', running')
| end_step id e running running' e' :
    end_invocation id running e = (Ok running', e') → dispatch_step (e, running) (e', running')
| other_step e e' running :
    e_inflight e' = e_inflight e → keyed st_id (primary (e_service_tasks e')) → dispatch_step (e, running) (e', running).

Record dispatch_ok (d : Engine * list Uuid) : Prop := {
  dok_once : NoDup d.2;
  dok_bound : length d.2 ≤ MAX_CONCURRENT_HANDLERS;
  dok_inflight : e_inflight d.1 = list_to_set d.2;
  dok_keyed : keyed st_id (primary (e_service_tasks d.1));
}.

Section fetched_tasks.
  Context (worker : string) (n : nat) (durations : gmap string Z) (handlers : gset string) (inflight : gset Uuid)
    (audience : ServiceTaskFetchAudience) (at_ : DateTime).

Lemma fetch_loop_claims candidates s res :
  keyed st_id (primary s) →
  let '(r, s') := fetch_loop worker n durations handlers inflight audience at_ candidates s res in
  keyed st_id (primary s') ∧ ∃ new, r = res ++ new ∧ length r ≤ Nat.max n (length res) ∧
    (st_id <$> new) `sublist_of` candidates.*2 ∧ Forall (λ t, st_id t ∉ inflight) new.
Proof.
  revert s res. induction candidates as [|[topic id] rest IH]; intros s res Hk; cbn [fetch_loop].
  { split; [done|]. exists []. rewrite app_nil_r. split_and!; [done|lia|constructor|constructor]. }
  assert (∀ s, keyed st_id (primary s) →
    let '(r, s') := fetch_loop worker n durations handlers inflight audience at_ rest s res in
    keyed st_id (primary s') ∧ ∃ new, r = res ++ new ∧ length r ≤ Nat.max n (length res) ∧
      (st_id <$> new) `sublist_of` ((topic, id) :: rest).*2 ∧ Forall (λ t, st_id t ∉ inflight) new) as Hskip.
  { intros s1 Hs1. specialize (IH s1 res Hs1). destruct (fetch_loop _ _ _ _ _ _ _ _ _ _) as [r s'].
    destruct IH as (Hk' & new & -> & Hl & Hsub & Hf). split; [done|]. exists new. split_and!; [done..| |done]. by apply sublist_cons. }
  destruct (Nat.leb_spec n (length res)).
  { split; [done|]. exists []. rewrite app_nil_r. split_and!; [done|lia|apply sublist_nil_l|constructor]. }
  destruct (primary s !! id) as [t|] eqn:Ht; [|by apply Hskip]. destruct (claimable _ _ _ _ _ _) eqn:Hc; [|by apply Hskip].
  specialize (IH (store_modify id (locked worker durations at_ topic) s) (res ++ [locked worker durations at_ topic t])).
  destruct (fetch_loop _ _ _ _ _ _ _ _ _ _) as [r s']. destruct IH as (Hk' & new & -> & Hl & Hsub & Hf).
  { intros k v. cbn. rewrite lookup_alter_Some. intros [(<- & x & Hx & ->)|[_ Hx]]; [|by apply Hk]. by rewrite <- (Hk _ _ Hx). }
  split; [done|]. exists (locked worker durations at_ topic t :: new). rewrite <- app_assoc. split; [done|].
  rewrite length_app in Hl |- *. cbn in Hl |- *. rewrite !length_app in Hl. cbn in Hl. split; [lia|].
  assert (st_id t = id) as Hid by (by apply Hk). rewrite Hid. split; [by apply sublist_skip|]. constructor; [|done]. cbn.
  rewrite Hid. unfold claimable in Hc. rewrite !andb_true_iff, negb_true_iff, bool_decide_eq_false in Hc. by destruct_and!.
Qed.
End fetched_tasks.

(** An operation that always succeeds, leaves the running invocations alone and
    keeps the tasks under their ids. *)
Definition calm (m : M unit) : Prop :=
  ∀ e, ∃ e', m e = (Ok tt, e') ∧ e_inflight e' = e_inflight e ∧ e_task_handlers e' = e_task_handlers e ∧
    (keyed st_id (primary (e_service_tasks e)) → keyed st_id (primary (e_service_tasks e'))).

Lemma calm_quiet m : quiet m → calm m.
Proof. intros Hm e. destruct (Hm e) as (u & l & Heq & _). by exists (sent u l e). Qed.
Lemma calm_bind (m k : M unit) : calm m → calm k → calm (m ;; k).
Proof.
  intros Hm Hk e. destruct (Hm e) as (e1 & Hrun & Hi & Hh & Hkey). destruct (Hk e1) as (e2 & Hrun' & Hi' & Hh' & Hkey').
  exists e2. rewrite bind_run, Hrun. split_and!; [done|congruence|congruence|auto].
Qed.
Lemma calm_forM {A} (l : list A) f : (∀ x, calm (f x)) → calm (forM l f).
Proof.
  intros Hf. induction l as [|x l IH]; cbn [forM]; [by apply calm_quiet, quiet_ret|]. by apply calm_bind.
Qed.
Lemma calm_modify_task id f : (∀ t, st_id (f t) = st_id t) → calm (modify_task id f).
Proof.
  intros Hf e. eexists. split; [reflexivity|]. split; [done|]. split; [done|]. intros Hk k v. cbn.
  rewrite lookup_alter_Some. intros [(<- & x & Hx & ->)|[_ Hx]]; [rewrite Hf|]; by apply Hk.
Qed.
Lemma calm_release id : calm (release_in_process_lock id).
Proof.
  intros e. unfold release_in_process_lock. rewrite bind_run. cbn [gets].
  destruct (primary (e_service_tasks e) !! id) as [t|]; [|by apply (calm_quiet (mret tt) quiet_ret)].
  destruct (is_ours t); [|by apply (calm_quiet (mret tt) quiet_ret)].
  apply calm_bind; [by apply calm_modify_task|]. apply calm_quiet. unfold persist_service_task, notify_service_tasks_available.
  eauto with rust.
Qed.

Lemma fetch_in_process_run worker n topics seconds e :
  keyed st_id (primary (e_service_tasks e)) →
  ∃ tasks e', fetch_and_lock_in_process worker n topics seconds e = (Ok tasks, e') ∧
    NoDup (st_id <$> tasks) ∧ length tasks ≤ n ∧ Forall (λ t, st_id t ∉ e_inflight e) tasks ∧
    e_inflight e' = e_inflight e ∧ keyed st_id (primary (e_service_tasks e')).
Proof.
  intros Hk. unfold fetch_and_lock_in_process, fetch_and_lock_inner, now, gets. rewrite !bind_run. cbn [Datatypes.id].
  set (names := (λ t, (t, seconds)) <$> topics).
  destruct (candidate_loop_spec (index (e_service_tasks e)) names.*1 ∅ []) as (Hnd & _); [set_solver|constructor|].
  pose proof (fetch_loop_claims worker n (durations_of names) (e_task_handlers e) (e_inflight e) InProcessDispatcher (e_now e)
    (candidate_ids (index (e_service_tasks e)) names.*1) (e_service_tasks e) [] Hk) as H.
  destruct (fetch_loop _ _ _ _ _ _ _ (candidate_ids _ _) _ _) as [r s]. destruct H as (Hk' & new & -> & Hl & Hsub & Hf).
  rewrite bind_run. cbn [modify].
  destruct (quiet_run (forM new (λ t, persist_service_task (st_id t))) (mret new) (e <| e_service_tasks := s |>))
    as (u & l & Hrun & _); [unfold persist_service_task; eauto with rust|]. cbn [app]. rewrite Hrun.
  eexists new, _. split; [reflexivity|]. split; [by eapply sublist_NoDup|]. split; [cbn in Hl; lia|done].
Qed.

Lemma dispatch_ok_release d id :
  dispatch_ok d → ∃ e', release_in_process_lock id d.1 = (Ok tt, e') ∧ dispatch_ok (e', d.2) ∧ e_inflight e' = e_inflight d.1.
Proof.
  intros []. destruct (calm_release id d.1) as (e' & Hrun & Hi & _ & Hk). exists e'. split; [done|]. split; [|done].
  split; cbn; [done..|congruence|auto].
Qed.
Lemma dispatch_ok_spawn e running id :
  dispatch_ok (e, running) → id ∉ running → length running < MAX_CONCURRENT_HANDLERS →
  dispatch_ok (e <| e_inflight ::= union {[id]} |>, running ++ [id]).
Proof.
  intros [] Hid Hl. cbn in *. split; cbn.
  - apply NoDup_app. split_and!; [done| |apply NoDup_singleton]. intros x Hx ->%list_elem_of_singleton. done.
  - rewrite length_app. cbn. lia.
  - rewrite dok_inflight0, list_to_set_app_L. set_solver.
  - done.
Qed.

Lemma dispatch_tasks_ok tasks e running :
  dispatch_ok (e, running) → NoDup (st_id <$> tasks) → Forall (λ t, st_id t ∉ running) tasks →
  ∃ running' e', dispatch_tasks tasks running e = (Ok running', e') ∧ dispatch_ok (e', running').
Proof.
  revert e running. induction tasks as [|t tasks IH]; intros e running Hok Hnd Hf; cbn [dispatch_tasks].
  { by exists running, e. }
  apply NoDup_cons in Hnd as [Hnot Hnd]. apply Forall_cons in Hf as [Ht Hf]. rewrite bind_run. cbn [gets].
  destruct (_ && _) eqn:Hgo.
  - apply andb_true_iff in Hgo as [_ Hl%Nat.ltb_lt]. rewrite bind_run. cbn [spawn_handler_invocation].
    unfold spawn_handler_invocation. rewrite bind_run. cbn [modify mret M_ret]. apply IH; [by apply dispatch_ok_spawn|done|].
    rewrite Forall_forall in Hf |- *. intros t' Ht' [Hin|Heq%list_elem_of_singleton]%elem_of_app; [by eapply Hf|].
    apply Hnot. rewrite <- Heq. by apply list_elem_of_fmap_2.
  - rewrite bind_run. destruct (dispatch_ok_release (e, running) (st_id t) Hok) as (e' & Hrun & Hok' & _). cbn in Hrun.
    rewrite Hrun. by apply IH.
Qed.

Lemma dispatcher_turn_ok stopping e running :
  dispatch_ok (e, running) → ∃ running' e', dispatcher_turn stopping running e = (Ok running', e') ∧ dispatch_ok (e', running').
Proof.
  intros Hok. unfold dispatcher_turn. destruct (_ =? 0); [by exists running, e|]. rewrite bind_run. cbn [gets].
  assert (∃ tasks e', (match base.elements (e_task_handlers e) with
      | [] => mret []
      | _ => fetch_and_lock_in_process IN_PROCESS_WORKER_ID (MAX_CONCURRENT_HANDLERS - length running)
               (base.elements (e_task_handlers e)) IN_PROCESS_LOCK_SECONDS
      end) e = (Ok tasks, e') ∧ NoDup (st_id <$> tasks) ∧ Forall (λ t, st_id t ∉ running) tasks ∧ dispatch_ok (e', running))
    as (tasks & e' & Hrun & Hnd & Hf & Hok').
  { destruct (base.elements (e_task_handlers e)) as [|topic topics].
    { exists [], e. split_and!; [done|constructor|constructor|done]. }
    destruct (fetch_in_process_run IN_PROCESS_WORKER_ID (MAX_CONCURRENT_HANDLERS - length running) (topic :: topics)
      IN_PROCESS_LOCK_SECONDS e (dok_keyed _ Hok)) as (tasks & e' & Hrun & Hnd & _ & Hf & Hi & Hk).
    exists tasks, e'. destruct Hok as [Ho Hb Hin Hkey]. cbn in *. split_and!; [done|done| |split; cbn; [done|done|congruence|done]].
    eapply Forall_impl; [exact Hf|]. intros t Ht Hr. apply Ht. rewrite Hin. by apply elem_of_list_to_set. }
  rewrite bind_run, Hrun. destruct stopping; [|by apply dispatch_tasks_ok].
  rewrite bind_run. destruct (calm_forM tasks (λ t, release_in_process_lock (st_id t)) (λ t, calm_release _) e')
    as (e2 & Hrun2 & Hi & _ & Hk). rewrite Hrun2. exists running, e2. split; [done|]. destruct Hok'. cbn in *.
  split; cbn; [done..|congruence|auto].
Qed.

Lemma dispatch_step_ok d d' : dispatch_step d d' → dispatch_ok d → dispatch_ok d'.
Proof.
  intros [stopping e running running' e' Hrun|id e running running' e' Hrun|e e' running Hi Hk] Hok.
  - destruct (dispatcher_turn_ok stopping e running Hok) as (r & e2 & Hrun' & Hok'). rewrite Hrun in Hrun'. by simplify_eq.
  - injection Hrun as <- <-. destruct Hok as [Ho Hb Hin Hk]. cbn in *. split; cbn; [by apply NoDup_ListNoDup, List.NoDup_filter, NoDup_ListNoDup| | |done].
    + etrans; [apply count_le_length|done].
    + rewrite Hin. apply set_eq. intros x. rewrite elem_of_difference, !elem_of_list_to_set, elem_of_filter_bool, elem_of_singleton.
      rewrite negb_true_iff, bool_decide_eq_false. done.
  - destruct Hok. cbn in *. split; cbn; [done|done|congruence|done].
Qed.

(** C16: No task is executed twice at the same time: whatever turns the dispatcher
    takes, invocations end or are aborted, and the engine does in between, each
    task has at most one running invocation, at most 64 run, and a task that
    runs is not claimable by anybody, dispatcher or external worker. *)
Theorem handlers_exclude d d' :
  dispatch_ok d → rtc dispatch_step d d' →
  dispatch_ok d' ∧
  ∀ id t audience, id ∈ d'.2 →
    claimable (e_task_handlers d'.1) (e_inflight d'.1) (e_now d'.1) audience id t = false.
Proof.
  intros Hok Hsteps. assert (dispatch_ok d') as Hok'.
  { induction Hsteps as [|x y z Hstep _ IH]; [done|]. apply IH. by eapply dispatch_step_ok. }
  split; [done|]. intros id t audience Hid. unfold claimable. rewrite (dok_inflight _ Hok').
  rewrite (bool_decide_eq_true_2 (id ∈ _)) by (by apply elem_of_list_to_set). by rewrite andb_false_r.
Qed.

(** ** A shutdown ends *)

Definition LOOK_MS : Z := 5.
(** Looks are five milliseconds apart, and the engine leaves the invocations alone. *)
Fixpoint paced_looks (now : Z) (looks : list Look) : Prop :=
  match looks with
  | [] => True
  | look :: looks => (now + LOOK_MS <= lk_now look)%Z ∧ paced_looks (lk_now look) looks
  end.
Definition leaves_handlers (look : Look) : Prop := ∀ e, e_inflight (lk_during look e) = e_inflight e ∧
  (keyed st_id (primary (e_service_tasks e)) → keyed st_id (primary (e_service_tasks (lk_during look e)))).
Lemma end_all_ok ids running e :
  dispatch_ok (e, running) → ∃ running' e', end_all ids running e = (Ok running', e') ∧ dispatch_ok (e', running') ∧
    (∀ id, id ∈ running' ↔ id ∈ running ∧ id ∉ ids) ∧ length running' ≤ length running.
Proof.
  revert running e. induction ids as [|id ids IH]; intros running e Hok; cbn [end_all].
  - exists running, e. split; [done|]. split; [done|]. split; [set_solver|lia].
  - rewrite bind_run. unfold end_invocation at 1. rewrite bind_run. cbn [modify mret M_ret].
    set (e1 := e <| e_inflight ::= (.∖ {[id]}) |>). set (left := List.filter _ running).
    assert (dispatch_ok (e1, left)) as Hok1 by (by eapply (dispatch_step_ok (e, running)); [apply (end_step id)|]).
    destruct (IH left e1 Hok1) as (running' & e' & Hrun & Hok' & Hin & Hlen). exists running', e'. split; [done|]. split; [done|].
    split; [|etrans; [exact Hlen|]; apply count_le_length].
    intros x. rewrite Hin. unfold left. rewrite elem_of_filter_bool, negb_true_iff, bool_decide_eq_false, not_elem_of_cons. tauto.
Qed.
(** Stopping the dispatcher ends: after the budget has been looked through nothing runs,
    nothing is in flight any more, and invocations were aborted only when the budget was
    used up. *)
Theorem shutdown_ends deadline looks running now e :
  dispatch_ok (e, running) → Forall leaves_handlers looks → paced_looks now looks →
  (deadline <= now + LOOK_MS * Z.of_nat (length looks))%Z → looks ≠ [] →
  ∃ n e', join_with_budget deadline looks running e = (Ok (Some n), e') ∧ e_inflight e' = ∅ ∧ n ≤ length running ∧
    (0 < n → ∃ look, look ∈ looks ∧ (deadline <= lk_now look)%Z).
Proof.
  intros Hok Hl. revert running now e Hok. induction Hl as [|look looks Hlook Hl IH]; [done|]; intros running now e Hok [Hnow Hp] Hb _.
  cbn [join_with_budget]. rewrite bind_run. cbn [modify]. destruct (Hlook e) as [Hi Hk].
  assert (dispatch_ok (lk_during look e, running)) as Hok1.
  { eapply (dispatch_step_ok (e, running)); [|done]. apply other_step; [done|]. apply Hk. by destruct Hok. }
  destruct (end_all_ok (lk_ended look) running _ Hok1) as (left & e1 & Hrun & Hok2 & _ & Hlen). rewrite bind_run, Hrun.
  destruct left as [|id left]; [exists 0, e1; split; [done|]; split; [exact (dok_inflight _ Hok2)|]; split; [lia|intros; lia]|].
  destruct (Z.leb_spec deadline (lk_now look)) as [Hd|Hd].
  - rewrite bind_run. destruct (end_all_ok (id :: left) (id :: left) e1 Hok2) as (none & e2 & Hrun2 & Hok3 & Hin & _). rewrite Hrun2.
    assert (none = []) as -> by (destruct none as [|x none]; [done|]; exfalso; destruct (Hin x) as [[H1 H2] _]; [by left|done]).
    exists (length (id :: left)), e2. split; [done|]. split; [exact (dok_inflight _ Hok3)|]. split; [done|]. intros _. exists look. split; [by left|done].
  - destruct looks as [|look' looks]; [cbn in Hb; unfold LOOK_MS in *; lia|].
    destruct (IH (id :: left) (lk_now look) e1 Hok2 Hp) as (n & e' & Hrun' & Hi' & Hn & Habort).
    + cbn [length] in *. unfold LOOK_MS in *. lia.
    + done.
    + exists n, e'. split; [done|]. split; [done|]. split; [lia|]. intros H0. destruct (Habort H0) as (l & Hin & Hld). exists l. split; [by right|done].
Qed.

(** ** The dispatcher wakes up in time *)

Lemma fold_sooner ws acc :
  match fold_left sooner ws acc with
  | Some w => (w ∈ ws ∨ acc = Some w) ∧ (∀ w', w' ∈ ws ∨ acc = Some w' → (w ≤ w')%Z)
  | None => ws = [] ∧ acc = None
  end.
Proof.
  revert acc. induction ws as [|x ws IH]; intros acc; cbn [fold_left].
  - destruct acc as [w|]; [|done]. split; [by right|]. intros w' [Hw|[= <-]]; [by apply not_elem_of_nil in Hw|lia].
  - specialize (IH (sooner acc x)). destruct (fold_left sooner ws (sooner acc x)) as [w|].
    + destruct IH as [Hw Hmin]. destruct acc as [a|]; cbn in *; [destruct (Z.leb_spec a x)|].
      * split; [set_solver|]. intros w' [[->|H']%elem_of_cons|[= <-]]; [|auto|auto]. specialize (Hmin a (or_intror eq_refl)). lia.
      * split; [set_solver|]. intros w' [[->|H']%elem_of_cons|[= <-]]; [auto|auto|]. specialize (Hmin x (or_intror eq_refl)). lia.
      * split; [set_solver|]. intros w' [[->|H']%elem_of_cons|[=]]; auto.
    + destruct IH as [_ IH]. destruct acc as [a|]; cbn in IH; [by destruct (a <=? x)%Z|done].
Qed.

(** The dispatcher always waits some time and at most one second, and when a task
    of its topics with tries left is locked it wakes at most five milliseconds
    after that lock runs out. *)
Theorem next_in_process_wait_spec topics e :
  let wait := next_in_process_wait topics e in
  (0 < wait ≤ second)%Z ∧
  ∀ topic ids id t x, topic ∈ topics → index (e_service_tasks e) !! topic = Some ids → id ∈ ids → id ∉ e_inflight e →
    primary (e_service_tasks e) !! id = Some t → (0 < st_retries t)%Z → st_lock_expiration t = Some x → (e_now e < x)%Z →
    (e_now e + wait ≤ x + 5 * millisecond)%Z.
Proof.
  cbv zeta. unfold next_in_process_wait. set (ids_of topic := from_option base.elements [] (index (e_service_tasks e) !! topic)).
  set (waits := omap (lock_wait e) (concat (ids_of <$> topics))). pose proof (fold_sooner waits None) as H.
  assert (∀ w, w ∈ waits → (0 < w)%Z) as Hpos.
  { intros w (id & _ & Hw)%list_elem_of_omap. unfold lock_wait in Hw. case_bool_decide; [done|].
    destruct (primary (e_service_tasks e) !! id) as [t|]; [|done]. cbn in Hw. destruct (st_retries t <=? 0)%Z; [done|].
    destruct (st_lock_expiration t) as [x|]; [|done]. cbn in Hw. destruct (Z.leb_spec x (e_now e)); [done|].
    injection Hw as <-. unfold millisecond. lia. }
  assert (∀ w, fold_left sooner waits None = Some w → (0 < w)%Z) as Hw.
  { intros w Heq. rewrite Heq in H. destruct H as [[Hw|[=]] _]. by apply Hpos. }
  split.
  - destruct (fold_left sooner waits None) as [w|]; cbn [default from_option]; [specialize (Hw w eq_refl)|];
      unfold FALLBACK_TICK, second, id; lia.
  - intros topic ids id t x Htopic Hids Hid Hfree Ht Hr Hx Hnow.
    assert (x - e_now e + 5 * millisecond ∈ waits)%Z as Hin.
    { apply list_elem_of_omap. exists id. split.
      - apply list_elem_of_In, in_concat. exists (ids_of topic). rewrite <- !list_elem_of_In. split; [by apply list_elem_of_fmap_2|].
        unfold ids_of. rewrite Hids. by apply elem_of_elements.
      - unfold lock_wait. rewrite bool_decide_eq_false_2, Ht by done. cbn.
        destruct (Z.leb_spec (st_retries t) 0); [lia|]. rewrite Hx. cbn. destruct (Z.leb_spec x (e_now e)); [lia|done]. }
    destruct (fold_left sooner waits None) as [w|]; [|destruct H as [-> _]; by apply not_elem_of_nil in Hin].
    destruct H as [_ Hmin]. specialize (Hmin _ (or_introl Hin)). cbn [default from_option]. unfold Datatypes.id. lia.
Qed.

(** ** A concrete dispatcher *)

Definition dispatch_engine : Engine :=
  engine_new <| e_service_tasks := insert_pending_service_task (example_task 5 "mail") store_empty |>
    <| e_task_handlers := {["mail"]} |>.

Lemma dispatch_engine_ok : dispatch_ok (dispatch_engine, []).
Proof.
  split; cbn; [constructor|lia|done|]. intros k t Ht. change (({[5%N := example_task 5 "mail"]} : gmap Uuid _) !! k = Some t) in Ht.
  by apply lookup_singleton_Some in Ht as [<- <-].
Qed.

Lemma handlers_exclude_witness :
  ∃ e', dispatcher_turn false [] dispatch_engine = (Ok [5%N], e') ∧ dispatch_ok (e', [5%N]) ∧
    ∀ t audience, claimable (e_task_handlers e') (e_inflight e') (e_now e') audience 5 t = false.
Proof.
  assert (∃ e', dispatcher_turn false [] dispatch_engine = (Ok [5%N], e')) as [e' Hrun].
  { eexists. vm_compute. reflexivity. }
  destruct (handlers_exclude (dispatch_engine, []) (e', [5%N]) dispatch_engine_ok) as [Hok Hex].
  - apply rtc_once. by apply (turn_step false).
  - exists e'. split; [exact Hrun|]. split; [exact Hok|]. intros t audience. apply Hex. apply list_elem_of_here.
Defined.
