(* ===== verification/BpmnScan.v ===== *)
(** * The scan for unsupported elements

    bpmn-parser/src/parser.rs, the pass over the reader's events that runs before
    the document is deserialized: it lists the processes of the document and, for
    each, every element whose execution semantics the engine lacks.  The stack of
    open tags is a list with the innermost tag first. *)

From stdpp Require Import base list gmap strings pretty.
From S2P Require Import Prelude Text TextSplit Json Domain BpmnModels.
Local Open Scope rust_scope.

(** ** Tables *)

Definition EVENT_KINDS : list string :=
  ["boundaryEvent"; "endEvent"; "intermediateCatchEvent"; "intermediateThrowEvent"; "startEvent"].

Definition SUPPORTED_EVENT_DEFINITIONS : list (string * list string) := [
  ("boundaryEvent",
   ["compensateEventDefinition"; "conditionalEventDefinition"; "errorEventDefinition";
    "escalationEventDefinition"; "messageEventDefinition"; "signalEventDefinition"; "timerEventDefinition"]);
  ("endEvent",
   ["compensateEventDefinition"; "errorEventDefinition"; "escalationEventDefinition";
    "signalEventDefinition"; "terminateEventDefinition"]);
  ("intermediateCatchEvent",
   ["conditionalEventDefinition"; "linkEventDefinition"; "messageEventDefinition";
    "signalEventDefinition"; "timerEventDefinition"]);
  ("intermediateThrowEvent",
   ["compensateEventDefinition"; "escalationEventDefinition"; "linkEventDefinition";
    "messageEventDefinition"; "signalEventDefinition"]);
  ("startEvent", ["messageEventDefinition"; "signalEventDefinition"; "timerEventDefinition"])].

Definition UNSUPPORTED_ELEMENTS : list string :=
  ["adHocSubProcess"; "standardLoopCharacteristics"; "task"; "transaction"].

Definition REJECTED_EVENT_DEFINITIONS : list (string * string) :=
  [("boundaryEvent", "cancelEventDefinition"); ("endEvent", "cancelEventDefinition");
   ("startEvent", "conditionalEventDefinition")].

Definition REJECTED_ATTRIBUTES : list string :=
  ["eventBasedGateway@eventGatewayType=Parallel"; "eventBasedGateway@instantiate"].

(** [slice.contains(&x)]. *)
Definition contains (l : list string) (x : string) : bool := existsb (String.eqb x) l.

(** ** State of the scan *)

Record XmlFrame := mkFrame {
  xf_name : string;
  xf_id : option string;
  event_defs : nat;
  xf_triggered_by_event : bool;
}.
Record XmlScan := mkScan {
  xs_stack : list XmlFrame;
  xs_processes : list (string * bool);
  xs_violations : list (list string);
  xs_current : option nat;
}.

Definition flag_is_true (value : string) : bool :=
  let value := trim_str value in eq_ignore_ascii_case value "true" || String.eqb value "1".
Definition is_parallel_gateway_type (value : string) : bool := eq_ignore_ascii_case (trim_str value) "parallel".

(** The line a position of the text lies on. *)
Fixpoint newlines (n : nat) (s : string) : nat :=
  match n, s with
  | S n, String c s => (if Ascii.eqb c (Ascii.ascii_of_nat 10) then 1 else 0) + newlines n s
  | _, _ => 0
  end.
Definition line_of (xml : string) (pos : N) : nat := newlines (min (N.to_nat pos) (String.length xml)) xml + 1.

Definition element_local_name (element : XmlElement) : string := xe_local_name element.
(** The value of the first attribute with the local name; unreadable attributes
    are skipped, an unreadable value counts as absent. *)
Definition xml_attr (element : XmlElement) (name : string) : option string :=
  attr ← find_map (λ r, match r with
    | Ok attr => if String.eqb (at_local_name attr) name then Some attr else None
    | Err _ => None
    end) (xe_attributes element);
  match at_value attr DefaultVersion with Ok value => Some value | Err _ => None end.

Definition nonempty (o : option string) : option string :=
  s ← o; if String.eqb s "" then None else Some s.
Definition nearest_id (own : option string) (stack : list XmlFrame) : string :=
  match nonempty own with
  | Some id => id
  | None => default "?" (find_map (λ frame, nonempty (xf_id frame)) stack)
  end.

(** ** Texts *)

Definition in_line (line : option nat) (pre : string) : string :=
  match line with Some line => pre +:+ " (line " +:+ pretty line +:+ ")" | None => pre end.
Definition paren (label id : string) (line : option nat) : string :=
  match line with
  | Some line => "(" +:+ label +:+ " '" +:+ id +:+ "', line " +:+ pretty line +:+ ")"
  | None => "(" +:+ label +:+ " '" +:+ id +:+ "')"
  end.
Definition transaction_violation (id : string) (line : option nat) : string :=
  "transaction sub-processes are not supported; cancel events cannot be deployed " +:+ paren "transaction" id line.
Definition cancel_violation (kind_label id : string) (line : option nat) : string :=
  "cancel end events require a transaction sub-process; transactions are not supported " +:+ paren kind_label id line.
Definition conditional_start_violation (id : string) (sub_process : option string) (line : option nat) : string :=
  let location := match sub_process with
    | Some sub_process => "start event '" +:+ id +:+ "' in subProcess '" +:+ sub_process +:+ "'"
    | None => "start event '" +:+ id +:+ "'"
    end in
  "conditional start events are not supported; no global variable scope "
  +:+ match line with
      | Some line => "(" +:+ location +:+ ", line " +:+ pretty line +:+ ")"
      | None => "(" +:+ location +:+ ")"
      end.
Definition generic_task_violation (id : string) (line : option nat) : string :=
  in_line line ("unsupported element <task id='" +:+ id +:+ "'>: convert to userTask, serviceTask, scriptTask, or sendTask").
Definition nested_event_subprocess_violation (id : string) (line : option nat) : string :=
  in_line line ("event sub-process '" +:+ id +:+ "' inside a sub-process is not supported").
Definition instantiating_receive_violation (id : string) (line : option nat) : string :=
  in_line line ("instantiating receiveTask '" +:+ id +:+ "' is not supported").
Definition instantiating_gateway_violation (id : string) (line : option nat) : string :=
  in_line line ("instantiating or parallel eventBasedGateway '" +:+ id +:+ "' is not supported").

(** ** Elements *)

Definition supported_definitions (kind : string) : list string :=
  default [] (find_map (λ '(name, definitions), if String.eqb name kind then Some definitions else None)
                SUPPORTED_EVENT_DEFINITIONS).

Definition is_sub_process (frame : XmlFrame) : bool := String.eqb (xf_name frame) "subProcess".
(** The innermost sub-process, when it is not an event sub-process. *)
Definition plain_subprocess_id (stack : list XmlFrame) : option string :=
  frame ← List.find is_sub_process stack;
  if xf_triggered_by_event frame then None else Some (default "?" (xf_id frame)).

(** The innermost event on the stack; [Some] with the stack in which its count of
    definitions is one more. *)
Fixpoint count_definition (stack : list XmlFrame) : option (XmlFrame * list XmlFrame) :=
  match stack with
  | [] => None
  | frame :: stack =>
    if contains EVENT_KINDS (xf_name frame) then
      let frame := mkFrame (xf_name frame) (xf_id frame) (event_defs frame + 1) (xf_triggered_by_event frame) in
      Some (frame, frame :: stack)
    else '(event, stack) ← count_definition stack; Some (event, frame :: stack)
  end.

(** Definitions an event sub-process may start with. *)
Definition TRIGGER_DEFINITIONS : list string :=
  ["messageEventDefinition"; "timerEventDefinition"; "signalEventDefinition"; "errorEventDefinition";
   "escalationEventDefinition"].

Definition classify_event_definition (name : string) (line : nat) (stack : list XmlFrame)
    : list string * list XmlFrame :=
  match count_definition stack with
  | None => ([], stack)
  | Some (event, stack) =>
    let kind := xf_name event in
    let event_id := default "?" (xf_id event) in
    let at_line := " (line " +:+ pretty line +:+ ")" in
    (if event_defs event =? 2 then ["multiple event definitions on " +:+ kind +:+ " '" +:+ event_id +:+ "'" +:+ at_line]
     else if 2 <? event_defs event then []
     else if existsb (λ '(event_kind, definition), String.eqb event_kind kind && String.eqb definition name)
               REJECTED_EVENT_DEFINITIONS then
       if String.eqb name "conditionalEventDefinition" then
         [conditional_start_violation event_id (plain_subprocess_id stack) (Some line)]
       else [cancel_violation (if String.eqb kind "endEvent" then "end event" else "boundary event") event_id (Some line)]
     else if String.eqb kind "startEvent" && existsb xf_triggered_by_event stack && contains TRIGGER_DEFINITIONS name then []
     else if contains (supported_definitions kind) name then
       match (if String.eqb kind "startEvent" then plain_subprocess_id stack else None) with
       | Some sub_process =>
         [name +:+ " on startEvent '" +:+ event_id +:+ "' inside subProcess '" +:+ sub_process
            +:+ "' is not executed (embedded sub-process start events are pass-through)" +:+ at_line]
       | None => []
       end
     else [name +:+ " on " +:+ kind +:+ " '" +:+ event_id +:+ "' is not supported" +:+ at_line],
     stack)
  end.

(** Whether a flag attribute is set. *)
Definition flagged (element : XmlElement) (attribute : string) : bool :=
  match xml_attr element attribute with Some value => flag_is_true value | None => false end.
Definition parallel_typed (element : XmlElement) : bool :=
  match xml_attr element "eventGatewayType" with Some value => is_parallel_gateway_type value | None => false end.

Definition matched_rejected_attribute (name : string) (element : XmlElement) : option string :=
  if String.eqb name "eventBasedGateway" && flagged element "instantiate" then Some "eventBasedGateway@instantiate"
  else if String.eqb name "eventBasedGateway" && parallel_typed element then
    Some "eventBasedGateway@eventGatewayType=Parallel"
  else None.

(** A code that the table of rejected attributes lists. *)
Definition rejected_attribute (name : string) (element : XmlElement) : option string :=
  code ← matched_rejected_attribute name element;
  if contains REJECTED_ATTRIBUTES code then Some code else None.

Definition collect_for_element (name : string) (element : XmlElement) (line : nat) (stack : list XmlFrame)
    : list string * list XmlFrame :=
  let id := nearest_id (xml_attr element "id") stack in
  let at_line := " (line " +:+ pretty line +:+ ")" in
  if String.eqb name "subProcess" && flagged element "triggeredByEvent" && existsb is_sub_process stack then
    let parent := default "?" (frame ← List.find is_sub_process stack; xf_id frame) in
    (["event sub-process '" +:+ id +:+ "' inside subProcess '" +:+ parent +:+ "' is not supported" +:+ at_line], stack)
  else if String.eqb name "receiveTask" && flagged element "instantiate" && existsb is_sub_process stack then
    (["instantiating receiveTask '" +:+ id +:+ "' inside a sub-process is not supported" +:+ at_line], stack)
  else
    match rejected_attribute name element with
    | Some code =>
      ([if String.eqb code "receiveTask@instantiate" then instantiating_receive_violation id (Some line)
        else instantiating_gateway_violation id (Some line)], stack)
    | None =>
      if contains UNSUPPORTED_ELEMENTS name then
        ([if String.eqb name "transaction" then transaction_violation id (Some line)
          else if String.eqb name "task" then generic_task_violation id (Some line)
          else name +:+ " '" +:+ id +:+ "' is not supported" +:+ at_line], stack)
      else if ends_with "EventDefinition" name then classify_event_definition name line stack
      else ([], stack)
    end.

(** The first executable process, else the first process. *)
Definition select_process_index (processes : list (string * bool)) : option nat :=
  match processes with
  | [] => None
  | _ => Some (default 0 (fst <$> list_find (λ p : string * bool, p.2 = true) processes))
  end.

(** ** The pass over the events *)

Definition on_xml_tag (element : XmlElement) (line : nat) (open : bool) (scan : XmlScan) : XmlScan :=
  let name := element_local_name element in
  match xs_current scan with
  | None =>
    if String.eqb name "process" then
      let id := default "" (xml_attr element "id") in
      let executable := bool_decide (xml_attr element "isExecutable" = Some "true") in
      mkScan (if open then mkFrame name (nonempty (Some id)) 0 false :: xs_stack scan else xs_stack scan)
        (xs_processes scan ++ [(id, executable)]) (xs_violations scan ++ [[]])
        (if open then Some (length (xs_processes scan)) else None)
    else
      mkScan (if open then mkFrame name (xml_attr element "id") 0
                             (String.eqb name "subProcess" && flagged element "triggeredByEvent") :: xs_stack scan
              else xs_stack scan)
        (xs_processes scan) (xs_violations scan) None
  | Some idx =>
    let '(found, stack) := collect_for_element name element line (xs_stack scan) in
    mkScan (if open then mkFrame name (xml_attr element "id") 0
                           (String.eqb name "subProcess" && flagged element "triggeredByEvent") :: stack
            else stack)
      (xs_processes scan) (alter (λ l, l ++ found) idx (xs_violations scan)) (Some idx)
  end.

Definition on_xml_end (name : string) (scan : XmlScan) : XmlScan :=
  mkScan (tail (xs_stack scan)) (xs_processes scan) (xs_violations scan)
    (if String.eqb name "process"
        && match xs_stack scan with frame :: _ => String.eqb (xf_name frame) "process" | [] => false end
     then None else xs_current scan).

Definition scan_event (xml : string) (scan : XmlScan) (event : XmlEvent * N) : XmlScan :=
  let line := line_of xml event.2 in
  match event.1 with
  | XStart element => on_xml_tag element line true scan
  | XEmpty element => on_xml_tag element line false scan
  | XEnd name => on_xml_end name scan
  | _ => scan
  end.
Definition empty_scan : XmlScan := mkScan [] [] [] None.

Section scan.
  Context {L : XmlLib}.

Definition scan_xml (xml : string) : EngineResult XmlScan :=
  let stream := read_stream false xml in
  match xs_error stream with
  | Some err => Err (InvalidDefinition ("BPMN XML parsing failed: " +:+ err))
  | None => Ok (foldl (scan_event xml) empty_scan (xs_events stream))
  end.

(** The index into [processes] is in range when the one into [violations] is: the
    lists grow together. *)
Definition reject_indexed (scan : XmlScan) (index : nat) : EngineResult unit :=
  found ←? ok_or (InvalidDefinition ("process index " +:+ pretty index +:+ " is outside the document"))
             (xs_violations scan !! index);
  match found with
  | [] => Ok tt
  | _ => Err (InvalidDefinition ("Unsupported BPMN element(s) in process '"
           +:+ default "" (fst <$> xs_processes scan !! index) +:+ "': " +:+ join "; " found))
  end.

Fixpoint validate_ids_from (seen : gset string) (processes : list (string * bool)) : EngineResult unit :=
  match processes with
  | [] => Ok tt
  | (id, _) :: processes =>
    if is_blank id || bool_decide (trim_str id ∈ seen) then
      Err (InvalidDefinition ("empty or duplicate process ID '" +:+ id +:+ "'"))
    else validate_ids_from ({[trim_str id]} ∪ seen) processes
  end.
Definition validate_process_ids : list (string * bool) → EngineResult unit := validate_ids_from ∅.

Definition reject_unsupported_elements (xml : string) : EngineResult unit :=
  scan ←? scan_xml xml;
  match select_process_index (xs_processes scan) with
  | None => Ok tt
  | Some selected => reject_indexed scan selected
  end.

End scan.

(** ** What the engine executes *)

(** An event definition that is the first on its event, and that the engine
    executes there: as the start of an event sub-process or as one of the table,
    but not on the start of an embedded sub-process. *)
Definition executable_definition (name : string) (event : XmlFrame) (stack : list XmlFrame) : Prop :=
  (xf_name event, name) ∉ REJECTED_EVENT_DEFINITIONS ∧
  ((xf_name event = "startEvent" ∧ (∃ frame, frame ∈ stack ∧ xf_triggered_by_event frame = true)
      ∧ name ∈ TRIGGER_DEFINITIONS) ∨
   (name ∈ supported_definitions (xf_name event) ∧
      (xf_name event = "startEvent" → plain_subprocess_id stack = None))).

(** The rules for a tag, independent of the texts that report them. *)
Record supported_tag (name : string) (element : XmlElement) (stack : list XmlFrame) : Prop := {
  tag_known : name ∉ UNSUPPORTED_ELEMENTS;
  tag_handler : name = "subProcess" → flagged element "triggeredByEvent" = true →
    ∀ frame, frame ∈ stack → xf_name frame ≠ "subProcess";
  tag_receive : name = "receiveTask" → flagged element "instantiate" = true →
    ∀ frame, frame ∈ stack → xf_name frame ≠ "subProcess";
  tag_gateway : name = "eventBasedGateway" →
    flagged element "instantiate" = false ∧ parallel_typed element = false;
  tag_definition : ends_with "EventDefinition" name = true →
    ∀ event stack', count_definition stack = Some (event, stack') →
      event_defs event ≠ 2 ∧ (event_defs event < 2 → executable_definition name event stack');
}.

Lemma contains_spec l x : contains l x = true ↔ x ∈ l.
Proof.
  unfold contains. rewrite existsb_exists. setoid_rewrite String.eqb_eq. setoid_rewrite <- list_elem_of_In. naive_solver.
Qed.

Lemma no_sub_process stack :
  existsb is_sub_process stack = false ↔ ∀ frame, frame ∈ stack → xf_name frame ≠ "subProcess".
Proof.
  rewrite <- not_true_iff_false, existsb_exists. unfold is_sub_process. setoid_rewrite String.eqb_eq.
  setoid_rewrite <- list_elem_of_In. naive_solver.
Qed.

Lemma rejected_definition_spec kind name :
  existsb (λ '(event_kind, definition), String.eqb event_kind kind && String.eqb definition name)
    REJECTED_EVENT_DEFINITIONS = true ↔ (kind, name) ∈ REJECTED_EVENT_DEFINITIONS.
Proof.
  rewrite existsb_exists. setoid_rewrite <- list_elem_of_In. split.
  - intros ([k n] & Hin & H). apply andb_true_iff in H as [->%String.eqb_eq ->%String.eqb_eq]. done.
  - intros Hin. exists (kind, name). by rewrite !String.eqb_refl.
Qed.

Lemma classify_nil name line stack event stack' :
  count_definition stack = Some (event, stack') →
  (classify_event_definition name line stack).1 = [] ↔
  event_defs event ≠ 2 ∧ (event_defs event < 2 → executable_definition name event stack').
Proof.
  intros Hc. unfold classify_event_definition. rewrite Hc. cbn [fst].
  destruct (Nat.eqb_spec (event_defs event) 2) as [|Hne2]; [naive_solver|].
  destruct (Nat.ltb_spec 2 (event_defs event)) as [|Hlt]; [intuition lia|].
  assert (event_defs event < 2) as H2 by lia.
  unfold executable_definition.
  destruct (existsb _ REJECTED_EVENT_DEFINITIONS) eqn:Hrej.
  { apply rejected_definition_spec in Hrej. case_match; naive_solver. }
  assert ((xf_name event, name) ∉ REJECTED_EVENT_DEFINITIONS) as Hnot.
  { intros Hin%rejected_definition_spec. congruence. }
  destruct (String.eqb (xf_name event) "startEvent" && existsb xf_triggered_by_event stack'
            && contains TRIGGER_DEFINITIONS name) eqn:Htrig.
  { rewrite !andb_true_iff, String.eqb_eq, existsb_exists, contains_spec in Htrig.
    setoid_rewrite <- list_elem_of_In in Htrig. naive_solver. }
  assert (¬ (xf_name event = "startEvent" ∧ (∃ frame, frame ∈ stack' ∧ xf_triggered_by_event frame = true)
             ∧ name ∈ TRIGGER_DEFINITIONS)) as Hnt.
  { intros (H1 & (f & Hf & Ht) & H3). apply not_true_iff_false in Htrig. apply Htrig.
    rewrite !andb_true_iff, String.eqb_eq, existsb_exists, contains_spec. setoid_rewrite <- list_elem_of_In. eauto. }
  destruct (contains (supported_definitions (xf_name event)) name) eqn:Hs.
  - apply contains_spec in Hs. destruct (String.eqb_spec (xf_name event) "startEvent") as [Hk|Hk].
    + destruct (plain_subprocess_id stack'); naive_solver.
    + naive_solver.
  - assert (name ∉ supported_definitions (xf_name event)) by (intros ?%contains_spec; congruence). naive_solver.
Qed.

Lemma rejected_attribute_None name element :
  rejected_attribute name element = None ↔
  (name = "eventBasedGateway" → flagged element "instantiate" = false ∧ parallel_typed element = false).
Proof.
  unfold rejected_attribute, matched_rejected_attribute.
  destruct (String.eqb_spec name "eventBasedGateway") as [->|Hn]; [|naive_solver].
  destruct (flagged element "instantiate"), (parallel_typed element); simpl; naive_solver.
Qed.

(** The scan reports nothing for a tag exactly when the rules admit it. *)
Lemma collect_nil name element line stack :
  (collect_for_element name element line stack).1 = [] ↔ supported_tag name element stack.
Proof.
  assert (∀ tag att, (String.eqb name tag && flagged element att && existsb is_sub_process stack) = false ↔
    (name = tag → flagged element att = true → ∀ frame, frame ∈ stack → xf_name frame ≠ "subProcess")) as Hsub.
  { intros tag att. rewrite <- no_sub_process. destruct (String.eqb_spec name tag), (flagged element att),
      (existsb is_sub_process stack); simpl; naive_solver. }
  unfold collect_for_element.
  destruct (String.eqb name "subProcess" && _ && _) eqn:H1.
  { split; [done|]. intros [_ H _ _ _]. apply Hsub in H. congruence. }
  destruct (String.eqb name "receiveTask" && _ && _) eqn:H2.
  { split; [done|]. intros [_ _ H _ _]. apply Hsub in H. congruence. }
  destruct (rejected_attribute name element) eqn:H3.
  { split; [done|]. intros [_ _ _ H _]. apply rejected_attribute_None in H. congruence. }
  destruct (contains UNSUPPORTED_ELEMENTS name) eqn:H4.
  { apply contains_spec in H4. split; [done|]. by intros []. }
  assert (name ∉ UNSUPPORTED_ELEMENTS) as Hk by (intros ?%contains_spec; congruence).
  pose proof (proj1 (Hsub _ _) H1) as Hsp. pose proof (proj1 (Hsub _ _) H2) as Hrv.
  pose proof (proj1 (rejected_attribute_None _ _) H3) as Hgw.
  destruct (ends_with "EventDefinition" name) eqn:H5.
  - destruct (count_definition stack) as [[event stack']|] eqn:Hc.
    + rewrite (classify_nil _ _ _ _ _ Hc). split; [intros Hd; constructor; [done..|]; intros _ e s He; rewrite Hc in He; by simplify_eq|].
      intros [_ _ _ _ Hdef]. by apply Hdef.
    + unfold classify_event_definition. rewrite Hc. split; [|done]. intros _.
      constructor; [done..|]. intros _ e s He. congruence.
  - split; [|done]. intros _. constructor; [done..|]. congruence.
Qed.
