(* ===== verification/BpmnData.v ===== *)
(** * Data declarations and mappings of a document

    bpmn-parser/src/data.rs: properties and data objects become variables of the
    definition, associations and input/output parameters become the mappings of
    an activity.  The tree of the XML text is read by BpmnTree.v. *)

From Stdlib Require Import Ascii.
From stdpp Require Import base list gmap strings.
From S2P Require Import Prelude Text Json Domain Token ProcessDef BpmnModels BpmnTree.
Local Open Scope rust_scope.

Definition dinvalid {A} (message : string) : EngineResult A := Err (data_error message).

(** [matches!(name, a | b | ..)]. *)
Definition one_of (names : list string) (n : Node) : bool := existsb (String.eqb (n_name n)) names.
(** [attr("name")] when it is not blank, else the id. *)
Definition name_or (id : string) (n : Node) : string :=
  match attr n "name" with Some name => if is_blank name then id else name | None => id end.

Section data.
  Context {U : UnicodeData} {L : XmlLib}.

(** ** Values *)

Definition is_reference_char (c : char) : bool := is_alphanumeric c || (c =? ch "_"%char)%N || (c =? ch "-"%char)%N.
Definition reference (text : string) : EngineResult string :=
  let name := trim_str text in
  if String.eqb name "" || negb (forallb is_reference_char (chars name)) then
    dinvalid ("unsupported variable expression '" +:+ text +:+ "' (use ${variable})")
  else Ok name.

Definition is_expression (text : string) : bool := starts_with "${" text || starts_with "#{" text.
Definition expression (text : string) : EngineResult MappingValue :=
  let trimmed := trim_str text in
  if is_expression trimmed then
    inner ←? ok_or (data_error "unterminated expression")
               (strip_suffix "}" (String.substring 2 (String.length trimmed - 2) trimmed));
    name ←? reference inner;
    Ok (MapVariable name)
  else if str_contains "${" text || str_contains "#{" text then dinvalid "expression interpolation is not supported"
  else Ok (MapLiteral (VString text)).

Fixpoint value (n : Node) : EngineResult MappingValue :=
  if String.eqb (n_name n) "list" then
    if negb (is_blank (n_text n)) || existsb (λ c, negb (one_of ["value"; "list"; "map"] c)) (n_children n) then
      dinvalid "list accepts values, lists, or maps only"
    else
      items ←? (fix go (l : list Node) : EngineResult (list MappingValue) :=
        match l with
        | [] => Ok []
        | c :: l => v ←? value c; rest ←? go l; Ok (v :: rest)
        end) (n_children n);
      Ok (MapList items)
  else if String.eqb (n_name n) "map" then
    if negb (is_blank (n_text n)) then dinvalid "map cannot contain literal text"
    else
      entries ←? (fix go (l : list Node) (values : list (string * MappingValue)) : EngineResult (list (string * MappingValue)) :=
        match l with
        | [] => Ok values
        | entry :: l =>
          if negb (String.eqb (n_name entry) "entry") then dinvalid "map accepts entry children only"
          else
            key ←? ok_or (data_error "map entry requires key") (attr entry "key");
            v ←? value entry;
            if existsb (λ kv, String.eqb kv.1 key) values then dinvalid "duplicate map key"
            else go l (values ++ [(key, v)])
        end) (n_children n) [];
      Ok (MapMap entries)
  else
    match n_children n with
    | [] => expression (n_text n)
    | child :: rest =>
      if negb (is_blank (n_text n)) || negb (length rest =? 0) then dinvalid "parameter requires one value"
      else if negb (one_of ["list"; "map"] child) then
        dinvalid ("unsupported parameter value '" +:+ n_name child +:+ "'")
      else value child
    end.

Definition add_mapping (mappings : list DataMapping) (target : string) (mapped : MappingValue)
    : EngineResult (list DataMapping) :=
  if is_blank target || existsb (λ m, String.eqb (map_target m) target) mappings then
    dinvalid ("empty or duplicate target '" +:+ target +:+ "'")
  else Ok (mappings ++ [{| map_target := target; map_value := mapped |}]).

(** ** Declarations *)

(** The definition with one more variable, and with its default. *)
Definition declare (name : string) (d : ProcessDefinition) : ProcessDefinition :=
  mkDefinition (def_key d) (def_id d) (version d) (nodes d) (flows d) (listeners d) (event_listeners d)
    (event_subprocesses d) (sub_processes d) (data_variables d ++ [name]) (variable_defaults d) (data_mappings d).
Definition set_default (name : string) (v : Value) (d : ProcessDefinition) : ProcessDefinition :=
  mkDefinition (def_key d) (def_id d) (version d) (nodes d) (flows d) (listeners d) (event_listeners d)
    (event_subprocesses d) (sub_processes d) (data_variables d) (<[name := v]> (variable_defaults d)) (data_mappings d).
Definition set_mappings (id : string) (m : ActivityMappings) (d : ProcessDefinition) : ProcessDefinition :=
  mkDefinition (def_key d) (def_id d) (version d) (nodes d) (flows d) (listeners d) (event_listeners d)
    (event_subprocesses d) (sub_processes d) (data_variables d) (variable_defaults d) (<[id := m]> (data_mappings d)).

(** One property or data object; [refs] maps ids to names, [names] holds the names. *)
Definition declaration (acc : gmap string string * gset string * ProcessDefinition) (n : Node)
    : EngineResult (gmap string string * gset string * ProcessDefinition) :=
  let '(refs, names, d) := acc in
  id ←? node_id n;
  let name := name_or id n in
  if bool_decide (name ∈ names) || bool_decide (is_Some (refs !! id)) then dinvalid "duplicate data declaration"
  else
    let d := declare name d in
    d ←? match attr n "bpmninja:default" with
         | Some text =>
           v ←? map_err (λ err, data_error ("invalid JSON default on '" +:+ id +:+ "': " +:+ err)) (json_from_str text);
           Ok (set_default name v d)
         | None => Ok d
         end;
    Ok (<[id := name]> refs, {[name]} ∪ names, d).
(** A further id for a data object. *)
Definition alias_declaration (refs : gmap string string) (alias : Node) : EngineResult (gmap string string) :=
  target ←? ok_or (data_error "dataObjectReference requires dataObjectRef") (attr alias "dataObjectRef");
  name ←? ok_or (data_error ("unknown dataObjectRef '" +:+ target +:+ "'")) (refs !! target);
  id ←? node_id alias;
  if bool_decide (is_Some (refs !! id)) then dinvalid "duplicate data reference id"
  else Ok (<[id := name]> refs).
Definition declarations (scope : Node) (d : ProcessDefinition) : EngineResult (gmap string string * ProcessDefinition) :=
  '(refs, _, d) ←? try_fold declaration (∅, ∅, d) (List.filter (one_of ["property"; "dataObject"]) (n_children scope));
  refs ←? try_fold alias_declaration refs (children scope "dataObjectReference");
  Ok (refs, d).

(** ** Mappings of an activity *)

(** The ids of an activity that a mapping reads and writes. *)
Abbreviation Refs := (gmap string string).

Definition activity_property (refs : Refs) (acc : Refs * Refs) (property : Node) : EngineResult (Refs * Refs) :=
  let '(ins, outs) := acc in
  id ←? node_id property;
  let name := name_or id property in
  if bool_decide (is_Some (refs !! id)) || bool_decide (is_Some (ins !! id)) then dinvalid "duplicate property id"
  else
    match attr property "bpmninja:default" with
    | Some _ => dinvalid "task property defaults are not supported; use inputParameter"
    | None => Ok (<[id := name]> ins, <[id := name]> outs)
    end.
Definition io_item (refs : Refs) (acc : Refs * Refs) (item : Node) : EngineResult (Refs * Refs) :=
  let '(ins, outs) := acc in
  if one_of ["dataInput"; "dataOutput"] item then
    if bool_decide (attr item "isCollection" = Some "true") then dinvalid "collection ioSpecification is not supported"
    else
      id ←? node_id item;
      let name := name_or id item in
      if bool_decide (is_Some (refs !! id)) || bool_decide (is_Some (ins !! id)) || bool_decide (is_Some (outs !! id)) then
        dinvalid "duplicate IO reference"
      else if String.eqb (n_name item) "dataInput" then Ok (<[id := name]> ins, outs)
      else Ok (ins, <[id := name]> outs)
  else if negb (one_of ["inputSet"; "outputSet"] item) then
    dinvalid ("unsupported ioSpecification child '" +:+ n_name item +:+ "'")
  else Ok acc.

Definition set_inputs (l : list DataMapping) (m : ActivityMappings) : ActivityMappings :=
  {| inputs := l; outputs := outputs m; call_inputs := call_inputs m; call_outputs := call_outputs m |}.
Definition set_outputs (l : list DataMapping) (m : ActivityMappings) : ActivityMappings :=
  {| inputs := inputs m; outputs := l; call_inputs := call_inputs m; call_outputs := call_outputs m |}.
Definition set_call_inputs (l : list DataMapping) (m : ActivityMappings) : ActivityMappings :=
  {| inputs := inputs m; outputs := outputs m; call_inputs := Some l; call_outputs := call_outputs m |}.
Definition set_call_outputs (l : list DataMapping) (m : ActivityMappings) : ActivityMappings :=
  {| inputs := inputs m; outputs := outputs m; call_inputs := call_inputs m; call_outputs := Some l |}.

Definition association (refs ins outs : Refs) (m : ActivityMappings) (n : Node) : EngineResult ActivityMappings :=
  if existsb (λ c, negb (one_of ["sourceRef"; "targetRef"] c)) (n_children n) then
    dinvalid "association assignment/transformation is not supported"
  else
    match children n "sourceRef", children n "targetRef" with
    | [source], [target] =>
      let source := trim_str (n_text source) in
      let target := trim_str (n_text target) in
      let is_input := String.eqb (n_name n) "dataInputAssociation" in
      source_name ←? ok_or (data_error ("unknown association source '" +:+ source +:+ "'"))
                       ((if is_input then refs else outs) !! source);
      target_name ←? ok_or (data_error ("unknown association target '" +:+ target +:+ "'"))
                       ((if is_input then ins else refs) !! target);
      if is_input then l ←? add_mapping (inputs m) target_name (MapVariable source_name); Ok (set_inputs l m)
      else l ←? add_mapping (outputs m) target_name (MapVariable source_name); Ok (set_outputs l m)
    | _, _ => dinvalid "association requires one sourceRef and targetRef"
    end.

Definition io_parameter (m : ActivityMappings) (parameter : Node) : EngineResult ActivityMappings :=
  target ←? ok_or (data_error "parameter requires name") (attr parameter "name");
  if String.eqb (n_name parameter) "inputParameter" then
    v ←? value parameter; l ←? add_mapping (inputs m) target v; Ok (set_inputs l m)
  else if String.eqb (n_name parameter) "outputParameter" then
    v ←? value parameter; l ←? add_mapping (outputs m) target v; Ok (set_outputs l m)
  else dinvalid "inputOutput accepts inputParameter/outputParameter only".

Definition call_mapping (extension : Node) : EngineResult MappingValue :=
  match attr extension "source", attr extension "sourceExpression" with
  | Some source, None => name ←? reference source; Ok (MapVariable name)
  | None, Some source =>
    if is_expression (trim_str source) then expression source
    else dinvalid "sourceExpression requires a variable reference"
  | _, _ => dinvalid "in/out requires exactly one source or sourceExpression"
  end.
Definition extension_mapping (node : Node) (m : ActivityMappings) (extension : Node) : EngineResult ActivityMappings :=
  if String.eqb (n_name extension) "inputOutput" then try_fold io_parameter m (n_children extension)
  else if one_of ["in"; "out"] extension then
    if negb (String.eqb (n_name node) "callActivity") then dinvalid "in/out mappings require callActivity"
    else if bool_decide (is_Some (attr extension "variables")) || bool_decide (is_Some (attr extension "local"))
            || bool_decide (is_Some (attr extension "businessKey")) then
      dinvalid "in/out supports source/sourceExpression and target only"
    else
      target ←? ok_or (data_error "in/out requires target") (attr extension "target");
      mapped ←? call_mapping extension;
      if String.eqb (n_name extension) "in" then
        l ←? add_mapping (default [] (call_inputs m)) target mapped; Ok (set_call_inputs l m)
      else l ←? add_mapping (default [] (call_outputs m)) target mapped; Ok (set_call_outputs l m)
  else Ok m.

Definition no_mappings : ActivityMappings := {| inputs := []; outputs := []; call_inputs := None; call_outputs := None |}.
(** [activity]: one explicit direction of a call makes both explicit. *)
Definition activity (n : Node) (refs : Refs) : EngineResult ActivityMappings :=
  acc ←? try_fold (activity_property refs) (∅, ∅) (children n "property");
  '(ins, outs) ←? try_fold (λ acc io, try_fold (io_item refs) acc (n_children io)) acc (children n "ioSpecification");
  m ←? try_fold (association refs ins outs) no_mappings
         (List.filter (one_of ["dataInputAssociation"; "dataOutputAssociation"]) (n_children n));
  m ←? try_fold (λ m extensions, try_fold (extension_mapping n) m (n_children extensions)) m (children n "extensionElements");
  Ok (match call_inputs m, call_outputs m with
      | None, None => m
      | _, _ => set_call_outputs (default [] (call_outputs m)) (set_call_inputs (default [] (call_inputs m)) m)
      end).

(** ** Scopes *)

Definition has_extension_mapping (n : Node) : bool :=
  existsb (λ extensions, existsb (one_of ["inputOutput"; "in"; "out"]) (n_children extensions))
    (children n "extensionElements").
Definition has_data (n : Node) : bool :=
  existsb (one_of ["dataInputAssociation"; "dataOutputAssociation"; "ioSpecification"; "property"]) (n_children n)
  || has_extension_mapping n.
(** The activities that may carry mappings. *)
Definition takes_mappings (e : option BpmnElement) : bool :=
  match e with
  | Some (UserTask _ | ServiceTask _ _ | ScriptTask _ _ | SendTask _ _ | CallActivity _) => true
  | _ => false
  end.
Definition node_mappings (refs : Refs) (n : Node) (d : ProcessDefinition) : EngineResult ProcessDefinition :=
  if has_data n then
    id ←? node_id n;
    if takes_mappings (nodes d !! id) then m ←? activity n refs; Ok (set_mappings id m d)
    else dinvalid ("data mappings on '" +:+ n_name n +:+ "' require a supported task or Call Activity")
  else Ok d.

Definition is_nil {A} (l : list A) : bool := match l with [] => true | _ => false end.

Fixpoint apply_scope (inherited : Refs) (root : bool) (scope : Node) (d : ProcessDefinition) : EngineResult ProcessDefinition :=
  '(own, d) ←? declarations scope d;
  if negb root && (negb (bool_decide (own = ∅)) || negb (is_nil (children scope "ioSpecification"))) then
    dinvalid "subprocess data declarations require runtime scopes (X6)"
  else
    let refs := own ∪ inherited in
    d ←? (fix go (l : list Node) (d : ProcessDefinition) : EngineResult ProcessDefinition :=
      match l with
      | [] => Ok d
      | n :: l =>
        d ←? (if String.eqb (n_name n) "subProcess" then apply_scope refs false n d else Ok d);
        d ←? node_mappings refs n d;
        go l d
      end) (n_children scope) d;
    if negb (is_nil (children scope "ioSpecification")) || negb (is_nil (children scope "dataInputAssociation"))
       || negb (is_nil (children scope "dataOutputAssociation")) then
      dinvalid "process/subprocess IO mappings are not supported"
    else if has_extension_mapping scope then dinvalid "process/subprocess extension mappings are not supported"
    else Ok d.

Definition apply_data (xml : string) (d : ProcessDefinition) : EngineResult ProcessDefinition :=
  document ←? tree xml;
  match n_children document with
  | [] => dinvalid "missing definitions"
  | definitions :: _ =>
    process ←? ok_or (data_error "missing process")
                 (List.find (λ n, bool_decide (attr n "id" = Some (def_id d))) (children definitions "process"));
    apply_scope ∅ true process d
  end.

(** ** What the parser guarantees of a mapping *)

(** The targets of a phase are not blank and distinct. *)
Definition targets_ok (l : list DataMapping) : Prop :=
  NoDup (map_target <$> l) ∧ ∀ m, m ∈ l → is_blank (map_target m) = false.
Record activity_ok (m : ActivityMappings) : Prop := {
  ok_inputs : targets_ok (inputs m);
  ok_outputs : targets_ok (outputs m);
  ok_call_inputs : targets_ok (default [] (call_inputs m));
  ok_call_outputs : targets_ok (default [] (call_outputs m));
}.
Definition mappings_ok (d : ProcessDefinition) : Prop :=
  ∀ id m, data_mappings d !! id = Some m → takes_mappings (nodes d !! id) = true ∧ activity_ok m
    ∧ (call_inputs m = None ↔ call_outputs m = None).

Lemma add_mapping_ok l target v l' : targets_ok l → add_mapping l target v = Ok l' → targets_ok l'.
Proof.
  intros [Hnd Hb]. unfold add_mapping. destruct (is_blank target) eqn:Hbt; [done|]. cbn [orb].
  destruct (existsb _ l) eqn:He; [done|]. intros [= <-]. split.
  - rewrite fmap_app. apply NoDup_app. split_and!; [done| |apply NoDup_singleton].
    intros x Hx Ht%list_elem_of_singleton. simpl in Ht. subst x. apply list_elem_of_fmap in Hx as (m & -> & Hm).
    apply not_true_iff_false in He. apply He. apply existsb_exists. exists m.
    split; [by apply list_elem_of_In|apply String.eqb_refl].
  - intros m [Hm| ->%list_elem_of_singleton]%elem_of_app; eauto.
Qed.

(** Either field of the activity gets one more mapping. *)
Ltac mapping_step H :=
  let l := fresh "l" in let Hl := fresh "Hl" in
  apply result_bind_Ok in H as (l & Hl%add_mapping_ok & [= <-]); [split; eauto|eauto].

Lemma association_ok refs ins outs m n m' : activity_ok m → association refs ins outs m n = Ok m' → activity_ok m'.
Proof.
  intros [Hi Ho Hci Hco]. unfold association. destruct (existsb _ _); [done|].
  destruct (children n "sourceRef") as [|s [|]], (children n "targetRef") as [|t [|]]; try done.
  rewrite result_bind_Ok. intros (src & _ & (tgt & _ & H)%result_bind_Ok).
  destruct (String.eqb _ _); mapping_step H.
Qed.

Lemma io_parameter_ok m n m' : activity_ok m → io_parameter m n = Ok m' → activity_ok m'.
Proof.
  intros [Hi Ho Hci Hco]. unfold io_parameter. rewrite result_bind_Ok. intros (target & _ & H).
  destruct (String.eqb _ _); [|destruct (String.eqb _ _); [|done]];
    apply result_bind_Ok in H as (v & _ & H); mapping_step H.
Qed.

Lemma extension_mapping_ok node m n m' : activity_ok m → extension_mapping node m n = Ok m' → activity_ok m'.
Proof.
  intros Hm. unfold extension_mapping. destruct (String.eqb _ "inputOutput").
  { apply (try_fold_inv io_parameter activity_ok); [done|]. intros a x a' _. apply io_parameter_ok. }
  destruct (one_of _ n); [|by intros [= <-]]. destruct (negb _); [done|]. destruct (_ || _); [done|].
  rewrite result_bind_Ok. intros (target & _ & (v & _ & H)%result_bind_Ok). destruct Hm as [Hi Ho Hci Hco].
  destruct (String.eqb _ _); mapping_step H.
Qed.

Lemma activity_ok_result n refs m :
  activity n refs = Ok m → activity_ok m ∧ (call_inputs m = None ↔ call_outputs m = None).
Proof.
  unfold activity. intros (acc & _ & H)%result_bind_Ok. apply result_bind_Ok in H as ([ins outs] & _ & H).
  apply result_bind_Ok in H as (m1 & H1 & H). apply result_bind_Ok in H as (m2 & H2 & H).
  assert (activity_ok m1) as Hm1.
  { revert H1. apply (try_fold_inv _ activity_ok); [|intros a x a' _; apply association_ok].
    repeat split; simpl; first [apply NoDup_nil_2 | set_solver]. }
  assert (activity_ok m2) as Hm2.
  { revert H2. apply (try_fold_inv _ activity_ok); [done|]. intros a x a' _ Ha.
    apply (try_fold_inv _ activity_ok); [done|]. intros b y b' _. apply extension_mapping_ok. }
  destruct Hm2 as [Hi Ho Hci Hco]. injection H as <-.
  destruct (call_inputs m2) as [ci|] eqn:E1, (call_outputs m2) as [co|] eqn:E2; simpl; try done;
    split; try done; split; simpl; rewrite ?E1, ?E2; done.
Qed.

(** ** Declarations *)

(** Only the data fields of the definition change. *)
Definition same_graph (d d' : ProcessDefinition) : Prop :=
  def_key d' = def_key d ∧ def_id d' = def_id d ∧ version d' = version d ∧ nodes d' = nodes d ∧ flows d' = flows d ∧
  listeners d' = listeners d ∧ event_listeners d' = event_listeners d ∧
  event_subprocesses d' = event_subprocesses d ∧ sub_processes d' = sub_processes d.

(** The variables that a scope declares: the names are distinct, and a default
    belongs to one of them. *)
Definition declares (d d' : ProcessDefinition) (new : list string) : Prop :=
  same_graph d d' ∧ data_mappings d' = data_mappings d ∧ data_variables d' = data_variables d ++ new ∧ NoDup new ∧
  ∀ k, is_Some (variable_defaults d' !! k) → is_Some (variable_defaults d !! k) ∨ k ∈ new.

Lemma declares_nil d : declares d d [].
Proof. repeat split; [by rewrite app_nil_r|apply NoDup_nil_2|auto]. Qed.

Lemma declares_snoc d d1 new name v :
  name ∉ new → declares d d1 new → declares d (declare name d1) (new ++ [name]) ∧
  declares d (set_default name v (declare name d1)) (new ++ [name]).
Proof.
  intros Hn (Hg & Hm & Hv & Hnd & Hdef). unfold declares. simpl. rewrite Hv, app_assoc.
  assert (NoDup (new ++ [name])) as Hnd'.
  { apply NoDup_app. split_and!; [done|set_solver|apply NoDup_singleton]. }
  repeat split; try done; try apply Hg; intros k.
  - intros [Hk|Hk]%Hdef; set_solver.
  - destruct (decide (k = name)) as [->|Hne]; [set_solver|].
    rewrite lookup_insert_ne by done. intros [Hk|Hk]%Hdef; set_solver.
Qed.

Lemma declaration_step d refs names d1 new n r :
  declares d d1 new → (∀ x, x ∈ names ↔ x ∈ new) → declaration (refs, names, d1) n = Ok r →
  ∃ name d2, declares d d2 (new ++ [name]) ∧ (∀ x, x ∈ r.1.2 ↔ x ∈ new ++ [name]) ∧ r.1.1 ≠ ∅ ∧ r.2 = d2.
Proof.
  intros Hd Hn. unfold declaration. rewrite result_bind_Ok. intros (id & _ & H).
  case_bool_decide as Hin; [done|]. cbn [orb] in H. case_bool_decide; [done|].
  assert (name_or id n ∉ new) as Hfresh by (by rewrite <- Hn).
  apply result_bind_Ok in H as (d2 & H2 & [= <-]). exists (name_or id n), d2. split_and!; simpl; [|set_solver| |done].
  - destruct (attr n "bpmninja:default"); [|injection H2 as <-; by apply (declares_snoc _ _ _ _ VNull)].
    apply result_bind_Ok in H2 as (v & _ & [= <-]). by apply declares_snoc.
  - apply insert_non_empty.
Qed.

Lemma declarations_ok scope d own d' :
  declarations scope d = Ok (own, d') → ∃ new, declares d d' new ∧ (own = ∅ → new = []).
Proof.
  unfold declarations. intros ([[refs names] d1] & H1 & (refs' & H2 & [= <- <-])%result_bind_Ok)%result_bind_Ok.
  set (P := λ acc : gmap string string * gset string * ProcessDefinition,
    ∃ new, declares d acc.2 new ∧ (∀ x, x ∈ acc.1.2 ↔ x ∈ new) ∧ (acc.1.1 = ∅ → new = [])).
  assert (P (refs, names, d1)) as (new & Hnew & _ & Hemp).
  { revert H1. apply (try_fold_inv _ P).
    - exists []. split; [apply declares_nil|]. split; [set_solver|done].
    - intros [[r ns] e] x a' _ (new & Hnew & Hns & _) Hx.
      destruct (declaration_step _ _ _ _ _ _ _ Hnew Hns Hx) as (name & d2 & Hd2 & Hns2 & Hne & <-).
      exists (new ++ [name]). split_and!; [done..|]. by intros ?%Hne. }
  exists new. split; [done|]. intros Hr. apply Hemp. simpl.
  assert (refs' = ∅ → refs = ∅) as Hback; [|by apply Hback].
  refine (try_fold_inv alias_declaration (λ r, r = ∅ → refs = ∅) _ _ _ _ _ H2); [done|].
  intros a x a' _ Ha. unfold alias_declaration. intros Hx.
  apply result_bind_Ok in Hx as (? & _ & Hx). apply result_bind_Ok in Hx as (? & _ & Hx).
  apply result_bind_Ok in Hx as (? & _ & Hx). case_bool_decide; [done|]. injection Hx as <-.
  by intros ?%insert_non_empty.
Qed.

(** ** Scopes *)

(** A scope adds variables and mappings and keeps the rest. *)
Definition scoped (d d' : ProcessDefinition) (new : list string) : Prop :=
  same_graph d d' ∧ data_variables d' = data_variables d ++ new ∧ NoDup new ∧
  (∀ k, is_Some (variable_defaults d' !! k) → is_Some (variable_defaults d !! k) ∨ k ∈ new) ∧
  (mappings_ok d → mappings_ok d').

Lemma scoped_refl d : scoped d d [].
Proof.
  split; [repeat split|]. split; [by rewrite app_nil_r|]. split; [apply NoDup_nil_2|]. split; [auto|done].
Qed.

Lemma scoped_trans d d1 d2 new : scoped d d1 new → scoped d1 d2 [] → scoped d d2 new.
Proof.
  intros ((? & ? & ? & ? & ? & ? & ? & ? & ?) & Hv & Hnd & Hdef & Hm)
    ((? & ? & ? & ? & ? & ? & ? & ? & ?) & Hv' & _ & Hdef' & Hm').
  rewrite app_nil_r in Hv'. unfold scoped, same_graph. split; [split_and!; congruence|].
  split; [congruence|]. split; [done|]. split; [|by auto]. intros k [Hk|Hk]%Hdef'; [by auto|set_solver].
Qed.

Lemma declares_scoped d d' new : declares d d' new → scoped d d' new.
Proof.
  intros (Hg & Hm & Hv & Hnd & Hdef). split; [done|]. do 3 (split; [done|]). intros Hok id m.
  destruct Hg as (_ & _ & _ & -> & _). rewrite Hm. apply Hok.
Qed.

Lemma node_mappings_scoped refs n d d' : node_mappings refs n d = Ok d' → scoped d d' [].
Proof.
  unfold node_mappings. destruct (has_data n); [|intros [= <-]; apply scoped_refl].
  rewrite result_bind_Ok. intros (id & _ & H). destruct (takes_mappings _) eqn:Ht; [|done].
  apply result_bind_Ok in H as (m & Hm%activity_ok_result & [= <-]).
  destruct (scoped_refl d) as (Hg & Hv & Hnd & Hdef & _). split; [done|]. do 3 (split; [done|]).
  intros Hok i mi. simpl. destruct (decide (i = id)) as [->|Hne].
  - rewrite lookup_insert_eq. intros [= <-]. done.
  - rewrite lookup_insert_ne by done. apply Hok.
Qed.

Lemma apply_scope_scoped scope inherited root d d' :
  apply_scope inherited root scope d = Ok d' → ∃ new, scoped d d' new ∧ (root = false → new = []).
Proof.
  revert inherited root d d'. induction scope as [name attrs text cs IH] using Node_nested_ind.
  intros inherited root d d' H. cbn [apply_scope n_children] in H.
  apply result_bind_Ok in H as ([own d1] & (new & Hd1%declares_scoped & Hown)%declarations_ok & H).
  destruct (negb root && _) eqn:Hroot; [done|].
  apply result_bind_Ok in H as (d2 & H2 & H).
  destruct (_ || _ || _); [done|]. destruct (has_extension_mapping _); [done|]. injection H as <-.
  exists new. split.
  - apply scoped_trans with d1; [done|]. clear -IH H2. revert d1 H2.
    induction IH as [|n cs Hn _ IHcs]; intros d1; [intros [= <-]; apply scoped_refl|].
    intros (d3 & H3 & (d4 & H4%node_mappings_scoped & H2)%result_bind_Ok)%result_bind_Ok.
    apply scoped_trans with d3; [|apply scoped_trans with d4; [done|by apply IHcs]].
    destruct (String.eqb _ _); [|injection H3 as <-; apply scoped_refl].
    apply Hn in H3 as (new' & Hs & Hnil). by rewrite Hnil in Hs.
  - intros ->. apply Hown. simpl in Hroot. apply orb_false_iff in Hroot as [Hemp _].
    apply negb_false_iff, bool_decide_eq_true in Hemp. done.
Qed.

Lemma apply_data_scoped xml d d' : apply_data xml d = Ok d' → ∃ new, scoped d d' new.
Proof.
  unfold apply_data. intros (doc & _ & H)%result_bind_Ok.
  destruct (n_children doc) as [|defs ?]; [done|]. apply result_bind_Ok in H as (process & _ & H).
  apply apply_scope_scoped in H as (new & Hs & _). eauto.
Qed.

(** ** Mappings at run time *)

Lemma MappingValue_nested_ind (P : MappingValue → Prop) :
  (∀ v, P (MapLiteral v)) → (∀ x, P (MapVariable x)) → (∀ l, Forall P l → P (MapList l)) →
  (∀ l, Forall (λ kv, P kv.2) l → P (MapMap l)) → ∀ m, P m.
Proof.
  intros H1 H2 H3 H4. fix IH 1. intros [v|x|l|l]; [apply H1|apply H2|apply H3|apply H4]; clear -IH; revert l.
  - fix IHl 1. intros [|m l]; constructor; [apply IH|apply IHl].
  - fix IHl 1. intros [|[k m] l]; constructor; [apply IH|apply IHl].
Qed.

(** The value of a mapping fails only on a variable that is not there. *)
Lemma evaluate_mapping_error m vs e :
  evaluate_mapping m vs = Err e → ∃ name, vs !! name = None ∧ e = missing_variable name.
Proof.
  revert e. induction m as [v|x|l IH|l IH] using MappingValue_nested_ind; intros e; cbn [evaluate_mapping].
  - done.
  - destruct (vs !! x) eqn:Hx; [done|]. intros [= <-]. eauto.
  - intros [H|(a & _ & ?)]%result_bind_Err; [|done]. revert e H. induction IH as [|m l Hm _ IHl]; intros e; [done|].
    intros [H|(a & _ & [H|(b & _ & ?)]%result_bind_Err)]%result_bind_Err; [by apply Hm|by apply IHl|done].
  - intros [H|(a & _ & ?)]%result_bind_Err; [|done]. revert e H. generalize (@nil (string * Value)).
    induction IH as [|[k m] l Hm _ IHl]; intros acc e; [done|].
    intros [H|(a & _ & H)]%result_bind_Err; [by apply Hm|by eapply IHl].
Qed.

(** A phase whose targets are distinct and not blank never fails on a target. *)
Lemma evaluate_mappings_from_error l vs acc e :
  targets_ok l → (∀ m, m ∈ l → acc !! map_target m = None) → evaluate_mappings_from l vs acc = Err e →
  ∃ name, vs !! name = None ∧ e = missing_variable name.
Proof.
  revert acc. induction l as [|m l IH]; intros acc [Hnd Hb] Hacc; cbn [evaluate_mappings_from]; [done|].
  rewrite Hb by (by left). rewrite (Hacc m) by (by left). cbn [orb].
  rewrite bool_decide_eq_false_2 by (by intros [? ?]).
  rewrite fmap_cons in Hnd. apply NoDup_cons in Hnd as [Hm Hnd].
  intros [H|(v & _ & H)]%result_bind_Err; [by eapply evaluate_mapping_error|].
  eapply IH; [|..|exact H].
  - split; [done|]. intros m' Hm'. apply Hb. by right.
  - intros m' Hm'. rewrite lookup_insert_ne; [apply Hacc; by right|].
    intros Heq. apply Hm. rewrite Heq. by apply list_elem_of_fmap_2.
Qed.

(** C21: The mappings a document gives an activity sit on an element of the compiled
    graph that takes them, a call activity has both directions or none, and at run
    time a phase of them can fail only on a variable that does not exist, never on
    its targets. *)
Theorem parsed_mappings_evaluate xml d d' id m l vs :
  data_mappings d = ∅ → apply_data xml d = Ok d' → data_mappings d' !! id = Some m →
  l ∈ [inputs m; outputs m; default [] (call_inputs m); default [] (call_outputs m)] →
  takes_mappings (nodes d !! id) = true ∧ (call_inputs m = None ↔ call_outputs m = None) ∧
  match evaluate_mappings l vs with
  | Ok r => ∀ x, x ∈ l → is_Some (r !! map_target x)
  | Err e => ∃ name, vs !! name = None ∧ e = missing_variable name
  end.
Proof.
  intros Hemp (new & Hg & _ & _ & _ & Hok)%apply_data_scoped Hm Hl.
  destruct (Hok ltac:(unfold mappings_ok; rewrite Hemp; set_solver) id m Hm) as (Ht & [Hi Ho Hci Hco] & Hcall).
  destruct Hg as (_ & _ & _ & Hnodes & _). rewrite Hnodes in Ht. split; [done|]. split; [done|].
  assert (targets_ok l) as Hlok.
  { rewrite !elem_of_cons in Hl. destruct Hl as [->|[->|[->|[->|[]%elem_of_nil]]]]; done. }
  unfold evaluate_mappings. destruct (evaluate_mappings_from l vs ∅) as [r|e] eqn:He.
  - apply evaluate_mappings_from_ok in He as (_ & Hin & _). intros x (_ & v & _ & ->)%Hin. eauto.
  - eapply evaluate_mappings_from_error; [done| |exact He]. intros. apply lookup_empty.
Qed.

(** Reading the data of a document changes only the data fields of a definition;
    the variables it declares have distinct names and every default belongs to a
    declared variable. *)
Theorem apply_data_declares xml d d' :
  apply_data xml d = Ok d' →
  same_graph d d' ∧ ∃ new, data_variables d' = data_variables d ++ new ∧ NoDup new ∧
    ∀ k, is_Some (variable_defaults d' !! k) → is_Some (variable_defaults d !! k) ∨ k ∈ new.
Proof. intros (new & Hg & Hv & Hnd & Hdef & _)%apply_data_scoped. eauto 6. Qed.

End data.

(** ** A document with one input parameter *)

Definition input_document : Node :=
  mkNode "definitions" ∅ "" [
    mkNode "process" {["id" := "p"]} "" [
      mkNode "userTask" {["id" := "t"]} "" [
        mkNode "extensionElements" ∅ "" [
          mkNode "inputOutput" ∅ "" [mkNode "inputParameter" {["name" := "x"]} "${y}" []]]]]].
Definition input_lib : XmlLib := {|
  read_stream _ _ := mkStream (node_events input_document) None;
  xml_from_str _ := Err "";
  xml_unescape _ := Err "";
  json_from_str _ := Err "" |}.
Definition input_definition : ProcessDefinition :=
  mkDefinition 1 "p" 1 {["t" := UserTask "u"]} ∅ ∅ [] [] [] [] ∅ ∅.
Definition input_mappings : ActivityMappings :=
  {| inputs := [{| map_target := "x"; map_value := MapVariable "y" |}]; outputs := []; call_inputs := None; call_outputs := None |}.

Lemma parsed_mappings_evaluate_witness :
  takes_mappings (nodes input_definition !! "t") = true ∧
  (call_inputs input_mappings = None ↔ call_outputs input_mappings = None) ∧
  match evaluate_mappings (inputs input_mappings) ∅ with
  | Ok r => ∀ x, x ∈ inputs input_mappings → is_Some (r !! map_target x)
  | Err e => ∃ name, (∅ : Vars) !! name = None ∧ e = missing_variable name
  end.
Proof.
  apply (@parsed_mappings_evaluate ascii_only input_lib "" input_definition
           (set_mappings "t" input_mappings input_definition) "t").
  - reflexivity.
  - vm_compute. reflexivity.
  - reflexivity.
  - by left.
Defined.
