(* ===== verification/BpmnCompile.v ===== *)
(** * Compilation of a process

    bpmn-parser/src/parser.rs, from the elements of a document to a process
    definition: references, links, multi-instance loops, then one loop per kind
    of element that adds its nodes to the builder.  BpmnSub.v compiles
    sub-processes, BpmnParse.v puts the passes together. *)

From stdpp Require Import base list gmap strings pretty.
From S2P Require Import Prelude Text Json CondLexer CondParser Domain ProcessDef BpmnModels Iso8601 BpmnScan.
Local Open Scope rust_scope.

Abbreviation Lookup := (gmap string string).
Abbreviation Builder := ProcessDefinitionBuilder.

(** [iter().collect::<HashMap<_, _>>()]: the last pair of a key wins. *)
Definition to_lookup (l : list (string * string)) : Lookup := foldl (λ m kv, <[kv.1 := kv.2]> m) ∅ l.

(** ** Listeners *)

Definition add_listener (node_id : string) (b : Builder) (l : BpmnExecutionListener) : Builder :=
  match (if String.eqb (el_event l) "start" then Some LStart
         else if String.eqb (el_event l) "end" then Some LEnd else None), el_script l with
  | Some evt, Some s => b_listener node_id evt (trim_str (sc_content s)) b
  | _, _ => b
  end.
Definition add_listeners (b : Builder) (node_id : string) (ext_elements : option BpmnExtensionElements) : Builder :=
  match ext_elements with
  | Some exts => foldl (add_listener node_id) b (execution_listeners exts)
  | None => b
  end.

(** ** Attributes and references *)

Definition nonempty_attr (value : option string) : option string :=
  s ← value; let s := trim_str s in if String.eqb s "" then None else Some s.
Definition first_attr (candidates : list (option string)) : option string := find_map nonempty_attr candidates.
Definition topic_attr (task : BpmnServiceTask) : option string :=
  first_attr [st_topic task; st_handler task; st_camunda_topic task].
Definition service_task_topic (task : BpmnServiceTask) : string := default (st_id task) (topic_attr task).
Definition user_task_assignee (task : BpmnUserTask) : string :=
  default "unassigned" (first_attr [ut_assignee task; ut_camunda_assignee task; None]).

Definition resolve_message_ref (message_ref : option string) (lookup : Lookup) : option string :=
  r ← nonempty_attr message_ref; Some (default r (lookup !! r)).
Definition resolve_signal_ref (signal_ref : option string) (lookup : Lookup) (element_kind element_id : string)
    : EngineResult string :=
  match nonempty_attr signal_ref with
  | None => invalid ("signalEventDefinition on " +:+ element_kind +:+ " '" +:+ element_id +:+ "' has no signalRef")
  | Some signal_ref =>
    ok_or (InvalidDefinition ("signalEventDefinition on " +:+ element_kind +:+ " '" +:+ element_id
             +:+ "' references unknown signal '" +:+ signal_ref +:+ "'")) (lookup !! signal_ref)
  end.

(** The code of an error or an escalation: its code, else its name, else its id. *)
Definition code_or (code name : option string) (id : string) : string :=
  match code with Some c => c | None => default id name end.

(** The lookup tables of a document. *)
Record Lookups := mkLookups {
  message_lookup : Lookup;
  signal_lookup : Lookup;
  error_lookup : Lookup;
  escalation_lookup : Lookup;
}.
Definition lookups_of (defs : BpmnDefinitions) : Lookups := mkLookups
  (to_lookup ((λ m, (msg_id m, msg_name m)) <$> messages defs))
  (to_lookup ((λ s, (sig_id s, sig_name s)) <$> signals defs))
  (to_lookup ((λ e, (err_id e, code_or (err_code e) (err_name e) (err_id e))) <$> errors defs))
  (to_lookup ((λ e, (esc_id e, code_or (esc_code e) (esc_name e) (esc_id e))) <$> escalations defs)).
(** [reference.and_then(|id| lookup.get(&id).cloned())]. *)
Definition look (reference : option string) (lookup : Lookup) : option string := r ← reference; lookup !! r.

(** ** Multi-instance loops *)

Definition parse_multi_instance (mi : option BpmnMultiInstanceLoopCharacteristics) (element_id : string)
    : EngineResult (option MultiInstanceDef) :=
  match mi with
  | None => Ok None
  | Some mi =>
    let result cardinality collection := Ok (Some {| is_sequential := default false (mi_is_sequential mi);
      loop_cardinality := cardinality; collection := collection;
      element_variable := nonempty_attr (mi_element_variable mi) |}) in
    match nonempty_attr (mi_collection mi), nonempty_attr (lc ← mi_loop_cardinality mi; lc_value lc) with
    | Some _, Some _ => invalid ("Multi-instance element '" +:+ element_id
        +:+ "' must define either collection or loopCardinality, not both")
    | None, None => invalid ("Multi-instance element '" +:+ element_id +:+ "' requires either collection or loopCardinality")
    | Some collection, None => result None (Some collection)
    | None, Some cardinality =>
      match parse_u32 (chars cardinality) with
      | Some (Npos p) => result (Some (pretty (Npos p))) None
      | _ => invalid ("Multi-instance loopCardinality of element '" +:+ element_id
               +:+ "' must be a positive integer, got '" +:+ cardinality +:+ "'")
      end
    end
  end.
Definition reject_multi_instance (mi : option BpmnMultiInstanceLoopCharacteristics) (element_id element_kind : string)
    : EngineResult unit :=
  match mi with
  | Some _ => invalid ("Multi-instance is only supported for service tasks; " +:+ element_kind +:+ " '" +:+ element_id
                +:+ "' is not supported")
  | None => Ok tt
  end.

(** ** Links *)

Record LinkScope := mkLinks { link_targets : Lookup; link_catch_ids : gset string }.

Definition link_catch (scope_label : string) (flows : list BpmnSequenceFlow) (scope : LinkScope)
    (catch_evt : BpmnIntermediateCatchEvent) : EngineResult LinkScope :=
  match ic_link catch_evt with
  | None => Ok scope
  | Some link =>
    let name := trim_str (link_name link) in
    let where_ := "'" +:+ ic_id catch_evt +:+ "' in scope '" +:+ scope_label +:+ "'" in
    if String.eqb name "" then invalid ("link catch event " +:+ where_ +:+ " has an empty linkEventDefinition name")
    else if bool_decide (is_Some (link_targets scope !! name)) then
      invalid ("duplicate link name '" +:+ name +:+ "' in scope '" +:+ scope_label +:+ "' (catch event '"
                 +:+ ic_id catch_evt +:+ "')")
    else if existsb (λ flow, String.eqb (target_ref flow) (ic_id catch_evt)) flows then
      invalid ("link catch event " +:+ where_ +:+ " must not have incoming sequence flows")
    else
      match List.filter (λ flow, String.eqb (source_ref flow) (ic_id catch_evt)) flows with
      | [] => invalid ("link catch event " +:+ where_ +:+ " has no outgoing sequence flow")
      | [flow] => Ok (mkLinks (<[name := target_ref flow]> (link_targets scope)) ({[ic_id catch_evt]} ∪ link_catch_ids scope))
      | _ => invalid ("link catch event " +:+ where_ +:+ " must have exactly one outgoing sequence flow")
      end
  end.
Definition resolve_link_scope (scope_label : string) (catches : list BpmnIntermediateCatchEvent)
    (flows : list BpmnSequenceFlow) : EngineResult LinkScope :=
  try_fold (link_catch scope_label flows) (mkLinks ∅ ∅) catches.

Definition resolve_link_throw (scope : LinkScope) (scope_label throw_id : string) (link : BpmnLinkEventDefinition)
    (flows : list BpmnSequenceFlow) : EngineResult string :=
  let name := trim_str (link_name link) in
  let where_ := "'" +:+ throw_id +:+ "' in scope '" +:+ scope_label +:+ "'" in
  if String.eqb name "" then invalid ("link throw event " +:+ where_ +:+ " has an empty linkEventDefinition name")
  else if existsb (λ flow, String.eqb (source_ref flow) throw_id) flows then
    invalid ("link throw event " +:+ where_ +:+ " must not have outgoing sequence flows")
  else ok_or (InvalidDefinition ("link throw event '" +:+ throw_id +:+ "' references unknown link name '" +:+ name
                +:+ "' in scope '" +:+ scope_label +:+ "': no matching link catch event")) (link_targets scope !! name).

Definition gateway_is_instantiating_or_parallel (gw : BpmnGateway) : bool :=
  match gw_instantiate gw with Some v => flag_is_true v | None => false end
  || match gw_event_gateway_type gw with Some v => is_parallel_gateway_type v | None => false end.

Section elements.
  Context {U : UnicodeData} {T : TimeLib} (lk : Lookups).

Definition parse_conditional_condition (definition : BpmnConditionalEventDefinition) (element_kind element_id : string)
    : EngineResult string :=
  condition ←? ok_or (InvalidDefinition ("conditionalEventDefinition on " +:+ element_kind +:+ " '" +:+ element_id
                        +:+ "' has no conditionExpression"))
                 (nonempty_attr (ce_value <$> cd_condition definition));
  _ ←? check_condition ("invalid condition on conditional event '" +:+ element_id +:+ "'") condition;
  Ok condition.

(** ** The node of an element

    A process and a sub-process compile these elements alike. *)

(** The end events of a process and of an event sub-process ([event_handler_end]). *)
Definition event_handler_end (e : BpmnEndEvent) : EngineResult BpmnElement :=
  match ee_terminate e, ee_error e, ee_escalation e, ee_compensate e, ee_signal e with
  | Some _, _, _, _, _ => Ok TerminateEndEvent
  | None, Some err, _, _, _ => Ok (ErrorEndEvent (default "generic_error" (look (error_ref err) (error_lookup lk))))
  | None, None, Some esc, _, _ =>
    Ok (EscalationEndEvent (default "generic_escalation" (look (escalation_ref esc) (escalation_lookup lk))))
  | None, None, None, Some comp, _ => Ok (CompensationEndEvent (activity_ref comp))
  | None, None, None, None, Some sig =>
    name ←? resolve_signal_ref (signal_ref sig) (signal_lookup lk) "endEvent" (ee_id e); Ok (SignalEndEvent name)
  | None, None, None, None, None => Ok EndEvent
  end.

Definition catch_element (c : BpmnIntermediateCatchEvent) : EngineResult BpmnElement :=
  match ic_timer c, ic_message c, ic_signal c, ic_conditional c with
  | Some timer, _, _, _ => t ←? parse_timer_definition (ic_id c) timer; Ok (TimerCatchEvent t)
  | None, Some msg, _, _ =>
    Ok (MessageCatchEvent (default "generic_message" (resolve_message_ref (message_ref msg) (message_lookup lk))))
  | None, None, Some sig, _ =>
    name ←? resolve_signal_ref (signal_ref sig) (signal_lookup lk) "intermediateCatchEvent" (ic_id c);
    Ok (SignalCatchEvent name)
  | None, None, None, Some cond =>
    condition ←? parse_conditional_condition cond "intermediateCatchEvent" (ic_id c);
    Ok (ConditionalCatchEvent condition)
  | None, None, None, None => invalid ("intermediateCatchEvent '" +:+ ic_id c
      +:+ "' has no timerEventDefinition, messageEventDefinition, signalEventDefinition, or conditionalEventDefinition")
  end.

(** The message name of a throw event or a boundary event is resolved in another
    way in a process than in a sub-process: [name]. *)
Definition throw_element (name : BpmnMessageEventDefinition → string) (e : BpmnIntermediateThrowEvent)
    : EngineResult BpmnElement :=
  match it_message e, it_signal e, it_escalation e, it_compensate e with
  | Some msg, _, _, _ => Ok (SendTask (name msg) None)
  | None, Some sig, _, _ =>
    signal ←? resolve_signal_ref (signal_ref sig) (signal_lookup lk) "intermediateThrowEvent" (it_id e);
    Ok (SignalThrowEvent signal)
  | None, None, Some esc, _ =>
    Ok (EscalationThrowEvent (default "generic_escalation" (look (escalation_ref esc) (escalation_lookup lk))))
  | None, None, None, Some comp => Ok (CompensationThrowEvent (activity_ref comp))
  | None, None, None, None => invalid ("intermediateThrowEvent '" +:+ it_id e
      +:+ "' has no message, signal, escalation, or compensate definition")
  end.

Definition boundary_element (name : BpmnMessageEventDefinition → string) (bd : BpmnBoundaryEvent)
    : EngineResult BpmnElement :=
  let attached_to := be_attached_to_ref bd in
  let cancel_activity := default true (be_cancel_activity bd) in
  match be_cancel bd with
  | Some _ => invalid (cancel_violation "boundary event" (be_id bd) None)
  | None =>
    match be_timer bd, be_message bd, be_signal bd, be_conditional bd with
    | Some timer, _, _, _ =>
      t ←? parse_timer_definition (be_id bd) timer; Ok (BoundaryTimerEvent attached_to t cancel_activity)
    | None, Some msg, _, _ => Ok (BoundaryMessageEvent attached_to (name msg) cancel_activity)
    | None, None, Some sig, _ =>
      signal ←? resolve_signal_ref (signal_ref sig) (signal_lookup lk) "boundaryEvent" (be_id bd);
      Ok (BoundarySignalEvent attached_to signal cancel_activity)
    | None, None, None, Some cond =>
      condition ←? parse_conditional_condition cond "boundaryEvent" (be_id bd);
      Ok (BoundaryConditionalEvent attached_to condition cancel_activity)
    | None, None, None, None =>
      match be_error bd, be_escalation bd, be_compensate bd with
      | Some err, _, _ => Ok (BoundaryErrorEvent attached_to (look (error_ref err) (error_lookup lk)))
      | None, Some esc, _ =>
        Ok (BoundaryEscalationEvent attached_to (look (escalation_ref esc) (escalation_lookup lk)) cancel_activity)
      | None, None, Some _ => Ok (BoundaryCompensationEvent attached_to)
      | None, None, None => invalid ("boundaryEvent '" +:+ be_id bd
          +:+ "' has no timer, message, signal, conditional, error, escalation, or compensate definition")
      end
    end
  end.

Definition script_content (task : BpmnScriptTask) : string :=
  match (s ← xt_script task; ct_content s) with Some s => s | None => default "" (xt_data_script task) end.
Definition require_script (task : BpmnScriptTask) : EngineResult unit :=
  guard (negb (is_blank (script_content task))) (InvalidDefinition ("scriptTask '" +:+ xt_id task +:+ "' has an empty script")).

Definition send_task_message_name (task : BpmnSendTask) : string :=
  match resolve_message_ref (m ← nt_message task; message_ref m) (message_lookup lk) with
  | Some name => name
  | None =>
    match resolve_message_ref (nt_message_ref task) (message_lookup lk) with
    | Some name => name
    | None => default ("send_" +:+ nt_id task) (nonempty_attr (nt_name task))
    end
  end.

Definition receive_message (task : BpmnReceiveTask) : EngineResult string :=
  let msg_ref := match rv_message_ref task with Some r => Some r | None => m ← rv_message task; message_ref m end in
  ok_or (InvalidDefinition ("receiveTask '" +:+ rv_id task +:+ "' has no messageRef"))
    (resolve_message_ref msg_ref (message_lookup lk)).
Definition receive_instantiates (task : BpmnReceiveTask) : bool :=
  match rv_instantiate task with Some v => flag_is_true v | None => false end.

Definition require_topic (task : BpmnServiceTask) : EngineResult unit :=
  guard (match topic_attr task with Some _ => true | None => false end)
    (InvalidDefinition ("businessRuleTask '" +:+ st_id task
       +:+ "' has no topic (data-topic, data-handler, or camunda:topic); DMN is not supported")).

Definition reject_generic (tasks : list BpmnGenericTask) : EngineResult unit :=
  match tasks with
  | task :: _ => invalid (generic_task_violation (gt_id task) None)
  | [] => Ok tt
  end.
Definition reject_transaction (tx : option BpmnTransaction) (scope_id : string) : EngineResult unit :=
  match tx with
  | Some tx => invalid (transaction_violation (default scope_id (tx_id tx)) None)
  | None => Ok tt
  end.
Definition reject_cancel (e : BpmnEndEvent) : EngineResult unit :=
  match ee_cancel e with
  | Some _ => invalid (cancel_violation "end event" (ee_id e) None)
  | None => Ok tt
  end.
Definition flow_targets (flows : list BpmnSequenceFlow) : Lookup := to_lookup ((λ f, (fl_id f, target_ref f)) <$> flows).
Definition complex_element (default_target : option string) (gw : BpmnComplexGateway) : BpmnElement :=
  ComplexGateway ((λ c, trim_str (ce_value c)) <$> cg_activation_condition gw) default_target.

(** ** The loops of a process *)

(** [builder.node(..)] followed by [add_listeners(..)]. *)
Definition add_element (id : string) (e : BpmnElement) (exts : option BpmnExtensionElements) (b : Builder) : Builder :=
  add_listeners (b_node id e b) id exts.

Definition process_start (b : Builder) (start : BpmnStartEvent) : EngineResult Builder :=
  match se_conditional start with
  | Some _ => invalid (conditional_start_violation (se_id start) None None)
  | None =>
    e ←? match se_timer start, se_message start, se_signal start with
         | Some timer, _, _ => t ←? parse_timer_definition (se_id start) timer; Ok (TimerStartEvent t)
         | None, Some msg, _ =>
           Ok (MessageStartEvent (default "generic_message" (look (message_ref msg) (message_lookup lk))))
         | None, None, Some sig =>
           name ←? resolve_signal_ref (signal_ref sig) (signal_lookup lk) "startEvent" (se_id start);
           Ok (SignalStartEvent name)
         | None, None, None => Ok StartEvent
         end;
    Ok (add_element (se_id start) e (se_extensions start) b)
  end.
Definition process_end (b : Builder) (e : BpmnEndEvent) : EngineResult Builder :=
  _ ←? reject_cancel e;
  element ←? event_handler_end e;
  Ok (add_element (ee_id e) element (ee_extensions e) b).
Definition process_service_task (b : Builder) (task : BpmnServiceTask) : EngineResult Builder :=
  multi_instance ←? parse_multi_instance (st_multi_instance task) (st_id task);
  Ok (add_element (st_id task) (ServiceTask (service_task_topic task) multi_instance) (st_extensions task) b).
(** User tasks and manual tasks. *)
Definition process_user_task (kind : string) (b : Builder) (task : BpmnUserTask) : EngineResult Builder :=
  _ ←? reject_multi_instance (ut_multi_instance task) (ut_id task) kind;
  Ok (add_element (ut_id task) (UserTask (user_task_assignee task)) (ut_extensions task) b).
Definition process_script_task (b : Builder) (task : BpmnScriptTask) : EngineResult Builder :=
  _ ←? reject_multi_instance (xt_multi_instance task) (xt_id task) "scriptTask";
  _ ←? require_script task;
  Ok (add_element (xt_id task) (ScriptTask (script_content task) None) (xt_extensions task) b).
Definition process_send_task (b : Builder) (task : BpmnSendTask) : EngineResult Builder :=
  _ ←? reject_multi_instance (nt_multi_instance task) (nt_id task) "sendTask";
  Ok (add_element (nt_id task) (SendTask (send_task_message_name task) None) (nt_extensions task) b).
(** An instantiating receive task is the message start of the process. *)
Definition process_receive_task (flows : list BpmnSequenceFlow) (b : Builder) (task : BpmnReceiveTask) : EngineResult Builder :=
  _ ←? reject_multi_instance (rv_multi_instance task) (rv_id task) "receiveTask";
  message_name ←? receive_message task;
  let instantiating := receive_instantiates task in
  if instantiating && existsb (λ flow, String.eqb (target_ref flow) (rv_id task)) flows then
    invalid ("instantiating receiveTask '" +:+ rv_id task +:+ "' must not have incoming sequence flows")
  else
    Ok (add_element (rv_id task) (if instantiating then MessageStartEvent message_name else MessageCatchEvent message_name)
          (rv_extensions task) b).
Definition process_business_rule_task (b : Builder) (task : BpmnServiceTask) : EngineResult Builder :=
  _ ←? require_topic task;
  _ ←? reject_multi_instance (st_multi_instance task) (st_id task) "businessRuleTask";
  Ok (add_element (st_id task) (ServiceTask (service_task_topic task) None) (st_extensions task) b).
Definition process_call_activity (b : Builder) (task : BpmnCallActivity) : EngineResult Builder :=
  Ok (add_element (ca_id task) (CallActivity (default (ca_id task) (ca_called_element task))) (ca_extensions task) b).
(** The default of a gateway names a flow; an unknown flow counts as no default. *)
Definition process_exclusive_gateway (flow_lookup : Lookup) (b : Builder) (gw : BpmnExclusiveGateway) : EngineResult Builder :=
  Ok (add_element (xg_id gw) (ExclusiveGateway (look (xg_default gw) flow_lookup)) (xg_extensions gw) b).
Definition process_gateway (e : BpmnElement) (b : Builder) (gw : BpmnGateway) : EngineResult Builder :=
  Ok (add_element (gw_id gw) e (gw_extensions gw) b).
Definition process_event_gateway (b : Builder) (gw : BpmnGateway) : EngineResult Builder :=
  if gateway_is_instantiating_or_parallel gw then invalid (instantiating_gateway_violation (gw_id gw) None)
  else Ok (add_element (gw_id gw) EventBasedGateway (gw_extensions gw) b).
Definition process_complex_gateway (flow_lookup : Lookup) (b : Builder) (gw : BpmnComplexGateway) : EngineResult Builder :=
  Ok (add_element (cg_id gw) (complex_element (look (cg_default gw) flow_lookup) gw) (cg_extensions gw) b).
(** Link catches are not nodes: the throw jumps to their target. *)
Definition process_catch (b : Builder) (c : BpmnIntermediateCatchEvent) : EngineResult Builder :=
  match ic_link c with
  | Some _ => Ok b
  | None => e ←? catch_element c; Ok (add_element (ic_id c) e (ic_extensions c) b)
  end.
Definition process_throw (links : LinkScope) (process_id : string) (flows : list BpmnSequenceFlow) (b : Builder)
    (e : BpmnIntermediateThrowEvent) : EngineResult Builder :=
  match it_link e with
  | Some link =>
    target ←? resolve_link_throw links process_id (it_id e) link flows;
    Ok (add_listeners (b_flow (it_id e) target (b_node (it_id e) (LinkThrowEvent target) b)) (it_id e) (it_extensions e))
  | None =>
    element ←? throw_element (λ msg, default "generic_throw" (look (message_ref msg) (message_lookup lk))) e;
    Ok (add_element (it_id e) element (it_extensions e) b)
  end.
Definition process_boundary (b : Builder) (bd : BpmnBoundaryEvent) : EngineResult Builder :=
  e ←? boundary_element (λ msg, default "unknown" (r ← message_ref msg; Some (default r (message_lookup lk !! r)))) bd;
  Ok (b_node (be_id bd) e b).
(** Sequence flows; those of a link catch are left out. *)
Definition add_flow (links : LinkScope) (b : Builder) (flow : BpmnSequenceFlow) : Builder :=
  if bool_decide (source_ref flow ∈ link_catch_ids links) then b
  else
    match fl_condition flow with
    | Some cond => b_conditional_flow (source_ref flow) (target_ref flow) (trim_str (ce_value cond)) b
    | None => b_flow (source_ref flow) (target_ref flow) b
    end.

(** [compile_process] up to the sub-processes. *)
Definition compile_elements (p : BpmnProcess) (links : LinkScope) : EngineResult Builder :=
  let s := proc_scope p in
  let flows := sp_sequence_flows s in
  let b := add_listeners (builder_new (sp_id s)) (sp_id s) (sp_extensions s) in
  b ←? try_fold process_start b (sp_start_events s);
  b ←? try_fold process_end b (sp_end_events s);
  b ←? try_fold process_service_task b (sp_service_tasks s);
  b ←? try_fold (process_user_task "userTask") b (sp_user_tasks s);
  b ←? try_fold process_script_task b (sp_script_tasks s);
  b ←? try_fold process_send_task b (sp_send_tasks s);
  b ←? try_fold (process_receive_task flows) b (sp_receive_tasks s);
  b ←? try_fold (process_user_task "manualTask") b (sp_manual_tasks s);
  b ←? try_fold process_business_rule_task b (sp_business_rule_tasks s);
  _ ←? reject_generic (sp_generic_tasks s);
  b ←? try_fold process_call_activity b (sp_call_activities s);
  let flow_lookup := flow_targets flows in
  b ←? try_fold (process_exclusive_gateway flow_lookup) b (sp_exclusive_gateways s);
  b ←? try_fold (process_gateway InclusiveGateway) b (sp_inclusive_gateways s);
  b ←? try_fold (process_gateway ParallelGateway) b (sp_parallel_gateways s);
  b ←? try_fold process_event_gateway b (sp_event_based_gateways s);
  b ←? try_fold (process_complex_gateway flow_lookup) b (sp_complex_gateways s);
  b ←? try_fold process_catch b (sp_catch_events s);
  b ←? try_fold (process_throw links (sp_id s) flows) b (sp_throw_events s);
  try_fold process_boundary b (sp_boundary_events s).

(** An event sub-process is not connected to the flow of its process. *)
Definition check_handler_flows (flows : list BpmnSequenceFlow) (sp : BpmnSubProcess) : EngineResult unit :=
  let id := sp_id (sub_scope sp) in
  if bool_decide (triggered_by_event sp = Some true)
     && existsb (λ flow, String.eqb (source_ref flow) id || String.eqb (target_ref flow) id) flows then
    invalid ("event sub-process '" +:+ id +:+ "' cannot have incoming or outgoing sequence flows")
  else Ok tt.

End elements.
