(* ===== verification/BpmnSub.v ===== *)
(** * Sub-processes

    bpmn-parser/src/parser.rs: an embedded sub-process is flattened into the graph
    of its process, an event sub-process becomes a handler with a graph of its own
    that is then attached to the definition. *)

From stdpp Require Import base list gmap strings sorting.
From S2P Require Import Prelude Text Json CondLexer CondParser Domain ProcessDef BpmnModels Iso8601 BpmnScan BpmnCompile.
Local Open Scope rust_scope.

Section sub.
  Context {U : UnicodeData} {T : TimeLib} (lk : Lookups).

(** ** The loops of a sub-process *)

(** The default of a gateway names a flow of the sub-process. *)
Definition resolve_sub_process_default (flow_lookup : Lookup) (sub_process_id gateway_id : string) (default : option string)
    : EngineResult (option string) :=
  match default with
  | None => Ok None
  | Some flow_id =>
    target ←? ok_or (InvalidDefinition ("gateway '" +:+ gateway_id +:+ "' in subProcess '" +:+ sub_process_id
                       +:+ "' references unknown default flow '" +:+ flow_id +:+ "'")) (flow_lookup !! flow_id);
    Ok (Some target)
  end.

Definition sub_end (as_event_handler : bool) (sub_process_id : string) (b : Builder) (e : BpmnEndEvent) : EngineResult Builder :=
  _ ←? reject_cancel e;
  element ←? (if as_event_handler then event_handler_end lk e else Ok (SubProcessEndEvent sub_process_id));
  Ok (b_node (ee_id e) element b).
Definition sub_service_task (b : Builder) (task : BpmnServiceTask) : EngineResult Builder :=
  multi_instance ←? parse_multi_instance (st_multi_instance task) (st_id task);
  Ok (b_node (st_id task) (ServiceTask (service_task_topic task) multi_instance) b).
Definition sub_script_task (b : Builder) (task : BpmnScriptTask) : EngineResult Builder :=
  _ ←? require_script task;
  _ ←? reject_multi_instance (xt_multi_instance task) (xt_id task) "scriptTask";
  Ok (b_node (xt_id task) (ScriptTask (script_content task) None) b).
(** User tasks and manual tasks. *)
Definition sub_user_task (kind : string) (b : Builder) (task : BpmnUserTask) : EngineResult Builder :=
  _ ←? reject_multi_instance (ut_multi_instance task) (ut_id task) kind;
  Ok (b_node (ut_id task) (UserTask (user_task_assignee task)) b).
Definition sub_send_task (b : Builder) (task : BpmnSendTask) : EngineResult Builder :=
  _ ←? reject_multi_instance (nt_multi_instance task) (nt_id task) "sendTask";
  Ok (b_node (nt_id task) (SendTask (send_task_message_name lk task) None) b).
Definition sub_receive_task (b : Builder) (task : BpmnReceiveTask) : EngineResult Builder :=
  if receive_instantiates task then invalid (instantiating_receive_violation (rv_id task) None)
  else
    _ ←? reject_multi_instance (rv_multi_instance task) (rv_id task) "receiveTask";
    message_name ←? receive_message lk task;
    Ok (b_node (rv_id task) (MessageCatchEvent message_name) b).
Definition sub_business_rule_task (b : Builder) (task : BpmnServiceTask) : EngineResult Builder :=
  _ ←? require_topic task;
  _ ←? reject_multi_instance (st_multi_instance task) (st_id task) "businessRuleTask";
  Ok (b_node (st_id task) (ServiceTask (service_task_topic task) None) b).
Definition sub_call_activity (b : Builder) (task : BpmnCallActivity) : EngineResult Builder :=
  Ok (b_node (ca_id task) (CallActivity (default (ca_id task) (ca_called_element task))) b).
Definition sub_exclusive_gateway (flow_lookup : Lookup) (sub_process_id : string) (b : Builder) (gw : BpmnExclusiveGateway)
    : EngineResult Builder :=
  default_target ←? resolve_sub_process_default flow_lookup sub_process_id (xg_id gw) (xg_default gw);
  Ok (b_node (xg_id gw) (ExclusiveGateway default_target) b).
Definition sub_gateway (e : BpmnElement) (b : Builder) (gw : BpmnGateway) : EngineResult Builder :=
  Ok (b_node (gw_id gw) e b).
Definition sub_event_gateway (b : Builder) (gw : BpmnGateway) : EngineResult Builder :=
  if gateway_is_instantiating_or_parallel gw then invalid (instantiating_gateway_violation (gw_id gw) None)
  else Ok (b_node (gw_id gw) EventBasedGateway b).
Definition sub_complex_gateway (flow_lookup : Lookup) (sub_process_id : string) (b : Builder) (gw : BpmnComplexGateway)
    : EngineResult Builder :=
  default_target ←? resolve_sub_process_default flow_lookup sub_process_id (cg_id gw) (cg_default gw);
  Ok (b_node (cg_id gw) (complex_element default_target gw) b).
Definition sub_catch (b : Builder) (c : BpmnIntermediateCatchEvent) : EngineResult Builder :=
  match ic_link c with
  | Some _ => Ok b
  | None => e ←? catch_element lk c; Ok (b_node (ic_id c) e b)
  end.
Definition sub_throw (links : LinkScope) (sub_process_id : string) (flows : list BpmnSequenceFlow) (b : Builder)
    (e : BpmnIntermediateThrowEvent) : EngineResult Builder :=
  match it_link e with
  | Some link =>
    target ←? resolve_link_throw links sub_process_id (it_id e) link flows;
    Ok (b_flow (it_id e) target (b_node (it_id e) (LinkThrowEvent target) b))
  | None =>
    element ←? throw_element lk (λ msg, default "generic_throw" (resolve_message_ref (message_ref msg) (message_lookup lk))) e;
    Ok (b_node (it_id e) element b)
  end.
Definition sub_boundary (b : Builder) (bd : BpmnBoundaryEvent) : EngineResult Builder :=
  e ←? boundary_element lk (λ msg, default "unknown" (resolve_message_ref (message_ref msg) (message_lookup lk))) bd;
  Ok (b_node (be_id bd) e b).

(** The entry of a sub-process: where its start leads, and whether it forks. *)
Definition sub_entry (as_event_handler : bool) (s : BpmnScope) : EngineResult (string * string * bool) :=
  match sp_start_events s with
  | [] => invalid ("subProcess '" +:+ sp_id s +:+ "' has no startEvent")
  | [start] =>
    match se_conditional start with
    | Some _ => invalid (conditional_start_violation (se_id start) (Some (sp_id s)) None)
    | None =>
      match List.filter (λ flow, String.eqb (source_ref flow) (se_id start)) (sp_sequence_flows s) with
      | [] => invalid ("startEvent '" +:+ se_id start +:+ "' in subProcess '" +:+ sp_id s +:+ "' has no outgoing sequence flow")
      | [flow] => Ok (se_id start, target_ref flow, false)
      | _ =>
        if as_event_handler then
          invalid ("event sub-process start '" +:+ se_id start +:+ "' must have exactly one outgoing sequence flow")
        else Ok (se_id start, se_id start, true)
      end
    end
  | _ => invalid ("subProcess '" +:+ sp_id s +:+ "' must have exactly one startEvent")
  end.

(** The node of the sub-process itself, and of a start that stays in the graph. *)
Definition enter_scope (as_event_handler : bool) (sub_process_id start_event_id start_node_id : string) (start_forks : bool)
    (b : Builder) : Builder :=
  if as_event_handler then b_node start_event_id StartEvent b
  else
    let b := b_node sub_process_id (EmbeddedSubProcess start_node_id) b in
    if start_forks then b_node start_event_id ParallelGateway b else b.

(** The flows of a sub-process; those out of a pass-through start are its entry. *)
Definition sub_flow (links : LinkScope) (skip_start : option string) (b : Builder) (flow : BpmnSequenceFlow) : Builder :=
  if bool_decide (skip_start = Some (source_ref flow)) then b else add_flow links b flow.

(** [flatten_subprocess] up to the nested sub-processes. *)
Definition flatten_scope (as_event_handler : bool) (s : BpmnScope) (b : Builder) : EngineResult Builder :=
  let id := sp_id s in
  let flows := sp_sequence_flows s in
  _ ←? reject_transaction (sp_transaction s) id;
  links ←? resolve_link_scope id (sp_catch_events s) flows;
  '(start_event_id, start_node_id, start_forks) ←? sub_entry as_event_handler s;
  let b := enter_scope as_event_handler id start_event_id start_node_id start_forks b in
  b ←? try_fold (sub_end as_event_handler id) b (sp_end_events s);
  b ←? try_fold sub_service_task b (sp_service_tasks s);
  b ←? try_fold sub_script_task b (sp_script_tasks s);
  b ←? try_fold (sub_user_task "userTask") b (sp_user_tasks s);
  b ←? try_fold sub_send_task b (sp_send_tasks s);
  b ←? try_fold sub_receive_task b (sp_receive_tasks s);
  b ←? try_fold (sub_user_task "manualTask") b (sp_manual_tasks s);
  b ←? try_fold sub_business_rule_task b (sp_business_rule_tasks s);
  _ ←? reject_generic (sp_generic_tasks s);
  b ←? try_fold sub_call_activity b (sp_call_activities s);
  let flow_lookup := flow_targets flows in
  b ←? try_fold (sub_exclusive_gateway flow_lookup id) b (sp_exclusive_gateways s);
  b ←? try_fold (sub_gateway ParallelGateway) b (sp_parallel_gateways s);
  b ←? try_fold (sub_gateway InclusiveGateway) b (sp_inclusive_gateways s);
  b ←? try_fold sub_event_gateway b (sp_event_based_gateways s);
  b ←? try_fold (sub_complex_gateway flow_lookup id) b (sp_complex_gateways s);
  b ←? try_fold sub_catch b (sp_catch_events s);
  b ←? try_fold (sub_throw links id flows) b (sp_throw_events s);
  b ←? try_fold sub_boundary b (sp_boundary_events s);
  Ok (foldl (sub_flow links (if negb start_forks && negb as_event_handler then Some start_event_id else None)) b flows).

Fixpoint flatten_subprocess (as_event_handler : bool) (sp : BpmnSubProcess) (b : Builder) : EngineResult Builder :=
  if bool_decide (triggered_by_event sp = Some true) && negb as_event_handler then
    invalid (nested_event_subprocess_violation (sp_id (sub_scope sp)) None)
  else
    b ←? flatten_scope as_event_handler (sub_scope sp) b;
    try_fold (λ b nested, flatten_subprocess false nested b) b (sub_sub_processes sp).

(** ** Event sub-processes *)

Definition referenced_code (reference : option string) (lookup : Lookup) (kind start_id : string) : EngineResult (option string) :=
  match nonempty_attr reference with
  | None => Ok None
  | Some reference =>
    code ←? ok_or (InvalidDefinition ("event sub-process start '" +:+ start_id +:+ "' references unknown " +:+ kind
                     +:+ " '" +:+ reference +:+ "'")) (lookup !! reference);
    Ok (Some code)
  end.

(** [if let Some(x) = definition { triggers.push(f(x)?); }]. *)
Definition push_trigger {A} (definition : option A) (f : A → EngineResult EventSubProcessTrigger)
    (triggers : list EventSubProcessTrigger) : EngineResult (list EventSubProcessTrigger) :=
  match definition with
  | Some x => t ←? f x; Ok (triggers ++ [t])
  | None => Ok triggers
  end.
Definition event_subprocess_trigger (subprocess_id : string) (start : BpmnStartEvent) : EngineResult EventSubProcessTrigger :=
  match se_conditional start with
  | Some _ => invalid (conditional_start_violation (se_id start) (Some subprocess_id) None)
  | None =>
    ts ←? push_trigger (se_timer start) (λ timer, t ←? parse_timer_definition (se_id start) timer; Ok (TriggerTimer t)) [];
    ts ←? push_trigger (se_message start) (λ message,
      name ←? ok_or (InvalidDefinition ("message start of event sub-process '" +:+ subprocess_id +:+ "' requires messageRef"))
                (resolve_message_ref (message_ref message) (message_lookup lk));
      Ok (TriggerMessage name)) ts;
    ts ←? push_trigger (se_signal start) (λ signal,
      name ←? resolve_signal_ref (signal_ref signal) (signal_lookup lk) "startEvent" (se_id start);
      Ok (TriggerSignal name)) ts;
    ts ←? push_trigger (se_error start) (λ error,
      code ←? referenced_code (error_ref error) (error_lookup lk) "error" (se_id start); Ok (TriggerError code)) ts;
    ts ←? push_trigger (se_escalation start) (λ escalation,
      code ←? referenced_code (escalation_ref escalation) (escalation_lookup lk) "escalation" (se_id start);
      Ok (TriggerEscalation code)) ts;
    match ts with
    | [trigger] => Ok trigger
    | _ => invalid ("event sub-process '" +:+ subprocess_id +:+ "' start '" +:+ se_id start
             +:+ "' requires exactly one event definition")
    end
  end.

(** [node_ids.sort()] on the keys of the body. *)
Definition sorted_keys (ns : gmap string BpmnElement) : list string := sort_by String.ltb (map_to_list ns).*1.

Definition has_listeners (exts : option BpmnExtensionElements) : bool :=
  match exts with Some e => negb (length (execution_listeners e) =? 0) | None => false end.
Definition is_error_trigger (t : EventSubProcessTrigger) : bool := match t with TriggerError _ => true | _ => false end.

(** The key generated for the body is not used. *)
Definition compile_event_subprocess (body_key : Uuid) (sp : BpmnSubProcess) : EngineResult (EventSubProcess * ProcessDefinition) :=
  let s := sub_scope sp in
  let id := sp_id s in
  if has_listeners (sp_extensions s) then
    invalid ("execution listeners on event sub-process '" +:+ id
               +:+ "' are not supported; attach them to activities inside the handler")
  else
    match List.find (λ nested, bool_decide (triggered_by_event nested = Some true)) (sub_sub_processes sp) with
    | Some nested => invalid ("event sub-process '" +:+ sp_id (sub_scope nested) +:+ "' inside subProcess '" +:+ id
                       +:+ "' is not supported")
    | None =>
      match sp_start_events s with
      | [start] =>
        let is_interrupting := default true (se_is_interrupting start) in
        trigger ←? event_subprocess_trigger id start;
        if is_error_trigger trigger && negb is_interrupting then
          invalid ("error start of event sub-process '" +:+ id +:+ "' must be interrupting")
        else if negb (count (λ flow, String.eqb (source_ref flow) (se_id start)) (sp_sequence_flows s) =? 1) then
          invalid ("event sub-process start '" +:+ se_id start +:+ "' must have exactly one outgoing sequence flow")
        else
          b ←? flatten_subprocess true sp (builder_new id);
          body ←? build body_key b;
          Ok ({| esp_id := id; esp_start_node := se_id start; esp_node_ids := sorted_keys (nodes body);
                 esp_trigger := trigger; esp_interrupting := is_interrupting |}, body)
      | _ => invalid ("event sub-process '" +:+ id +:+ "' requires exactly one start event")
      end
    end.

Definition trigger_identity (t : EventSubProcessTrigger) : option string :=
  match t with
  | TriggerTimer _ => None
  | TriggerMessage name => Some ("message:" +:+ name)
  | TriggerSignal name => Some ("signal:" +:+ name)
  | TriggerError code => Some ("error:" +:+ default "*" code)
  | TriggerEscalation code => Some ("escalation:" +:+ default "*" code)
  end.

(** [entry(k).or_default().extend(v)] for every entry of [b]. *)
Definition extend_lists {A} (a b : gmap string (list A)) : gmap string (list A) :=
  union_with (λ x y, Some (x ++ y)) a b.

Definition attach_event_subprocess (d : ProcessDefinition) (hb : EventSubProcess * ProcessDefinition)
    : EngineResult ProcessDefinition :=
  let '(handler, body) := hb in
  let duplicated := match trigger_identity (esp_trigger handler) with
    | Some identity =>
      if existsb (λ other, bool_decide (trigger_identity (esp_trigger other) = Some identity)) (event_subprocesses d)
      then Some identity else None
    | None => None
    end in
  match duplicated with
  | Some identity => invalid ("event sub-process '" +:+ esp_id handler +:+ "' duplicates trigger '" +:+ identity +:+ "'")
  | None =>
    if existsb (λ other, String.eqb (esp_id other) (esp_id handler)) (event_subprocesses d) then
      invalid ("duplicate event sub-process id '" +:+ esp_id handler +:+ "'")
    else
      _ ←? for_each (λ id, guard (negb (bool_decide (is_Some (nodes d !! id))))
             (InvalidDefinition ("event sub-process '" +:+ esp_id handler +:+ "' reuses node id '" +:+ id +:+ "'")))
             (map_to_list (nodes body)).*1;
      Ok (mkDefinition (def_key d) (def_id d) (version d) (nodes body ∪ nodes d) (extend_lists (flows d) (flows body))
            (extend_lists (listeners d) (listeners body)) (event_listeners d) (event_subprocesses d ++ [handler])
            (sub_processes d) (data_variables d) (variable_defaults d) (data_mappings d))
  end.

End sub.
