(* ===== verification/BpmnParse.v ===== *)
(** * Parsing a BPMN document

    bpmn-parser/src/parser.rs, [compile_process], [parse_bpmn_xml] and
    [parse_bpmn_processes]: the scan, the deserialized document, the compilation
    of every executable process and the data of the document put together. *)

From Stdlib Require Import Sorted.
From stdpp Require Import base list gmap strings sorting.
From S2P Require Import Prelude Text Json CondLexer CondParser Domain Token ProcessDef BpmnModels Iso8601 BpmnScan BpmnTree BpmnData BpmnCompile BpmnSub.
Local Open Scope rust_scope.

Section parse.
  Context {U : UnicodeData} {T : TimeLib} {L : XmlLib}.

(** ** One process *)

(** A sub-process of the process: a handler, or more nodes for the builder. *)
Definition add_sub_process (key : Uuid) (lk : Lookups) (acc : Builder * list (EventSubProcess * ProcessDefinition))
    (sp : BpmnSubProcess) : EngineResult (Builder * list (EventSubProcess * ProcessDefinition)) :=
  let '(b, handlers) := acc in
  if bool_decide (triggered_by_event sp = Some true) then
    handler ←? compile_event_subprocess lk key sp; Ok (b, handlers ++ [handler])
  else b ←? flatten_subprocess lk false sp b; Ok (b, handlers).

(** [compile_process] up to [builder.build()]. *)
Definition process_builder (key : Uuid) (lk : Lookups) (p : BpmnProcess)
    : EngineResult (Builder * list (EventSubProcess * ProcessDefinition)) :=
  let s := proc_scope p in
  let flows := sp_sequence_flows s in
  _ ←? reject_transaction (sp_transaction s) (sp_id s);
  links ←? resolve_link_scope (sp_id s) (sp_catch_events s) flows;
  b ←? compile_elements lk p links;
  _ ←? for_each (check_handler_flows flows) (proc_sub_processes p);
  try_fold (add_sub_process key lk) (foldl (add_flow links) b flows, []) (proc_sub_processes p).

(** [compile_process] on the process that was removed from the document; [key] is
    the key the new definition gets. *)
Definition compile_one (key : Uuid) (xml : string) (lk : Lookups) (p : BpmnProcess) : EngineResult ProcessDefinition :=
  '(b, handlers) ←? process_builder key lk p;
  d ←? build key b;
  d ←? try_fold attach_event_subprocess d handlers;
  apply_data xml d.

(** [Vec::remove]; it panics behind the end. *)
Definition remove_process (index : nat) (defs : BpmnDefinitions) : option (BpmnProcess * BpmnDefinitions) :=
  p ← processes defs !! index;
  Some (p, mkDefinitions (delete index (processes defs)) (messages defs) (signals defs) (errors defs) (escalations defs)).

Definition compile_process (key : Uuid) (xml : string) (defs : BpmnDefinitions) (index : nat)
    : call (EngineResult ProcessDefinition * BpmnDefinitions) :=
  match remove_process index defs with
  | None => Panics
  | Some (p, defs) => Returns (compile_one key xml (lookups_of defs) p, defs)
  end.

(** ** Documents *)

Definition read_definitions (xml : string) : EngineResult BpmnDefinitions :=
  defs ←? map_err (λ e, InvalidDefinition ("BPMN XML parsing failed (hint: ensure the XML contains a valid <process> element and supported entities): " +:+ e))
            (xml_from_str xml);
  match processes defs with
  | [] => invalid "No <process> element found in BPMN XML"
  | _ => Ok defs
  end.

Definition parse_bpmn_xml (key : Uuid) (xml : string) : call (EngineResult ProcessDefinition) :=
  match (_ ←? reject_unsupported_elements xml; read_definitions xml) with
  | Err e => Returns (Err e)
  | Ok defs =>
    let index := default 0 (fst <$> list_find (λ p, is_executable p = Some true) (processes defs)) in
    match compile_process key xml defs index with
    | Returns (r, _) => Returns r
    | Panics => Panics
    end
  end.

(** The executable processes of the scan. *)
Definition executable_indices (scan : XmlScan) : list nat :=
  fst <$> List.filter (λ ip : nat * (string * bool), ip.2.2) (imap pair (xs_processes scan)).

(** The loop over the ranked processes, from the last one in the document to the
    first, so that a removal does not move the ones still to come. *)
Fixpoint compile_ranked (keys : nat → Uuid) (xml : string) (defs : BpmnDefinitions) (ranked : list (nat * nat))
    (produced : list (option ProcessDefinition)) : call (EngineResult (list (option ProcessDefinition))) :=
  match ranked with
  | [] => Returns (Ok produced)
  | (ordinal, index) :: ranked =>
    match compile_process (keys index) xml defs index with
    | Panics => Panics
    | Returns (Err e, _) => Returns (Err e)
    | Returns (Ok d, defs) => compile_ranked keys xml defs ranked (<[ordinal := Some d]> produced)
    end
  end.
(** [map(|p| p.expect(..)).collect()]. *)
Fixpoint expect_all (produced : list (option ProcessDefinition)) : call (list ProcessDefinition) :=
  match produced with
  | [] => Returns []
  | None :: _ => Panics
  | Some d :: rest => match expect_all rest with Returns ds => Returns (d :: ds) | Panics => Panics end
  end.

(** The passes before the compilation. *)
Definition checked_definitions (xml : string) : EngineResult (list nat * BpmnDefinitions) :=
  scan ←? scan_xml xml;
  _ ←? validate_process_ids (xs_processes scan);
  let executable := executable_indices scan in
  _ ←? guard (negb (length executable =? 0)) (InvalidDefinition "No executable process in BPMN XML");
  _ ←? for_each (reject_indexed scan) executable;
  defs ←? read_definitions xml;
  _ ←? guard (length (processes defs) =? length (xs_processes scan))
         (InvalidDefinition "BPMN process list could not be aligned");
  Ok (executable, defs).

Definition index_after (a b : nat * nat) : bool := b.2 <? a.2.
Definition parse_bpmn_processes (keys : nat → Uuid) (xml : string) : call (EngineResult (list ProcessDefinition)) :=
  match checked_definitions xml with
  | Err e => Returns (Err e)
  | Ok (executable, defs) =>
    let ranked := sort_by index_after (imap pair executable) in
    match compile_ranked keys xml defs ranked (replicate (length executable) None) with
    | Panics => Panics
    | Returns (Err e) => Returns (Err e)
    | Returns (Ok produced) => match expect_all produced with Returns ds => Returns (Ok ds) | Panics => Panics end
    end
  end.

(** ** The executable processes, in document order *)

(** The process at an index compiles to a definition. *)
Definition compiles (keys : nat → Uuid) (xml : string) (defs : BpmnDefinitions) (i : nat) (r : EngineResult ProcessDefinition) : Prop :=
  ∃ p, processes defs !! i = Some p ∧ compile_one (keys i) xml (lookups_of defs) p = r.

Lemma sort_descending (l : list (nat * nat)) : StronglySorted (λ a b, a.2 < b.2) l → sort_by index_after l = rev l.
Proof.
  induction l as [|x l IH] using rev_ind; intros Hs; [done|]. rewrite sort_by_app, rev_app_distr. simpl.
  apply StronglySorted_app in Hs as (Hxy & Hl & _). rewrite (IH Hl).
  destruct (rev l) as [|y l'] eqn:Hr; [done|]. cbn [insert_by]. unfold index_after at 1.
  assert (y.2 < x.2) as Hlt.
  { apply Hxy; [|by left]. rewrite <- (rev_involutive l), Hr. cbn [rev]. set_solver. }
  apply Nat.ltb_lt in Hlt. by rewrite Hlt.
Qed.

Lemma enumerate_sorted (ex : list nat) : StronglySorted lt ex → StronglySorted (λ a b : nat * nat, a.2 < b.2) (imap pair ex).
Proof.
  enough (∀ f : nat → nat, StronglySorted lt ex → StronglySorted (λ a b : nat * nat, a.2 < b.2) (imap (λ i x, (f i, x)) ex)) as H
    by apply (H (λ i, i)).
  intros f Hs. revert f. induction Hs as [|x ex Hs IH Hx]; intros f; [constructor|]. cbn [imap]. constructor; [apply IH|].
  apply Forall_forall. intros [i y] Hin. simpl. apply elem_of_lookup_imap in Hin as (j & z & [= -> ->] & Hz).
  rewrite Forall_forall in Hx. apply Hx. by eapply list_elem_of_lookup_2.
Qed.

Lemma indices_sorted (l : list (string * bool)) n :
  let ex := fst <$> List.filter (λ ip : nat * (string * bool), ip.2.2) (imap (λ i x, (n + i, x)) l) in
  StronglySorted lt ex ∧ ∀ i, i ∈ ex → n ≤ i < n + length l.
Proof.
  revert n. induction l as [|[id b] l IH]; intros n; simpl; [split; [constructor|set_solver]|].
  destruct (IH (S n)) as [Hs Hin].
  assert (imap ((λ i (x : string * bool), (n + i, x)) ∘ S) l = imap (λ i x, (S n + i, x)) l) as ->.
  { apply imap_ext. intros i x _. simpl. f_equal. lia. }
  destruct b; simpl.
  - split; [constructor; [done|]|].
    + apply Forall_forall. intros i Hi%Hin. lia.
    + intros i [->|Hi%Hin]%elem_of_cons; lia.
  - split; [done|]. intros i Hi%Hin. lia.
Qed.
Lemma executable_sorted scan :
  StronglySorted lt (executable_indices scan) ∧ ∀ i, i ∈ executable_indices scan → i < length (xs_processes scan).
Proof.
  destruct (indices_sorted (xs_processes scan) 0) as [Hs Hin]. unfold executable_indices. split; [exact Hs|].
  intros i Hi. apply Hin. exact Hi.
Qed.

(** The removal of a process leaves those before it in place. *)
Lemma compiles_removed keys xml defs i p defs' j r :
  remove_process i defs = Some (p, defs') → j < i → compiles keys xml defs' j r ↔ compiles keys xml defs j r.
Proof.
  intros (p' & _ & [= <- <-])%bind_Some Hj.
  unfold compiles. simpl. by rewrite list_lookup_delete_lt by done.
Qed.

(** The loop over the ranked processes, the last first. *)
Lemma compile_ranked_rev keys xml ex defs rest :
  StronglySorted lt ex → (∀ i, i ∈ ex → i < length (processes defs)) →
  match compile_ranked keys xml defs (rev (imap pair ex)) (replicate (length ex) None ++ (Some <$> rest)) with
  | Returns (Ok produced) => ∃ ds, produced = (Some <$> ds) ++ (Some <$> rest) ∧ Forall2 (λ i d, compiles keys xml defs i (Ok d)) ex ds
  | Returns (Err e) => ∃ i, i ∈ ex ∧ compiles keys xml defs i (Err e)
  | Panics => False
  end.
Proof.
  revert defs rest. induction ex as [|i ex IH] using rev_ind; intros defs rest Hs Hlen; simpl.
  { exists []. by repeat constructor. }
  apply StronglySorted_app in Hs as (Hlt & Hs & _).
  rewrite imap_app, rev_app_distr. cbn [imap rev app compile_ranked]. unfold compile_process.
  destruct (lookup_lt_is_Some_2 (processes defs) i) as [p Hp]; [apply Hlen; set_solver|].
  assert (remove_process i defs = Some (p, mkDefinitions (delete i (processes defs)) (messages defs) (signals defs) (errors defs) (escalations defs))) as Hrem.
  { unfold remove_process. by rewrite Hp. }
  rewrite Hrem. pose proof (λ j r, compiles_removed keys xml _ _ _ _ j r Hrem) as Hback. revert Hback.
  set (defs' := mkDefinitions _ _ _ _ _). intros Hback. change (lookups_of defs') with (lookups_of defs).
  destruct (compile_one (keys i) xml (lookups_of defs) p) as [d|e] eqn:Hd.
  2: { exists i. split; [set_solver|]. by exists p. }
  rewrite length_app, replicate_add, <- app_assoc. cbn [length replicate app].
  rewrite Nat.add_0_r, insert_app_r_alt by (by rewrite length_replicate). rewrite length_replicate, Nat.sub_diag. cbn [insert list_insert].
  assert (∀ j, j ∈ ex → j < i) as Hji by (intros j Hj; apply Hlt; [done|set_solver]).
  specialize (IH defs' (d :: rest) Hs). rewrite fmap_cons in IH.
  assert (∀ j, j ∈ ex → j < length (processes defs')) as Hlen'.
  { intros j Hj. simpl. apply lookup_lt_is_Some_1. rewrite list_lookup_delete_lt by (by apply Hji). apply lookup_lt_is_Some_2.
    apply Hlen. set_solver. }
  specialize (IH Hlen'). destruct (compile_ranked _ _ _ _ _) as [[produced|e]|]; [| |done].
  - destruct IH as (ds & -> & Hds). exists (ds ++ [d]). rewrite fmap_app, <- app_assoc. split; [done|].
    apply Forall2_app; [|constructor; [by exists p|constructor]].
    apply Forall2_same_length_lookup_2; [by eapply Forall2_length|]. intros k j d' Hj Hd'.
    apply Hback; [by eapply Hji, list_elem_of_lookup_2|]. exact (Forall2_lookup_lr _ _ _ _ _ _ Hds Hj Hd').
  - destruct IH as (j & Hj & Hc). exists j. split; [set_solver|]. apply Hback; [by apply Hji|done].
Qed.

Lemma expect_all_some ds : expect_all (Some <$> ds) = Returns ds.
Proof. induction ds as [|d ds IH]; [done|]. rewrite fmap_cons. cbn [expect_all]. by rewrite IH. Qed.

Lemma parse_bpmn_processes_ranked keys xml :
  match parse_bpmn_processes keys xml with
  | Returns (Ok ds) => ∃ executable defs, checked_definitions xml = Ok (executable, defs) ∧ StronglySorted lt executable ∧
      Forall2 (λ i d, compiles keys xml defs i (Ok d)) executable ds
  | Returns (Err e) => checked_definitions xml = Err e ∨
      ∃ executable defs i, checked_definitions xml = Ok (executable, defs) ∧ i ∈ executable ∧ compiles keys xml defs i (Err e)
  | Panics => False
  end.
Proof.
  unfold parse_bpmn_processes. destruct (checked_definitions xml) as [[ex defs]|e] eqn:Hcd; [|by left].
  pose proof Hcd as Hc. unfold checked_definitions in Hc.
  apply result_bind_Ok in Hc as (scan & _ & Hc). apply result_bind_Ok in Hc as ([] & _ & Hc).
  apply result_bind_Ok in Hc as ([] & _ & Hc). apply result_bind_Ok in Hc as ([] & _ & Hc).
  apply result_bind_Ok in Hc as (defs' & _ & Hc).
  apply result_bind_Ok in Hc as ([] & Hlen%guard_Ok%Nat.eqb_eq & [= <- <-]).
  destruct (executable_sorted scan) as [Hs Hin]. rewrite <- Hlen in Hin.
  rewrite sort_descending by (by apply enumerate_sorted).
  pose proof (compile_ranked_rev keys xml _ defs' [] Hs Hin) as H. rewrite app_nil_r in H.
  destruct (compile_ranked _ _ _ _ _) as [[produced|e]|]; [| |done].
  - destruct H as (ds & -> & Hds). rewrite app_nil_r, expect_all_some. eauto 6.
  - right. destruct H as (i & Hi & Hi'). eauto 6.
Qed.

(** [parse_bpmn_processes] never panics: although it removes the processes from the
    document while it compiles them, its result lists, in document order, what
    every executable process compiles to, and its error is one of a pass before
    the compilation or of an executable process. *)
Theorem parse_bpmn_processes_spec keys xml :
  match parse_bpmn_processes keys xml with
  | Returns (Ok ds) => ∃ executable defs, checked_definitions xml = Ok (executable, defs) ∧
      Forall2 (λ i d, compiles keys xml defs i (Ok d)) executable ds
  | Returns (Err e) => checked_definitions xml = Err e ∨
      ∃ executable defs i, checked_definitions xml = Ok (executable, defs) ∧ i ∈ executable ∧ compiles keys xml defs i (Err e)
  | Panics => False
  end.
Proof.
  pose proof (parse_bpmn_processes_ranked keys xml) as H. destruct (parse_bpmn_processes keys xml) as [[ds|e]|]; try done.
  destruct H as (executable & defs & Hc & _ & Hds). eauto.
Qed.

End parse.
