(* ===== verification/BpmnWf.v ===== *)
(** * Parsed definitions are deployable

    Whatever document the parser accepts, the definition it returns has a closed
    graph with one start, handlers with disjoint graphs of their own, links that
    lead to nodes and conditions that parse.  First what the loops of BpmnCompile.v and
    BpmnSub.v preserve: a property of builders that survives a node, a link throw with
    its flow, a flow and a listener survives the compilation of a whole process. *)

From Stdlib Require Import Sorted.
From stdpp Require Import base list gmap strings sorting.
From S2P Require Import Prelude Text Json CondLexer CondParser Domain Token ProcessDef BpmnModels Iso8601 BpmnScan BpmnTree BpmnData BpmnCompile BpmnSub BpmnParse.
Local Open Scope rust_scope.

Definition is_link (e : BpmnElement) : bool := match e with LinkThrowEvent _ => true | _ => false end.
(** What the loops of a sub-process add: neither links nor starts. *)
Definition inner (e : BpmnElement) : Prop := is_link e = false ∧ is_start e = false.
Lemma inner_link e : inner e → is_link e = false.
Proof. by intros []. Qed.

(** Preserved by what a sub-process adds. *)
Class BuilderInv (P : Builder → Prop) : Prop := {
  inv_node id e b : inner e → P b → P (b_node id e b);
  inv_link id t b : P b → P (b_flow id t (b_node id (LinkThrowEvent t) b));
  inv_flow from sf b : P b → P (b_push_flow from sf b);
}.
(** Preserved by what a process adds too. *)
Class ProcessInv (P : Builder → Prop) : Prop := {
  inv_start id e b : is_start e = true → P b → P (b_node id e b);
  inv_listener id evt script b : P b → P (b_listener id evt script b);
}.

(** Split the steps of a loop body that returned [Ok]. *)
Ltac ok_steps :=
  repeat match goal with
  | H : result_bind _ _ = Ok _ |- _ => let x := fresh "x" in apply result_bind_Ok in H as (x & ? & H)
  | H : Ok _ = Ok _ |- _ => injection H as <-
  | H : invalid _ = Ok _ |- _ => discriminate H
  | H : Err _ = Ok _ |- _ => discriminate H
  | H : (if ?c then _ else _) = Ok _ |- _ => destruct c eqn:?
  | H : match ?x with _ => _ end = Ok _ |- _ => destruct x eqn:?
  end.

Section inv.
  Context {U : UnicodeData} {T : TimeLib} (lk : Lookups).

(** ** The elements both kinds of scope compile *)

Lemma event_handler_end_inner e x : event_handler_end lk e = Ok x → inner x.
Proof. unfold event_handler_end. intros H. by ok_steps. Qed.
Lemma catch_element_inner c x : catch_element lk c = Ok x → inner x.
Proof. unfold catch_element. intros H. by ok_steps. Qed.
Lemma throw_element_inner f e x : throw_element lk f e = Ok x → inner x.
Proof. unfold throw_element. intros H. by ok_steps. Qed.
Lemma boundary_element_inner f e x : boundary_element lk f e = Ok x → inner x.
Proof. unfold boundary_element. intros H. by ok_steps. Qed.

Context (P : Builder → Prop) {HP : BuilderInv P}.

Lemma add_flow_inv links b flow : P b → P (add_flow links b flow).
Proof. intros Hb. unfold add_flow. repeat case_match; [done|by apply inv_flow..]. Qed.

Lemma foldl_inv {X} (f : Builder → X → Builder) b l : (∀ b x, P b → P (f b x)) → P b → P (foldl f b l).
Proof. intros Hf. revert b. induction l as [|x l IH]; intros b Hb; [done|]. apply IH. by apply Hf. Qed.

(** A loop keeps what its body keeps. *)
Lemma loop_inv {X} (f : Builder → X → EngineResult Builder) b l b' :
  (∀ b x b', P b → f b x = Ok b' → P b') → P b → try_fold f b l = Ok b' → P b'.
Proof. intros Hf Hb. apply try_fold_inv; [done|]. intros a x a' _. apply Hf. Qed.

(** Run the loops of [H], each with a body that [step] shows to keep [P]. *)
Ltac run_loops P H Hb step :=
  cbv zeta in H;
  repeat lazymatch type of H with
  | result_bind (try_fold _ ?b _) _ = Ok _ =>
    let b1 := fresh "b" in let H1 := fresh "H" in let Hb1 := fresh "Hb" in
    apply result_bind_Ok in H as (b1 & H1 & H);
    assert (P b1) as Hb1 by (refine (loop_inv _ _ _ _ _ Hb H1); clear H H1; step);
    clear H1 Hb; rename Hb1 into Hb
  | result_bind _ _ = Ok _ => apply result_bind_Ok in H as ([] & _ & H)
  end.

(** ** Sub-processes *)

Ltac sub_step :=
  let Hx := fresh "Hx" in intros ? ? ? ? Hx;
  unfold sub_end, sub_service_task, sub_script_task, sub_user_task, sub_send_task, sub_receive_task,
    sub_business_rule_task, sub_call_activity, sub_exclusive_gateway, sub_gateway, sub_event_gateway,
    sub_complex_gateway, sub_catch, sub_throw, sub_boundary in Hx;
  ok_steps; try done; try (apply inv_link; done); apply inv_node; try done;
  eauto using event_handler_end_inner, catch_element_inner, throw_element_inner, boundary_element_inner.

Lemma sub_entry_start h s start target forks :
  sub_entry h s = Ok (start, target, forks) → ∃ e, e ∈ sp_start_events s ∧ se_id e = start.
Proof.
  unfold sub_entry. destruct (sp_start_events s) as [|e [|]]; [done| |done]. intros H. exists e.
  split; [by left|]. ok_steps; by simplify_eq.
Qed.

(** The start of a handler stays a node: its insertion is a hypothesis. *)
Lemma flatten_scope_inv h s b b' :
  (h = true → ∀ e, e ∈ sp_start_events s → P (b_node (se_id e) StartEvent b)) →
  P b → flatten_scope lk h s b = Ok b' → P b'.
Proof.
  intros Hstart Hb H. unfold flatten_scope in H.
  apply result_bind_Ok in H as ([] & _ & H). apply result_bind_Ok in H as (links & _ & H).
  apply result_bind_Ok in H as ([[start target] forks] & (e & Hin & <-)%sub_entry_start & H).
  assert (P (enter_scope h (sp_id s) (se_id e) target forks b)) as He.
  { unfold enter_scope. destruct h; [by apply Hstart|]. destruct forks; repeat (apply inv_node; [done|]); done. }
  revert He H. generalize (enter_scope h (sp_id s) (se_id e) target forks b). clear b Hb Hstart. intros b Hb H.
  run_loops P H Hb ltac:(sub_step).
  injection H as <-. apply foldl_inv; [|done]. intros ? flow ?. unfold sub_flow. case_match; [done|].
  by apply add_flow_inv.
Qed.

Lemma flatten_subprocess_inv h sp b b' :
  (h = true → ∀ e, e ∈ sp_start_events (sub_scope sp) → P (b_node (se_id e) StartEvent b)) →
  P b → flatten_subprocess lk h sp b = Ok b' → P b'.
Proof.
  revert h b b'. induction sp as [s t subs IH] using BpmnSubProcess_nested_ind. intros h b b' Hstart Hb H.
  cbn [flatten_subprocess triggered_by_event sub_scope sub_sub_processes] in H. case_match; [done|].
  apply result_bind_Ok in H as (b1 & H1%flatten_scope_inv & H); [|done..]. rewrite Forall_forall in IH.
  revert H. apply try_fold_inv; [done|]. intros a x a' Hx Ha. by apply IH.
Qed.

(** ** Processes *)

Context {HL : ProcessInv P}.

Lemma add_listeners_inv b id exts : P b → P (add_listeners b id exts).
Proof.
  intros Hb. unfold add_listeners. destruct exts; [|done]. apply foldl_inv; [|done]. intros b1 l Hb1.
  unfold add_listener. repeat case_match; try done; by apply inv_listener.
Qed.
Lemma any_node_inv id e b : is_link e = false → P b → P (b_node id e b).
Proof. intros He Hb. destruct (is_start e) eqn:Hs; [by apply inv_start|]. by apply inv_node. Qed.
Lemma add_element_inv id e exts b : is_link e = false → P b → P (add_element id e exts b).
Proof. intros. by apply add_listeners_inv, any_node_inv. Qed.

Ltac process_step :=
  let Hx := fresh "Hx" in intros ? ? ? ? Hx;
  unfold process_start, process_end, process_service_task, process_user_task, process_script_task, process_send_task,
    process_receive_task, process_business_rule_task, process_call_activity, process_exclusive_gateway, process_gateway,
    process_event_gateway, process_complex_gateway, process_catch, process_throw, process_boundary in Hx;
  ok_steps; try done; try (apply add_listeners_inv, inv_link; done);
  first [apply add_element_inv | apply any_node_inv]; try done; try (case_match; done);
  eauto using inner_link, event_handler_end_inner, catch_element_inner, throw_element_inner, boundary_element_inner.

Lemma compile_elements_inv p links b :
  P (builder_new (sp_id (proc_scope p))) → compile_elements lk p links = Ok b → P b.
Proof.
  intros Hb H. unfold compile_elements in H. cbv zeta in H.
  apply (add_listeners_inv _ (sp_id (proc_scope p)) (sp_extensions (proc_scope p))) in Hb.
  run_loops P H Hb ltac:(process_step). refine (loop_inv _ _ _ _ _ Hb H). clear H. process_step.
Qed.

End inv.

(** ** The builder of a process *)

(** The jump of a link throw is also a flow of the graph. *)
Definition links_flow (b : Builder) : Prop :=
  ∀ id t, b_nodes b !! id = Some (LinkThrowEvent t) → ∃ sf, sf ∈ outgoing (b_flows b) id ∧ target sf = t.

Lemma outgoing_push_at fl from (sf : SequenceFlow) id :
  outgoing (push_at from sf fl) id = outgoing fl id ++ (if decide (id = from) then [sf] else []).
Proof.
  unfold outgoing, push_at. case_decide as Hid; [subst; by rewrite lookup_insert_eq|].
  by rewrite lookup_insert_ne, app_nil_r by done.
Qed.

Lemma links_flow_push from sf b : links_flow b → links_flow (b_push_flow from sf b).
Proof.
  intros H id t Hid. destruct (H id t Hid) as (sf' & Hin & Ht). exists sf'. split; [|done].
  simpl. rewrite outgoing_push_at. set_solver.
Qed.
Lemma links_flow_node id e b : is_link e = false → links_flow b → links_flow (b_node id e b).
Proof.
  intros He H id' t. simpl. destruct (decide (id' = id)) as [->|Hne].
  - rewrite lookup_insert_eq. intros [= ->]. done.
  - rewrite lookup_insert_ne by done. apply H.
Qed.
#[export] Instance links_flow_builder : BuilderInv links_flow.
Proof.
  split.
  - intros id e b [He _]. by apply links_flow_node.
  - intros id t b H id' t'. simpl. rewrite outgoing_push_at. destruct (decide (id' = id)) as [->|Hne].
    + rewrite lookup_insert_eq. intros [= <-]. exists (flow_simple t). split; [set_solver|done].
    + rewrite lookup_insert_ne, app_nil_r by done. apply H.
  - intros from sf b. apply links_flow_push.
Qed.
#[export] Instance links_flow_process : ProcessInv links_flow.
Proof. split; [|done]. intros id e b He. apply links_flow_node. by destruct e. Qed.

(** The builder keeps its id and the key that [build] is to choose. *)
Definition built_as (id : string) (b : Builder) : Prop := b_id b = id ∧ b_key b = None.
#[export] Instance built_as_builder id : BuilderInv (built_as id).
Proof. by split. Qed.
#[export] Instance built_as_process id : ProcessInv (built_as id).
Proof. by split. Qed.

(** In a handler only its own start is a start. *)
Definition starts_at (start : string) (b : Builder) : Prop :=
  ∀ id e, b_nodes b !! id = Some e → is_start e = true → id = start ∧ e = StartEvent.
Lemma starts_at_node start id e b : is_start e = false → starts_at start b → starts_at start (b_node id e b).
Proof.
  intros He H id' e'. simpl. destruct (decide (id' = id)) as [->|Hne].
  - rewrite lookup_insert_eq. intros [= <-]. by rewrite He.
  - rewrite lookup_insert_ne by done. apply H.
Qed.
#[export] Instance starts_at_builder start : BuilderInv (starts_at start).
Proof.
  split; [|by intros; apply (starts_at_node _ _ (LinkThrowEvent _))|done].
  intros id e b [_ He]. by apply starts_at_node.
Qed.

(** Flattening adds no listener: those of the activities of a sub-process and of
    an event sub-process are dropped. *)
Definition listeners_are (ls : gmap string (list ExecutionListener)) (b : Builder) : Prop := b_listeners b = ls.
#[export] Instance listeners_are_builder ls : BuilderInv (listeners_are ls).
Proof. by split. Qed.

(** ** Parsed definitions are deployable *)

(** ** Two graphs side by side *)

Lemma count_perm {A} (f : A → bool) l k : l ≡ₚ k → count f l = count f k.
Proof.
  unfold count. induction 1 as [|x l k _ IH|x y l|l k m _ IH1 _ IH2]; cbn [List.filter]; [done| | |congruence].
  - destruct (f x); cbn [length]; congruence.
  - by destruct (f x), (f y).
Qed.

Lemma all_flows_insert fl k outs : fl !! k = None → all_flows (<[k := outs]> fl) ≡ₚ outs ++ all_flows fl.
Proof. intros H. unfold all_flows. by rewrite (map_to_list_insert fl k outs H). Qed.

Lemma all_flows_union a b : a ##ₘ b → all_flows (a ∪ b) ≡ₚ all_flows a ++ all_flows b.
Proof.
  induction b as [|k outs b Hk IH] using map_ind; intros Hd; [by rewrite map_union_empty, app_nil_r|].
  apply map_disjoint_insert_r in Hd as [Ha Hd].
  rewrite <- insert_union_r by done. rewrite all_flows_insert, all_flows_insert by (done || by apply lookup_union_None).
  rewrite IH by done. rewrite !app_assoc. f_equiv. apply Permutation_app_comm.
Qed.

Lemma extend_lists_disjoint {A} (a b : gmap string (list A)) : a ##ₘ b → extend_lists a b = a ∪ b.
Proof.
  intros Hd. apply map_eq. intros k. unfold extend_lists. rewrite lookup_union_with, lookup_union.
  specialize (Hd k). by destruct (a !! k), (b !! k).
Qed.

Section local.
  Context {U : UnicodeData}.

(** What holds of a graph whatever start it has. *)
Record local_ok (ns : gmap string BpmnElement) (fl : gmap string (list SequenceFlow)) : Prop := {
  lo_flows : ∀ from outs, fl !! from = Some outs →
    is_Some (ns !! from) ∧ ∀ sf, sf ∈ outs → is_Some (ns !! target sf);
  lo_boundary : ∀ id e a, ns !! id = Some e → attached e = Some a → is_Some (ns !! a);
  lo_outgoing : ∀ id e, ns !! id = Some e → may_stop e = false → outgoing fl id ≠ [];
  lo_gateway : ∀ id e, ns !! id = Some e → is_gateway e = true →
    2 ≤ length (outgoing fl id) ∨ 2 ≤ incoming_count fl id;
  lo_event_group : ∀ id, ns !! id = Some EventBasedGateway →
    ∀ sf, sf ∈ outgoing fl id → ∃ e, ns !! target sf = Some e ∧ is_group_catch e = true;
  lo_links : ∀ id t, ns !! id = Some (LinkThrowEvent t) → is_Some (ns !! t);
  lo_flow_conditions : ∀ id sf c, sf ∈ outgoing fl id → condition sf = Some c → ∃ e, parse_condition c = Ok e;
  lo_conditions : ∀ id el c, ns !! id = Some el → element_condition el = Some c → ∃ e, parse_condition c = Ok e;
}.

Lemma local_ok_keys ns fl from : local_ok ns fl → ns !! from = None → fl !! from = None.
Proof.
  intros H Hn. destruct (fl !! from) as [outs|] eqn:Hf; [|done].
  destruct (lo_flows _ _ H from outs Hf) as [[e He] _]. congruence.
Qed.

Lemma local_ok_target ns fl id sf : local_ok ns fl → sf ∈ outgoing fl id → is_Some (ns !! id) ∧ is_Some (ns !! target sf).
Proof. intros H (outs & Ho & Hsf)%outgoing_elem. destruct (lo_flows _ _ H id outs Ho) as [Hid Ht]. split; [done|by apply Ht]. Qed.

Section union.
  Context (ns1 ns2 : gmap string BpmnElement) (fl1 fl2 : gmap string (list SequenceFlow)).
  Context (Hd : ns1 ##ₘ ns2) (H1 : local_ok ns1 fl1) (H2 : local_ok ns2 fl2).

Lemma flows_disjoint : fl1 ##ₘ fl2.
Proof.
  apply map_disjoint_spec. intros k x y Hx Hy.
  destruct (lo_flows _ _ H1 k x Hx) as [[e1 He1] _], (lo_flows _ _ H2 k y Hy) as [[e2 He2] _].
  by eapply map_disjoint_spec.
Qed.

Lemma union_lookup_cases id e : (ns2 ∪ ns1) !! id = Some e → ns1 !! id = Some e ∨ ns2 !! id = Some e.
Proof. rewrite lookup_union_Some by (by symmetry). naive_solver. Qed.
Lemma union_lookup_1 id e : ns1 !! id = Some e → (ns2 ∪ ns1) !! id = Some e.
Proof. intros. apply lookup_union_Some; [by symmetry|by right]. Qed.
Lemma union_lookup_2 id e : ns2 !! id = Some e → (ns2 ∪ ns1) !! id = Some e.
Proof. intros. apply lookup_union_Some; [by symmetry|by left]. Qed.

(** The outgoing flows of a node are those of its own graph. *)
Lemma union_outgoing_1 id : is_Some (ns1 !! id) → outgoing (extend_lists fl1 fl2) id = outgoing fl1 id.
Proof.
  intros [e He]. unfold outgoing. rewrite extend_lists_disjoint by apply flows_disjoint. rewrite lookup_union_l; [done|].
  apply (local_ok_keys _ _ _ H2). by eapply map_disjoint_Some_l.
Qed.
Lemma union_outgoing_2 id : is_Some (ns2 !! id) → outgoing (extend_lists fl1 fl2) id = outgoing fl2 id.
Proof.
  intros [e He]. unfold outgoing. rewrite extend_lists_disjoint by apply flows_disjoint. rewrite lookup_union_r; [done|].
  apply (local_ok_keys _ _ _ H1). by eapply map_disjoint_Some_r.
Qed.
Lemma union_incoming id : incoming_count (extend_lists fl1 fl2) id = incoming_count fl1 id + incoming_count fl2 id.
Proof.
  unfold incoming_count. rewrite extend_lists_disjoint by apply flows_disjoint.
  rewrite (count_perm _ _ _ (all_flows_union _ _ flows_disjoint)). apply count_app.
Qed.
(** A flow of the union is a flow of one of the graphs. *)
Lemma union_outgoing_cases id sf : sf ∈ outgoing (extend_lists fl1 fl2) id →
  (is_Some (ns1 !! id) ∧ sf ∈ outgoing fl1 id) ∨ (is_Some (ns2 !! id) ∧ sf ∈ outgoing fl2 id).
Proof.
  intros (outs & Ho & Hsf)%outgoing_elem. rewrite extend_lists_disjoint in Ho by apply flows_disjoint.
  apply lookup_union_Some in Ho; [|apply flows_disjoint]. unfold outgoing. destruct Ho as [Ho|Ho]; [left|right];
    rewrite Ho; (split; [|done]); [by apply (lo_flows _ _ H1 id outs)|by apply (lo_flows _ _ H2 id outs)].
Qed.

Lemma union_is_Some_1 id : is_Some (ns1 !! id) → is_Some ((ns2 ∪ ns1) !! id).
Proof. intros [e He]. eauto using union_lookup_1. Qed.
Lemma union_is_Some_2 id : is_Some (ns2 !! id) → is_Some ((ns2 ∪ ns1) !! id).
Proof. intros [e He]. eauto using union_lookup_2. Qed.

Lemma local_ok_union : local_ok (ns2 ∪ ns1) (extend_lists fl1 fl2).
Proof.
  split.
  - intros from outs Ho. rewrite extend_lists_disjoint in Ho by apply flows_disjoint.
    apply lookup_union_Some in Ho as [Ho|Ho]; [| |apply flows_disjoint].
    + destruct (lo_flows _ _ H1 _ _ Ho) as [Hf Ht]. split; [by apply union_is_Some_1|]. eauto using union_is_Some_1.
    + destruct (lo_flows _ _ H2 _ _ Ho) as [Hf Ht]. split; [by apply union_is_Some_2|]. eauto using union_is_Some_2.
  - intros id e a [He|He]%union_lookup_cases Ha.
    + eauto using union_is_Some_1, lo_boundary.
    + eauto using union_is_Some_2, lo_boundary.
  - intros id e [He|He]%union_lookup_cases Hm.
    + rewrite union_outgoing_1 by eauto. by eapply lo_outgoing.
    + rewrite union_outgoing_2 by eauto. by eapply lo_outgoing.
  - intros id e [He|He]%union_lookup_cases Hg; rewrite union_incoming.
    + rewrite union_outgoing_1 by eauto. destruct (lo_gateway _ _ H1 id e He Hg); [by left|right; lia].
    + rewrite union_outgoing_2 by eauto. destruct (lo_gateway _ _ H2 id e He Hg); [by left|right; lia].
  - intros id [He|He]%union_lookup_cases sf.
    + rewrite union_outgoing_1 by eauto. intros Hsf. destruct (lo_event_group _ _ H1 id He sf Hsf) as (e & ? & ?).
      eauto using union_lookup_1.
    + rewrite union_outgoing_2 by eauto. intros Hsf. destruct (lo_event_group _ _ H2 id He sf Hsf) as (e & ? & ?).
      eauto using union_lookup_2.
  - intros id t [He|He]%union_lookup_cases; [eapply union_is_Some_1, (lo_links _ _ H1)|eapply union_is_Some_2, (lo_links _ _ H2)]; done.
  - intros id sf c [[_ Hsf]|[_ Hsf]]%union_outgoing_cases; [by apply (lo_flow_conditions _ _ H1 id)|by apply (lo_flow_conditions _ _ H2 id)].
  - intros id el c [He|He]%union_lookup_cases; [by apply (lo_conditions _ _ H1 id)|by apply (lo_conditions _ _ H2 id)].
Qed.
End union.
End local.

(** ** Deployable definitions *)

Section deployable.
  Context {U : UnicodeData} {T : TimeLib} {L : XmlLib}.

(** A handler: its start and its nodes are in the graph, and no flow leaves or
    enters it. *)
Record handler_ok (d : ProcessDefinition) (h : EventSubProcess) : Prop := {
  ho_start : nodes d !! esp_start_node h = Some StartEvent;
  ho_start_in : esp_start_node h ∈ esp_node_ids h;
  ho_nodes : ∀ id, id ∈ esp_node_ids h → is_Some (nodes d !! id);
  ho_closed : ∀ id sf, sf ∈ outgoing (flows d) id → id ∈ esp_node_ids h ↔ target sf ∈ esp_node_ids h;
}.

Record deployable (d : ProcessDefinition) : Prop := {
  dp_graph : local_ok (nodes d) (flows d);
  dp_start : ∃ sid e, nodes d !! sid = Some e ∧ is_start e = true ∧ event_subprocess_node d sid = false ∧
    ∀ id' e', nodes d !! id' = Some e' → is_start e' = true → event_subprocess_node d id' = false → id' = sid;
  dp_handlers : ∀ h, h ∈ event_subprocesses d → handler_ok d h;
  dp_disjoint : NoDup (mjoin (esp_node_ids <$> event_subprocesses d));
  dp_triggers : NoDup (omap (λ h, trigger_identity (esp_trigger h)) (event_subprocesses d));
  dp_ids : NoDup (esp_id <$> event_subprocesses d);
}.

Lemma event_subprocess_node_spec d id :
  event_subprocess_node d id = true ↔ ∃ h, h ∈ event_subprocesses d ∧ id ∈ esp_node_ids h.
Proof.
  unfold event_subprocess_node. rewrite existsb_exists. setoid_rewrite existsb_exists.
  setoid_rewrite <- list_elem_of_In. setoid_rewrite bool_decide_eq_true. naive_solver.
Qed.

(** What [build] returns. *)
Lemma build_ok key b d :
  links_flow b → build key b = Ok d →
  local_ok (nodes d) (flows d) ∧ nodes d = b_nodes b ∧ flows d = b_flows b ∧ listeners d = b_listeners b ∧
  def_key d = default key (b_key b) ∧ def_id d = b_id b ∧ event_subprocesses d = [] ∧ data_mappings d = ∅ ∧ data_variables d = [] ∧
  ∃ sid e, nodes d !! sid = Some e ∧ is_start e = true ∧
    ∀ id' e', nodes d !! id' = Some e' → is_start e' = true → id' = sid.
Proof.
  intros Hlinks H. destruct (proj1 (build_accepts key b) (ex_intro _ d H)) as (Hwf & Hcf & Hcn).
  unfold build in H. apply result_bind_Ok in H as ([] & _ & H). unfold definition_new in H.
  apply result_bind_Ok in H as ([] & _ & [= <-]). simpl. destruct Hwf as [Hst _ Hfl Hbo Hou Hga Hev].
  split; [|by split_and!]. split; try done.
  - intros id t (sf & (outs & Ho & Hsf)%outgoing_elem & <-)%Hlinks. by apply (Hfl id outs).
  - intros id sf c (outs & Ho & Hsf)%outgoing_elem. by eapply Hcf.
Qed.

(** A handler and the graph compiled for it. *)
Record body_ok (h : EventSubProcess) (body : ProcessDefinition) : Prop := {
  bo_graph : local_ok (nodes body) (flows body);
  bo_start : nodes body !! esp_start_node h = Some StartEvent;
  bo_nodes : ∀ id, id ∈ esp_node_ids h ↔ is_Some (nodes body !! id);
  bo_nodup : NoDup (esp_node_ids h);
}.

Lemma sorted_keys_elem ns id : id ∈ sorted_keys ns ↔ is_Some (ns !! id).
Proof.
  unfold sorted_keys. rewrite sort_by_perm, list_elem_of_fmap. split.
  - intros ([k e] & -> & Hin%elem_of_map_to_list). eauto.
  - intros [e He]. exists (id, e). by rewrite elem_of_map_to_list.
Qed.
Lemma sorted_keys_NoDup ns : NoDup (sorted_keys ns).
Proof. unfold sorted_keys. rewrite sort_by_perm. apply NoDup_fst_map_to_list. Qed.

Lemma compile_event_subprocess_ok lk key sp h body :
  compile_event_subprocess lk key sp = Ok (h, body) → body_ok h body ∧ esp_id h = sp_id (sub_scope sp).
Proof.
  unfold compile_event_subprocess. intros H. destruct (has_listeners _); [done|].
  destruct (List.find _ _); [done|]. destruct (sp_start_events (sub_scope sp)) as [|start [|]] eqn:Hst; [done| |done].
  apply result_bind_Ok in H as (trigger & _ & H). destruct (_ && _); [done|]. destruct (negb _); [done|].
  apply result_bind_Ok in H as (b & Hb & H). apply result_bind_Ok in H as (body' & Hbody & H). simplify_eq.
  assert (links_flow b) as Hlinks.
  { eapply (flatten_subprocess_inv lk links_flow); [| |exact Hb]; [|by intros id t].
    intros _ e _ id t. simpl. rewrite lookup_insert_Some, lookup_empty. naive_solver. }
  assert (starts_at (se_id start) b) as Hstart.
  { eapply (flatten_subprocess_inv lk (starts_at (se_id start))); [| |exact Hb]; [|by intros id e].
    intros _ e. rewrite Hst. intros ->%list_elem_of_singleton id e'. simpl.
    rewrite lookup_insert_Some, lookup_empty. naive_solver. }
  destruct (build_ok _ _ _ Hlinks Hbody) as (Hlo & Hn & _ & _ & _ & _ & _ & _ & _ & sid & e & He & Hs & _).
  split; [|done]. split; simpl; [done| |apply sorted_keys_elem|apply sorted_keys_NoDup].
  rewrite Hn in He |- *. by destruct (Hstart sid e He Hs) as [-> ->].
Qed.

(** ** Attaching a handler *)

Section attach.
  Context (d d' : ProcessDefinition) (h : EventSubProcess) (body : ProcessDefinition).
  Context (Hdep : deployable d) (Hbody : body_ok h body) (Hattach : attach_event_subprocess d (h, body) = Ok d').

Lemma attach_fields :
  nodes d ##ₘ nodes body ∧ nodes d' = nodes body ∪ nodes d ∧ flows d' = extend_lists (flows d) (flows body) ∧
  event_subprocesses d' = event_subprocesses d ++ [h] ∧
  (∀ other, other ∈ event_subprocesses d → esp_id other ≠ esp_id h) ∧
  (∀ identity other, trigger_identity (esp_trigger h) = Some identity → other ∈ event_subprocesses d →
     trigger_identity (esp_trigger other) ≠ Some identity).
Proof.
  unfold attach_event_subprocess in Hattach. destruct (match trigger_identity _ with Some _ => _ | None => None end) eqn:Hdup; [done|].
  destruct (existsb _ (event_subprocesses d)) eqn:Hid; [done|].
  apply result_bind_Ok in Hattach as ([] & Hfresh & [= <-]). simpl. rewrite for_each_Ok in Hfresh.
  split_and!; [|done..| |].
  - apply map_disjoint_spec. intros k x y Hx Hy. specialize (Hfresh k).
    rewrite guard_Ok, negb_true_iff, bool_decide_eq_false in Hfresh. apply Hfresh; [|eauto].
    apply list_elem_of_fmap. exists (k, y). by rewrite elem_of_map_to_list.
  - intros other Hin Heq. apply not_true_iff_false in Hid. apply Hid, existsb_exists. exists other.
    by rewrite <- list_elem_of_In, String.eqb_eq.
  - intros identity other Hi Hin Heq. rewrite Hi in Hdup. destruct (existsb _ (event_subprocesses d)) eqn:He; [done|].
    apply not_true_iff_false in He. apply He, existsb_exists. exists other.
    by rewrite <- list_elem_of_In, bool_decide_eq_true.
Qed.

Lemma handler_nodes_outside other id : other ∈ event_subprocesses d → id ∈ esp_node_ids other → id ∉ esp_node_ids h.
Proof.
  destruct attach_fields as (Hdisj & _). intros Ho Hid Hh. apply (bo_nodes _ _ Hbody) in Hh as [y Hy].
  destruct (ho_nodes _ _ (dp_handlers _ Hdep other Ho) id Hid) as [x Hx]. by eapply map_disjoint_spec.
Qed.

(** The flows of the result, split by the graph they belong to. *)
Lemma attach_outgoing id sf : sf ∈ outgoing (flows d') id →
  (sf ∈ outgoing (flows d) id ∧ is_Some (nodes d !! id) ∧ is_Some (nodes d !! target sf)) ∨
  (id ∈ esp_node_ids h ∧ target sf ∈ esp_node_ids h).
Proof.
  destruct attach_fields as (Hdisj & _ & -> & _).
  intros [[_ Hsf]|[_ Hsf]]%(union_outgoing_cases _ _ _ _ Hdisj (dp_graph _ Hdep) (bo_graph _ _ Hbody)).
  - left. split; [done|]. by apply (local_ok_target _ _ _ _ (dp_graph _ Hdep)).
  - right. destruct (local_ok_target _ _ _ _ (bo_graph _ _ Hbody) Hsf). by rewrite !(bo_nodes _ _ Hbody).
Qed.

Lemma not_handler_node id : is_Some (nodes d !! id) → id ∉ esp_node_ids h.
Proof.
  destruct attach_fields as (Hdisj & _). intros [x Hx] [y Hy]%(bo_nodes _ _ Hbody). by eapply map_disjoint_spec.
Qed.

Lemma attach_handler_ok other : other ∈ event_subprocesses d' → handler_ok d' other.
Proof.
  destruct attach_fields as (Hdisj & Hn & _ & -> & _). intros [Ho| ->%list_elem_of_singleton]%elem_of_app.
  - destruct (dp_handlers _ Hdep other Ho) as [Hs Hin Hnodes Hcl]. split; [|done|..].
    + rewrite Hn. by apply union_lookup_1.
    + intros id Hid. rewrite Hn. by apply union_is_Some_1, Hnodes.
    + intros id sf [[Hsf _]|[Hi Ht]]%attach_outgoing; [by apply Hcl|].
      split; intros Hoid; [destruct (handler_nodes_outside other id)|destruct (handler_nodes_outside other (target sf))]; done.
  - split.
    + rewrite Hn. apply union_lookup_2; [done|apply Hbody].
    + apply (bo_nodes _ _ Hbody). rewrite (bo_start _ _ Hbody). eauto.
    + intros id Hid%(bo_nodes _ _ Hbody). rewrite Hn. by apply union_is_Some_2.
    + intros id sf [(_ & Hi & Ht)|Hboth]%attach_outgoing; [|naive_solver].
      split; intros Hin; [destruct (not_handler_node id)|destruct (not_handler_node (target sf))]; done.
Qed.

Lemma attach_start : ∃ sid e, nodes d' !! sid = Some e ∧ is_start e = true ∧ event_subprocess_node d' sid = false ∧
  ∀ id' e', nodes d' !! id' = Some e' → is_start e' = true → event_subprocess_node d' id' = false → id' = sid.
Proof.
  destruct attach_fields as (Hdisj & Hn & _ & He & _).
  destruct (dp_start _ Hdep) as (sid & e & Hsid & Hs & Hout & Huniq).
  assert (∀ id, event_subprocess_node d' id = false ↔ event_subprocess_node d id = false ∧ id ∉ esp_node_ids h) as Hnode.
  { intros id. rewrite <- !not_true_iff_false, !event_subprocess_node_spec, He. setoid_rewrite elem_of_app.
    setoid_rewrite list_elem_of_singleton. naive_solver. }
  exists sid, e. rewrite Hn. split; [by apply union_lookup_1|]. split; [done|]. split.
  - apply Hnode. split; [done|]. apply not_handler_node. eauto.
  - intros id' e' [H1|H2]%union_lookup_cases Hs' [Hout' Hnh]%Hnode; [by eapply Huniq| |done].
    exfalso. apply Hnh, (bo_nodes _ _ Hbody). eauto.
Qed.

Lemma attach_deployable : deployable d'.
Proof.
  destruct attach_fields as (Hdisj & Hn & Hf & He & Hids & Htrig). split.
  - rewrite Hn, Hf. apply local_ok_union; [done|apply Hdep|apply Hbody].
  - apply attach_start.
  - apply attach_handler_ok.
  - rewrite He, fmap_app, join_app. simpl. rewrite app_nil_r. apply NoDup_app. split_and!; [apply Hdep| |apply Hbody].
    intros id (ids & Hid & (other & -> & Ho)%list_elem_of_fmap)%list_elem_of_join. by eapply handler_nodes_outside.
  - rewrite He, omap_app. apply NoDup_app. split_and!; [apply Hdep| |].
    + intros identity (other & Ho & Hi)%list_elem_of_omap (h' & ->%list_elem_of_singleton & Hh)%list_elem_of_omap.
      by eapply Htrig.
    + simpl. case_match; [apply NoDup_singleton|apply NoDup_nil_2].
  - rewrite He, fmap_app. apply NoDup_app. split_and!; [apply Hdep| |apply NoDup_singleton].
    intros id (other & -> & Ho)%list_elem_of_fmap Hin%list_elem_of_singleton. by apply (Hids other).
Qed.
End attach.

Lemma same_graph_deployable d d' : same_graph d d' → deployable d → deployable d'.
Proof.
  intros (_ & _ & _ & Hn & Hf & _ & _ & He & _) [Hg Hst Hh Hdis Htr Hids].
  assert (∀ id, event_subprocess_node d' id = event_subprocess_node d id) as Hesn.
  { intros id. unfold event_subprocess_node. by rewrite He. }
  split; rewrite ?Hn, ?Hf, ?He; try done.
  - setoid_rewrite Hesn. done.
  - intros h Hin%Hh. destruct Hin. split; by rewrite ?Hn, ?Hf.
Qed.

(** ** The builder of a process *)

Lemma process_builder_inv (P : Builder → Prop) `{!BuilderInv P, !ProcessInv P} key lk p b hs :
  P (builder_new (proc_id p)) → process_builder key lk p = Ok (b, hs) → P b.
Proof.
  intros HP H. unfold process_builder in H. cbv zeta in H.
  apply result_bind_Ok in H as ([] & _ & H). apply result_bind_Ok in H as (links & _ & H).
  apply result_bind_Ok in H as (b1 & H1 & H). apply result_bind_Ok in H as ([] & _ & H).
  assert (P b1) as Hb1 by (by eapply compile_elements_inv). clear H1.
  apply (try_fold_inv _ (λ acc, P acc.1) _ _ (b, hs)) in H; [done|..]; simpl.
  - apply foldl_inv; [|done]. intros. by apply add_flow_inv.
  - intros [a l] sp [a' l'] _ Ha Hx. unfold add_sub_process in Hx. simpl in *. case_bool_decide.
    + apply result_bind_Ok in Hx as (? & _ & [= <- <-]). done.
    + apply result_bind_Ok in Hx as (a1 & Hx & [= <- <-]). by eapply (flatten_subprocess_inv lk P false); [..|exact Hx].
Qed.

Lemma process_builder_handlers key lk p b hs :
  process_builder key lk p = Ok (b, hs) → Forall (λ hb, body_ok hb.1 hb.2) hs.
Proof.
  intros H. unfold process_builder in H. cbv zeta in H.
  apply result_bind_Ok in H as ([] & _ & H). apply result_bind_Ok in H as (links & _ & H).
  apply result_bind_Ok in H as (b1 & _ & H). apply result_bind_Ok in H as ([] & _ & H).
  apply (try_fold_inv _ (λ acc, Forall (λ hb, body_ok hb.1 hb.2) acc.2) _ _ (b, hs)) in H; [done|constructor|].
  intros [a l] sp [a' l'] _ Ha Hx. unfold add_sub_process in Hx. simpl in *. case_bool_decide.
  - apply result_bind_Ok in Hx as ([h body] & [Hok _]%compile_event_subprocess_ok & [= <- <-]).
    apply Forall_app. split; [done|]. by apply Forall_singleton.
  - by apply result_bind_Ok in Hx as (a1 & Hx & [= <- <-]).
Qed.

(** The handlers are attached one by one; nothing but the graph and the list of
    handlers changes. *)
Definition attached_ok (d0 d : ProcessDefinition) : Prop :=
  deployable d ∧ def_key d = def_key d0 ∧ def_id d = def_id d0 ∧ data_mappings d = data_mappings d0 ∧
  data_variables d = data_variables d0 ∧ variable_defaults d = variable_defaults d0.
Lemma attach_all_ok d hs d' :
  deployable d → Forall (λ hb, body_ok hb.1 hb.2) hs → try_fold attach_event_subprocess d hs = Ok d' → attached_ok d d'.
Proof.
  intros Hd Hhs. rewrite Forall_forall in Hhs. apply (try_fold_inv _ (attached_ok d)); [by split_and!|].
  intros a [h body] a' Hin (Ha & H1 & H2 & H3 & H4 & H5) Hx.
  split; [by eapply attach_deployable; [exact Ha|apply (Hhs _ Hin)|exact Hx]|].
  unfold attach_event_subprocess in Hx. destruct (match trigger_identity _ with Some _ => _ | None => None end); [done|].
  destruct (existsb _ _); [done|]. by apply result_bind_Ok in Hx as ([] & _ & [= <-]).
Qed.

Lemma compile_one_ok key xml lk p d :
  compile_one key xml lk p = Ok d →
  deployable d ∧ mappings_ok d ∧ def_key d = key ∧ def_id d = proc_id p ∧ NoDup (data_variables d).
Proof.
  unfold compile_one. intros ([b hs] & Hb & (d0 & Hd0 & (d1 & Hd1 & H)%result_bind_Ok)%result_bind_Ok)%result_bind_Ok.
  pose proof (process_builder_handlers _ _ _ _ _ Hb) as Hhs.
  assert (links_flow b) as Hlinks by (eapply (process_builder_inv links_flow); [|exact Hb]; by intros id t).
  destruct (process_builder_inv (built_as (proc_id p)) _ _ _ _ _ (conj eq_refl eq_refl) Hb) as [Hid Hkey].
  destruct (build_ok _ _ _ Hlinks Hd0) as (Hlo & _ & _ & _ & Hk0 & Hi0 & He0 & Hm0 & Hv0 & sid & e & Hsid & Hs & Hu).
  assert (deployable d0) as Hdep0.
  { split; try done; rewrite ?He0; simpl; try apply NoDup_nil_2; [|by intros h ?%not_elem_of_nil].
    exists sid, e. unfold event_subprocess_node. rewrite He0. simpl. split_and!; [done..|]. intros. by eapply Hu. }
  destruct (attach_all_ok _ _ _ Hdep0 Hhs Hd1) as (Hdep & Hk1 & Hi1 & Hm1 & Hv1 & _).
  apply apply_data_scoped in H as (new & Hg & Hv & Hnd & _ & Hmok).
  split; [by eapply same_graph_deployable|]. destruct Hg as (Hk & Hi & _).
  split; [apply Hmok; intros i m; by rewrite Hm1, Hm0, lookup_empty|]. rewrite Hkey in Hk0. simpl in Hk0.
  split; [congruence|]. split; [congruence|]. by rewrite Hv, Hv1, Hv0.
Qed.

(** Nothing of a document becomes a sub-process definition of its own: what is nested is
    flattened into the graph, or is a handler of it. *)
Definition flat (b : Builder) : Prop := b_sub_processes b = [].
#[local] Instance flat_inv : BuilderInv flat.
Proof. by split. Qed.
#[local] Instance flat_process_inv : ProcessInv flat.
Proof. by split. Qed.
Lemma compile_one_flat key xml lk p d : compile_one key xml lk p = Ok d → sub_processes d = [].
Proof.
  unfold compile_one. intros ([b hs] & Hb & (d0 & Hd0 & (d1 & Hd1 & H)%result_bind_Ok)%result_bind_Ok)%result_bind_Ok.
  apply apply_data_scoped in H as (new & Hg & _). destruct Hg as (_ & _ & _ & _ & _ & _ & _ & _ & ->).
  apply (process_builder_inv flat) in Hb; [|done].
  assert (sub_processes d0 = []) as Hflat.
  { unfold build in Hd0. apply result_bind_Ok in Hd0 as ([] & _ & Hd0). unfold definition_new in Hd0.
    by apply result_bind_Ok in Hd0 as ([] & _ & [= <-]). }
  revert Hd1. apply (try_fold_inv _ (λ d, sub_processes d = [])); [done|]. intros a [h body] a' _ Ha Hx.
  unfold attach_event_subprocess in Hx. destruct (match trigger_identity _ with Some _ => _ | None => None end); [done|].
  destruct (existsb _ _); [done|]. by apply result_bind_Ok in Hx as ([] & _ & [= <-]).
Qed.

(** What the theorems promise of a parsed definition. *)
Definition parsed_ok (key : Uuid) (d : ProcessDefinition) : Prop :=
  deployable d ∧ mappings_ok d ∧ def_key d = key ∧ NoDup (data_variables d).

Lemma compiles_parsed_ok keys xml defs i d : compiles keys xml defs i (Ok d) → parsed_ok (keys i) d.
Proof. intros (p & _ & (Hd & Hm & Hk & _ & Hv)%compile_one_ok). by split_and!. Qed.

(** The parser compiles one process of the document; taking it out of the list never
    panics. *)
Lemma parse_bpmn_xml_compiled key xml :
  match parse_bpmn_xml key xml with
  | Returns (Ok d) => ∃ lk p, compile_one key xml lk p = Ok d
  | Returns (Err _) => True
  | Panics => False
  end.
Proof.
  unfold parse_bpmn_xml. destruct (result_bind _ _) as [defs|e] eqn:Hr; [|done].
  apply result_bind_Ok in Hr as ([] & _ & Hdefs). set (index := default 0 _).
  assert (is_Some (processes defs !! index)) as [p Hp].
  { apply lookup_lt_is_Some_2. unfold index. destruct (list_find _ _) as [[i q]|] eqn:Hf; simpl.
    - apply list_find_Some in Hf as (Hq & _). by eapply lookup_lt_Some.
    - unfold read_definitions in Hdefs. apply result_bind_Ok in Hdefs as (defs' & _ & Hne).
      destruct (processes defs') eqn:Hps; [done|]. injection Hne as <-. rewrite Hps. simpl. lia. }
  unfold compile_process, remove_process. rewrite Hp. cbn [mbind option_bind].
  destruct (compile_one _ _ _ p) as [d|e] eqn:Hd; [|done]. by eexists _, p.
Qed.

(** C2: Whatever text it is given, the parser returns an error or deployable
    definitions, and never panics.  Deployable means: one start outside the
    handlers; every flow, boundary event and link leads to a node; no dead end;
    gateways branch or merge; conditions parse; handlers have pairwise disjoint
    graphs that no flow enters or leaves, distinct ids and triggers; mappings sit
    on activities that take them, with distinct targets. *)
Theorem parser_output_deployable key keys xml :
  match parse_bpmn_xml key xml with
  | Returns (Ok d) => parsed_ok key d
  | Returns (Err _) => True
  | Panics => False
  end ∧
  match parse_bpmn_processes keys xml with
  | Returns (Ok ds) => ∃ executable, StronglySorted lt executable ∧ Forall2 (λ i d, parsed_ok (keys i) d) executable ds
  | Returns (Err _) => True
  | Panics => False
  end.
Proof.
  split.
  - pose proof (parse_bpmn_xml_compiled key xml) as H. destruct (parse_bpmn_xml key xml) as [[d|e]|]; try done.
    destruct H as (lk & p & (? & ? & ? & _ & ?)%compile_one_ok). by split_and!.
  - pose proof (parse_bpmn_processes_ranked keys xml) as H. destruct (parse_bpmn_processes keys xml) as [[ds|e]|]; try done.
    destruct H as (executable & defs & Hc & Hs & Hds). exists executable. split; [done|].
    eapply Forall2_impl; [exact Hds|]. intros i d. apply compiles_parsed_ok.
Qed.

(** The start event the engine finds in a compiled definition is the only start
    outside the event sub-processes. *)
Theorem compiled_start_event key xml lk p d :
  compile_one key xml lk p = Ok d →
  ∃ sid e, start_event d = Some (sid, e) ∧ nodes d !! sid = Some e ∧ is_start e = true ∧
    ∀ id' e', nodes d !! id' = Some e' → is_start e' = true → event_subprocess_node d id' = false → id' = sid.
Proof.
  intros ([_ (sid & e & He & Hs & Hout & Hu) _ _ _ _] & _)%compile_one_ok.
  unfold start_event. destruct (find_map _ _) as [[sid' e']|] eqn:Hf.
  - apply find_map_Some in Hf as ([k x] & Hin%elem_of_map_to_list & Hx).
    destruct (event_subprocess_node d k) eqn:Hk; [done|]. destruct (is_start x) eqn:Hsx; simplify_eq.
    exists sid', e'. split_and!; [done..|]. intros id' e2 H1 H2 H3. rewrite (Hu _ _ H1 H2 H3). symmetry. by eapply Hu.
  - rewrite find_map_None in Hf. specialize (Hf (sid, e)). simpl in Hf.
    rewrite Hout, Hs, elem_of_map_to_list in Hf. by specialize (Hf He).
Qed.

(** Flattening a sub-process adds no execution listener, whatever listeners its
    activities carry: they are dropped. *)
Theorem sub_process_listeners_dropped lk h sp b b' :
  flatten_subprocess lk h sp b = Ok b' → b_listeners b' = b_listeners b.
Proof. intros H. by apply (flatten_subprocess_inv lk (listeners_are (b_listeners b)) h sp b b'). Qed.

End deployable.

(** ** A sub-process whose task carries a listener *)

Definition listening_task : BpmnUserTask :=
  mkUserTask "t" (Some (mkExtensions [mkXmlListener "start" (Some (mkScript "x = 1"))])) None None None.
Definition listening_scope : BpmnScope :=
  mkScope "sub" None None [mkStart "s" None None None None None None None None] [mkEnd "e" None None None None None None None] []
    [listening_task] [mkFlow "f1" "s" "t" None; mkFlow "f2" "t" "e" None] [] [] [] [] [] [] [] [] [] [] [] [] [] [] [].
Definition listening_sub : BpmnSubProcess := mkSubProcess listening_scope None [].
Definition no_time : TimeLib := {| parse_datetime _ := None; cron_parses _ := false |}.
Definition no_lookups : Lookups := mkLookups ∅ ∅ ∅ ∅.
Definition flattened : EngineResult Builder :=
  @flatten_subprocess ascii_only no_time no_lookups false listening_sub (builder_new "p").

Lemma sub_process_listeners_dropped_witness :
  has_listeners (ut_extensions listening_task) = true ∧
  match flattened with Ok b => b_nodes b !! "t" = Some (UserTask "unassigned") ∧ b_listeners b = ∅ | Err _ => False end.
Proof.
  split; [reflexivity|]. destruct flattened as [b|e] eqn:Hf; [|vm_compute in Hf; discriminate Hf].
  split; [|exact (@sub_process_listeners_dropped ascii_only no_time no_lookups false listening_sub (builder_new "p") b Hf)].
  vm_compute in Hf. injection Hf as <-. reflexivity.
Defined.
