(* ===== verification/BpmnCollaboration.v ===== *)
(** * Collaborations of a document

    bpmn-parser/src/collaboration.rs: the executable processes of a document with
    its participants and message flows.  The theorem at the end joins the parser
    to the engine: what the parser accepts, the engine's route compiler accepts. *)

From Stdlib Require Import Sorted.
From stdpp Require Import base list gmap strings sorting.
From S2P Require Import Prelude Text Json CondLexer CondParser Domain Token ProcessDef BpmnModels Iso8601 BpmnScan BpmnTree BpmnData BpmnCompile BpmnSub BpmnParse MessageRouting BpmnWf.
Local Open Scope rust_scope.

Record CollaborationDocument := mkDocument {
  doc_processes : list ProcessDefinition;
  doc_collaborations : list Collaboration;
}.

(** [invalid] of collaboration.rs. *)
Definition collaboration_error (message : string) : EngineError := InvalidDefinition ("Collaboration: " +:+ message).
Definition cinvalid {A} (message : string) : EngineResult A := Err (collaboration_error message).

Definition required (n : Node) (attribute : string) : EngineResult string :=
  match attr n attribute with
  | Some value => if is_blank value then cinvalid (n_name n +:+ " requires " +:+ attribute) else Ok value
  | None => cinvalid (n_name n +:+ " requires " +:+ attribute)
  end.

(** [reference]: an unqualified local id. *)
Definition local_reference (n : Node) (attribute : string) : EngineResult string :=
  value ←? required n attribute;
  if str_contains ":" value || negb (String.eqb (trim_str value) value) then
    cinvalid (n_name n +:+ " " +:+ attribute +:+ " must be an unqualified local ID, got '" +:+ value +:+ "'")
  else Ok value.

(** [check_ids]: the ids of an element and of everything below it are not blank
    and new. *)
Fixpoint check_ids (seen : gset string) (n : Node) : EngineResult (gset string) :=
  seen ←? match attr n "id" with
          | Some id =>
            if is_blank id || bool_decide (id ∈ seen) then cinvalid ("empty or duplicate document ID '" +:+ id +:+ "'")
            else Ok ({[id]} ∪ seen)
          | None => Ok seen
          end;
  try_fold check_ids seen (n_children n).

Section endpoints.
  Context (process_nodes : gmap string Node) (compiled : gmap string ProcessDefinition) (by_process : gmap string string).

(** The process whose top-level element has the id. *)
Definition find_endpoint (element_id : string) : option (string * Node) :=
  find_map (λ '(process_id, process),
    (λ n, (process_id, n)) <$> List.find (λ n, bool_decide (attr n "id" = Some element_id)) (n_children process))
    (map_to_list process_nodes).

Definition supports_endpoint (source : bool) (e : BpmnElement) : bool :=
  match e with
  | SendTask _ _ => source
  | MessageStartEvent _ | MessageCatchEvent _ | BoundaryMessageEvent _ _ _ => negb source
  | _ => false
  end.
Definition looped_endpoint (d : ProcessDefinition) (e : BpmnElement) : bool :=
  match e with
  | SendTask _ (Some _) => true
  | BoundaryMessageEvent attached_to _ _ =>
    match nodes d !! attached_to with
    | Some (ServiceTask _ (Some _)) | Some (ScriptTask _ (Some _)) => true
    | _ => false
    end
  | _ => false
  end.
(** The message an element names: in its event definition, else on the element. *)
Definition endpoint_message (element_id : string) (n : Node) : EngineResult string :=
  let nested := head (children n "messageEventDefinition") in
  let nested_ref := m ← nested; attr m "messageRef" in
  message_id ←? local_reference (match nested, nested_ref with Some m, Some _ => m | _, _ => n end) "messageRef";
  match nested_ref, attr n "messageRef" with
  | Some value, Some direct =>
    if String.eqb value direct then Ok message_id
    else cinvalid ("conflicting message references on '" +:+ element_id +:+ "'")
  | _, _ => Ok message_id
  end.

Definition endpoint (flow : Node) (attribute : string) (source : bool) : EngineResult (MessageEndpoint * string) :=
  element_id ←? local_reference flow attribute;
  '(process_id, n) ←? ok_or (collaboration_error (attribute +:+ " '" +:+ element_id
      +:+ "' must reference a top-level message element; participant and nested endpoints are unsupported"))
      (find_endpoint element_id);
  participant_id ←? ok_or (collaboration_error ("endpoint '" +:+ element_id +:+ "' has no participant in this collaboration"))
                      (by_process !! process_id);
  d ←? ok_or (collaboration_error ("endpoint '" +:+ element_id +:+ "' belongs to a non-executable pool")) (compiled !! process_id);
  e ←? ok_or (collaboration_error ("unknown message endpoint '" +:+ element_id +:+ "'")) (nodes d !! element_id);
  if negb (supports_endpoint source e) then cinvalid ("unsupported " +:+ attribute +:+ " kind on '" +:+ element_id +:+ "'")
  else if looped_endpoint d e then cinvalid ("loop endpoint '" +:+ element_id +:+ "' requires occurrence-aware routing")
  else
    message_id ←? endpoint_message element_id n;
    Ok (mkEndpoint participant_id process_id element_id, message_id).

(** The message name compiled into an element; the code indexes the maps and ends
    in [unreachable!] for other elements: [None] is a panic. *)
Definition compiled_message (ep : MessageEndpoint) : option string :=
  d ← compiled !! me_process_id ep;
  e ← nodes d !! me_element_id ep;
  match e with
  | SendTask name _ | MessageStartEvent name | MessageCatchEvent name | BoundaryMessageEvent _ name _ => Some name
  | _ => None
  end.
(** The loop over both endpoints. *)
Fixpoint check_endpoints (message_name : string) (eps : list MessageEndpoint) : call (EngineResult unit) :=
  match eps with
  | [] => Returns (Ok tt)
  | ep :: eps =>
    match compiled_message ep with
    | None => Panics
    | Some actual =>
      if String.eqb actual message_name then check_endpoints message_name eps
      else Returns (cinvalid ("compiled message differs on endpoint '" +:+ me_element_id ep +:+ "'"))
    end
  end.

(** A message flow up to the comparison with the compiled names. *)
Definition flow_endpoints (message_names : gmap string string) (flow : Node) : EngineResult MessageFlow :=
  flow_id ←? required flow "id";
  '(source, source_message) ←? endpoint flow "sourceRef" true;
  '(target, target_message) ←? endpoint flow "targetRef" false;
  if String.eqb (me_process_id source) (me_process_id target) then
    cinvalid ("messageFlow '" +:+ flow_id +:+ "' must cross participant processes")
  else if negb (String.eqb source_message target_message) then
    cinvalid ("messageFlow '" +:+ flow_id +:+ "' endpoints reference different messages")
  else
    _ ←? match attr flow "messageRef" with
         | Some _ =>
           r ←? local_reference flow "messageRef";
           guard (String.eqb r source_message)
             (collaboration_error ("messageFlow '" +:+ flow_id +:+ "' messageRef differs from its endpoints"))
         | None => Ok tt
         end;
    message_name ←? ok_or (collaboration_error ("unknown message '" +:+ source_message +:+ "' on flow '" +:+ flow_id +:+ "'"))
                      (message_names !! source_message);
    Ok (mkMessageFlow flow_id source_message message_name source target).
Definition message_flow (message_names : gmap string string) (flow : Node) : call (EngineResult MessageFlow) :=
  match flow_endpoints message_names flow with
  | Err e => Returns (Err e)
  | Ok f =>
    match check_endpoints (mf_message_name f) [mf_source f; mf_target f] with
    | Panics => Panics
    | Returns (Err e) => Returns (Err e)
    | Returns (Ok _) => Returns (Ok f)
    end
  end.
End endpoints.

(** A loop whose body may panic. *)
Fixpoint collect_call {A B} (f : A → call (EngineResult B)) (l : list A) : call (EngineResult (list B)) :=
  match l with
  | [] => Returns (Ok [])
  | x :: l =>
    match f x with
    | Panics => Panics
    | Returns (Err e) => Returns (Err e)
    | Returns (Ok y) =>
      match collect_call f l with
      | Returns (Ok ys) => Returns (Ok (y :: ys))
      | r => r
      end
    end
  end.

(** One participant; a process takes part once. *)
Definition participant (process_nodes : gmap string Node) (compiled : gmap string ProcessDefinition) (col_id : string)
    (acc : list Participant * gmap string string) (n : Node) : EngineResult (list Participant * gmap string string) :=
  let '(ps, by_process) := acc in
  participant_id ←? required n "id";
  process_id ←? match attr n "processRef" with
                | Some _ => r ←? local_reference n "processRef"; Ok (Some r)
                | None => Ok None
                end;
  match process_id with
  | None => Ok (ps ++ [mkParticipant participant_id None false], by_process)
  | Some process_id =>
    if negb (bool_decide (is_Some (process_nodes !! process_id))) then
      cinvalid ("participant '" +:+ participant_id +:+ "' references unknown process '" +:+ process_id +:+ "'")
    else if bool_decide (is_Some (by_process !! process_id)) then
      cinvalid ("process '" +:+ process_id +:+ "' has multiple participants in '" +:+ col_id +:+ "'")
    else
      Ok (ps ++ [mkParticipant participant_id (Some process_id) (bool_decide (is_Some (compiled !! process_id)))],
          <[process_id := participant_id]> by_process)
  end.

Definition collaboration (process_nodes : gmap string Node) (compiled : gmap string ProcessDefinition)
    (message_names : gmap string string) (n : Node) : call (EngineResult Collaboration) :=
  match (id ←? required n "id";
         '(ps, by_process) ←? try_fold (participant process_nodes compiled id) ([], ∅) (children n "participant");
         Ok (id, ps, by_process)) with
  | Err e => Returns (Err e)
  | Ok (id, ps, by_process) =>
    match collect_call (message_flow process_nodes compiled by_process message_names) (children n "messageFlow") with
    | Panics => Panics
    | Returns (Err e) => Returns (Err e)
    | Returns (Ok flows) => Returns (Ok (mkCollaboration id ps flows))
    end
  end.

Section document.
  Context {U : UnicodeData} {T : TimeLib} {L : XmlLib}.

(** The element [definitions] of a document whose ids are distinct. *)
Definition definitions_element (xml : string) : EngineResult Node :=
  document ←? tree xml;
  definitions ←? ok_or (collaboration_error "missing definitions element") (head (children document "definitions"));
  _ ←? check_ids ∅ definitions;
  Ok definitions.

(** Maps collected from pairs: the last of a key wins. *)
Definition collect_map {V} (l : list (string * V)) : gmap string V := foldl (λ m kv, <[kv.1 := kv.2]> m) ∅ l.

Definition collaborations_of (definitions : Node) (ds : list ProcessDefinition) : call (EngineResult (list Collaboration)) :=
  match (process_nodes ←? collect (λ n, id ←? required n "id"; Ok (id, n)) (children definitions "process");
         message_names ←? collect (λ n, id ←? required n "id"; name ←? required n "name"; Ok (id, name))
                            (children definitions "message");
         Ok (process_nodes, message_names)) with
  | Err e => Returns (Err e)
  | Ok (process_nodes, message_names) =>
    collect_call (collaboration (collect_map process_nodes) (collect_map ((λ d, (def_id d, d)) <$> ds)) (collect_map message_names))
      (children definitions "collaboration")
  end.

Definition parse_bpmn_collaboration (keys : nat → Uuid) (xml : string) : call (EngineResult CollaborationDocument) :=
  match definitions_element xml with
  | Err e => Returns (Err e)
  | Ok definitions =>
    match parse_bpmn_processes keys xml with
    | Panics => Panics
    | Returns (Err e) => Returns (Err e)
    | Returns (Ok ds) =>
      match collaborations_of definitions ds with
      | Panics => Panics
      | Returns (Err e) => Returns (Err e)
      | Returns (Ok cols) => Returns (Ok (mkDocument ds cols))
      end
    end
  end.

End document.

(** ** The ids of a document *)

(** The ids of an element and of everything below it, in document order. *)
Fixpoint all_ids (n : Node) : list string :=
  option_list (attr n "id") ++ (fix go (l : list Node) := match l with [] => [] | c :: l => all_ids c ++ go l end) (n_children n).
Definition forest_ids (l : list Node) : list string := concat (all_ids <$> l).

Lemma all_ids_unfold n : all_ids n = option_list (attr n "id") ++ forest_ids (n_children n).
Proof.
  destruct n as [name attrs text cs]. cbn [all_ids n_children]. f_equal. unfold forest_ids.
  induction cs as [|c cs IH]; [done|]. rewrite fmap_cons. cbn [concat]. by f_equal.
Qed.

Lemma check_ids_recorded n seen seen' : check_ids seen n = Ok seen' → recorded seen seen' (all_ids n).
Proof.
  revert seen seen'. induction n as [name attrs text cs IH] using Node_nested_ind. intros seen seen' H.
  rewrite all_ids_unfold. cbn [check_ids n_children] in *.
  apply result_bind_Ok in H as (seen1 & H1 & H). apply recorded_app with seen1.
  - destruct (attr _ "id") as [id|]; [|injection H1 as <-; by apply recorded_nil].
    destruct (is_blank id); [done|]. cbn [orb] in H1. case_bool_decide as Hin; [done|]. injection H1 as <-.
    apply recorded_cons; [done|by apply recorded_nil].
  - clear H1. unfold forest_ids. revert seen1 H. induction IH as [|c cs Hc _ IHcs]; intros seen1.
    + intros [= <-]. by apply recorded_nil.
    + cbn [try_fold]. intros (seen2 & H2%Hc & H)%result_bind_Ok. rewrite fmap_cons. cbn [concat].
      apply recorded_app with seen2; [done|by apply IHcs].
Qed.

Lemma submseteq_NoDup {A} (l k : list A) : l ⊆+ k → NoDup k → NoDup l.
Proof. intros [r ->]%submseteq_Permutation (? & _ & _)%NoDup_app. done. Qed.

(** Some of the children, by disjoint choices. *)
Lemma two_filters (p q : Node → bool) l :
  (∀ x, p x = true → q x = false) → forest_ids (List.filter p l) ++ forest_ids (List.filter q l) ⊆+ forest_ids l.
Proof.
  intros Hpq. unfold forest_ids. induction l as [|x l IH]; [done|]. cbn [List.filter]. rewrite (fmap_cons all_ids x l). cbn [concat].
  destruct (p x) eqn:Hp; [rewrite (Hpq x Hp)|destruct (q x)]; rewrite ?fmap_cons; cbn [concat].
  - rewrite <- app_assoc. by apply submseteq_skips_l.
  - rewrite app_assoc, (Permutation_app_comm _ (all_ids x)), <- app_assoc. by apply submseteq_skips_l.
  - by apply submseteq_inserts_l.
Qed.
Lemma one_filter (p : Node → bool) l : forest_ids (List.filter p l) ⊆+ forest_ids l.
Proof.
  etrans; [|apply (two_filters p (λ _, false)); done]. by apply submseteq_inserts_r.
Qed.
Lemma ids_of_nodes ns ids : Forall2 (λ n id, attr n "id" = Some id) ns ids → ids ⊆+ forest_ids ns.
Proof.
  induction 1 as [|n id ns ids Hn _ IH]; [done|]. unfold forest_ids in *. rewrite fmap_cons. cbn [concat].
  rewrite all_ids_unfold, Hn. cbn [option_list app]. apply submseteq_skip. by apply submseteq_inserts_l.
Qed.

(** ** The parts of a collaboration *)

Lemma required_ok n a v : required n a = Ok v → attr n a = Some v ∧ is_blank v = false.
Proof. unfold required. destruct (attr n a) as [x|]; [|done]. destruct (is_blank x) eqn:Hb; [done|]. by intros [= <-]. Qed.
Lemma local_reference_ok n a v : local_reference n a = Ok v → attr n a = Some v ∧ is_blank v = false.
Proof.
  unfold local_reference. intros (x & Hx%required_ok & H)%result_bind_Ok. destruct (_ || _); [done|].
  by injection H as <-.
Qed.

Section parts.
  Context (process_nodes : gmap string Node) (compiled : gmap string ProcessDefinition) (message_names : gmap string string).

(** Every process has at most one participant, which is executable when the
    process was compiled. *)
Definition participants_ok (ps : list Participant) (by_process : gmap string string) : Prop :=
  (∀ p, p ∈ ps → is_blank (part_id p) = false) ∧ NoDup (omap part_process_id ps) ∧
  (∀ pid, pid ∈ omap part_process_id ps ↔ is_Some (by_process !! pid)) ∧
  (∀ pid part, by_process !! pid = Some part → ∃ p, p ∈ ps ∧ part_id p = part ∧ part_process_id p = Some pid ∧
     part_executable p = bool_decide (is_Some (compiled !! pid))).

Lemma participants_ok_nil : participants_ok [] ∅.
Proof.
  unfold participants_ok. cbn [omap list_omap]. split_and!; [by intros ? ?%not_elem_of_nil|apply NoDup_nil_2|..].
  - intros pid. rewrite lookup_empty, elem_of_nil. split; [done|]. by intros [].
  - intros pid part. by rewrite lookup_empty.
Qed.

Lemma participant_step id ps by_process n ps' by_process' :
  participants_ok ps by_process → participant process_nodes compiled id (ps, by_process) n = Ok (ps', by_process') →
  participants_ok ps' by_process' ∧ ∃ p, ps' = ps ++ [p] ∧ attr n "id" = Some (part_id p).
Proof.
  intros (Hb & Hnd & Hdom & Hby). unfold participant. intros (part & [Hid Hpb]%required_ok & (pid & _ & H)%result_bind_Ok)%result_bind_Ok.
  destruct pid as [pid|].
  - destruct (negb _); [done|]. case_bool_decide as Hnew; [done|]. injection H as <- <-. split; [|by eexists].
    assert (pid ∉ omap part_process_id ps) as Hfresh by (by rewrite Hdom).
    unfold participants_ok. rewrite omap_app. cbn [omap list_omap part_process_id]. split_and!.
    + intros p [Hp| ->%list_elem_of_singleton]%elem_of_app; [by apply Hb|done].
    + apply NoDup_app. split_and!; [done|set_solver|apply NoDup_singleton].
    + intros x. rewrite elem_of_app, list_elem_of_singleton, Hdom. destruct (decide (x = pid)) as [->|Hne].
      * rewrite lookup_insert_eq. naive_solver.
      * rewrite lookup_insert_ne by done. naive_solver.
    + intros x part'. destruct (decide (x = pid)) as [->|Hne].
      * rewrite lookup_insert_eq. intros [= <-]. eexists. split; [apply elem_of_app; right; by left|]. done.
      * rewrite lookup_insert_ne by done. intros (p & Hp & Hrest)%Hby. exists p. split; [apply elem_of_app; by left|done].
  - injection H as <- <-. split; [|by eexists]. unfold participants_ok. rewrite omap_app. cbn [omap list_omap part_process_id].
    rewrite app_nil_r. split_and!; [|done..|].
    + intros p [Hp| ->%list_elem_of_singleton]%elem_of_app; [by apply Hb|done].
    + intros x part' (p & Hp & Hrest)%Hby. exists p. split; [apply elem_of_app; by left|done].
Qed.

Lemma participants_loop id ns ps by_process ps' by_process' :
  participants_ok ps by_process → try_fold (participant process_nodes compiled id) (ps, by_process) ns = Ok (ps', by_process') →
  participants_ok ps' by_process' ∧ ∃ new, ps' = ps ++ new ∧ Forall2 (λ n x, attr n "id" = Some x) ns (part_id <$> new).
Proof.
  revert ps by_process. induction ns as [|n ns IH]; intros ps by_process Hok; cbn [try_fold].
  - intros [= <- <-]. split; [done|]. exists []. by rewrite app_nil_r.
  - intros ([ps1 by1] & H1 & H)%result_bind_Ok. apply participant_step in H1 as (Hok1 & p & -> & Hid); [|done].
    apply IH in H as (Hok' & new & -> & Hnew); [|done]. split; [done|]. exists (p :: new).
    rewrite <- app_assoc. split; [done|]. rewrite fmap_cons. by constructor.
Qed.

Context (by_process : gmap string string).

(** What an accepted endpoint stands for. *)
Definition endpoint_ok (source : bool) (ep : MessageEndpoint) (d : ProcessDefinition) (e : BpmnElement) : Prop :=
  by_process !! me_process_id ep = Some (me_participant_id ep) ∧ compiled !! me_process_id ep = Some d ∧
  nodes d !! me_element_id ep = Some e ∧ supports_endpoint source e = true ∧ looped_endpoint d e = false.

Lemma endpoint_message_ok id n m : endpoint_message id n = Ok m → is_blank m = false.
Proof.
  unfold endpoint_message. cbv zeta. intros (m' & [_ Hb]%local_reference_ok & H)%result_bind_Ok.
  destruct (_ ≫= _), (attr n "messageRef"); try (by injection H as <-). destruct (String.eqb _ _); by simplify_eq.
Qed.

Lemma endpoint_accepts flow a source ep m :
  endpoint process_nodes compiled by_process flow a source = Ok (ep, m) →
  is_blank m = false ∧ ∃ d e, endpoint_ok source ep d e.
Proof.
  unfold endpoint. intros (id & _ & H)%result_bind_Ok. apply result_bind_Ok in H as ([pid n] & _ & H).
  apply result_bind_Ok in H as (part & Hpart & H). apply result_bind_Ok in H as (d & Hd & H).
  apply result_bind_Ok in H as (e & He & H). destruct (negb _) eqn:Hs; [done|]. destruct (looped_endpoint d e) eqn:Hl; [done|].
  apply result_bind_Ok in H as (m' & Hm%endpoint_message_ok & [= <- <-]). split; [done|]. exists d, e.
  apply negb_false_iff in Hs. unfold endpoint_ok. simpl.
  destruct (by_process !! pid), (compiled !! pid), (nodes d !! id) eqn:Hn; try done.
  simpl in *. simplify_eq. done.
Qed.

Lemma compiled_message_ok source ep d e : endpoint_ok source ep d e → is_Some (compiled_message compiled ep).
Proof.
  intros (_ & Hd & He & Hs & _). unfold compiled_message. rewrite Hd. simpl. rewrite He. simpl. destruct e; try done; eauto.
Qed.

Definition flow_ok (f : MessageFlow) : Prop :=
  is_blank (mf_id f) = false ∧ is_blank (mf_message_id f) = false ∧
  message_names !! mf_message_id f = Some (mf_message_name f) ∧ me_process_id (mf_source f) ≠ me_process_id (mf_target f) ∧
  (∃ d e, endpoint_ok true (mf_source f) d e ∧ compiled_message compiled (mf_source f) = Some (mf_message_name f)) ∧
  (∃ d e, endpoint_ok false (mf_target f) d e ∧ compiled_message compiled (mf_target f) = Some (mf_message_name f)).

Lemma flow_endpoints_ok n f :
  flow_endpoints process_nodes compiled by_process message_names n = Ok f →
  attr n "id" = Some (mf_id f) ∧ is_blank (mf_id f) = false ∧ is_blank (mf_message_id f) = false ∧
  message_names !! mf_message_id f = Some (mf_message_name f) ∧ me_process_id (mf_source f) ≠ me_process_id (mf_target f) ∧
  (∃ d e, endpoint_ok true (mf_source f) d e) ∧ (∃ d e, endpoint_ok false (mf_target f) d e).
Proof.
  unfold flow_endpoints. intros (id & [Hid Hb]%required_ok & H)%result_bind_Ok.
  apply result_bind_Ok in H as ([s sm] & [Hsm Hs]%endpoint_accepts & H).
  apply result_bind_Ok in H as ([t tm] & [_ Ht]%endpoint_accepts & H).
  destruct (String.eqb_spec (me_process_id s) (me_process_id t)) as [|Hne]; [done|]. destruct (negb _); [done|].
  apply result_bind_Ok in H as ([] & _ & H). apply result_bind_Ok in H as (name & Hname & [= <-]).
  destruct (message_names !! sm) eqn:Hm; simplify_eq/=. done.
Qed.

Lemma check_endpoints_ok name eps :
  (∀ ep, ep ∈ eps → is_Some (compiled_message compiled ep)) →
  match check_endpoints compiled name eps with
  | Returns (Ok _) => ∀ ep, ep ∈ eps → compiled_message compiled ep = Some name
  | Returns (Err _) => True
  | Panics => False
  end.
Proof.
  induction eps as [|ep eps IH]; intros H; cbn [check_endpoints]; [by intros ep ?%not_elem_of_nil|].
  destruct (H ep ltac:(by left)) as [x Hx]. rewrite Hx. destruct (String.eqb_spec x name) as [->|]; [|done].
  assert (∀ ep, ep ∈ eps → is_Some (compiled_message compiled ep)) as H' by (intros; apply H; by right).
  specialize (IH H'). destruct (check_endpoints _ _ _) as [[|]|]; try done. intros ep' [->|Hin]%elem_of_cons; auto.
Qed.

Lemma message_flow_ok n :
  match message_flow process_nodes compiled by_process message_names n with
  | Returns (Ok f) => flow_ok f ∧ attr n "id" = Some (mf_id f)
  | Returns (Err _) => True
  | Panics => False
  end.
Proof.
  unfold message_flow. destruct (flow_endpoints _ _ _ _ n) as [f|] eqn:Hf; [|done].
  apply flow_endpoints_ok in Hf as (Hid & Hb & Hmb & Hname & Hne & (d & e & Hs) & (d' & e' & Ht)).
  pose proof (check_endpoints_ok (mf_message_name f) [mf_source f; mf_target f]) as Hc.
  destruct (check_endpoints _ _ _) as [[[]|]|]; try done.
  - assert (∀ ep, ep ∈ [mf_source f; mf_target f] → compiled_message compiled ep = Some (mf_message_name f)) as Hm.
    { apply Hc. intros ep. rewrite !elem_of_cons, elem_of_nil. intros [->|[->|[]]]; by eapply compiled_message_ok. }
    split; [|done]. split_and!; try done; [exists d, e|exists d', e']; (split; [done|]); apply Hm; set_solver.
  - apply Hc. intros ep. rewrite !elem_of_cons, elem_of_nil. intros [->|[->|[]]]; by eapply compiled_message_ok.
Qed.
End parts.

Lemma collect_call_ok {A B} (f : A → call (EngineResult B)) (Q : A → B → Prop) l :
  (∀ x, match f x with Returns (Ok y) => Q x y | Returns (Err _) => True | Panics => False end) →
  match collect_call f l with
  | Returns (Ok ys) => Forall2 Q l ys
  | Returns (Err _) => True
  | Panics => False
  end.
Proof.
  intros H. induction l as [|x l IH]; cbn [collect_call]; [constructor|].
  specialize (H x). destruct (f x) as [[y|]|]; try done. destruct (collect_call f l) as [[ys|]|]; try done. by constructor.
Qed.

(** ** A collaboration *)

(** What an accepted collaboration guarantees. *)
Definition collaboration_ok (compiled : gmap string ProcessDefinition) (message_names : gmap string string) (col : Collaboration) : Prop :=
  is_blank (col_id col) = false ∧ ∃ by_process, participants_ok compiled (participants col) by_process ∧
    ∀ f, f ∈ message_flows col → flow_ok compiled message_names by_process f.

Lemma collaboration_accepts process_nodes compiled message_names n :
  match collaboration process_nodes compiled message_names n with
  | Returns (Ok col) => collaboration_ok compiled message_names col ∧ collaboration_ids col ⊆+ all_ids n
  | Returns (Err _) => True
  | Panics => False
  end.
Proof.
  unfold collaboration. destruct (result_bind _ _) as [[[id ps] by_process]|] eqn:Hr; [|done].
  apply result_bind_Ok in Hr as (id' & [Hid Hb]%required_ok & Hr).
  apply result_bind_Ok in Hr as ([ps' by'] & Hps & [= -> -> ->]).
  apply participants_loop in Hps as (Hok & new & -> & Hnew); [|apply participants_ok_nil].
  pose proof (collect_call_ok _ _ (children n "messageFlow") (message_flow_ok process_nodes compiled message_names by_process)) as Hf.
  destruct (collect_call _ _) as [[fs|]|]; try done. split.
  - split; [done|]. exists by_process. split; [done|]. simpl. intros f [k Hk]%list_elem_of_lookup.
    destruct (Forall2_lookup_r _ _ _ _ _ Hf Hk) as (x & _ & Hx & _). done.
  - unfold collaboration_ids. simpl. rewrite all_ids_unfold, Hid. cbn [option_list app]. apply submseteq_skip.
    etrans; [|apply (two_filters (λ c, String.eqb (n_name c) "participant") (λ c, String.eqb (n_name c) "messageFlow"))].
    + apply submseteq_app; apply ids_of_nodes; [done|]. apply Forall2_fmap_r. eapply Forall2_impl; [exact Hf|]. by intros ? ? [_ ?].
    + by intros x ->%String.eqb_eq.
Qed.

(** ** From the parser to the engine *)

Lemma collect_map_elem {V} (l : list (string * V)) k v : collect_map l !! k = Some v → (k, v) ∈ l.
Proof.
  unfold collect_map. induction l as [|[k' v'] l IH] using rev_ind; [done|]. rewrite foldl_app. cbn [foldl fst snd].
  destruct (decide (k = k')) as [->|Hne].
  - rewrite lookup_insert_eq. intros [= ->]. set_solver.
  - rewrite lookup_insert_ne by done. set_solver.
Qed.

Lemma find_by_id (ds : list ProcessDefinition) d :
  NoDup (def_id <$> ds) → d ∈ ds → List.find (λ d', bool_decide (def_id d' = def_id d)) ds = Some d.
Proof.
  induction ds as [|d' ds IH]; [by intros _ ?%not_elem_of_nil|]. rewrite fmap_cons. intros [Hn Hnd]%NoDup_cons [->|Hd]%elem_of_cons.
  - cbn [List.find]. by rewrite bool_decide_eq_true_2.
  - cbn [List.find]. case_bool_decide as Heq; [|by apply IH]. destruct Hn. rewrite Heq. by apply list_elem_of_fmap_2.
Qed.

Section routes.
  Context (compiled : gmap string ProcessDefinition) (message_names : gmap string string) (c : DefinitionCollection).
  Context (Hcomp : ∀ pid d, compiled !! pid = Some d → d ∈ dc_definitions c ∧ def_id d = pid).
  Context (Hmsg : ∀ m name, message_names !! m = Some name → is_blank name = false).
  Context (Hids : NoDup (def_id <$> dc_definitions c)) (Hkeys : NoDup (def_key <$> dc_definitions c)).

Lemma pin_endpoint_accepts col by_process source ep d e name :
  participants_ok compiled (participants col) by_process → endpoint_ok compiled by_process source ep d e →
  compiled_message compiled ep = Some name →
  pin_endpoint c col ep name source
  = Ok (mkDeployed (def_key d) (version d) (me_participant_id ep) (me_process_id ep) (me_element_id ep)).
Proof.
  intros (_ & _ & _ & Hby) (Hp & Hd & He & Hs & Hl) Hm. destruct (Hcomp _ _ Hd) as [Hin Hid]. unfold pin_endpoint.
  destruct (existsb _ _) eqn:Hplays.
  - rewrite <- Hid, find_by_id by done. cbn [ok_or result_bind]. rewrite He. cbn [ok_or result_bind].
    unfold compiled_message in Hm. rewrite Hd in Hm. cbn in Hm. rewrite He in Hm. cbn in Hm.
    destruct e as [| | | | | | |n mi| | | | | | | |n|n|a n ca| | | | | | | | | | | | | | | | | | |]; try done; simplify_eq;
      cbn [endpoint_valid multi_instance_host]; try (destruct mi; [done|]);
      rewrite ?bool_decide_eq_true_2 by done; destruct source; try done.
    cbn [looped_endpoint] in Hl. cbn [negb andb orb]. by rewrite Hl.
  - exfalso. apply not_true_iff_false in Hplays. apply Hplays, existsb_exists. destruct (Hby _ _ Hp) as (p & Hpin & Hpid & Hpp & Hex).
    exists p. split; [by apply list_elem_of_In|]. unfold plays. rewrite Hex, Hpid, Hpp, !bool_decide_eq_true_2; [done|done|eauto|done].
Qed.

Lemma flow_routable col by_process f :
  participants_ok compiled (participants col) by_process → flow_ok compiled message_names by_process f → routable c col f.
Proof.
  intros Hps (Hb & Hmb & Hname%Hmsg & Hne & (d & e & Hs & Hsm) & (d' & e' & Ht & Htm)). unfold routable. do 3 (split; [done|]).
  unfold compile_flow. rewrite (pin_endpoint_accepts _ _ _ _ _ _ _ Hps Hs Hsm), (pin_endpoint_accepts _ _ _ _ _ _ _ Hps Ht Htm).
  cbn [result_bind dm_definition_key]. case_bool_decide as Hk; [|by eexists]. exfalso. apply Hne.
  destruct Hs as (_ & Hd & _), Ht as (_ & Hd' & _). destruct (Hcomp _ _ Hd) as [Hin Hid], (Hcomp _ _ Hd') as [Hin' Hid'].
  assert (d = d') as ->; [|congruence].
  apply list_elem_of_lookup in Hin as [i Hi], Hin' as [j Hj].
  assert (i = j) as ->; [|congruence]. eapply (NoDup_lookup (def_key <$> dc_definitions c)); [done|..];
    rewrite list_lookup_fmap; [by rewrite Hi|by rewrite Hj, Hk].
Qed.

Lemma collaboration_valid col : collaboration_ok compiled message_names col → valid_collaboration c col.
Proof.
  intros (Hb & by_process & Hps & Hf). split; [done|apply Hps|apply Hps|]. intros f Hin. eapply flow_routable; [done|by apply Hf].
Qed.
End routes.

Lemma validate_ids_distinct seen ps :
  validate_ids_from seen ps = Ok tt → NoDup (trim_str <$> ps.*1) ∧ ∀ x, x ∈ trim_str <$> ps.*1 → x ∉ seen.
Proof.
  revert seen. induction ps as [|[id b] ps IH]; intros seen; cbn [validate_ids_from].
  - intros _. split; [apply NoDup_nil_2|by intros x ?%not_elem_of_nil].
  - destruct (is_blank id); [done|]. cbn [orb]. case_bool_decide as Hin; [done|]. intros [Hnd Hf]%IH.
    rewrite !fmap_cons. simpl. split.
    + apply NoDup_cons. split; [|done]. intros Hx%Hf. set_solver.
    + intros x [->|Hx%Hf]%elem_of_cons; [done|set_solver].
Qed.

Lemma NoDup_fmap_inv {A B} (f : A → B) l : NoDup (f <$> l) → NoDup l.
Proof.
  induction l as [|x l IH]; [intros; apply NoDup_nil_2|]. rewrite fmap_cons. intros [Hx Hl]%NoDup_cons.
  apply NoDup_cons. split; [|by apply IH]. intros Hin. apply Hx. by apply list_elem_of_fmap_2.
Qed.

Lemma StronglySorted_lt_NoDup (l : list nat) : StronglySorted lt l → NoDup l.
Proof.
  induction 1 as [|x l _ IH Hx]; constructor; [|done]. intros Hin. rewrite Forall_forall in Hx. specialize (Hx x Hin). lia.
Qed.

Section theorems.
  Context {U : UnicodeData} {T : TimeLib} {L : XmlLib}.

(** quick-xml's deserializer and its event reader see the same process ids. *)
Definition readers_agree (xml : string) : Prop :=
  ∀ defs scan, xml_from_str xml = Ok defs → scan_xml xml = Ok scan →
    length (processes defs) = length (xs_processes scan) → proc_id <$> processes defs = (xs_processes scan).*1.

(** The definitions of a document differ in id and key. *)
Lemma parsed_distinct keys xml ds :
  readers_agree xml → (∀ i j, keys i = keys j → i = j) → parse_bpmn_processes keys xml = Returns (Ok ds) →
  NoDup (def_id <$> ds) ∧ NoDup (def_key <$> ds).
Proof.
  intros Hagree Hinj Hparse. pose proof (parse_bpmn_processes_ranked keys xml) as H. rewrite Hparse in H.
  destruct H as (ex & defs & Hc & Hsort%StronglySorted_lt_NoDup & Hds). unfold checked_definitions in Hc.
  apply result_bind_Ok in Hc as (scan & Hscan & Hc). apply result_bind_Ok in Hc as ([] & Hval & Hc).
  apply result_bind_Ok in Hc as ([] & _ & Hc). apply result_bind_Ok in Hc as ([] & _ & Hc).
  apply result_bind_Ok in Hc as (defs' & Hread & Hc).
  apply result_bind_Ok in Hc as ([] & Hlen%guard_Ok%Nat.eqb_eq & [= <- <-]).
  assert (NoDup (proc_id <$> processes defs')) as Hnd.
  { rewrite (Hagree defs' scan); [|unfold read_definitions in Hread|done..].
    - apply validate_ids_distinct in Hval as [Hnd _]. by eapply NoDup_fmap_inv.
    - apply result_bind_Ok in Hread as (x & Hx & Hread). destruct (processes x); [done|]. injection Hread as <-.
      by destruct (xml_from_str xml); simplify_eq/=. }
  assert (∀ k d, ds !! k = Some d → ∃ i p, executable_indices scan !! k = Some i ∧ processes defs' !! i = Some p ∧
    def_id d = proc_id p ∧ def_key d = keys i) as Hk.
  { intros k d Hd. destruct (Forall2_lookup_r _ _ _ _ _ Hds Hd) as (i & Hi & p & Hp & (_ & _ & ? & ? & _)%compile_one_ok).
    by exists i, p. }
  split; apply NoDup_alt; intros k1 k2 x; rewrite !list_lookup_fmap;
    intros (d1 & Hd1 & ->)%fmap_Some_1 (d2 & Hd2 & Heq)%fmap_Some_1;
    destruct (Hk k1 d1 Hd1) as (i1 & p1 & Hi1 & Hp1 & Hid1 & Hkey1), (Hk k2 d2 Hd2) as (i2 & p2 & Hi2 & Hp2 & Hid2 & Hkey2).
  - assert (i1 = i2) as <-; [|exact (NoDup_lookup _ _ _ _ Hsort Hi1 Hi2)]. eapply (NoDup_lookup _ _ _ (def_id d1) Hnd); rewrite list_lookup_fmap.
    + rewrite Hp1. simpl. by f_equal.
    + rewrite Hp2. simpl. f_equal. congruence.
  - assert (i1 = i2) as <-; [apply Hinj; congruence|exact (NoDup_lookup _ _ _ _ Hsort Hi1 Hi2)].
Qed.

(** The collaborations of a document, with the names of its messages. *)
Lemma collaborations_of_ok definitions ds :
  match collaborations_of definitions ds with
  | Returns (Ok cols) => ∃ message_names, (∀ m name, message_names !! m = Some name → is_blank name = false) ∧
      Forall2 (λ n col, collaboration_ok (collect_map ((λ d, (def_id d, d)) <$> ds)) message_names col ∧ collaboration_ids col ⊆+ all_ids n)
        (children definitions "collaboration") cols
  | Returns (Err _) => True
  | Panics => False
  end.
Proof.
  unfold collaborations_of. destruct (result_bind _ _) as [[pn mn]|] eqn:Hr; [|done].
  apply result_bind_Ok in Hr as (pn' & _ & Hr). apply result_bind_Ok in Hr as (mn' & Hmn%collect_Ok & [= -> ->]).
  pose proof (collect_call_ok _ _ (children definitions "collaboration")
    (collaboration_accepts (collect_map pn) (collect_map ((λ d, (def_id d, d)) <$> ds)) (collect_map mn))) as H.
  destruct (collect_call _ _) as [[cols|]|]; try done. exists (collect_map mn). split; [|done].
  intros m name Hin%collect_map_elem. apply list_elem_of_lookup in Hin as [k Hk].
  destruct (Forall2_lookup_r _ _ _ _ _ Hmn Hk) as (n & _ & Hn). cbn beta in Hn.
  apply result_bind_Ok in Hn as (id & _ & Hn). by apply result_bind_Ok in Hn as (name' & [_ Hb]%required_ok & [= -> ->]).
Qed.

(** [parse_bpmn_collaboration] never panics: neither the indexing of the maps nor
    the [unreachable!] arm of its message check can be reached. *)
Theorem parse_bpmn_collaboration_total keys xml : parse_bpmn_collaboration keys xml ≠ Panics.
Proof.
  unfold parse_bpmn_collaboration. destruct (definitions_element xml) as [definitions|]; [|done].
  pose proof (parse_bpmn_processes_ranked keys xml) as H. destruct (parse_bpmn_processes keys xml) as [[ds|]|]; try done.
  pose proof (collaborations_of_ok definitions ds) as Hc. by destruct (collaborations_of definitions ds) as [[cols|]|].
Qed.

(** C9: What the parser accepts the engine accepts: a collection made of the processes
    and collaborations of a parsed document compiles, and every message flow of
    the document becomes one route, in document order. *)
Theorem parsed_routes_compile `{CollaborationReader} keys xml doc c :
  readers_agree xml → (∀ i j, keys i = keys j → i = j) → parse_bpmn_collaboration keys xml = Returns (Ok doc) →
  dc_definitions c = doc_processes doc → read_collaborations (dc_collaborations c) = Ok (doc_collaborations doc) →
  ∃ routes, compile_routes c = Ok routes ∧
    rt_flow_id <$> routes = mf_id <$> concat (message_flows <$> doc_collaborations doc).
Proof.
  intros Hagree Hinj Hparse Hdefs Hread. unfold parse_bpmn_collaboration in Hparse.
  destruct (definitions_element xml) as [definitions|] eqn:Hel; [|done].
  destruct (parse_bpmn_processes keys xml) as [[ds|]|] eqn:Hp; try done.
  pose proof (collaborations_of_ok definitions ds) as Hcols. destruct (collaborations_of definitions ds) as [[cols|]|]; try done.
  injection Hparse as <-. simpl in *. destruct Hcols as (message_names & Hmsg & Hcols).
  destruct (parsed_distinct _ _ _ Hagree Hinj Hp) as [Hids Hkeys]. rewrite <- Hdefs in Hids, Hkeys.
  assert (NoDup (concat (collaboration_ids <$> cols))) as Hnd.
  { unfold definitions_element in Hel. apply result_bind_Ok in Hel as (document & _ & Hel).
    apply result_bind_Ok in Hel as (definitions' & _ & Hel). apply result_bind_Ok in Hel as (seen & Hseen & [= <-]).
    apply check_ids_recorded in Hseen as (_ & Hnd & _). eapply submseteq_NoDup; [|exact Hnd]. rewrite all_ids_unfold.
    apply submseteq_inserts_l. etrans; [|apply (one_filter (λ x, String.eqb (n_name x) "collaboration"))].
    change (List.filter _ (n_children definitions')) with (children definitions' "collaboration"). unfold forest_ids. clear -Hcols.
    induction Hcols as [|n col ns cols [_ Hsub] _ IH]; [done|]. rewrite !fmap_cons. cbn [concat]. by apply submseteq_app. }
  destruct (compile_collaborations_accepts c ∅ cols) as [routes Hroutes]; [|done|set_solver|].
  { intros col [k Hk]%list_elem_of_lookup. destruct (Forall2_lookup_r _ _ _ _ _ Hcols Hk) as (n & _ & Hok & _).
    eapply collaboration_valid; [|exact Hmsg|done|done|exact Hok].
    intros pid d (d' & [= -> ->] & Hd')%collect_map_elem%list_elem_of_fmap. by rewrite Hdefs. }
  exists routes. unfold compile_routes. rewrite Hread. cbn [map_err result_bind].
  rewrite check_definitions_accepts by (done || set_solver). cbn [result_bind]. split; [done|].
  by apply compile_collaborations_ok in Hroutes as (_ & _ & _ & Hflows).
Qed.

End theorems.

(** ** A document with two pools *)

Definition elem (name : string) (attrs : list (string * string)) (cs : list Node) : Node :=
  mkNode name (list_to_map attrs) "" cs.
Definition flow_elem (id source target : string) : Node :=
  elem "sequenceFlow" [("id", id); ("sourceRef", source); ("targetRef", target)] [].
Definition pools_document : Node :=
  elem "definitions" [("id", "defs")] [
    elem "message" [("id", "m1"); ("name", "Order")] [];
    elem "process" [("id", "shop"); ("isExecutable", "true")] [
      elem "startEvent" [("id", "s1")] []; elem "sendTask" [("id", "send"); ("messageRef", "m1")] [];
      elem "endEvent" [("id", "e1")] []; flow_elem "f1" "s1" "send"; flow_elem "f2" "send" "e1"];
    elem "process" [("id", "store"); ("isExecutable", "true")] [
      elem "startEvent" [("id", "s2")] [elem "messageEventDefinition" [("messageRef", "m1")] []];
      elem "endEvent" [("id", "e2")] []; flow_elem "f3" "s2" "e2"];
    elem "collaboration" [("id", "col")] [
      elem "participant" [("id", "p1"); ("processRef", "shop")] []; elem "participant" [("id", "p2"); ("processRef", "store")] [];
      elem "messageFlow" [("id", "mf"); ("sourceRef", "send"); ("targetRef", "s2")] []]].

Definition empty_scope (id : string) : BpmnScope := mkScope id None None [] [] [] [] [] [] [] [] [] [] [] [] [] [] [] [] [] [] [] [].
Definition plain_start (id : string) (message : option string) : BpmnStartEvent :=
  mkStart id None None None ((λ r, mkMessageDef (Some r)) <$> message) None None None None.
Definition plain_end (id : string) : BpmnEndEvent := mkEnd id None None None None None None None.
Definition xml_flow (id source target : string) : BpmnSequenceFlow := mkFlow id source target None.
Definition pools_definitions : BpmnDefinitions := mkDefinitions [
    mkProcess (mkScope "shop" None None [plain_start "s1" None] [plain_end "e1"] [] []
      [xml_flow "f1" "s1" "send"; xml_flow "f2" "send" "e1"] [] [] []
      [mkSendTask "send" None None (Some "m1") None None] [] [] [] [] [] [] [] [] [] [] []) (Some true) [];
    mkProcess (mkScope "store" None None [plain_start "s2" (Some "m1")] [plain_end "e2"] [] []
      [xml_flow "f3" "s2" "e2"] [] [] [] [] [] [] [] [] [] [] [] [] [] [] []) (Some true) []]
  [mkMessage "m1" "Order"] [] [] [].

Definition pools_lib : XmlLib := {|
  read_stream _ _ := mkStream (node_events pools_document) None;
  xml_from_str _ := Ok pools_definitions;
  xml_unescape _ := Err "";
  json_from_str _ := Err "" |}.

Definition pools_parsed : call (EngineResult CollaborationDocument) :=
  @parse_bpmn_collaboration ascii_only no_time pools_lib N.of_nat "".
Definition pools_result : CollaborationDocument :=
  match pools_parsed with Returns (Ok doc) => doc | _ => mkDocument [] [] end.
Definition pools_collection : DefinitionCollection := mkCollection 1 (doc_processes pools_result) "" VNull [].
Definition pools_reader : CollaborationReader := {| read_collaborations _ := Ok (doc_collaborations pools_result) |}.

Lemma parsed_routes_compile_witness :
  length (doc_collaborations pools_result) = 1 ∧
  ∃ routes, @compile_routes pools_reader pools_collection = Ok routes ∧ rt_flow_id <$> routes = ["mf"].
Proof.
  split; [vm_compute; reflexivity|].
  apply (@parsed_routes_compile ascii_only no_time pools_lib pools_reader N.of_nat "" pools_result pools_collection).
  - intros defs scan Hd Hs _. injection Hd as <-. vm_compute in Hs. injection Hs as <-. vm_compute. reflexivity.
  - intros i j Hij. by apply Nat2N.inj.
  - vm_compute. reflexivity.
  - reflexivity.
  - reflexivity.
Defined.
