(* ===== verification/BpmnScanTree.v ===== *)
(** * The verdict of the scan, read off the document

    The scan of BpmnScan.v works on the reader's events with a stack and counters.
    Here the same verdict is stated over the tree of tags of the document: which
    elements stand above an element and which event definitions an event has. *)

From stdpp Require Import base list gmap strings pretty.
From S2P Require Import Prelude Text Json Domain BpmnModels BpmnScan.
Local Open Scope rust_scope.

(** ** Documents *)

(** A tag with the tags in its body. *)
Inductive Tag := mkTag (element : XmlElement) (body : list Tag).

(** Events that are not tags. *)
Definition noise (ev : XmlEvent) : bool := match ev with XStart _ | XEmpty _ | XEnd _ => false | _ => true end.

(** The reader's events of a list of tags. *)
Inductive reads : list (XmlEvent * N) → list Tag → Prop :=
| reads_nil : reads [] []
| reads_noise ev pos es ts : noise ev = true → reads es ts → reads ((ev, pos) :: es) ts
| reads_empty el pos es ts : reads es ts → reads ((XEmpty el, pos) :: es) (mkTag el [] :: ts)
| reads_open el pos inside body pos' es ts :
    reads inside body → reads es ts →
    reads ((XStart el, pos) :: inside ++ (XEnd (element_local_name el), pos') :: es) (mkTag el body :: ts).

(** ** The rules, over the elements above a tag *)

Notation local := element_local_name.
Definition is_process (el : XmlElement) : bool := String.eqb (local el) "process".
Definition is_event (el : XmlElement) : bool := contains EVENT_KINDS (local el).
Definition is_definition (el : XmlElement) : bool := ends_with "EventDefinition" (local el).
Definition is_sub (el : XmlElement) : bool := String.eqb (local el) "subProcess".
Definition is_handler (el : XmlElement) : bool := is_sub el && flagged el "triggeredByEvent".

(** The engine executes the definition on the event: as the trigger of an event
    sub-process, or as one of the table outside embedded sub-processes. *)
Definition executes (up : list XmlElement) (event el : XmlElement) : Prop :=
  (local event, local el) ∉ REJECTED_EVENT_DEFINITIONS ∧
  ((local event = "startEvent" ∧ existsb is_handler up = true ∧ local el ∈ TRIGGER_DEFINITIONS) ∨
   (local el ∈ supported_definitions (local event) ∧
      (local event = "startEvent" → ∀ sub, List.find is_sub up = Some sub → is_handler sub = true))).

Record admitted (up : list XmlElement) (el : XmlElement) : Prop := {
  known : local el ∉ UNSUPPORTED_ELEMENTS;
  handler_on_top : is_handler el = true → existsb is_sub up = false;
  receive_on_top : local el = "receiveTask" → flagged el "instantiate" = true → existsb is_sub up = false;
  gateway_waits : local el = "eventBasedGateway" → flagged el "instantiate" = false ∧ parallel_typed el = false;
  definition_executes : is_definition el = true → ∀ event, List.find is_event up = Some event → executes up event el;
}.

(** The event definitions of the innermost event around a tag. *)
Fixpoint definitions (t : Tag) : nat :=
  let 'mkTag el body := t in
  (if is_definition el then 1 else 0) + (if is_event el then 0 else sum_list_with definitions body).
Notation definitions_of := (sum_list_with definitions).

Inductive supported (up : list XmlElement) : Tag → Prop :=
| supported_tags el body :
    admitted up el → (is_event el = true → definitions_of body ≤ 1) → Forall (supported (el :: up)) body →
    supported up (mkTag el body).

(** The outermost processes with the elements above them, and documents in which no
    process stands in another one or in an event. *)
Fixpoint processes (up : list XmlElement) (t : Tag) : list (list XmlElement * XmlElement * list Tag) :=
  let 'mkTag el body := t in
  if is_process el then [(up, el, body)] else flat_map (processes (el :: up)) body.
Fixpoint process_free (t : Tag) : bool :=
  let 'mkTag el body := t in negb (is_process el) && forallb process_free body.
Fixpoint plain_outside (t : Tag) : bool :=
  let 'mkTag el body := t in
  if is_process el then forallb process_free body else negb (is_event el) && forallb plain_outside body.

Definition process_entry (p : list XmlElement * XmlElement * list Tag) : string * bool :=
  (default "" (xml_attr p.1.2 "id"), bool_decide (xml_attr p.1.2 "isExecutable" = Some "true")).

(** ** The stack *)

Definition frame_of (f : XmlFrame) (el : XmlElement) : Prop :=
  xf_name f = local el ∧ xf_triggered_by_event f = is_handler el.
Notation stands := (Forall2 frame_of).

Definition event_frame (f : XmlFrame) : bool := contains EVENT_KINDS (xf_name f).
Definition count_up (k : nat) (f : XmlFrame) : XmlFrame :=
  mkFrame (xf_name f) (xf_id f) (event_defs f + k) (xf_triggered_by_event f).
(** The stack after [k] more definitions. *)
Fixpoint bump (k : nat) (stack : list XmlFrame) : list XmlFrame :=
  match stack with
  | [] => []
  | f :: stack => if event_frame f then count_up k f :: stack else f :: bump k stack
  end.
Definition counted (stack : list XmlFrame) : nat :=
  match List.find event_frame stack with Some f => event_defs f | None => 0 end.

Lemma bump_0 stack : bump 0 stack = stack.
Proof.
  induction stack as [|[n i d t] stack IH]; simpl; [done|]. rewrite IH.
  destruct (event_frame _); [|done]. unfold count_up. simpl. by rewrite Nat.add_0_r.
Qed.
Lemma bump_bump k k' stack : bump k (bump k' stack) = bump (k' + k) stack.
Proof.
  induction stack as [|f stack IH]; simpl; [done|]. destruct (event_frame f) eqn:Hf; simpl.
  - change (event_frame (count_up k' f)) with (event_frame f). rewrite Hf. unfold count_up. simpl.
    by rewrite Nat.add_assoc.
  - by rewrite Hf, IH.
Qed.
Lemma bump_stands k stack up : stands stack up → stands (bump k stack) up.
Proof.
  induction 1 as [|f el stack up Hf H IH]; simpl; [constructor|].
  destruct (event_frame f); by constructor.
Qed.
Lemma event_frame_of f el : frame_of f el → event_frame f = is_event el.
Proof. intros [Hn _]. unfold event_frame, is_event. by rewrite Hn. Qed.
Lemma stands_find (p : XmlFrame → bool) (q : XmlElement → bool) stack up :
  (∀ f el, frame_of f el → p f = q el) → stands stack up →
  match List.find p stack, List.find q up with
  | Some f, Some el => frame_of f el
  | None, None => True
  | _, _ => False
  end.
Proof.
  intros Hpq. induction 1 as [|f el stack up Hf H IH]; simpl; [done|]. rewrite (Hpq f el Hf).
  by destruct (q el).
Qed.
Lemma stands_existsb (p : XmlFrame → bool) (q : XmlElement → bool) stack up :
  (∀ f el, frame_of f el → p f = q el) → stands stack up → existsb p stack = existsb q up.
Proof. intros Hpq. induction 1 as [|f el stack up Hf H IH]; simpl; [done|]. by rewrite (Hpq f el Hf), IH. Qed.

Lemma count_definition_bump stack :
  match List.find event_frame stack with
  | Some f => count_definition stack = Some (count_up 1 f, bump 1 stack)
  | None => count_definition stack = None ∧ ∀ k, bump k stack = stack
  end.
Proof.
  induction stack as [|f stack IH]; cbn [List.find count_definition bump]; [done|].
  fold (event_frame f). destruct (event_frame f) eqn:Hf; [done|].
  destruct (List.find event_frame stack) as [e|].
  - by rewrite IH.
  - destruct IH as [-> IH]. split; [done|]. intros k. by rewrite IH.
Qed.

(** ** One tag *)

Lemma sub_frames f el : frame_of f el → is_sub_process f = is_sub el.
Proof. intros [Hn _]. unfold is_sub_process, is_sub. by rewrite Hn. Qed.
Lemma handler_frames f el : frame_of f el → xf_triggered_by_event f = is_handler el.
Proof. by intros []. Qed.

Lemma plain_subprocess_stands stack up :
  stands stack up → plain_subprocess_id stack = None ↔ ∀ sub, List.find is_sub up = Some sub → is_handler sub = true.
Proof.
  intros H. unfold plain_subprocess_id. pose proof (stands_find _ _ _ _ sub_frames H) as Hf.
  destruct (List.find is_sub_process stack) as [f|], (List.find is_sub up) as [sub|]; try done; simpl.
  rewrite (handler_frames _ _ Hf). destruct (is_handler sub) eqn:Hh; split; intros Hs; [|done|done|].
  - intros ? [= <-]. done.
  - by rewrite (Hs sub eq_refl) in Hh.
Qed.

Lemma executable_executes f event el stack up :
  frame_of f event → stands stack up → executable_definition (local el) f stack ↔ executes up event el.
Proof.
  intros [Hn _] H. unfold executable_definition, executes. rewrite Hn, (plain_subprocess_stands _ _ H).
  rewrite <- (stands_existsb _ _ _ _ handler_frames H), existsb_exists.
  setoid_rewrite <- list_elem_of_In. reflexivity.
Qed.

(** The scan's test of a definition, when the event around it has at most one
    definition so far. *)
Lemma definition_counted stack up el :
  stands stack up → counted stack ≤ 1 →
  (∀ event stack', count_definition stack = Some (event, stack') →
     event_defs event ≠ 2 ∧ (event_defs event < 2 → executable_definition (local el) event stack')) ↔
  (∀ event, List.find is_event up = Some event → executes up event el) ∧
  (existsb is_event up = true → counted stack = 0).
Proof.
  intros H. pose proof (stands_find _ _ _ _ event_frame_of H) as He.
  pose proof (count_definition_bump stack) as Hb. unfold counted.
  destruct (List.find event_frame stack) as [f|] eqn:Hf, (List.find is_event up) as [ev|] eqn:Hu; try done; intros Hc.
  - assert (frame_of (count_up 1 f) ev) as He' by by destruct He.
    pose proof (executable_executes _ _ el _ _ He' (bump_stands 1 _ _ H)) as Hexec. rewrite Hb. split.
    + intros Hall. destruct (Hall _ _ eq_refl) as [Hne Hlt]. simpl in *. assert (event_defs f = 0) as H0 by lia.
      split; [|done]. intros ? [= <-]. apply Hexec, Hlt. lia.
    + intros [Hexe Hz] ? ? [= <- <-]. simpl. apply List.find_some in Hu as [Hin Hev].
      assert (event_defs f = 0) as H0 by (apply Hz, existsb_exists; eauto).
      split; [lia|]. intros _. by apply Hexec, Hexe.
  - destruct Hb as [-> _]. naive_solver.
Qed.

Lemma supported_tag_admitted stack up el :
  stands stack up → counted stack ≤ 1 →
  supported_tag (local el) el stack ↔
  admitted up el ∧ (is_definition el = true → existsb is_event up = true → counted stack = 0).
Proof.
  intros H Hc. pose proof (definition_counted stack up el H Hc) as Hdef.
  assert ((∀ frame, frame ∈ stack → xf_name frame ≠ "subProcess") ↔ existsb is_sub up = false) as Hsub.
  { by rewrite <- no_sub_process, (stands_existsb _ _ _ _ sub_frames H). }
  split.
  - intros [H1 H2 H3 H4 H5]. split; [|intros Hd; by apply Hdef, H5].
    constructor; try done; [| |intros Hd; by apply Hdef, H5].
    + intros [Hs Ht]%andb_true_iff. apply Hsub, H2; [by apply String.eqb_eq|done].
    + intros Hn Hi. apply Hsub. by apply H3.
  - intros [[H1 H2 H3 H4 H5] H6]. constructor; try done.
    + intros Hn Ht. apply Hsub, H2. unfold is_handler, is_sub. by rewrite Hn, Ht.
    + intros Hn Hi. apply Hsub. by apply H3.
    + intros Hd. apply Hdef. split; [by apply H5|by apply H6].
Qed.

(** What a tag does to the stack. *)
Lemma collect_bump el line stack :
  ∃ k, (collect_for_element (local el) el line stack).2 = bump k stack ∧
    ((collect_for_element (local el) el line stack).1 = [] → k = if is_definition el then 1 else 0).
Proof.
  unfold collect_for_element.
  assert (∀ l : list string, l ≠ [] → ∃ k, (l, stack).2 = bump k stack ∧
    ((l, stack).1 = [] → k = if is_definition el then 1 else 0)) as Hkeep.
  { intros l Hl. exists 0. by rewrite bump_0. }
  destruct (_ && _ && _); [by apply Hkeep|]. destruct (_ && _ && _); [by apply Hkeep|].
  destruct (rejected_attribute _ _); [by apply Hkeep|]. destruct (contains UNSUPPORTED_ELEMENTS _); [by apply Hkeep|].
  unfold is_definition. destruct (ends_with _ _); [|exists 0; by rewrite bump_0].
  exists 1. split; [|done]. unfold classify_event_definition. pose proof (count_definition_bump stack) as Hb.
  destruct (List.find event_frame stack); [by rewrite Hb|]. destruct Hb as [-> Hb]. by rewrite Hb.
Qed.

(** ** Inside a process *)

Lemma counted_bump k stack :
  counted (bump k stack) = if existsb event_frame stack then counted stack + k else counted stack.
Proof.
  unfold counted. induction stack as [|f stack IH]; cbn [bump List.find existsb]; [done|].
  destruct (event_frame f) eqn:Hf; cbn [List.find orb].
  - change (event_frame (count_up k f)) with (event_frame f). by rewrite Hf.
  - by rewrite Hf.
Qed.
Lemma counted_event stack : existsb event_frame stack = false → counted stack = 0.
Proof. unfold counted. induction stack as [|f stack IH]; simpl; [done|]. by destruct (event_frame f). Qed.

Lemma alter_app_app {A} (w w' : list A) i (l : list (list A)) :
  alter (λ x, x ++ w') i (alter (λ x, x ++ w) i l) = alter (λ x, x ++ w ++ w') i l.
Proof. revert i. induction l as [|x l IH]; intros [|i]; cbn; [done..|by rewrite <- app_assoc|]. f_equal. apply IH. Qed.

Section inside.
  Variable xml : string.
  Notation run := (foldl (scan_event xml)).

(** The scan of the tags [ts] under [up]: definitions are counted at the event
    around them, and nothing is reported exactly when the tags are supported and
    the event has one definition at most. *)
Definition verdict (s : XmlScan) (i : nat) (up : list XmlElement) (ts : list Tag) (s' : XmlScan) : Prop :=
  ∃ k w, s' = mkScan (bump k (xs_stack s)) (xs_processes s) (alter (λ l, l ++ w) i (xs_violations s)) (Some i) ∧
    (counted (xs_stack s) ≤ 1 →
      (w = [] ↔ Forall (supported up) ts ∧ (existsb is_event up = true → counted (xs_stack s) + definitions_of ts ≤ 1)) ∧
      (w = [] → k = definitions_of ts)).

Lemma verdict_nil s i up : xs_current s = Some i → verdict s i up [] s.
Proof.
  intros Hc. exists 0, []. split.
  - rewrite bump_0. destruct s; simpl in *. subst. f_equal. symmetry. apply list_alter_id. intros x. by rewrite app_nil_r.
  - intros Hn. split; [|done]. simpl. split; [|done]. intros _. split; [constructor|lia].
Qed.

Lemma verdict_app s i up ts ts' s1 s2 :
  stands (xs_stack s) up → verdict s i up ts s1 → verdict s1 i up ts' s2 → verdict s i up (ts ++ ts') s2.
Proof.
  intros H (k & w & -> & Hw) (k' & w' & -> & Hw'). simpl in *. exists (k + k'), (w ++ w').
  rewrite bump_bump, alter_app_app. split; [done|]. intros Hn. destruct (Hw Hn) as [Hiff Hk].
  rewrite counted_bump, (stands_existsb _ _ _ _ event_frame_of H) in Hw'.
  rewrite Forall_app, sum_list_with_app.
  destruct w as [|x w]; simpl.
  2: { split; [|done]. split; [done|]. intros [[Hs _] Hd]. assert (x :: w = []) as [=]. apply Hiff. split; [done|].
       intros He. specialize (Hd He). lia. }
  specialize (Hk eq_refl) as ->. destruct (proj1 Hiff eq_refl) as [Hs Hd].
  destruct (existsb is_event up); [specialize (Hd eq_refl)|]; destruct Hw' as [Hiff' Hk']; try lia.
  - split; [|intros ->; by rewrite Hk']. rewrite Hiff'. intuition lia.
  - split; [|intros ->; by rewrite Hk']. rewrite Hiff'. intuition done.
Qed.

Lemma supported_iff up el body :
  supported up (mkTag el body) ↔
  admitted up el ∧ (is_event el = true → definitions_of body ≤ 1) ∧ Forall (supported (el :: up)) body.
Proof. split; [by inversion 1|]. intros (? & ? & ?). by constructor. Qed.

Lemma on_xml_tag_inside el line s i :
  xs_current s = Some i → is_process el = false →
  let '(found, stack) := collect_for_element (local el) el line (xs_stack s) in
  on_xml_tag el line true s =
    mkScan (mkFrame (local el) (xml_attr el "id") 0 (is_handler el) :: stack) (xs_processes s)
      (alter (λ l, l ++ found) i (xs_violations s)) (Some i) ∧
  on_xml_tag el line false s = on_xml_end (local el) (on_xml_tag el line true s).
Proof.
  intros Hc Hp. unfold on_xml_tag, on_xml_end, is_process in *. rewrite Hc.
  destruct (collect_for_element _ _ _ _) as [found stack]. simpl. by rewrite Hp.
Qed.

Lemma verdict_tag el line s i up body s2 :
  xs_current s = Some i → is_process el = false → stands (xs_stack s) up →
  verdict (on_xml_tag el line true s) i (el :: up) body s2 → verdict s i up [mkTag el body] (on_xml_end (local el) s2).
Proof.
  intros Hc Hp H. pose proof (on_xml_tag_inside el line s i Hc Hp) as Hon.
  pose proof (collect_nil (local el) el line (xs_stack s)) as Hnil. pose proof (collect_bump el line (xs_stack s)) as Hb.
  destruct (collect_for_element _ _ _ _) as [found stack]. simpl in Hnil, Hb.
  destruct Hon as [-> _], Hb as (k0 & -> & Hk0). intros (k & w & -> & Hw).
  set (f := mkFrame (local el) (xml_attr el "id") 0 (is_handler el)) in *.
  assert (event_frame f = is_event el) as Hf by done. cbn [xs_stack xs_processes xs_violations xs_current] in *.
  pose proof (stands_existsb _ _ _ _ event_frame_of H) as Hx. pose proof (counted_event (xs_stack s)) as H0.
  assert (counted (f :: bump k0 (xs_stack s)) = if is_event el then 0 else counted (bump k0 (xs_stack s))) as Hcf.
  { unfold counted. cbn [List.find]. rewrite Hf. by destruct (is_event el). }
  exists (k0 + if is_event el then 0 else k), (found ++ w). split.
  { unfold on_xml_end, is_process in *. cbn [xs_stack xs_processes xs_violations xs_current]. rewrite Hp. simpl.
    rewrite alter_app_app, Hf. f_equal. destruct (is_event el); simpl; [by rewrite Nat.add_0_r|apply bump_bump]. }
  intros Hn. rewrite Hcf, counted_bump, Hx in Hw. rewrite Hx in H0. clear Hcf Hf.
  rewrite (supported_tag_admitted _ _ _ H Hn) in Hnil. rewrite Forall_singleton, supported_iff.
  cbn [sum_list_with definitions existsb] in *. rewrite Nat.add_0_r.
  destruct found as [|x found]; simpl.
  2: { split; [|done]. split; [done|]. intros [(Ha & _ & _) Hd]. exfalso. assert (x :: found = []) as [=].
       apply Hnil. split; [done|]. intros Hdef He. specialize (Hd He). rewrite Hdef in Hd. lia. }
  specialize (Hk0 eq_refl) as ->. destruct (proj1 Hnil eq_refl) as [Ha Hz]. clear Hnil.
  destruct (is_event el), (existsb is_event up), (is_definition el); cbn [orb] in Hw;
    (destruct Hw as [Hiff Hk]; [intuition lia|]); (split; [rewrite Hiff; intuition lia|intros ->; rewrite ?Hk by done; lia]).
Qed.

Lemma verdict_cons s i up t ts s1 es :
  stands (xs_stack s) up → verdict s i up [t] s1 →
  (∀ s', xs_current s' = Some i → stands (xs_stack s') up → verdict s' i up ts (run s' es)) →
  verdict s i up (t :: ts) (run s1 es).
Proof.
  intros Hs (k & w & -> & Hw) IH. eapply (verdict_app s i up [_]); [done|by exists k, w|].
  apply IH; [done|]. by apply bump_stands.
Qed.

Lemma run_inside es ts :
  reads es ts → forallb process_free ts = true →
  ∀ s i up, xs_current s = Some i → stands (xs_stack s) up → verdict s i up ts (run s es).
Proof.
  induction 1 as [|ev pos es ts Hn H IH|el pos es ts H IH|el pos inside body pos' es ts Hb IHb H IH];
    cbn [forallb process_free]; intros Hp s i up Hc Hs.
  - by apply verdict_nil.
  - cbn [foldl]. destruct ev; try done; by apply IH.
  - rewrite !andb_true_iff, negb_true_iff in Hp. destruct Hp as [[Hp _] Hp'].
    cbn [foldl scan_event fst snd]. assert (verdict s i up [mkTag el []] (on_xml_tag el (line_of xml pos) false s)) as Hv.
    { pose proof (on_xml_tag_inside el (line_of xml pos) s i Hc Hp) as Hon.
      destruct (collect_for_element _ _ _ _) as [found stack] eqn:Hcol. destruct Hon as [Hop ->].
      apply (verdict_tag _ (line_of xml pos) _ _ _ _ _ Hc Hp Hs), verdict_nil. by rewrite Hop. }
    apply (verdict_cons _ _ _ _ _ _ _ Hs Hv). auto.
  - rewrite !andb_true_iff, negb_true_iff in Hp. destruct Hp as [[Hp Hpb] Hp'].
    cbn [foldl scan_event fst snd]. rewrite foldl_app. cbn [foldl scan_event fst snd].
    assert (verdict s i up [mkTag el body] (on_xml_end (local el) (run (on_xml_tag el (line_of xml pos) true s) inside)))
      as Hv.
    { apply (verdict_tag _ (line_of xml pos) _ _ _ _ _ Hc Hp Hs). pose proof (on_xml_tag_inside el (line_of xml pos) s i Hc Hp) as Hon.
      pose proof (collect_bump el (line_of xml pos) (xs_stack s)) as (k0 & Hst & _).
      destruct (collect_for_element _ _ _ _) as [found stack]. simpl in Hst. subst stack. destruct Hon as [-> _].
      apply IHb; [done..|]. constructor; [done|]. by apply bump_stands. }
    apply (verdict_cons _ _ _ _ _ _ _ Hs Hv). auto.
Qed.

(** ** The whole document *)

Definition judged (w : list string) (p : list XmlElement * XmlElement * list Tag) : Prop :=
  w = [] ↔ Forall (supported (p.1.2 :: p.1.1)) p.2.

(** The scan of the tags outside processes lists the processes with their verdicts. *)
Definition listed (s : XmlScan) (up : list XmlElement) (ts : list Tag) (s' : XmlScan) : Prop :=
  ∃ ws, s' = mkScan (xs_stack s) (xs_processes s ++ (process_entry <$> flat_map (processes up) ts))
               (xs_violations s ++ ws) None ∧
    Forall2 judged ws (flat_map (processes up) ts).

Lemma listed_nil s up : xs_current s = None → listed s up [] s.
Proof. intros Hc. exists []. simpl. rewrite !app_nil_r. destruct s; simpl in *. by subst. Qed.

Lemma listed_app s up ts ts' s1 s2 : listed s up ts s1 → listed s1 up ts' s2 → listed s up (ts ++ ts') s2.
Proof.
  intros (ws & -> & Hw) (ws' & -> & Hw'). exists (ws ++ ws'). simpl.
  rewrite flat_map_app, fmap_app, !app_assoc. split; [done|]. by apply Forall2_app.
Qed.

Lemma listed_cons s up t ts s1 es :
  length (xs_violations s) = length (xs_processes s) → listed s up [t] s1 →
  (∀ s', xs_current s' = None → xs_stack s' = xs_stack s → length (xs_violations s') = length (xs_processes s') →
     listed s' up ts (run s' es)) →
  listed s up (t :: ts) (run s1 es).
Proof.
  intros Hl (ws & -> & Hw) IH. eapply (listed_app s up [_]); [by exists ws|]. apply IH; [done..|]. simpl.
  rewrite !length_app, length_fmap, Hl. by rewrite (Forall2_length _ _ _ Hw).
Qed.

Lemma bump_outside k stack : existsb event_frame stack = false → bump k stack = stack.
Proof.
  induction stack as [|f stack IH]; simpl; [done|]. intros [-> H]%orb_false_iff. by rewrite IH.
Qed.

Lemma listed_process el line s up inside body :
  xs_current s = None → is_process el = true → stands (xs_stack s) up → existsb is_event up = false →
  length (xs_violations s) = length (xs_processes s) → reads inside body → forallb process_free body = true →
  listed s up [mkTag el body] (on_xml_end (local el) (run (on_xml_tag el line true s) inside)) ∧
  listed s up [mkTag el []] (on_xml_tag el line false s).
Proof.
  intros Hc Hp Hs He Hl Hr Hf. assert (local el = "process") as Hn by by apply String.eqb_eq.
  assert (is_handler el = false) as Hh by (unfold is_handler, is_sub; by rewrite Hn).
  unfold on_xml_tag. rewrite Hc, Hn. simpl String.eqb. cbn match. split.
  - match goal with |- context [run ?s0 inside] => set (s1 := s0) end.
    assert (stands (xs_stack s1) (el :: up)) as Hs1 by (constructor; [split; [done|by rewrite Hh]|done]).
    destruct (run_inside _ _ Hr Hf s1 _ _ eq_refl Hs1) as (k & w & -> & Hw).
    assert (existsb event_frame (xs_stack s1) = false) as Hx.
    { rewrite (stands_existsb _ _ _ _ event_frame_of Hs1). cbn [existsb]. rewrite He. unfold is_event. by rewrite Hn. }
    rewrite (counted_event _ Hx) in Hw. destruct Hw as [Hw _]; [lia|]. rewrite bump_outside by done.
    exists [w]. unfold on_xml_end. simpl. rewrite Hp. simpl. split.
    + f_equal. rewrite <- Hl. clear. induction (xs_violations s); simpl; by f_equal.
    + constructor; [|constructor]. unfold judged. cbn [fst snd]. rewrite Hw. cbn [existsb]. rewrite He.
      unfold is_event. rewrite Hn. split; [by intros []|done].
  - exists [[]]. simpl. rewrite Hp. split; [done|]. constructor; [|constructor]. by split.
Qed.

Lemma listed_other el line s up inside body :
  xs_current s = None → is_process el = false →
  (∀ s', xs_current s' = None → xs_stack s' = mkFrame (local el) (xml_attr el "id") 0 (is_handler el) :: xs_stack s →
     xs_processes s' = xs_processes s → xs_violations s' = xs_violations s → listed s' (el :: up) body (run s' inside)) →
  listed s up [mkTag el body] (on_xml_end (local el) (run (on_xml_tag el line true s) inside)) ∧
  listed s up [mkTag el []] (on_xml_tag el line false s).
Proof.
  intros Hc Hp IH. unfold on_xml_tag. rewrite Hc. fold (is_process el). rewrite Hp. split.
  - match goal with |- context [run ?s0 inside] => destruct (IH s0 eq_refl eq_refl eq_refl eq_refl) as (ws & -> & Hw) end.
    exists ws. unfold on_xml_end. simpl. fold (is_process el). rewrite Hp, app_nil_r. by split.
  - exists []. simpl. rewrite Hp. simpl. by rewrite !app_nil_r.
Qed.

Lemma run_outside es ts :
  reads es ts → forallb plain_outside ts = true →
  ∀ s up, xs_current s = None → stands (xs_stack s) up → existsb is_event up = false →
    length (xs_violations s) = length (xs_processes s) → listed s up ts (run s es).
Proof.
  induction 1 as [|ev pos es ts Hn H IH|el pos es ts H IH|el pos inside body pos' es ts Hb IHb H IH];
    cbn [forallb plain_outside]; intros Hp s up Hc Hs He Hl.
  - by apply listed_nil.
  - cbn [foldl]. destruct ev; try done; by apply IH.
  - apply andb_true_iff in Hp as [_ Hp]. cbn [foldl scan_event fst snd].
    assert (listed s up [mkTag el []] (on_xml_tag el (line_of xml pos) false s)) as Hv.
    { destruct (is_process el) eqn:Hpr; [apply (proj2 (listed_process _ _ _ _ nil nil Hc Hpr Hs He Hl reads_nil eq_refl))|].
      apply (proj2 (listed_other el (line_of xml pos) s up [] [] Hc Hpr (λ s' Hc' _ _ _, listed_nil s' _ Hc'))). }
    apply (listed_cons _ _ _ _ _ _ Hl Hv). intros s' Hc' Hst Hl'. apply IH; try done. by rewrite Hst.
  - apply andb_true_iff in Hp as [Hpt Hp]. cbn [foldl scan_event fst snd]. rewrite foldl_app.
    cbn [foldl scan_event fst snd].
    assert (listed s up [mkTag el body]
      (on_xml_end (local el) (run (on_xml_tag el (line_of xml pos) true s) inside))) as Hv.
    { destruct (is_process el) eqn:Hpr; [by apply listed_process|].
      apply andb_true_iff in Hpt as [Hev%negb_true_iff Hpb]. apply listed_other; [done..|].
      intros s' Hc' Hst Hpr' Hvi. apply IHb; [done|done| | |by rewrite Hpr', Hvi].
      - rewrite Hst. by constructor.
      - cbn [existsb]. by rewrite Hev, He. }
    apply (listed_cons _ _ _ _ _ _ Hl Hv). intros s' Hc' Hst Hl'. apply IH; try done. by rewrite Hst.
Qed.
End inside.

(** C12: The scan rejects a process of a document exactly when one of its tags is not
    supported where it stands: an element without execution semantics, a nested
    event sub-process, an instantiating receive task in a sub-process, an
    instantiating or parallel event gateway, an event with two definitions, or a
    definition the engine does not execute on its event.  The processes are listed
    in document order. *)
Theorem scan_rejects_unsupported `{XmlLib} xml doc :
  xs_error (read_stream false xml) = None → reads (xs_events (read_stream false xml)) doc →
  forallb plain_outside doc = true →
  ∃ scan, scan_xml xml = Ok scan ∧ xs_processes scan = process_entry <$> flat_map (processes []) doc ∧
    ∀ i up el body, flat_map (processes []) doc !! i = Some (up, el, body) →
      reject_indexed scan i = Ok tt ↔ Forall (supported (el :: up)) body.
Proof.
  intros Herr Hr Hp. unfold scan_xml. rewrite Herr.
  destruct (run_outside xml _ _ Hr Hp empty_scan []) as (ws & -> & Hw); [done|constructor|done..|].
  eexists. split; [done|]. split; [done|]. intros i up el body Hi.
  destruct (Forall2_lookup_r _ _ _ _ _ Hw Hi) as (w & Hwi & Hj). unfold reject_indexed. simpl. rewrite Hwi.
  unfold judged in Hj. simpl in Hj. rewrite <- Hj. simpl. by destruct w.
Qed.

(** A process with a timer start event. *)
Definition tag (name : string) : XmlElement := mkElement name [Ok (mkAttr "id" "id" (λ _, Ok name))].
Definition timer_start : list Tag := [mkTag (tag "startEvent") [mkTag (tag "timerEventDefinition") []]].
Definition timer_document : list Tag := [mkTag (tag "definitions") [mkTag (tag "process") timer_start]].
Definition timer_events : list (XmlEvent * N) :=
  (λ ev, (ev, 0%N)) <$>
  [XStart (tag "definitions"); XText " "; XStart (tag "process"); XStart (tag "startEvent");
   XEmpty (tag "timerEventDefinition"); XEnd "startEvent"; XEnd "process"; XEnd "definitions"].
Definition timer_lib : XmlLib :=
  Build_XmlLib (λ _ _, mkStream timer_events None) (λ _, Err "") (λ s, Ok s) (λ _, Err "").
Lemma timer_reads : reads timer_events timer_document.
Proof.
  apply (reads_open (tag "definitions") 0 [_; _; _; _; _; _] _ 0 [] []); [|constructor]. apply reads_noise; [done|].
  apply (reads_open (tag "process") 0 [_; _; _] _ 0 [] []); [|constructor].
  apply (reads_open (tag "startEvent") 0 [_] _ 0 [] []); [|constructor]. apply reads_empty. constructor.
Qed.
Lemma scan_rejects_unsupported_witness :
  ∃ scan, scan_xml (L := timer_lib) "" = Ok scan ∧ xs_processes scan = [("process", false)] ∧
    (reject_indexed scan 0 = Ok tt ↔ Forall (supported [tag "process"; tag "definitions"]) timer_start).
Proof.
  destruct (scan_rejects_unsupported (H := timer_lib) "" timer_document eq_refl timer_reads eq_refl)
    as (scan & Hs & Hp & Hv).
  exists scan. split; [exact Hs|]. split; [exact Hp|]. exact (Hv 0 _ _ _ eq_refl).
Defined.
