(* ===== verification/JetStream.v ===== *)
(** * JetStream, as the NATS store uses it

    The crate async-nats talks to a NATS server: key-value buckets, object stores,
    streams.  It is not part of the program, so its calls are the operations of the
    class [JetStream] on a type of servers, and [JetStreamLaws] states what the
    program relies on: a call that succeeds has had its effect, a call that fails
    may have had it or not, and a read that succeeds tells what is stored. *)

From stdpp Require Import base list gmap strings.
From S2P Require Import Prelude Text Domain.
Local Open Scope rust_scope.

(** ** Calls *)

(** A call answers and leaves a server. *)
Definition Call (S E A : Type) : Type := S → result E A * S.
(** A program of calls, with the engine's errors. *)
Definition Io (S A : Type) : Type := S → EngineResult A * S.
#[export] Instance Io_ret {S} : MRet (Io S) := λ A a s, (Ok a, s).
#[export] Instance Io_bind {S} : MBind (Io S) := λ A B f m s,
  match m s with (Ok a, s) => f a s | (Err e, s) => (Err e, s) end.
Definition io_fail {S A} (e : EngineError) : Io S A := λ s, (Err e, s).
(** A read, and an answer that is already there. *)
Definition io_read {S A} (f : S → EngineResult A) : Io S A := λ s, (f s, s).
Definition io_lift {S A} (r : EngineResult A) : Io S A := λ s, (r, s).
Fixpoint io_for {S A} (f : A → Io S unit) (l : list A) : Io S unit :=
  match l with [] => mret tt | x :: l => _ ← f x; io_for f l end.

(** ** Errors *)

Inductive ErrorCode := STREAM_NOT_FOUND | STREAM_NAME_EXIST | OTHER_ERROR_CODE.
Inductive GetStreamErrorKind := GetJetStream (code : N) (kind : ErrorCode) | GetStreamOther.
Inductive CreateStreamErrorKind := CreateJetStream (kind : ErrorCode) | CreateStreamOther.
Record GetStreamError := mkGetError { ge_kind : GetStreamErrorKind; ge_text : string }.
Record CreateStreamError := mkCreateError { ce_kind : CreateStreamErrorKind; ce_text : string }.
(** An error and its chain of sources. *)
Inductive ErrorSource := SourceStream (err : CreateStreamErrorKind) | SourceOther.
Record CreateBucketError := mkBucketError { be_sources : list ErrorSource; be_text : string }.
Inductive UpdateError := WrongLastRevision (text : string) | UpdateFailed (text : string).

(** ** Configurations and messages *)

(** The fields of a stream's configuration the store sets, and the others. *)
Record StreamConfig {O : Type} := mkStreamConfig {
  cfg_name : string;
  cfg_subjects : list string;
  cfg_max_age : Duration;
  cfg_max_bytes : Z;
  cfg_num_replicas : N;
  cfg_others : O;
}.
Arguments StreamConfig : clear implicits.
Arguments mkStreamConfig {O} _ _ _ _ _ _.
Record StreamState := mkStreamState { ss_messages : N; ss_bytes : N; ss_first : N; ss_last : N }.
Record ObjectInfo := mkObjectInfo { oi_name : string; oi_size : N; oi_modified : option DateTime }.
Record ServerInfo := mkServerInfo { sv_name : string; sv_version : string; sv_host : string; sv_port : N }.
Record Account := mkAccount { ac_memory : N; ac_storage : N; ac_streams : N; ac_consumers : N }.

Class JetStream (S : Type) := {
  (** The bytes of a message, their number and their text when they are UTF-8. *)
  Payload : Type;
  payload_len : Payload → N;
  payload_text : Payload → option string;
  StreamOptions : Type;
  default_options : StreamOptions;
  (** Streams. *)
  get_stream : string → S → result GetStreamError (StreamConfig StreamOptions);
  create_stream : StreamConfig StreamOptions → Call S CreateStreamError unit;
  update_stream : StreamConfig StreamOptions → Call S string unit;
  stream_info : string → S → result string StreamState;
  get_raw_message : string → N → S → result string (Payload * option DateTime);
  (** [publish] without waiting for the acknowledgement. *)
  publish : string → Payload → Call S string unit;
  (** A consumer of one subject: creating it, opening its messages, and the
      messages that arrive before the first pause of 100 ms. *)
  consume : string → string → S → result string (result string (list (result string Payload)));
  (** Buckets. *)
  create_key_value : string → string → Call S CreateBucketError unit;
  get_key_value : string → S → result string unit;
  create_object_store : string → string → Call S CreateBucketError unit;
  get_object_store : string → S → result string unit;
  (** Key-value stores; a write answers with the new revision. *)
  kv_put : string → string → Payload → Call S string N;
  kv_create : string → string → Payload → Call S string N;
  kv_update : string → string → Payload → N → Call S UpdateError N;
  kv_delete : string → string → Call S string unit;
  kv_get : string → string → S → result string (option Payload);
  kv_entry : string → string → S → result string (option (Payload * N));
  kv_keys : string → S → result string (list (result string string));
  kv_status : string → S → result string (N * N);
  (** Object stores; reading opens the object and reads it to its end. *)
  obj_put : string → string → list Byte.byte → Call S string unit;
  obj_get : string → string → S → result string (result string (list Byte.byte));
  obj_delete : string → string → Call S string unit;
  obj_list : string → S → result string (list (result string ObjectInfo));
  (** The connection. *)
  server_info : S → ServerInfo;
  query_account : S → result string Account;
}.

(** ** What is stored *)

Record JetState {P : Type} := mkJet {
  j_kv : gmap string (gmap string (P * N));
  j_objects : gmap string (gmap string (list Byte.byte));
  j_messages : list (string * P);
}.
Arguments JetState : clear implicits.
Arguments mkJet {P} _ _ _.
#[export] Instance JetState_settable {P} : Settable (JetState P) := λ r, mkJet (j_kv r) (j_objects r) (j_messages r).

Definition bucket {V} (m : gmap string (gmap string V)) (b : string) : gmap string V := default ∅ (m !! b).
Definition in_bucket {V} (b : string) (f : gmap string V → gmap string V) (m : gmap string (gmap string V))
    : gmap string (gmap string V) := <[b := f (bucket m b)]> m.

Lemma bucket_in_eq {V} b f (m : gmap string (gmap string V)) : bucket (in_bucket b f m) b = f (bucket m b).
Proof. unfold in_bucket, bucket. by rewrite lookup_insert_eq. Qed.
Lemma bucket_in_ne {V} b b' f (m : gmap string (gmap string V)) : b ≠ b' → bucket (in_bucket b f m) b' = bucket m b'.
Proof. intros. unfold in_bucket, bucket. by rewrite lookup_insert_ne. Qed.

(** A write: success means the effect took place, failure leaves it open. *)
Definition effects {S E A X} (view : S → X) (c : Call S E A) (f : A → X → X) : Prop :=
  ∀ s, match c s with
       | (Ok a, s') => view s' = f a (view s)
       | (Err _, s') => view s' = view s ∨ ∃ a, view s' = f a (view s)
       end.

Class JetStreamLaws (S : Type) {J : JetStream S} := {
  jet : S → JetState Payload;
  kv_put_law b k p : effects jet (kv_put b k p) (λ rev st, st <| j_kv ::= in_bucket b <[k := (p, rev)]> |>);
  kv_delete_law b k : effects jet (kv_delete b k) (λ _ st, st <| j_kv ::= in_bucket b (delete k) |>);
  (** [create] refuses a key that is there. *)
  kv_create_law b k p : effects jet (kv_create b k p) (λ rev st, st <| j_kv ::= in_bucket b <[k := (p, rev)]> |>);
  kv_create_new b k p s rev s' : kv_create b k p s = (Ok rev, s') → bucket (j_kv (jet s)) b !! k = None;
  (** [update] replaces the revision it is given, and no other. *)
  kv_update_law b k p last s :
    let current := ∃ q, bucket (j_kv (jet s)) b !! k = Some (q, last) in
    let put rev := (jet s) <| j_kv ::= in_bucket b <[k := (p, rev)]> |> in
    match kv_update b k p last s with
    | (Ok rev, s') => current ∧ jet s' = put rev
    | (Err (WrongLastRevision _), s') => ¬ current ∧ jet s' = jet s
    | (Err (UpdateFailed _), s') => jet s' = jet s ∨ current ∧ ∃ rev, jet s' = put rev
    end;
  kv_get_law b k s o : kv_get b k s = Ok o → o = fst <$> bucket (j_kv (jet s)) b !! k;
  kv_entry_law b k s o : kv_entry b k s = Ok o → o = bucket (j_kv (jet s)) b !! k;
  (** The keys that are streamed are keys of the bucket, each once; all of them
      when no item is an error. *)
  kv_keys_law b s items : kv_keys b s = Ok items →
    let keys := omap (λ r, match r with Ok k => Some k | Err _ => None end) items in
    NoDup keys ∧ (∀ k, k ∈ keys → is_Some (bucket (j_kv (jet s)) b !! k)) ∧
    ((∀ e, Err e ∉ items) → ∀ k, is_Some (bucket (j_kv (jet s)) b !! k) → k ∈ keys);
  obj_put_law b k d : effects jet (obj_put b k d) (λ _ st, st <| j_objects ::= in_bucket b <[k := d]> |>);
  obj_delete_law b k : effects jet (obj_delete b k) (λ _ st, st <| j_objects ::= in_bucket b (delete k) |>);
  obj_get_law b k s d : obj_get b k s = Ok (Ok d) → bucket (j_objects (jet s)) b !! k = Some d;
  obj_list_law b s items : obj_list b s = Ok items →
    let names := omap (λ r, match r with Ok info => Some (oi_name info) | Err _ => None end) items in
    NoDup names ∧ (∀ k, k ∈ names → is_Some (bucket (j_objects (jet s)) b !! k)) ∧
    ((∀ e, Err e ∉ items) → ∀ k, is_Some (bucket (j_objects (jet s)) b !! k) → k ∈ names);
  (** A message that was sent may or may not have been stored. *)
  publish_law subject p s :
    let '(_, s') := publish subject p s in
    jet s' = jet s ∨ jet s' = (jet s) <| j_messages ::= λ l, l ++ [(subject, p)] |>;
  (** A consumer sees messages of its subject in their order; it may miss some. *)
  consume_law stream subject s items : consume stream subject s = Ok (Ok items) →
    sublist (omap (λ r, match r with Ok p => Some p | Err _ => None end) items)
      (List.filter (λ m, String.eqb m.1 subject) (j_messages (jet s))).*2;
}.
