(* ===== verification/NatsClient.v ===== *)
(** * The NATS client: bootstrap, handles, listing

    persistence-nats/src/client.rs: the retention settings, the streams and buckets
    that must exist before the server starts, the cache of bucket handles, and the
    listing of a bucket.  Messages for the log are left out. *)

From stdpp Require Import base list gmap strings pretty.
From S2P Require Import Prelude Text Domain JetStream.
Local Open Scope rust_scope.

(** ** Resources and settings *)

Definition HISTORY_STREAM : string := "WORKFLOW_HISTORY".
Definition HISTORY_SUBJECTS : list string := ["history.instance.*"].
Definition KV_BUCKETS : list (string * string) := [
  ("definition_collections", "Atomic version-pinned collection deployment commits");
  ("tokens", "Token state per process instance (JSON)");
  ("instances", "ProcessInstance state (JSON)");
  ("definitions", "ProcessDefinition metadata (JSON)");
  ("user_tasks", "PendingUserTask objects (JSON)");
  ("service_tasks", "PendingServiceTask objects (JSON)");
  ("timers", "PendingTimer objects (JSON)");
  ("messages", "PendingMessageCatch objects (JSON)");
  ("pending_signal_catches", "PendingSignalCatch objects (JSON)");
  ("pending_conditional_catches", "PendingConditionalCatch objects (JSON)");
  ("history_instances", "Archived completed ProcessInstance objects (JSON)")].
Definition OBJECT_STORES : list (string * string) := [
  ("bpmn_xml", "Original BPMN 2.0 XML artifacts");
  ("instance_files", "Binary file attachments for process instance variables")].

Definition DEFAULT_EVENT_RETENTION_DAYS : N := 7.
Definition DEFAULT_HISTORY_RETENTION_DAYS : N := 30.
Definition DEFAULT_STREAM_MAX_BYTES : Z := 1024 * 1024 * 1024.
Definition DEFAULT_STREAM_REPLICAS : N := 1.
Definition MAX_STREAM_REPLICAS : N := 5.
Definition SECONDS_PER_DAY : N := 86400.

Record RetentionConfig := mkRetention {
  event_retention_days : N;
  history_retention_days : N;
  max_bytes : Z;
  replicas : N;
}.

Definition parse_days (raw : option string) (default_days : N) : N :=
  match raw with
  | None => default_days
  | Some raw => default default_days (parse_u64 (trim_str raw))
  end.
Definition parse_max_bytes (raw : option string) : Z :=
  match raw with
  | None => DEFAULT_STREAM_MAX_BYTES
  | Some raw =>
    match parse_i64 (trim_str raw) with
    | Some bytes => if (0 <=? bytes)%Z then bytes else DEFAULT_STREAM_MAX_BYTES
    | None => DEFAULT_STREAM_MAX_BYTES
    end
  end.
Definition parse_replicas (raw : option string) : N :=
  match raw with
  | None => DEFAULT_STREAM_REPLICAS
  | Some raw =>
    match parse_u64 (trim_str raw) with
    | None | Some 0%N => DEFAULT_STREAM_REPLICAS
    | Some replicas => if (MAX_STREAM_REPLICAS <? replicas)%N then MAX_STREAM_REPLICAS else replicas
    end
  end.
(** [RetentionConfig::parse]; [from_env] gives it the four variables. *)
Definition retention_parse (event_days history_days max_bytes replicas : option string) : RetentionConfig :=
  mkRetention (parse_days event_days DEFAULT_EVENT_RETENTION_DAYS)
    (parse_days history_days DEFAULT_HISTORY_RETENTION_DAYS) (parse_max_bytes max_bytes) (parse_replicas replicas).

(** [Duration::from_secs(days.saturating_mul(SECONDS_PER_DAY))]. *)
Definition days_duration (days : N) : Duration := (Z.of_N (N.min (days * SECONDS_PER_DAY) u64_max) * 1000000000)%Z.
Definition event_max_age (r : RetentionConfig) : Duration := days_duration (event_retention_days r).
Definition history_max_age (r : RetentionConfig) : Duration := days_duration (history_retention_days r).

(** Whatever the environment says, the settings are ones JetStream takes: one to
    five replicas, no negative size, an age within 64-bit seconds. *)
Lemma retention_in_range e h m r :
  let c := retention_parse e h m r in
  (1 ≤ replicas c ≤ 5)%N ∧ (0 ≤ max_bytes c < 2 ^ 63)%Z ∧
  (0 ≤ event_max_age c ≤ Z.of_N u64_max * 1000000000)%Z ∧ (0 ≤ history_max_age c ≤ Z.of_N u64_max * 1000000000)%Z.
Proof.
  assert (1 ≤ parse_replicas r ≤ 5)%N as [Hr1 Hr2].
  { destruct r as [r|]; [|done]. unfold parse_replicas. destruct (parse_u64 _) as [[|n]|]; [done| |done].
    destruct (N.ltb_spec MAX_STREAM_REPLICAS (N.pos n)); unfold MAX_STREAM_REPLICAS in *; lia. }
  unfold event_max_age, history_max_age, days_duration, u64_max. simpl. split_and!; try lia.
  - unfold parse_max_bytes, DEFAULT_STREAM_MAX_BYTES. destruct m; [|lia]. destruct (parse_i64 _); [case_match|]; lia.
  - unfold parse_max_bytes, DEFAULT_STREAM_MAX_BYTES. destruct m as [m|]; [|done].
    destruct (parse_i64 _) as [b|] eqn:Hb; [|done]. apply parse_i64_bound in Hb. case_match; lia.
Qed.

(** ** Handles *)

(** The cells of the buckets created at connect; other names are never cached. *)
Definition BucketHandles (T : Type) : Type := gmap string (option T).
Definition handles_new {T} (names : list string) : BucketHandles T := list_to_map ((λ name, (name, None)) <$> names).
Definition get_or_fetch {T E} (h : BucketHandles T) (bucket : string) (fetch : result E T)
    : result E T * BucketHandles T :=
  match h !! bucket with
  | Some (Some handle) => (Ok handle, h)
  | Some None =>
    match fetch with
    | Ok handle => (Ok handle, <[bucket := Some handle]> h)
    | Err e => (Err e, h)
    end
  | None => (fetch, h)
  end.
(** The cell of a bucket holds the handle of that bucket: whether it is there is all
    that matters. *)
Record HandleCache := mkHandles { hc_kv : BucketHandles unit; hc_object_stores : BucketHandles unit }.
Definition handle_cache_new : HandleCache := mkHandles (handles_new KV_BUCKETS.*1) (handles_new OBJECT_STORES.*1).

(** ** The bootstrap *)

Record BootstrapReport := mkReport { created : list string; existing : list string; updated : list string }.
#[export] Instance BootstrapReport_settable : Settable BootstrapReport := λ r, mkReport (created r) (existing r) (updated r).
Definition report_summary (r : BootstrapReport) : string :=
  pretty (length (existing r)) +:+ " vorhanden, " +:+ pretty (length (created r)) +:+ " angelegt, "
  +:+ pretty (length (updated r)) +:+ " aktualisiert".

Definition bootstrap_error (resource err : string) : EngineError :=
  PersistenceError ("JetStream bootstrap failed for " +:+ resource +:+ ": " +:+ err).
Definition is_stream_not_found (err : GetStreamError) : bool :=
  match ge_kind err with
  | GetJetStream code kind => (code =? 404)%N || match kind with STREAM_NOT_FOUND => true | _ => false end
  | GetStreamOther => false
  end.
Definition stream_exists_kind (kind : CreateStreamErrorKind) : bool :=
  match kind with CreateJetStream STREAM_NAME_EXIST => true | _ => false end.
Definition is_stream_exists (err : CreateStreamError) : bool := stream_exists_kind (ce_kind err).
(** The first stream error in the chain of sources decides. *)
Fixpoint conflict_in (sources : list ErrorSource) : bool :=
  match sources with
  | [] => false
  | SourceStream kind :: _ => stream_exists_kind kind
  | SourceOther :: sources => conflict_in sources
  end.
Definition create_conflict (err : CreateBucketError) : bool := conflict_in (be_sources err).

Section client.
  Context {S : Type} {J : JetStream S}.

Definition workflow_stream_config (name : string) (subjects : list string) (max_age : Duration) (r : RetentionConfig)
    : StreamConfig StreamOptions :=
  mkStreamConfig name subjects max_age (max_bytes r) (replicas r) default_options.

(** The retention fields of [desired], and whether one of them differed. *)
Definition apply_retention (config desired : StreamConfig StreamOptions) : bool * StreamConfig StreamOptions :=
  let changed := negb (bool_decide (cfg_max_age config = cfg_max_age desired))
    || negb (bool_decide (cfg_max_bytes config = cfg_max_bytes desired))
    || negb (bool_decide (cfg_num_replicas config = cfg_num_replicas desired)) in
  (changed,
   if changed then
     mkStreamConfig (cfg_name config) (cfg_subjects config) (cfg_max_age desired) (cfg_max_bytes desired)
       (cfg_num_replicas desired) (cfg_others config)
   else config).

(** The bootstrap changes the server and fills the report. *)
Notation Boot := (Io (S * BootstrapReport)).
Definition on_server {E A} (f : E → EngineError) (c : Call S E A) : Boot A := λ '(s, r),
  let '(a, s) := c s in (map_err f a, (s, r)).
Definition note (f : BootstrapReport → BootstrapReport) : Boot unit := λ '(s, r), (Ok tt, (s, f r)).

Definition reconcile_stream (found desired : StreamConfig StreamOptions) : Boot unit :=
  let name := cfg_name desired in
  let '(changed, config) := apply_retention found desired in
  if changed then
    _ ← on_server (bootstrap_error ("stream '" +:+ name +:+ "'")) (update_stream config);
    note (λ r, r <| updated ::= λ l, l ++ ["stream:" +:+ name] |>)
  else note (λ r, r <| existing ::= λ l, l ++ ["stream:" +:+ name] |>).

Definition ensure_stream (desired : StreamConfig StreamOptions) : Boot unit := λ sr,
  let name := cfg_name desired in
  let failed err := io_fail (bootstrap_error ("stream '" +:+ name +:+ "'") err) in
  match get_stream name sr.1 with
  | Ok found => reconcile_stream found desired sr
  | Err err =>
    if is_stream_not_found err then
      match create_stream desired sr.1 with
      | (Ok _, s) => note (λ r, r <| created ::= λ l, l ++ ["stream:" +:+ name] |>) (s, sr.2)
      | (Err err, s) =>
        if is_stream_exists err then
          match get_stream name s with
          | Ok found => reconcile_stream found desired (s, sr.2)
          | Err err => failed (ge_text err) (s, sr.2)
          end
        else failed (ce_text err) (s, sr.2)
      end
    else failed (ge_text err) sr
  end.

(** [ensure_kv_bucket] and [ensure_object_store]: create, or find what is there. *)
Definition ensure_bucket (kind label : string) (create : string → string → Call S CreateBucketError unit)
    (get : string → S → result string unit) (bucket description : string) : Boot unit := λ sr,
  match create bucket description sr.1 with
  | (Ok _, s) => note (λ r, r <| created ::= λ l, l ++ [kind +:+ ":" +:+ bucket] |>) (s, sr.2)
  | (Err err, s) =>
    let failed err := io_fail (bootstrap_error (label +:+ " '" +:+ bucket +:+ "'") err) in
    if create_conflict err then
      match get bucket s with
      | Ok _ => note (λ r, r <| existing ::= λ l, l ++ [kind +:+ ":" +:+ bucket] |>) (s, sr.2)
      | Err err => failed err (s, sr.2)
      end
    else failed (be_text err) (s, sr.2)
  end.
Definition ensure_kv_bucket : string → string → Boot unit := ensure_bucket "kv" "KV bucket" create_key_value get_key_value.
Definition ensure_object_store : string → string → Boot unit :=
  ensure_bucket "object_store" "object store" create_object_store get_object_store.

Record NatsPersistence := mkNats {
  n_js : S;
  n_bootstrap : BootstrapReport;
  n_handles : HandleCache;
}.

(** The calls of [connect] on a connection. *)
Definition bootstrap (stream_name : string) (retention : RetentionConfig) : Boot unit :=
  _ ← ensure_stream (workflow_stream_config stream_name [stream_name +:+ ".*"] (event_max_age retention) retention);
  _ ← io_for (λ '(bucket, description), ensure_object_store bucket description) OBJECT_STORES;
  _ ← io_for (λ '(bucket, description), ensure_kv_bucket bucket description) KV_BUCKETS;
  ensure_stream (workflow_stream_config HISTORY_STREAM HISTORY_SUBJECTS (history_max_age retention) retention).
Definition connect (client : result string S) (stream_name : string) (retention : RetentionConfig)
    : EngineResult NatsPersistence :=
  s ←? map_err (λ e, PersistenceError ("Failed to connect to NATS: " +:+ e)) client;
  match bootstrap stream_name retention (s, mkReport [] [] []) with
  | (Ok _, (s, report)) => Ok (mkNats s report handle_cache_new)
  | (Err e, _) => Err e
  end.

(** ** Reading and writing *)

Definition js_step {A} (f : S → EngineResult A * S) : Io NatsPersistence A := λ n,
  let '(a, s) := f (n_js n) in (a, mkNats s (n_bootstrap n) (n_handles n)).
Definition on_js {E A} (f : E → EngineError) (c : Call S E A) : Io NatsPersistence A :=
  js_step (λ s, let '(a, s) := c s in (map_err f a, s)).
Definition read_js {A} (f : S → EngineResult A) : Io NatsPersistence A := io_read (λ n, f (n_js n)).

(** A handle is the name of its bucket. *)
Definition kv (bucket : string) : Io NatsPersistence string := λ n,
  let fetch := map_err (λ e, PersistenceError ("Failed to get " +:+ bucket +:+ " KV: " +:+ e))
                 (get_key_value bucket (n_js n)) in
  let '(r, h) := get_or_fetch (hc_kv (n_handles n)) bucket fetch in
  (_ ←? r; Ok bucket, mkNats (n_js n) (n_bootstrap n) (mkHandles h (hc_object_stores (n_handles n)))).
Definition object_store (bucket : string) : Io NatsPersistence string := λ n,
  let fetch := map_err (λ e, PersistenceError ("Failed to get " +:+ bucket +:+ " Object Store: " +:+ e))
                 (get_object_store bucket (n_js n)) in
  let '(r, h) := get_or_fetch (hc_object_stores (n_handles n)) bucket fetch in
  (_ ←? r; Ok bucket, mkNats (n_js n) (n_bootstrap n) (mkHandles (hc_kv (n_handles n)) h)).

(** A key of the listing: entries that cannot be read are skipped. *)
Definition listed_entry {A} (from_slice : Payload → result string A) (store : string) (s : S) (key : result string string)
    : option A :=
  match key with
  | Ok key =>
    match kv_get store key s with
    | Ok (Some entry) => match from_slice entry with Ok item => Some item | Err _ => None end
    | Ok None | Err _ => None
    end
  | Err _ => None
  end.
Definition list_kv_entries {A} (from_slice : Payload → result string A) (bucket entity_name : string)
    : Io NatsPersistence (list A) :=
  store ← kv bucket;
  read_js (λ s,
    keys ←? map_err (λ e, PersistenceError ("Failed to list " +:+ entity_name +:+ " keys: " +:+ e)) (kv_keys store s);
    Ok (omap (listed_entry from_slice store s) keys)).

(** ** What the bootstrap guarantees *)

(** A second application changes nothing; name, subjects and the other settings of a
    stream that is there are kept. *)
Lemma apply_retention_settles config desired :
  let config' := (apply_retention config desired).2 in
  apply_retention config' desired = (false, config') ∧ cfg_max_age config' = cfg_max_age desired ∧
  cfg_max_bytes config' = cfg_max_bytes desired ∧ cfg_num_replicas config' = cfg_num_replicas desired ∧
  cfg_name config' = cfg_name config ∧ cfg_subjects config' = cfg_subjects config ∧ cfg_others config' = cfg_others config.
Proof.
  cbn zeta. destruct (apply_retention config desired) as [changed config'] eqn:Ha. cbn [snd]. unfold apply_retention in Ha.
  destruct (negb (bool_decide (cfg_max_age config = _)) || _ || _) eqn:H; simplify_eq.
  - unfold apply_retention. cbn. rewrite !bool_decide_eq_true_2 by done. by split_and!.
  - unfold apply_retention. rewrite H. rewrite !orb_false_iff, !negb_false_iff, !bool_decide_eq_true in H. destruct H as [[? ?] ?]. by split_and!.
Qed.

Definition reported (r : BootstrapReport) : list string := created r ++ existing r ++ updated r.
(** A step that succeeds reports exactly one resource. *)
Definition reports (x : string) (m : Boot unit) : Prop :=
  ∀ s r s' r', m (s, r) = (Ok tt, (s', r')) → reported r' ≡ₚ reported r ++ [x].

Lemma note_created x : reports x (note (λ r, r <| created ::= λ l, l ++ [x] |>)).
Proof.
  intros s r s' r' [= <- <-]. unfold reported. cbn. rewrite <- !app_assoc. apply Permutation_app_head.
  rewrite (app_assoc (existing r)). apply Permutation_app_comm.
Qed.
Lemma note_existing x : reports x (note (λ r, r <| existing ::= λ l, l ++ [x] |>)).
Proof.
  intros s r s' r' [= <- <-]. unfold reported. cbn. rewrite <- !app_assoc. do 2 apply Permutation_app_head.
  apply Permutation_app_comm.
Qed.
Lemma note_updated x : reports x (note (λ r, r <| updated ::= λ l, l ++ [x] |>)).
Proof. intros s r s' r' [= <- <-]. unfold reported. cbn. by rewrite <- !app_assoc. Qed.

Lemma reconcile_reports found desired : reports ("stream:" +:+ cfg_name desired) (reconcile_stream found desired).
Proof.
  intros s r s' r'. unfold reconcile_stream. destruct (apply_retention found desired) as [[] config]; [|apply note_existing].
  unfold mbind, Io_bind, on_server. destruct (update_stream config s) as [[[]|e] s1]; cbn -[note]; [|done]. apply note_updated.
Qed.
Lemma ensure_stream_reports desired : reports ("stream:" +:+ cfg_name desired) (ensure_stream desired).
Proof.
  intros s r s' r'. unfold ensure_stream. cbn [fst snd]. destruct (get_stream _ s) as [found|err]; [apply reconcile_reports|].
  destruct (is_stream_not_found err); [|done]. destruct (create_stream desired s) as [[[]|err'] s1]; [apply note_created|].
  destruct (is_stream_exists err'); [|done]. destruct (get_stream _ s1) as [found|err'']; [apply reconcile_reports|done].
Qed.
Lemma ensure_bucket_reports kind label create get b d : reports (kind +:+ ":" +:+ b) (ensure_bucket kind label create get b d).
Proof.
  intros s r s' r'. unfold ensure_bucket. cbn [fst snd]. destruct (create b d s) as [[[]|err] s1]; [apply note_created|].
  destruct (create_conflict err); [|done]. destruct (get b s1) as [[]|e]; [apply note_existing|done].
Qed.
Lemma bind_reports x xs (m : Boot unit) (k : Boot unit) s r s' r' :
  reports x m → (∀ s r, k (s, r) = (Ok tt, (s', r')) → reported r' ≡ₚ reported r ++ xs) →
  (_ ← m; k) (s, r) = (Ok tt, (s', r')) → reported r' ≡ₚ reported r ++ x :: xs.
Proof.
  intros Hm Hk. unfold mbind, Io_bind. destruct (m (s, r)) as [[[]|e] [s1 r1]] eqn:Hrun; [|done]. intros H.
  rewrite (Hk _ _ H), (Hm _ _ _ _ Hrun). by rewrite <- app_assoc.
Qed.
Lemma io_for_reports {A} (name : A → string) (f : A → Boot unit) l xs (k : Boot unit) s r s' r' :
  (∀ a, reports (name a) (f a)) → (∀ s r, k (s, r) = (Ok tt, (s', r')) → reported r' ≡ₚ reported r ++ xs) →
  (_ ← io_for f l; k) (s, r) = (Ok tt, (s', r')) → reported r' ≡ₚ reported r ++ (name <$> l) ++ xs.
Proof.
  intros Hf Hk. revert s r. induction l as [|a l IH]; intros s r; [apply Hk|]. cbn [io_for fmap list_fmap app].
  intros H. apply (bind_reports _ _ (f a) (_ ← io_for f l; k) s r s' r'); [apply Hf|exact IH|].
  revert H. unfold mbind, Io_bind. by destruct (f a (s, r)) as [[[]|e] [s1 r1]].
Qed.

(** Fail closed: a bootstrap that succeeds has found or made every resource, and
    reports each of them once. *)
Lemma bootstrap_reports stream_name retention s s' r :
  bootstrap stream_name retention (s, mkReport [] [] []) = (Ok tt, (s', r)) →
  reported r ≡ₚ ("stream:" +:+ stream_name) :: ((λ b, "object_store:" +:+ b) <$> OBJECT_STORES.*1)
    ++ ((λ b, "kv:" +:+ b) <$> KV_BUCKETS.*1) ++ ["stream:" +:+ HISTORY_STREAM].
Proof.
  unfold bootstrap. intros H. rewrite <- !list_fmap_compose. change (reported r ≡ₚ reported (mkReport [] [] []) ++
    ("stream:" +:+ stream_name) :: ((λ bd : string * string, "object_store:" +:+ bd.1) <$> OBJECT_STORES)
    ++ ((λ bd : string * string, "kv:" +:+ bd.1) <$> KV_BUCKETS) ++ ["stream:" +:+ HISTORY_STREAM]).
  eapply bind_reports; [| |exact H].
  { apply (ensure_stream_reports (workflow_stream_config stream_name [stream_name +:+ ".*"] (event_max_age retention) retention)). }
  clear H. intros s1 r1. apply (io_for_reports (λ bd : string * string, "object_store:" +:+ bd.1)).
  { intros [b d]. apply ensure_bucket_reports. }
  clear. intros s1 r1. apply (io_for_reports (λ bd : string * string, "kv:" +:+ bd.1)).
  { intros [b d]. apply ensure_bucket_reports. }
  clear. intros s1 r1. apply (ensure_stream_reports (workflow_stream_config HISTORY_STREAM HISTORY_SUBJECTS
    (history_max_age retention) retention)).
Qed.
End client.
Arguments NatsPersistence : clear implicits.
