(* ===== verification/NatsStore.v ===== *)
(** * The NATS store

    persistence-nats/src/trait_impl.rs: the persistence port on JetStream.  Records
    are JSON in key-value buckets under the text of their id, XML texts and files
    are objects, the history is a stream.  Writing and reading the JSON of a record
    is serde's work, the operations of the class [Serialize].  At the end the monitoring
    of the store ([get_storage_info], [get_bucket_entries], [get_bucket_entry_detail])
    and the port they complete. *)

From Stdlib Require Import Ascii.
From stdpp Require Import base list gmap strings pretty sorting.
From S2P Require Import Prelude Text Json Domain Token ProcessDef MessageRouting Runtime History Persistence JetStream NatsClient.
Local Open Scope rust_scope.

Class Serialize (P A : Type) := {
  to_vec : A → result string P;
  from_slice : P → result string A;
}.

(** The records the store writes. *)
Class Records (P : Type) := {
  #[export] json_token :: Serialize P Token;
  #[export] json_instance :: Serialize P ProcessInstance;
  #[export] json_definition :: Serialize P ProcessDefinition;
  #[export] json_collection :: Serialize P DefinitionCollection;
  #[export] json_user_task :: Serialize P PendingUserTask;
  #[export] json_service_task :: Serialize P PendingServiceTask;
  #[export] json_timer :: Serialize P PendingTimer;
  #[export] json_message :: Serialize P PendingMessageCatch;
  #[export] json_signal :: Serialize P PendingSignalCatch;
  #[export] json_conditional :: Serialize P PendingConditionalCatch;
  #[export] json_history :: Serialize P HistoryEntry;
}.

Definition storage_error (text e : string) : EngineError := PersistenceError (text +:+ ": " +:+ e).

Section store.
  Context {S : Type} {J : JetStream S}.
  Notation Nats := (NatsPersistence S).

(** ** Records *)

(** The body of every [save_*] and [delete_*] of a record: the bucket, what it
    holds, the key. *)
Definition put_record {A} `{Serialize Payload A} (bucket what key : string) (a : A) : Io Nats unit :=
  store ← kv bucket;
  json ← io_lift (map_err (storage_error ("Failed to serialize " +:+ what)) (to_vec a));
  _ ← on_js (storage_error ("Failed to put " +:+ what +:+ " to KV")) (kv_put store key json);
  mret tt.
Definition delete_record (bucket what key : string) : Io Nats unit :=
  store ← kv bucket;
  on_js (storage_error ("Failed to delete " +:+ what +:+ " from KV")) (kv_delete store key).

Context {R : Records Payload}.

Definition nats_save_token (instance_id : Uuid) (t : Token) : Io Nats unit :=
  put_record "tokens" "token" (token_key instance_id (tok_id t)) t.
Definition nats_load_tokens (instance_id : Uuid) : Io Nats (list Token) :=
  let prefix := "token-" +:+ pretty instance_id +:+ "-" in
  store ← kv "tokens";
  read_js (λ s,
    keys ←? map_err (storage_error "Failed to list token keys") (kv_keys store s);
    Ok (omap (λ key, match key with
          | Ok k => if starts_with prefix k then listed_entry from_slice store s key else None
          | Err _ => None
          end) keys)).
Definition nats_delete_token (instance_id token_id : Uuid) : Io Nats unit :=
  delete_record "tokens" "token" (token_key instance_id token_id).

Definition nats_save_instance (i : ProcessInstance) : Io Nats unit := put_record "instances" "instance" (pretty (pi_id i)) i.
Definition nats_list_instances : Io Nats (list ProcessInstance) := list_kv_entries from_slice "instances" "instance".
Definition nats_delete_instance (id : string) : Io Nats unit := delete_record "instances" "instance" id.

Definition nats_save_definition (d : ProcessDefinition) : Io Nats unit :=
  put_record "definitions" "definition" (pretty (def_key d)) d.
Definition nats_list_definitions : Io Nats (list ProcessDefinition) := list_kv_entries from_slice "definitions" "definition".

Definition nats_save_user_task (p : PendingUserTask) : Io Nats unit := put_record "user_tasks" "user task" (pretty (ut_task_id p)) p.
Definition nats_delete_user_task (id : Uuid) : Io Nats unit := delete_record "user_tasks" "user task" (pretty id).
Definition nats_list_user_tasks : Io Nats (list PendingUserTask) := list_kv_entries from_slice "user_tasks" "user task".
Definition nats_save_service_task (p : PendingServiceTask) : Io Nats unit :=
  put_record "service_tasks" "service task" (pretty (st_id p)) p.
Definition nats_delete_service_task (id : Uuid) : Io Nats unit := delete_record "service_tasks" "service task" (pretty id).
Definition nats_list_service_tasks : Io Nats (list PendingServiceTask) :=
  list_kv_entries from_slice "service_tasks" "service task".
Definition nats_save_timer (p : PendingTimer) : Io Nats unit := put_record "timers" "timer" (pretty (pt_id p)) p.
Definition nats_delete_timer (id : Uuid) : Io Nats unit := delete_record "timers" "timer" (pretty id).
Definition nats_list_timers : Io Nats (list PendingTimer) := list_kv_entries from_slice "timers" "timer".
Definition nats_save_message_catch (p : PendingMessageCatch) : Io Nats unit :=
  put_record "messages" "message catch" (pretty (mc_id p)) p.
Definition nats_delete_message_catch (id : Uuid) : Io Nats unit := delete_record "messages" "message catch" (pretty id).
Definition nats_list_message_catches : Io Nats (list PendingMessageCatch) :=
  list_kv_entries from_slice "messages" "message catch".
Definition nats_save_signal_catch (p : PendingSignalCatch) : Io Nats unit :=
  put_record "pending_signal_catches" "signal catch" (pretty (sc_id p)) p.
Definition nats_delete_signal_catch (id : Uuid) : Io Nats unit :=
  delete_record "pending_signal_catches" "signal catch" (pretty id).
Definition nats_list_signal_catches : Io Nats (list PendingSignalCatch) :=
  list_kv_entries from_slice "pending_signal_catches" "signal catch".
Definition nats_save_conditional_catch (p : PendingConditionalCatch) : Io Nats unit :=
  put_record "pending_conditional_catches" "conditional catch" (pretty (cc_id p)) p.
Definition nats_delete_conditional_catch (id : Uuid) : Io Nats unit :=
  delete_record "pending_conditional_catches" "conditional catch" (pretty id).
Definition nats_list_conditional_catches : Io Nats (list PendingConditionalCatch) :=
  list_kv_entries from_slice "pending_conditional_catches" "conditional catch".

(** ** Collections *)

Definition nats_save_definition_collection (c : DefinitionCollection) : Io Nats unit :=
  store ← kv "definition_collections";
  data ← io_lift (map_err PersistenceError (to_vec c));
  _ ← on_js (storage_error "Collection commit failed") (kv_create store (pretty (dc_id c)) data);
  mret tt.

(** One key of the listing; unlike [list_kv_entries], an entry that cannot be read
    is an error. *)
Definition collection_entry (store : string) (s : S) (entries : list DefinitionCollection) (key : result string string)
    : EngineResult (list DefinitionCollection) :=
  key ←? map_err (storage_error "Failed to stream definition collection key") key;
  bytes ←? map_err (storage_error ("Failed to read definition collection '" +:+ key +:+ "'")) (kv_get store key s);
  match bytes with
  | None => Ok entries
  | Some bytes =>
    c ←? map_err (storage_error ("Corrupt definition collection '" +:+ key +:+ "'")) (from_slice bytes);
    Ok (entries ++ [c])
  end.
Definition nats_list_definition_collections : Io Nats (list DefinitionCollection) :=
  store ← kv "definition_collections";
  read_js (λ s,
    keys ←? map_err (storage_error "Failed to list definition collection keys") (kv_keys store s);
    try_fold (collection_entry store s) [] keys).

Definition has_member (key : string) (c : DefinitionCollection) : bool :=
  existsb (λ d, String.eqb (pretty (def_key d)) key) (dc_definitions c).
Definition with_deleted (id : Uuid) (c : DefinitionCollection) : DefinitionCollection :=
  mkCollection (dc_id c) (dc_definitions c) (dc_xml c) (dc_collaborations c) (dc_deleted c ++ [id]).

(** One turn of the loop that marks a member deleted: read the current revision,
    replace exactly that one.  [others] is what other servers do to JetStream
    between the read and the write.  [None]: another turn. *)
Definition mark_turn (others : S → S) (store : string) (collection_id : string) (id : Uuid) : Io Nats (option unit) :=
  entry ← read_js (λ s,
    o ←? map_err PersistenceError (kv_entry store collection_id s);
    ok_or (PersistenceError "Missing collection commit") o);
  current ← io_lift (map_err PersistenceError (from_slice entry.1));
  if existsb (λ k, bool_decide (k = id)) (dc_deleted current) then mret (Some tt)
  else
    data ← io_lift (map_err PersistenceError (to_vec (with_deleted id current)));
    js_step (λ s,
      match kv_update store collection_id data entry.2 (others s) with
      | (Ok _, s) => (Ok (Some tt), s)
      | (Err (WrongLastRevision _), s) => (Ok None, s)
      | (Err (UpdateFailed err), s) => (Err (PersistenceError err), s)
      end).
(** The loop; [None] when [turns] turns were not enough. *)
Fixpoint mark_loop (others : nat → S → S) (turns : nat) (store : string) (collection_id : string) (id : Uuid)
    : Io Nats (option unit) :=
  match turns with
  | 0 => mret None
  | Datatypes.S turns =>
    done ← mark_turn (others turns) store collection_id id;
    match done with Some _ => mret (Some tt) | None => mark_loop others turns store collection_id id end
  end.

Context {T : UuidText}.

(** [delete_definition]: a member of a collection is marked in it, any other
    definition and its XML are deleted. *)
Definition nats_delete_definition (others : nat → S → S) (turns : nat) (key : string) : Io Nats (option unit) :=
  collections ← kv "definition_collections";
  all ← nats_list_definition_collections;
  match List.find (has_member key) all with
  | Some collection =>
    id ← io_lift (map_err PersistenceError (parse_uuid key));
    mark_loop others turns collections (pretty (dc_id collection)) id
  | None =>
    _ ← delete_record "definitions" "definition" key;
    obj_store ← object_store "bpmn_xml";
    js_step (λ s, (Ok (Some tt), (obj_delete obj_store key s).2))
  end.

(** ** Files and XML *)

Definition MAX_FILE_SIZE : N := 50 * 1024 * 1024.
Definition nats_save_file (object_key : string) (data : list Byte.byte) : Io Nats unit :=
  if (MAX_FILE_SIZE <? N.of_nat (length data))%N then
    io_fail (InvalidDefinition ("File exceeds maximum size of 50 MB (" +:+ pretty (length data) +:+ " bytes)"))
  else
    store ← object_store "instance_files";
    on_js (storage_error "Failed to save file") (obj_put store object_key data).
Definition nats_load_file (object_key : string) : Io Nats (list Byte.byte) :=
  store ← object_store "instance_files";
  read_js (λ s,
    data ←? map_err (storage_error ("Failed to load file '" +:+ object_key +:+ "'")) (obj_get store object_key s);
    map_err (storage_error "Error reading file data") data).
(** The answer of the store is ignored. *)
Definition nats_delete_file (object_key : string) : Io Nats unit :=
  store ← object_store "instance_files";
  js_step (λ s, (Ok tt, (obj_delete store object_key s).2)).

Definition nats_save_bpmn_xml (definition_id xml : string) : Io Nats unit :=
  store ← object_store "bpmn_xml";
  on_js (storage_error "Failed to store BPMN XML") (obj_put store definition_id (as_bytes xml)).
Definition offers (definition_id : string) (c : DefinitionCollection) : bool :=
  existsb (λ d, String.eqb (pretty (def_key d)) definition_id
                && negb (existsb (λ k, bool_decide (k = def_key d)) (dc_deleted c))) (dc_definitions c).
Definition nats_load_bpmn_xml (definition_id : string) : Io Nats string :=
  all ← nats_list_definition_collections;
  match List.find (offers definition_id) all with
  | Some c => mret (dc_xml c)
  | None =>
    store ← object_store "bpmn_xml";
    read_js (λ s,
      data ←? map_err (storage_error ("Failed to load BPMN XML for '" +:+ definition_id +:+ "'")) (obj_get store definition_id s);
      data ←? map_err (storage_error "Error reading XML data") data;
      ok_or (PersistenceError "BPMN XML is not valid UTF-8") (from_utf8 data))
  end.
Definition nats_list_bpmn_xml_ids : Io Nats (list string) :=
  store ← object_store "bpmn_xml";
  read_js (λ s,
    items ←? map_err (storage_error "Failed to list bpmn_xml objects") (obj_list store s);
    Ok (omap (λ r, match r with Ok info => Some (oi_name info) | Err _ => None end) items)).

(** ** History and archive *)

Definition history_subject (instance_id : Uuid) : string := "history.instance." +:+ pretty instance_id.
Definition nats_append_history_entry (x : HistoryEntry) : Io Nats unit :=
  payload ← io_lift (map_err (storage_error "Failed to serialize history entry") (to_vec x));
  on_js (storage_error "Failed to publish history entry to JetStream") (publish (history_subject (he_instance_id x)) payload).

(** A message that is a readable entry. *)
Definition read_entry (m : result string Payload) : option HistoryEntry :=
  match m with
  | Ok payload => match from_slice payload with Ok x => Some x | Err _ => None end
  | Err _ => None
  end.
Definition nats_query_history (q : HistoryQuery) : Io Nats (list HistoryEntry) :=
  read_js (λ s,
    _ ←? map_err (λ e, storage_error "Failed to get WORKFLOW_HISTORY stream" (ge_text e)) (get_stream "WORKFLOW_HISTORY" s);
    messages ←? map_err (storage_error "Failed to create history consumer")
                  (consume "WORKFLOW_HISTORY" (history_subject (hq_instance_id q)) s);
    items ←? map_err (storage_error "Message stream error") messages;
    let entries := sort_by history_lt (List.filter (history_matches q) (omap read_entry items)) in
    let offset := default 0 (hq_offset q) in
    let limit := default (length entries) (hq_limit q) in
    Ok (take limit (drop offset entries))).

Definition nats_save_completed_instance (i : ProcessInstance) : Io Nats unit :=
  put_record "history_instances" "completed instance" (pretty (pi_id i)) i.
Definition nats_query_completed_instances (q : CompletedInstanceQuery) : Io Nats (list ProcessInstance) :=
  all ← list_kv_entries from_slice "history_instances" "completed_instance";
  mret (page_of (cq_offset q) (cq_limit q) (sort_by completed_lt (List.filter (completed_matches q) all))).
Definition nats_get_completed_instance (id : string) : Io Nats (option ProcessInstance) :=
  store ← kv "history_instances";
  read_js (λ s,
    match kv_get store id s with
    | Ok (Some data) =>
      i ←? map_err (storage_error "Failed to deserialize completed instance") (from_slice data);
      Ok (Some i)
    | Ok None => Ok None
    | Err e => Err (storage_error ("Failed to get completed instance " +:+ id) e)
    end).
End store.

(** ** Monitoring of the NATS store *)

Definition kv_bucket_names : list string :=
  ["instances"; "definitions"; "user_tasks"; "service_tasks"; "timers"; "messages"; "pending_signal_catches";
   "pending_conditional_catches"; "definition_collections"].
Definition obj_bucket_names : list string := ["bpmn_xml"; "instance_files"].
Definition stream_names : list string := ["WORKFLOW_EVENTS"; "WORKFLOW_HISTORY"].
Definition is_name (names : list string) (name : string) : bool := existsb (String.eqb name) names.

Section monitor.
  Context {S : Type} {J : JetStream S}.
  Notation Nats := (NatsPersistence S).

(** ** Sizes *)

(** What cannot be read is left out. *)
Definition kv_bucket_info (name : string) : Io Nats (list BucketInfo) := λ n,
  match kv name n with
  | (Ok store, n) =>
    (Ok match kv_status store (n_js n) with
        | Ok (values, bytes) => [mkBucket name "kv" (N.to_nat values) (N.to_nat bytes)]
        | Err _ => []
        end, n)
  | (Err _, n) => (Ok [], n)
  end.
Definition stream_bucket_info (bucket_type name stream : string) (s : S) : list BucketInfo :=
  match get_stream stream s with
  | Ok _ =>
    match stream_info stream s with
    | Ok info => [mkBucket name bucket_type (N.to_nat (ss_messages info)) (N.to_nat (ss_bytes info))]
    | Err _ => []
    end
  | Err _ => []
  end.
Fixpoint collect_infos (names : list string) : Io Nats (list BucketInfo) :=
  match names with
  | [] => mret []
  | name :: names => info ← kv_bucket_info name; infos ← collect_infos names; mret (info ++ infos)
  end.
Definition nats_get_storage_info : Io Nats (option StorageInfo) :=
  account ← read_js (λ s, map_err (storage_error "Failed to query JetStream account") (query_account s));
  si ← read_js (λ s, Ok (server_info s));
  kvs ← collect_infos kv_bucket_names;
  objects ← read_js (λ s, Ok (flat_map (λ name, stream_bucket_info "object_store" name ("OBJ_" +:+ name) s) obj_bucket_names));
  streams ← read_js (λ s, Ok (flat_map (λ name, stream_bucket_info "stream" name name s) stream_names));
  mret (Some (mkStorageInfo (sv_name si) (sv_version si) (sv_host si) (Z.of_N (sv_port si)) (N.to_nat (ac_memory account))
    (N.to_nat (ac_storage account)) (N.to_nat (ac_streams account)) (N.to_nat (ac_consumers account))
    (kvs ++ objects ++ streams))).

(** ** Browsing *)

(** [while let Some(Ok(x)) = stream.next()]: up to the first error. *)
Fixpoint until_error {A} (items : list (result string A)) : list A :=
  match items with Ok x :: items => x :: until_error items | _ => [] end.

Definition kv_browse_entry (now : DateTime) (store : string) (s : S) (key : string) : BucketEntry :=
  match kv_get store key s with
  | Ok (Some entry) => mkBucketEntry key (Some (payload_len entry)) (Some now)
  | _ => mkBucketEntry key None None
  end.
Definition object_entry (info : ObjectInfo) : BucketEntry :=
  mkBucketEntry (oi_name info) (Some (oi_size info)) (oi_modified info).
Definition name_lt (a b : ObjectInfo) : bool := String.ltb (oi_name a) (oi_name b).
(** The messages of a stream from a sequence number on; a number that cannot be
    read counts towards the limit. *)
Fixpoint raw_entries (now : DateTime) (stream : string) (s : S) (count : nat) (current last : N) : list BucketEntry :=
  match count with
  | 0 => []
  | Datatypes.S count =>
    if (current <=? last)%N then
      match get_raw_message stream current s with
      | Ok (payload, time) => [mkBucketEntry (pretty current) (Some (payload_len payload)) (Some (default now time))]
      | Err _ => []
      end ++ raw_entries now stream s count (current + 1) last
    else []
  end.
Definition saturating_add (a b : N) : N := N.min (a + b) u64_max.

Definition nats_get_bucket_entries (now : DateTime) (bucket_name : string) (offset limit : nat) : Io Nats (list BucketEntry) :=
  if is_name kv_bucket_names bucket_name then
    store ← kv bucket_name;
    read_js (λ s,
      keys ←? map_err (storage_error ("Failed to list KV keys for " +:+ bucket_name)) (kv_keys store s);
      let page := take limit (drop offset (sort_by String.ltb (until_error keys))) in
      Ok (kv_browse_entry now store s <$> page))
  else if is_name obj_bucket_names bucket_name then
    store ← object_store bucket_name;
    read_js (λ s,
      items ←? map_err (storage_error ("Failed to list Object Store " +:+ bucket_name)) (obj_list store s);
      Ok (object_entry <$> take limit (drop offset (sort_by name_lt (until_error items)))))
  else if is_name stream_names bucket_name then
    read_js (λ s,
      _ ←? map_err (λ e, storage_error ("Failed to get stream " +:+ bucket_name) (ge_text e)) (get_stream bucket_name s);
      info ←? map_err (storage_error "Failed to get stream info") (stream_info bucket_name s);
      Ok (raw_entries now bucket_name s limit (saturating_add (ss_first info) (N.of_nat offset)) (ss_last info)))
  else io_fail (PersistenceError ("Unknown bucket name: " +:+ bucket_name)).

Context (base64_encode : list Byte.byte → string).

Definition nats_get_bucket_entry_detail (bucket_name key : string) : Io Nats BucketEntryDetail :=
  if is_name kv_bucket_names bucket_name then
    store ← kv bucket_name;
    read_js (λ s,
      match kv_get store key s with
      | Ok (Some entry) => Ok (mkBucketDetail key (default "Binary Data" (payload_text entry)) "utf8")
      | _ => Err (PersistenceError ("Key " +:+ key +:+ " not found in KV " +:+ bucket_name))
      end)
  else if is_name obj_bucket_names bucket_name then
    store ← object_store bucket_name;
    read_js (λ s,
      data ←? map_err (storage_error ("Key " +:+ key +:+ " not found in Object Store " +:+ bucket_name)) (obj_get store key s);
      data ←? map_err (storage_error "Error reading object data") data;
      Ok (if String.eqb bucket_name "bpmn_xml" then mkBucketDetail key (default "Invalid UTF-8 XML" (from_utf8 data)) "utf8"
          else mkBucketDetail key (base64_encode data) "base64"))
  else if is_name stream_names bucket_name then
    read_js (λ s,
      _ ←? map_err (λ e, storage_error ("Failed to get stream " +:+ bucket_name) (ge_text e)) (get_stream bucket_name s);
      seq ←? ok_or (PersistenceError ("Invalid sequence ID " +:+ key)) (parse_u64 key);
      message ←? map_err (storage_error ("Sequence " +:+ key +:+ " not found in stream " +:+ bucket_name))
                   (get_raw_message bucket_name seq s);
      Ok (mkBucketDetail key (default "Binary Message" (payload_text message.1)) "utf8"))
  else io_fail (PersistenceError ("Unknown bucket name: " +:+ bucket_name)).

(** ** The port *)

Context {R : Records Payload}.
Context {T : UuidText} (now : DateTime).

(** The answer of a read; the handles it caches are not seen through the port. *)
Definition answered {A} (m : Io Nats A) : Read Nats A := λ n, (m n).1.
(** A deletion that nobody disturbs needs one turn ([NatsDelete.mark_turn_alone]). *)
Definition delete_alone (key : string) : Write Nats := λ n,
  match nats_delete_definition (λ _ s, s) 1 key n with
  | (Ok (Some _), n) => (Ok tt, n)
  | (Ok None, n) => (Err (PersistenceError ("another server changed the collection of " +:+ key)), n)
  | (Err e, n) => (Err e, n)
  end.

#[export] Instance NatsPersistence_port : WorkflowPersistence Nats := {
  save_token := nats_save_token;
  load_tokens i := answered (nats_load_tokens i);
  delete_token := nats_delete_token;
  save_instance := nats_save_instance;
  stored_instances := answered nats_list_instances;
  delete_stored_instance := nats_delete_instance;
  save_definition := nats_save_definition;
  stored_definitions := answered nats_list_definitions;
  delete_stored_definition := delete_alone;
  save_definition_collection := nats_save_definition_collection;
  list_definition_collections := answered nats_list_definition_collections;
  save_user_task := nats_save_user_task;
  delete_user_task := nats_delete_user_task;
  list_user_tasks := answered nats_list_user_tasks;
  save_service_task := nats_save_service_task;
  delete_service_task := nats_delete_service_task;
  list_service_tasks := answered nats_list_service_tasks;
  save_timer := nats_save_timer;
  delete_timer := nats_delete_timer;
  list_timers := answered nats_list_timers;
  save_message_catch := nats_save_message_catch;
  delete_message_catch := nats_delete_message_catch;
  list_message_catches := answered nats_list_message_catches;
  save_signal_catch := nats_save_signal_catch;
  delete_signal_catch := nats_delete_signal_catch;
  list_signal_catches := answered nats_list_signal_catches;
  save_conditional_catch := nats_save_conditional_catch;
  delete_conditional_catch := nats_delete_conditional_catch;
  list_conditional_catches := answered nats_list_conditional_catches;
  save_file := nats_save_file;
  load_file k := answered (nats_load_file k);
  delete_file := nats_delete_file;
  save_bpmn_xml := nats_save_bpmn_xml;
  load_bpmn_xml k := answered (nats_load_bpmn_xml k);
  list_bpmn_xml_ids := answered nats_list_bpmn_xml_ids;
  get_storage_info := answered nats_get_storage_info;
  append_history_entry := nats_append_history_entry;
  query_history q := answered (nats_query_history q);
  save_completed_instance := nats_save_completed_instance;
  query_completed_instances q := answered (nats_query_completed_instances q);
  get_completed_instance id := answered (nats_get_completed_instance id);
  get_bucket_entries b o l := answered (nats_get_bucket_entries now b o l);
  get_bucket_entry_detail b k := answered (nats_get_bucket_entry_detail b k);
}.
End monitor.
