(* ===== verification/NatsLaws.v ===== *)
(** * The NATS store implements the port

    The contents of JetStream are read as the contents of an in-memory store: a
    bucket holds the record of an id under the text of the id.  Every write of the
    NATS store then has the effect of the in-memory one.  At the end a server that never
    fails and whose messages are the records themselves, on which the theorems are
    evaluated. *)

From Stdlib Require Import Ascii.
From stdpp Require Import base list gmap strings pretty sorting.
From S2P Require Import Prelude Text Json Domain Token ProcessDef MessageRouting Runtime History Persistence JetStream NatsClient NatsStore.
Local Open Scope rust_scope.

(** serde reads back what it wrote. *)
Class Roundtrip (P A : Type) {C : Serialize P A} := from_to (a : A) p : to_vec a = Ok p → from_slice p = Ok a.
Class RecordsLaws (P : Type) {R : Records P} := {
  #[export] json_token_roundtrip :: Roundtrip P Token;
  #[export] json_instance_roundtrip :: Roundtrip P ProcessInstance;
  #[export] json_definition_roundtrip :: Roundtrip P ProcessDefinition;
  #[export] json_collection_roundtrip :: Roundtrip P DefinitionCollection;
  #[export] json_user_task_roundtrip :: Roundtrip P PendingUserTask;
  #[export] json_service_task_roundtrip :: Roundtrip P PendingServiceTask;
  #[export] json_timer_roundtrip :: Roundtrip P PendingTimer;
  #[export] json_message_roundtrip :: Roundtrip P PendingMessageCatch;
  #[export] json_signal_roundtrip :: Roundtrip P PendingSignalCatch;
  #[export] json_conditional_roundtrip :: Roundtrip P PendingConditionalCatch;
  #[export] json_history_roundtrip :: Roundtrip P HistoryEntry;
}.

Section laws.
  Context {S : Type} {J : JetStream S} {JL : JetStreamLaws S} {T : UuidText}.
  Notation Nats := (NatsPersistence S).
  Implicit Types (n : Nats) (m : gmap string (Payload * N)).

(** ** Buckets as maps by id *)

Definition decode {A} {C : Serialize Payload A} (entry : Payload * N) : option A :=
  match from_slice entry.1 with Ok a => Some a | Err _ => None end.
(** The id whose text a key is. *)
Definition canonical (key : string) : option Uuid :=
  match parse_uuid key with Ok u => if String.eqb (pretty u) key then Some u else None | Err _ => None end.
Definition view_entry {A} {C : Serialize Payload A} (kv : string * (Payload * N)) : option (Uuid * A) :=
  u ← canonical kv.1; a ← decode kv.2; Some (u, a).
Definition view {A} {C : Serialize Payload A} m : gmap Uuid A := list_to_map (omap view_entry (map_to_list m)).

Lemma canonical_Some key u : canonical key = Some u ↔ key = pretty u.
Proof.
  unfold canonical. split.
  - destruct (parse_uuid key) as [u'|]; [|done]. destruct (String.eqb_spec (pretty u') key) as [<-|]; [|done].
    by intros [= ->].
  - intros ->. by rewrite parse_uuid_text, String.eqb_refl.
Qed.

Section view.
  Context {A : Type} {C : Serialize Payload A}.

Lemma view_entry_Some kv u (a : A) : view_entry kv = Some (u, a) ↔ kv.1 = pretty u ∧ decode kv.2 = Some a.
Proof.
  unfold view_entry. rewrite <- canonical_Some. destruct (canonical kv.1), (decode kv.2); simpl; naive_solver.
Qed.

Lemma view_NoDup (l : list (string * (Payload * N))) : NoDup l.*1 → NoDup (omap (view_entry (A := A)) l).*1.
Proof.
  induction l as [|kv l IH]; simpl; [constructor|]. intros [Hk Hnd]%NoDup_cons.
  destruct (view_entry kv) as [[u a]|] eqn:Hv; [|by apply IH]. simpl. apply NoDup_cons. split; [|by apply IH].
  apply view_entry_Some in Hv as [Hu _]. intros ([u' a'] & -> & Hin)%list_elem_of_fmap.
  apply list_elem_of_omap in Hin as (kv' & Hin & [Hu' _]%view_entry_Some). simpl in *.
  apply Hk. rewrite Hu, <- Hu'. apply list_elem_of_fmap. eauto.
Qed.

Lemma view_lookup m u : view m !! u = m !! pretty u ≫= decode (A := A).
Proof.
  apply option_eq. intros a. unfold view.
  rewrite <- elem_of_list_to_map by apply view_NoDup, NoDup_fst_map_to_list.
  rewrite list_elem_of_omap, bind_Some. setoid_rewrite view_entry_Some. split.
  - intros ([k e] & Hin%elem_of_map_to_list & Hk & Hd). simpl in *. subst. eauto.
  - intros (e & He & Hd). exists (pretty u, e). by rewrite elem_of_map_to_list.
Qed.

Lemma view_insert {RT : Roundtrip Payload A} m u (a : A) p rev :
  to_vec a = Ok p → view (<[pretty u := (p, rev)]> m) = <[u := a]> (view m).
Proof.
  intros Hp. apply map_eq. intros u'. rewrite view_lookup. destruct (decide (u' = u)) as [->|Hne].
  - rewrite !lookup_insert_eq. simpl. unfold decode. simpl. by rewrite (from_to _ _ Hp).
  - rewrite !lookup_insert_ne by (try intros ?%(inj pretty); done). by rewrite view_lookup.
Qed.
Lemma view_delete m u : view (A := A) (delete (pretty u) m) = delete u (view m).
Proof.
  apply map_eq. intros u'. rewrite view_lookup. destruct (decide (u' = u)) as [->|Hne].
  - by rewrite !lookup_delete_eq.
  - rewrite !lookup_delete_ne by (try intros ?%(inj pretty); done). by rewrite view_lookup.
Qed.
End view.

(** ** The contents *)

Context {R : Records Payload}.

Definition token_entry (entry : Payload * N) : option (list Token) := t ← decode entry; Some [t].
(** The entries of the history stream by instance. *)
Definition history_message (h : gmap Uuid (list HistoryEntry)) (m : string * Payload) : gmap Uuid (list HistoryEntry) :=
  match from_slice m.2 with
  | Ok x =>
    if String.eqb m.1 (history_subject (he_instance_id x))
    then <[he_instance_id x := default [] (h !! he_instance_id x) ++ [x]]> h else h
  | Err _ => h
  end.
Definition history_of (l : list (string * Payload)) : gmap Uuid (list HistoryEntry) := foldl history_message ∅ l.

Definition memory_of (st : JetState Payload) : InMemoryPersistence :=
  let kv := bucket (j_kv st) in
  mkMemory (view (kv "definition_collections")) (omap token_entry (kv "tokens")) (view (kv "instances"))
    (view (kv "definitions")) (view (kv "user_tasks")) (view (kv "service_tasks")) (view (kv "timers"))
    (view (kv "messages")) (view (kv "pending_signal_catches")) (view (kv "pending_conditional_catches"))
    (bucket (j_objects st) "instance_files") (omap from_utf8 (bucket (j_objects st) "bpmn_xml"))
    (history_of (j_messages st)) (view (kv "history_instances")).
Definition nats_contents n : InMemoryPersistence := memory_of (jet (n_js n)).

(** ** Writes *)

Lemma kv_handle b n : n_js (kv b n).2 = n_js n ∧ ∀ store, (kv b n).1 = Ok store → store = b.
Proof.
  unfold kv. destruct (get_or_fetch _ _ _) as [[[]|e] h]; simpl; [|done]. split; [done|]. by intros ? [= <-].
Qed.
Lemma object_handle b n : n_js (object_store b n).2 = n_js n ∧ ∀ store, (object_store b n).1 = Ok store → store = b.
Proof.
  unfold object_store. destruct (get_or_fetch _ _ _) as [[[]|e] h]; simpl; [|done]. split; [done|]. by intros ? [= <-].
Qed.

(** What a save and a deletion of a record do to JetStream. *)
Lemma put_record_jet {A} {C : Serialize Payload A} b what key (a : A) n :
  match put_record b what key a n with
  | (Ok _, n') => ∃ p rev, to_vec a = Ok p ∧ jet (n_js n') = (jet (n_js n)) <| j_kv ::= in_bucket b <[key := (p, rev)]> |>
  | (Err _, n') => jet (n_js n') = jet (n_js n) ∨
      ∃ p rev, to_vec a = Ok p ∧ jet (n_js n') = (jet (n_js n)) <| j_kv ::= in_bucket b <[key := (p, rev)]> |>
  end.
Proof.
  unfold put_record, mbind, Io_bind, mret, Io_ret, io_lift, on_js, js_step.
  destruct (kv_handle b n) as [Hjs Hst]. destruct (kv b n) as [[store|e] n1]; simpl in *; [|left; by rewrite Hjs].
  rewrite (Hst store eq_refl). destruct (to_vec a) as [p|e] eqn:Hp; simpl; [rewrite Hjs|left; by rewrite Hjs].
  pose proof (kv_put_law b key p (n_js n)) as Hl. destruct (kv_put b key p (n_js n)) as [[rev|e] s]; simpl in *; [by eauto|].
  destruct Hl as [->|[rev ->]]; eauto.
Qed.
Lemma delete_record_jet b what key n :
  match delete_record b what key n with
  | (Ok _, n') => jet (n_js n') = (jet (n_js n)) <| j_kv ::= in_bucket b (delete key) |>
  | (Err _, n') => jet (n_js n') = jet (n_js n) ∨ jet (n_js n') = (jet (n_js n)) <| j_kv ::= in_bucket b (delete key) |>
  end.
Proof.
  unfold delete_record, mbind, Io_bind, on_js, js_step.
  destruct (kv_handle b n) as [Hjs Hst]. destruct (kv b n) as [[store|e] n1]; simpl in *; [|left; by rewrite Hjs].
  rewrite (Hst store eq_refl), Hjs.
  pose proof (kv_delete_law b key (n_js n)) as Hl. destruct (kv_delete b key (n_js n)) as [[[]|e] s]; simpl in *; [done|].
  destruct Hl as [->|[_ ->]]; eauto.
Qed.

(** A write whose calls have the effect of [f] on the contents. *)
Lemma put_record_writes {A} {C : Serialize Payload A} b what key (a : A) f :
  (∀ st p rev, to_vec a = Ok p → memory_of (st <| j_kv ::= in_bucket b <[key := (p, rev)]> |>) = f (memory_of st)) →
  writes nats_contents f (put_record b what key a).
Proof.
  intros Hf n. unfold nats_contents. pose proof (put_record_jet b what key a n) as Hj.
  destruct (put_record b what key a n) as [[[]|e] n'].
  - destruct Hj as (p & rev & Hp & ->). by apply (Hf _ p).
  - destruct Hj as [->|(p & rev & Hp & ->)]; [by left|right; by apply (Hf _ p)].
Qed.
Lemma delete_record_writes b what key f :
  (∀ st, memory_of (st <| j_kv ::= in_bucket b (delete key) |>) = f (memory_of st)) →
  writes nats_contents f (delete_record b what key).
Proof.
  intros Hf n. unfold nats_contents. pose proof (delete_record_jet b what key n) as Hj.
  destruct (delete_record b what key n) as [[[]|e] n']; [by rewrite Hj|].
  destruct Hj as [->| ->]; [by left|right; apply Hf].
Qed.

(** The effect of one bucket on the contents. *)
Ltac one_bucket :=
  intros; unfold memory_of; cbn;
  repeat rewrite ?bucket_in_eq, ?bucket_in_ne by done;
  first [by erewrite view_insert by done | by rewrite view_delete].

Context {RL : RecordsLaws Payload}.

Lemma token_insert (m : gmap string (Payload * N)) k (t : Token) p rev :
  to_vec t = Ok p → omap token_entry (<[k := (p, rev)]> m) = <[k := [t]]> (omap token_entry m).
Proof.
  intros Hp. apply omap_insert_Some. unfold token_entry, decode. simpl. by rewrite (from_to _ _ Hp).
Qed.

Lemma save_collection_jet c n :
  let put p rev := (jet (n_js n)) <| j_kv ::= in_bucket "definition_collections" <[pretty (dc_id c) := (p, rev)]> |> in
  match nats_save_definition_collection c n with
  | (Ok _, n') => ∃ p rev, to_vec c = Ok p ∧ jet (n_js n') = put p rev
  | (Err _, n') => jet (n_js n') = jet (n_js n) ∨ ∃ p rev, to_vec c = Ok p ∧ jet (n_js n') = put p rev
  end.
Proof.
  unfold nats_save_definition_collection, mbind, Io_bind, mret, Io_ret, io_lift, on_js, js_step.
  set (b := "definition_collections"). destruct (kv_handle b n) as [Hjs Hst].
  destruct (kv b n) as [[store|e] n1]; simpl in *; [|left; by rewrite Hjs].
  rewrite (Hst store eq_refl). destruct (to_vec c) as [p|e] eqn:Hp; simpl; [rewrite Hjs|left; by rewrite Hjs].
  pose proof (kv_create_law b (pretty (dc_id c)) p (n_js n)) as Hl.
  destruct (kv_create _ _ p (n_js n)) as [[rev|e] s]; simpl in *; [by eauto|].
  destruct Hl as [->|[rev ->]]; eauto.
Qed.
Lemma save_collection_writes c : writes nats_contents (mem_save_definition_collection c) (nats_save_definition_collection c).
Proof.
  intros n. unfold nats_contents. pose proof (save_collection_jet c n) as Hj.
  assert (∀ st p rev, to_vec c = Ok p →
    memory_of (st <| j_kv ::= in_bucket "definition_collections" <[pretty (dc_id c) := (p, rev)]> |>) =
    mem_save_definition_collection c (memory_of st)) as Hf by one_bucket.
  destruct (nats_save_definition_collection c n) as [[[]|e] n'].
  - destruct Hj as (p & rev & Hp & ->). by apply (Hf _ p).
  - destruct Hj as [->|(p & rev & Hp & ->)]; [by left|right; by apply (Hf _ p)].
Qed.

Lemma object_put_jet text b key data n :
  let put := (jet (n_js n)) <| j_objects ::= in_bucket b <[key := data]> |> in
  match (store ← object_store b; on_js (storage_error text) (obj_put store key data)) n with
  | (Ok _, n') => jet (n_js n') = put
  | (Err _, n') => jet (n_js n') = jet (n_js n) ∨ jet (n_js n') = put
  end.
Proof.
  unfold mbind, Io_bind, on_js, js_step. destruct (object_handle b n) as [Hjs Hst].
  destruct (object_store b n) as [[store|e] n1]; simpl in *; [|left; by rewrite Hjs].
  rewrite (Hst store eq_refl), Hjs. pose proof (obj_put_law b key data (n_js n)) as Hl.
  destruct (obj_put b key data (n_js n)) as [[[]|e] s]; simpl in *; [done|]. destruct Hl as [->|[_ ->]]; eauto.
Qed.
Lemma object_put_writes text b key data f :
  (∀ st, memory_of (st <| j_objects ::= in_bucket b <[key := data]> |>) = f (memory_of st)) →
  writes nats_contents f (store ← object_store b; on_js (storage_error text) (obj_put store key data)).
Proof.
  intros Hf n. unfold nats_contents. pose proof (object_put_jet text b key data n) as Hj.
  destruct ((store ← object_store b; _) n) as [[[]|e] n']; [by rewrite Hj|]. destruct Hj as [->| ->]; [by left|right; apply Hf].
Qed.

(** ** All writes *)

(** The writes of the port that confirm their effect. *)
Inductive PortWrite :=
| PSaveToken (instance_id : Uuid) (t : Token)
| PDeleteToken (instance_id token_id : Uuid)
| PSaveInstance (i : ProcessInstance)
| PDeleteInstance (id : Uuid)
| PSaveDefinition (d : ProcessDefinition)
| PSaveCollection (c : DefinitionCollection)
| PSaveUserTask (p : PendingUserTask)
| PDeleteUserTask (id : Uuid)
| PSaveServiceTask (p : PendingServiceTask)
| PDeleteServiceTask (id : Uuid)
| PSaveTimer (p : PendingTimer)
| PDeleteTimer (id : Uuid)
| PSaveMessageCatch (p : PendingMessageCatch)
| PDeleteMessageCatch (id : Uuid)
| PSaveSignalCatch (p : PendingSignalCatch)
| PDeleteSignalCatch (id : Uuid)
| PSaveConditionalCatch (p : PendingConditionalCatch)
| PDeleteConditionalCatch (id : Uuid)
| PSaveFile (object_key : string) (data : list Byte.byte)
| PSaveXml (key xml : string)
| PSaveCompleted (i : ProcessInstance).

Definition port_write {St} `{WorkflowPersistence St} (w : PortWrite) : Write St :=
  match w with
  | PSaveToken i t => save_token i t
  | PDeleteToken i t => delete_token i t
  | PSaveInstance i => save_instance i
  | PDeleteInstance id => delete_stored_instance (pretty id)
  | PSaveDefinition d => save_definition d
  | PSaveCollection c => save_definition_collection c
  | PSaveUserTask p => save_user_task p
  | PDeleteUserTask id => delete_user_task id
  | PSaveServiceTask p => save_service_task p
  | PDeleteServiceTask id => delete_service_task id
  | PSaveTimer p => save_timer p
  | PDeleteTimer id => delete_timer id
  | PSaveMessageCatch p => save_message_catch p
  | PDeleteMessageCatch id => delete_message_catch id
  | PSaveSignalCatch p => save_signal_catch p
  | PDeleteSignalCatch id => delete_signal_catch id
  | PSaveConditionalCatch p => save_conditional_catch p
  | PDeleteConditionalCatch id => delete_conditional_catch id
  | PSaveFile k data => save_file k data
  | PSaveXml k xml => save_bpmn_xml k xml
  | PSaveCompleted i => save_completed_instance i
  end.
(** A text the program can hold is UTF-8. *)
Definition rust_text (w : PortWrite) : bool :=
  match w with PSaveXml _ xml => bool_decide (from_utf8 (as_bytes xml) = Some xml) | _ => true end.
(** The same write on the in-memory store. *)
Definition mem_write (w : PortWrite) (m : InMemoryPersistence) : InMemoryPersistence := (port_write w m).2.

Context (base64_encode : list Byte.byte → string) (now : DateTime).
#[local] Instance nats_port : WorkflowPersistence Nats := NatsPersistence_port base64_encode now.

Lemma nats_write w : rust_text w = true → writes nats_contents (mem_write w) (port_write w).
Proof.
  destruct w; intros Ht.
  all: try (apply put_record_writes; one_bucket). all: try (apply delete_record_writes; one_bucket).
  - apply put_record_writes. intros. unfold memory_of. cbn. repeat rewrite ?bucket_in_eq, ?bucket_in_ne by done.
    by erewrite token_insert.
  - apply delete_record_writes. intros. unfold memory_of. cbn. repeat rewrite ?bucket_in_eq, ?bucket_in_ne by done.
    by rewrite omap_delete.
  - apply delete_record_writes. intros. unfold memory_of, mem_write. cbn. unfold mem_delete_instance. rewrite parse_uuid_text. cbn.
    repeat rewrite ?bucket_in_eq, ?bucket_in_ne by done. by rewrite view_delete.
  - apply save_collection_writes.
  - intros n. cbn. unfold nats_save_file. destruct (MAX_FILE_SIZE <? _)%N; [by left|].
    revert n. apply object_put_writes. intros. unfold memory_of. cbn.
    by rewrite bucket_in_eq, bucket_in_ne.
  - apply object_put_writes. intros. unfold memory_of. cbn. rewrite bucket_in_eq, bucket_in_ne by done.
    erewrite omap_insert_Some; [done|]. by apply bool_decide_eq_true in Ht.
Qed.

Lemma append_history_sends x n :
  let n' := (nats_append_history_entry x n).2 in
  nats_contents n' = nats_contents n ∨ nats_contents n' = mem_append_history_entry x (nats_contents n).
Proof.
  unfold nats_append_history_entry, mbind, Io_bind, io_lift, on_js, js_step, nats_contents.
  destruct (to_vec x) as [p|e] eqn:Hp; simpl; [|by left].
  pose proof (publish_law (history_subject (he_instance_id x)) p (n_js n)) as Hl.
  destruct (publish _ p (n_js n)) as [r s]. simpl in *. destruct Hl as [->| ->]; [by left|right].
  unfold memory_of. cbn. unfold history_of. rewrite foldl_app. cbn [foldl]. unfold history_message at 1. cbn [fst snd].
  by rewrite (from_to _ _ Hp), String.eqb_refl.
Qed.

#[local] Instance nats_laws : PersistenceLaws Nats.
Proof.
  refine {| contents := nats_contents |}; intros.
  - by apply (nats_write (PSaveInstance i)).
  - by apply (nats_write (PSaveDefinition d)).
  - by apply (nats_write (PSaveUserTask p)).
  - by apply (nats_write (PDeleteUserTask id)).
  - by apply (nats_write (PSaveServiceTask p)).
  - by apply (nats_write (PDeleteServiceTask id)).
  - by apply (nats_write (PSaveTimer p)).
  - by apply (nats_write (PDeleteTimer id)).
  - by apply (nats_write (PSaveMessageCatch p)).
  - by apply (nats_write (PDeleteMessageCatch id)).
  - by apply (nats_write (PSaveSignalCatch p)).
  - by apply (nats_write (PDeleteSignalCatch id)).
  - by apply (nats_write (PSaveConditionalCatch p)).
  - by apply (nats_write (PDeleteConditionalCatch id)).
  - apply append_history_sends.
Defined.
End laws.

(** ** A server that never fails *)

Inductive Doc :=
| DocToken (x : Token)
| DocInstance (x : ProcessInstance)
| DocDefinition (x : ProcessDefinition)
| DocCollection (x : DefinitionCollection)
| DocUserTask (x : PendingUserTask)
| DocServiceTask (x : PendingServiceTask)
| DocTimer (x : PendingTimer)
| DocMessage (x : PendingMessageCatch)
| DocSignal (x : PendingSignalCatch)
| DocConditional (x : PendingConditionalCatch)
| DocHistory (x : HistoryEntry).

#[export] Instance doc_records : Records Doc := {
  json_token := {| to_vec x := Ok (DocToken x); from_slice d := match d with DocToken x => Ok x | _ => Err "other record" end |};
  json_instance := {| to_vec x := Ok (DocInstance x); from_slice d := match d with DocInstance x => Ok x | _ => Err "other record" end |};
  json_definition := {| to_vec x := Ok (DocDefinition x); from_slice d := match d with DocDefinition x => Ok x | _ => Err "other record" end |};
  json_collection := {| to_vec x := Ok (DocCollection x); from_slice d := match d with DocCollection x => Ok x | _ => Err "other record" end |};
  json_user_task := {| to_vec x := Ok (DocUserTask x); from_slice d := match d with DocUserTask x => Ok x | _ => Err "other record" end |};
  json_service_task := {| to_vec x := Ok (DocServiceTask x); from_slice d := match d with DocServiceTask x => Ok x | _ => Err "other record" end |};
  json_timer := {| to_vec x := Ok (DocTimer x); from_slice d := match d with DocTimer x => Ok x | _ => Err "other record" end |};
  json_message := {| to_vec x := Ok (DocMessage x); from_slice d := match d with DocMessage x => Ok x | _ => Err "other record" end |};
  json_signal := {| to_vec x := Ok (DocSignal x); from_slice d := match d with DocSignal x => Ok x | _ => Err "other record" end |};
  json_conditional := {| to_vec x := Ok (DocConditional x); from_slice d := match d with DocConditional x => Ok x | _ => Err "other record" end |};
  json_history := {| to_vec x := Ok (DocHistory x); from_slice d := match d with DocHistory x => Ok x | _ => Err "other record" end |};
}.
#[export] Instance doc_records_laws : RecordsLaws Doc.
Proof. split; by intros a p [= <-]. Qed.

(** The state and the next revision. *)
Record Server := mkServer { sv_state : JetState Doc; sv_revision : N }.
Definition server_call {E A} (a : A) (f : JetState Doc → JetState Doc) : Call Server E A := λ s,
  (Ok a, mkServer (f (sv_state s)) (sv_revision s + 1)).
Definition server_put (b k : string) (d : Doc) (rev : N) (st : JetState Doc) : JetState Doc :=
  st <| j_kv ::= in_bucket b <[k := (d, rev)]> |>.

#[export] Instance server_jetstream : JetStream Server := {
  Payload := Doc;
  payload_len _ := 0%N;
  payload_text _ := None;
  StreamOptions := unit;
  default_options := tt;
  get_stream _ _ := Err (mkGetError (GetJetStream 404 STREAM_NOT_FOUND) "stream not found");
  create_stream _ := server_call tt id;
  update_stream _ := server_call tt id;
  stream_info _ _ := Err "no stream";
  get_raw_message _ _ _ := Err "no message";
  publish subject d := server_call tt (λ st, st <| j_messages ::= λ l, l ++ [(subject, d)] |>);
  consume _ subject s := Ok (Ok (Ok <$> (List.filter (λ m, String.eqb m.1 subject) (j_messages (sv_state s))).*2));
  create_key_value _ _ := server_call tt id;
  get_key_value _ _ := Ok tt;
  create_object_store _ _ := server_call tt id;
  get_object_store _ _ := Ok tt;
  kv_put b k d s := server_call (sv_revision s) (server_put b k d (sv_revision s)) s;
  kv_create b k d s :=
    match bucket (j_kv (sv_state s)) b !! k with
    | Some _ => (Err "exists", s)
    | None => server_call (sv_revision s) (server_put b k d (sv_revision s)) s
    end;
  kv_update b k d last s :=
    match bucket (j_kv (sv_state s)) b !! k with
    | Some (_, rev) =>
      if (rev =? last)%N then server_call (sv_revision s) (server_put b k d (sv_revision s)) s
      else (Err (WrongLastRevision "stale"), s)
    | None => (Err (WrongLastRevision "missing"), s)
    end;
  kv_delete b k := server_call tt (λ st, st <| j_kv ::= in_bucket b (delete k) |>);
  kv_get b k s := Ok (fst <$> bucket (j_kv (sv_state s)) b !! k);
  kv_entry b k s := Ok (bucket (j_kv (sv_state s)) b !! k);
  kv_keys b s := Ok (Ok <$> (map_to_list (bucket (j_kv (sv_state s)) b)).*1);
  kv_status b s := Ok (N.of_nat (size (bucket (j_kv (sv_state s)) b)), 0%N);
  obj_put b k d := server_call tt (λ st, st <| j_objects ::= in_bucket b <[k := d]> |>);
  obj_get b k s := match bucket (j_objects (sv_state s)) b !! k with Some d => Ok (Ok d) | None => Err "not found" end;
  obj_delete b k := server_call tt (λ st, st <| j_objects ::= in_bucket b (delete k) |>);
  obj_list b s := Ok ((λ k, Ok (mkObjectInfo k 0 None)) <$> (map_to_list (bucket (j_objects (sv_state s)) b)).*1);
  server_info _ := mkServerInfo "server" "1" "localhost" 4222;
  query_account _ := Ok (mkAccount 0 0 0 0);
}.

Lemma omap_Ok_map {E A B C} (f : A → B) (g : B → C) (l : list A) :
  omap (λ r : result E B, match r with Ok x => Some (g x) | Err _ => None end) ((λ x, Ok (f x)) <$> l) = (λ x, g (f x)) <$> l.
Proof. induction l as [|x l IH]; cbn; [done|]. by rewrite IH. Qed.
Lemma key_list {V} (m : gmap string V) k : k ∈ (map_to_list m).*1 ↔ is_Some (m !! k).
Proof.
  rewrite list_elem_of_fmap. split.
  - intros ([k' v] & -> & Hv). exists v. by apply elem_of_map_to_list.
  - intros [v Hv]. exists (k, v). by rewrite elem_of_map_to_list.
Qed.

#[export] Instance server_laws : JetStreamLaws Server.
Proof.
  refine {| jet := sv_state |}.
  - by intros b k p s.
  - by intros b k s.
  - intros b k p s. cbn. destruct (bucket _ b !! k); [by left|done].
  - intros b k p s rev s'. cbn. by destruct (bucket _ b !! k).
  - intros b k p last s. cbn. destruct (bucket _ b !! k) as [[q rev]|]; [|split; [by intros [q ?]|done]].
    destruct (N.eqb_spec rev last) as [->|Hne]; cbn; [by eauto|]. split; [|done]. intros [q' ?]. by simplify_eq.
  - by intros b k s o [= <-].
  - by intros b k s o [= <-].
  - intros b s items [= <-]. cbn. rewrite (omap_Ok_map id id), list_fmap_id.
    split; [apply NoDup_fst_map_to_list|]. split; intros; by apply key_list.
  - by intros b k d s.
  - by intros b k s.
  - intros b k s d. cbn. destruct (bucket _ b !! k); [by intros [= ->]|done].
  - intros b s items [= <-]. cbn. rewrite (omap_Ok_map _ oi_name). cbn. rewrite list_fmap_id.
    split; [apply NoDup_fst_map_to_list|]. split; intros; by apply key_list.
  - intros subject p s. by right.
  - intros stream subject s items [= <-]. by rewrite (omap_Ok_map id id), list_fmap_id.
Defined.
