(* ===== verification/NatsRestart.v ===== *)
(** * A NATS store over time

    After any sequence of writes the NATS store holds what an in-memory store would
    hold after those of them that took effect, and when JetStream answers every
    read, the lists of a restart give exactly that. *)

From Stdlib Require Import Ascii.
From stdpp Require Import base list gmap strings pretty sorting.
From S2P Require Import Prelude Text Json Domain Token ProcessDef MessageRouting Runtime History Persistence JetStream NatsClient NatsStore NatsLaws TimerIndex Engine Hoare EngineSteps Startup.
Local Open Scope rust_scope.

Section restart.
  Context {S : Type} {J : JetStream S} {JL : JetStreamLaws S} {T : UuidText} {R : Records Payload}
    {RL : RecordsLaws Payload} (base64_encode : list Byte.byte → string) (now : DateTime).
  Notation Nats := (NatsPersistence S).
#[local] Instance port : WorkflowPersistence Nats := NatsPersistence_port base64_encode now.
  Implicit Types (n : Nats) (m : gmap string (Payload * N)).

(** ** Tidy buckets *)

(** Every entry is a readable record under the text of an id. *)
Definition tidy_bucket (A : Type) {C : Serialize Payload A} m : Prop :=
  map_Forall (λ k e, is_Some (view_entry (A := A) (k, e))) m.
Definition tidy (st : JetState Payload) : Prop :=
  let kv := bucket (j_kv st) in
  tidy_bucket DefinitionCollection (kv "definition_collections") ∧
  tidy_bucket ProcessInstance (kv "instances") ∧ tidy_bucket ProcessDefinition (kv "definitions") ∧
  tidy_bucket PendingUserTask (kv "user_tasks") ∧ tidy_bucket PendingServiceTask (kv "service_tasks") ∧
  tidy_bucket PendingTimer (kv "timers") ∧ tidy_bucket PendingMessageCatch (kv "messages") ∧
  tidy_bucket PendingSignalCatch (kv "pending_signal_catches") ∧
  tidy_bucket PendingConditionalCatch (kv "pending_conditional_catches") ∧
  map_Forall (λ _ d, is_Some (from_utf8 d)) (bucket (j_objects st) "bpmn_xml").

Lemma tidy_insert {A} {C : Serialize Payload A} {RT : Roundtrip Payload A} m (u : Uuid) (a : A) p rev :
  to_vec a = Ok p → tidy_bucket A m → tidy_bucket A (<[pretty u := (p, rev)]> m).
Proof.
  intros Hp H. apply map_Forall_insert_2; [|done]. exists (u, a). apply view_entry_Some. split; [done|].
  unfold decode. simpl. by rewrite (from_to _ _ Hp).
Qed.
Lemma tidy_delete {A} {C : Serialize Payload A} m k : tidy_bucket A m → tidy_bucket A (delete k m).
Proof. intros H. by apply map_Forall_delete. Qed.

#[local] Opaque tidy_bucket bucket in_bucket.
Ltac tidy_tac :=
  intros; unfold tidy in *; cbn; repeat rewrite ?bucket_in_eq, ?bucket_in_ne by done; destruct_and!;
  split_and!; first [assumption | eapply tidy_insert; eassumption | apply tidy_delete; assumption].

Lemma put_record_tidy {A} {C : Serialize Payload A} b what key (a : A) n :
  (∀ st p rev, to_vec a = Ok p → tidy st → tidy (st <| j_kv ::= in_bucket b <[key := (p, rev)]> |>)) →
  tidy (jet (n_js n)) → tidy (jet (n_js (put_record b what key a n).2)).
Proof.
  intros Hf Ht. pose proof (put_record_jet b what key a n) as Hj. destruct (put_record b what key a n) as [[[]|e] n']; simpl.
  - destruct Hj as (p & rev & Hp & ->). by apply Hf.
  - destruct Hj as [->|(p & rev & Hp & ->)]; [done|by apply Hf].
Qed.
Lemma delete_record_tidy b what key n :
  (∀ st, tidy st → tidy (st <| j_kv ::= in_bucket b (delete key) |>)) →
  tidy (jet (n_js n)) → tidy (jet (n_js (delete_record b what key n).2)).
Proof.
  intros Hf Ht. pose proof (delete_record_jet b what key n) as Hj. destruct (delete_record b what key n) as [[[]|e] n']; simpl.
  - rewrite Hj. by apply Hf.
  - destruct Hj as [->| ->]; [done|by apply Hf].
Qed.

Lemma port_write_tidy w n : rust_text w = true → tidy (jet (n_js n)) → tidy (jet (n_js (port_write w n).2)).
Proof.
  destruct w; intros Ht; try (apply put_record_tidy; tidy_tac); try (apply delete_record_tidy; tidy_tac); intros Hn; cbn.
  - pose proof (save_collection_jet c n) as Hj.
    assert (∀ p rev, to_vec c = Ok p → tidy ((jet (n_js n)) <| j_kv ::=
      in_bucket "definition_collections" <[pretty (dc_id c) := (p, rev)]> |>)) as Hf by tidy_tac.
    destruct (nats_save_definition_collection c n) as [[[]|e] n']; simpl.
    + destruct Hj as (p & rev & Hp & ->). by apply Hf.
    + destruct Hj as [->|(p & rev & Hp & ->)]; [done|by apply Hf].
  - unfold nats_save_file. destruct (MAX_FILE_SIZE <? _)%N; [done|].
    pose proof (object_put_jet "Failed to save file" "instance_files" object_key data n) as Hj.
    destruct ((store ← object_store _; _) n) as [[[]|e] n']; simpl; [rewrite Hj; tidy_tac|].
    destruct Hj as [->| ->]; [done|tidy_tac].
  - unfold nats_save_bpmn_xml. apply bool_decide_eq_true in Ht.
    pose proof (object_put_jet "Failed to store BPMN XML" "bpmn_xml" key (as_bytes xml) n) as Hj.
    assert (tidy ((jet (n_js n)) <| j_objects ::= in_bucket "bpmn_xml" <[key := as_bytes xml]> |>)) as Hf.
    { unfold tidy in *. cbn. rewrite bucket_in_eq. destruct_and!. split_and!; try done. apply map_Forall_insert_2; [|done].
      rewrite Ht. by eexists. }
    destruct ((store ← object_store _; _) n) as [[[]|e] n']; simpl; [by rewrite Hj|]. by destruct Hj as [->| ->].
Qed.

(** ** Reads *)

(** JetStream answers every read. *)
Record reads_ok (n : Nats) : Prop := {
  ro_kv b : get_key_value b (n_js n) = Ok tt;
  ro_object_store b : get_object_store b (n_js n) = Ok tt;
  ro_keys b : ∃ keys, kv_keys b (n_js n) = Ok (Ok <$> keys);
  ro_get b k : is_ok (kv_get b k (n_js n)) = true;
  ro_objects b : ∃ infos, obj_list b (n_js n) = Ok (Ok <$> infos);
}.

Lemma omap_Ok_all {E A B} (f : A → B) (l : list A) :
  omap (λ r : result E A, match r with Ok x => Some (f x) | Err _ => None end) (Ok <$> l) = f <$> l.
Proof. induction l as [|x l IH]; cbn; [done|]. by rewrite IH. Qed.
Lemma no_error {E A} (l : list A) (e : E) : Err e ∉ (Ok <$> l : list (result E A)).
Proof. by intros (x & ? & _)%list_elem_of_fmap. Qed.

Lemma all_keys {V} (m : gmap string V) keys :
  NoDup keys → (∀ k, k ∈ keys → is_Some (m !! k)) → (∀ k, is_Some (m !! k) → k ∈ keys) → keys ≡ₚ (map_to_list m).*1.
Proof.
  intros Hnd Hin Hall. apply NoDup_Permutation; [done|apply NoDup_fst_map_to_list|]. intros k. split.
  - intros [v Hv]%Hin. apply list_elem_of_fmap. exists (k, v). by rewrite elem_of_map_to_list.
  - intros ([k' v] & -> & Hv)%list_elem_of_fmap. apply Hall. exists v. by apply elem_of_map_to_list.
Qed.

Lemma kv_reads n b : reads_ok n → ∃ n', kv b n = (Ok b, n') ∧ n_js n' = n_js n.
Proof.
  intros H. unfold kv. rewrite (ro_kv n H). unfold get_or_fetch.
  destruct (hc_kv (n_handles n) !! b) as [[[]|]|]; simpl; eauto.
Qed.
Lemma keys_reads n b : reads_ok n →
  ∃ keys, kv_keys b (n_js n) = Ok (Ok <$> keys) ∧ keys ≡ₚ (map_to_list (bucket (j_kv (jet (n_js n))) b)).*1.
Proof.
  intros H. destruct (ro_keys n H b) as [keys Hk]. exists keys. split; [done|].
  pose proof (kv_keys_law b (n_js n) _ Hk) as Hl. cbn zeta in Hl.
  rewrite (omap_Ok_all (λ k, k)), list_fmap_id in Hl. destruct Hl as (Hnd & Hin & Hall).
  apply all_keys; [done..|]. intros k. apply Hall. intros e. apply no_error.
Qed.

Section listing.
  Context {A : Type} {C : Serialize Payload A}.

Lemma listed_entry_key n b k : reads_ok n →
  listed_entry (A := A) from_slice b (n_js n) (Ok k) = bucket (j_kv (jet (n_js n))) b !! k ≫= decode.
Proof.
  intros H. pose proof (ro_get n H b k) as Hg. unfold listed_entry. destruct (kv_get b k (n_js n)) as [o|] eqn:Ho; [|done].
  rewrite (kv_get_law b k (n_js n) o Ho). destruct (bucket _ b !! k) as [[p rev]|]; simpl; [|done].
  unfold decode. simpl. by destruct (from_slice p).
Qed.

Lemma omap_view m l : tidy_bucket A m → (∀ kv, kv ∈ l → m !! kv.1 = Some kv.2) →
  omap (λ k, m !! k ≫= decode) l.*1 = (omap (view_entry (A := A)) l).*2.
Proof.
  intros Ht. induction l as [|[k e] l IH]; intros Hl; [done|]. cbn.
  assert (m !! k = Some e) as Hk by (apply (Hl (k, e)); left). rewrite Hk. simpl.
  destruct (Ht k e Hk) as [[u a] Hv]. rewrite Hv. apply view_entry_Some in Hv as [_ Hd]. simpl in Hd. rewrite Hd.
  cbn. f_equal. apply IH. intros kv Hin. apply Hl. by right.
Qed.

Lemma view_values m : tidy_bucket A m →
  omap (λ k, m !! k ≫= decode) (map_to_list m).*1 ≡ₚ (map_to_list (view (A := A) m)).*2.
Proof.
  intros Ht. rewrite omap_view; [|done|]. 2: { intros [k e]. by rewrite elem_of_map_to_list. }
  unfold view. rewrite map_to_list_to_map; [done|]. apply view_NoDup, NoDup_fst_map_to_list.
Qed.

Lemma omap_listed n b (keys : list string) : reads_ok n →
  omap (listed_entry (A := A) from_slice b (n_js n)) (Ok <$> keys) =
  omap (λ k, bucket (j_kv (jet (n_js n))) b !! k ≫= decode) keys.
Proof. intros H. induction keys as [|k keys IH]; cbn -[listed_entry]; [done|]. by rewrite listed_entry_key, IH. Qed.

Lemma list_answers n b what : reads_ok n → tidy_bucket A (bucket (j_kv (jet (n_js n))) b) →
  answers_with (answered (list_kv_entries from_slice b what) n) (map_to_list (view (A := A) (bucket (j_kv (jet (n_js n))) b))).*2.
Proof.
  intros H Ht. unfold answered, list_kv_entries, mbind, Io_bind, read_js, io_read.
  destruct (kv_reads n b H) as (n' & -> & Hn). rewrite Hn. destruct (keys_reads n b H) as (keys & Hk & Hp).
  rewrite Hk. cbn [map_err result_bind fst]. eexists. split; [done|]. rewrite <- view_values by done. rewrite <- Hp.
  by rewrite omap_listed.
Qed.
End listing.

Lemma collections_answer n : reads_ok n →
  tidy_bucket DefinitionCollection (bucket (j_kv (jet (n_js n))) "definition_collections") →
  answers_with (answered nats_list_definition_collections n)
    (map_to_list (view (A := DefinitionCollection) (bucket (j_kv (jet (n_js n))) "definition_collections"))).*2.
Proof.
  intros H Ht. unfold answered, nats_list_definition_collections, mbind, Io_bind, read_js, io_read.
  set (b := "definition_collections") in *. destruct (kv_reads n b H) as (n' & -> & Hn). rewrite Hn.
  destruct (keys_reads n b H) as (keys & Hk & Hp). rewrite Hk. cbn [map_err result_bind fst].
  set (m := bucket (j_kv (jet (n_js n))) b) in *. exists (omap (λ k, m !! k ≫= decode) keys). split.
  - assert (∀ acc l, (∀ k, k ∈ l → is_Some (m !! k)) →
      try_fold (collection_entry b (n_js n)) acc (Ok <$> l) = Ok (acc ++ omap (λ k, m !! k ≫= decode) l)) as Hfold.
    { intros acc l. revert acc. induction l as [|k l IH]; intros acc Hl; cbn; [by rewrite app_nil_r|].
      destruct (Hl k) as [e He]; [by left|]. pose proof (ro_get n H b k) as Hg.
      destruct (kv_get b k (n_js n)) as [o|] eqn:Ho; [|done]. cbn. rewrite (kv_get_law b k (n_js n) o Ho).
      fold m. rewrite He. cbn. destruct (Ht k e He) as [[u c] [_ Hd]%view_entry_Some]. simpl in Hd. unfold decode in *.
      destruct (from_slice e.1) as [c'|]; [|done]. cbn. rewrite IH by (intros; apply Hl; by right). by rewrite <- app_assoc. }
    rewrite Hfold; [done|]. intros k Hin. rewrite Hp in Hin. apply list_elem_of_fmap in Hin as ([k' e] & -> & Hin).
    exists e. by apply elem_of_map_to_list.
  - rewrite Hp. by apply view_values.
Qed.

Lemma xml_ids_answer n : reads_ok n → map_Forall (λ _ d, is_Some (from_utf8 d)) (bucket (j_objects (jet (n_js n))) "bpmn_xml") →
  answers_with (answered nats_list_bpmn_xml_ids n) (map_to_list (omap from_utf8 (bucket (j_objects (jet (n_js n))) "bpmn_xml"))).*1.
Proof.
  intros H Ht. unfold answered, nats_list_bpmn_xml_ids, mbind, Io_bind, read_js, io_read.
  set (b := "bpmn_xml") in *. assert (∃ n', object_store b n = (Ok b, n') ∧ n_js n' = n_js n) as (n' & -> & Hn).
  { unfold object_store. rewrite (ro_object_store n H). unfold get_or_fetch.
    destruct (hc_object_stores (n_handles n) !! b) as [[[]|]|]; simpl; eauto. }
  rewrite Hn. destruct (ro_objects n H b) as [infos Hi]. rewrite Hi. cbn [map_err result_bind fst].
  rewrite (omap_Ok_all oi_name). eexists. split; [done|].
  pose proof (obj_list_law b (n_js n) _ Hi) as Hl. cbn zeta in Hl. rewrite (omap_Ok_all oi_name) in Hl.
  destruct Hl as (Hnd & Hin & Hall). specialize (Hall (λ e, no_error _ e)). set (m := bucket (j_objects (jet (n_js n))) b) in *.
  assert (∀ k, is_Some (omap from_utf8 m !! k) ↔ is_Some (m !! k)) as Hdom.
  { intros k. rewrite lookup_omap. destruct (m !! k) as [d|] eqn:Hk; simpl; [|done]. destruct (Ht k d Hk) as [s ->]. split; by eexists. }
  apply all_keys; [done| |]; intros k; rewrite Hdom; auto.
Qed.

Lemma nats_answers n : tidy (jet (n_js n)) → reads_ok n → answers n (nats_contents n).
Proof.
  intros Ht H. unfold tidy in Ht. destruct_and!. split; cbn.
  - by apply collections_answer.
  - by apply list_answers.
  - by apply xml_ids_answer.
  - by apply list_answers.
  - by apply list_answers.
  - by apply list_answers.
  - by apply list_answers.
  - by apply list_answers.
  - by apply list_answers.
  - by apply list_answers.
Qed.

(** ** The history *)

(** Every message of the stream is an entry under the subject of its instance. *)
Definition history_tidy (l : list (string * Payload)) : Prop :=
  Forall (λ msg, ∃ x, from_slice msg.2 = Ok x ∧ msg.1 = history_subject (he_instance_id x)) l.
Definition on_subject (subject : string) (l : list (string * Payload)) : list Payload :=
  (List.filter (λ msg, String.eqb msg.1 subject) l).*2.

Lemma history_subject_inj u u' : history_subject u = history_subject u' → u = u'.
Proof. unfold history_subject. by intros ?%(inj (String.app _))%(inj pretty). Qed.

Lemma history_of_lookup l u : history_tidy l →
  default [] (history_of l !! u) = omap (λ p, read_entry (Ok p)) (on_subject (history_subject u) l).
Proof.
  unfold history_of, on_subject. induction l as [|[subject p] l IH] using rev_ind; [done|].
  intros [Hl Hx]%Forall_app. apply Forall_singleton in Hx as (x & Hx & Hs). simpl in *. subst subject.
  rewrite foldl_app, List.filter_app, fmap_app, omap_app, <- (IH Hl). cbn [foldl List.filter fst]. unfold history_message at 1. cbn [fst snd].
  rewrite Hx, String.eqb_refl. destruct (String.eqb_spec (history_subject (he_instance_id x)) (history_subject u)) as [He|Hne].
  - apply history_subject_inj in He as <-. rewrite lookup_insert_eq. cbn. by rewrite Hx.
  - rewrite lookup_insert_ne by congruence. cbn. by rewrite app_nil_r.
Qed.

(** A query whose consumer receives the whole history answers like the in-memory
    store. *)
Lemma nats_query_history_complete q n config :
  history_tidy (j_messages (jet (n_js n))) → get_stream "WORKFLOW_HISTORY" (n_js n) = Ok config →
  consume "WORKFLOW_HISTORY" (history_subject (hq_instance_id q)) (n_js n) =
    Ok (Ok (Ok <$> on_subject (history_subject (hq_instance_id q)) (j_messages (jet (n_js n))))) →
  query_history q n = Ok (mem_query_history q (nats_contents n)).
Proof.
  intros Ht Hs Hc. change (query_history q n) with (answered (nats_query_history q) n).
  unfold answered, nats_query_history, read_js, io_read. rewrite Hs, Hc. cbn [fst map_err result_bind]. f_equal.
  unfold mem_query_history, nats_contents, memory_of. cbn [m_history]. rewrite (history_of_lookup _ _ Ht).
  set (l := on_subject _ _). assert (omap read_entry (Ok <$> l) = omap (λ p, read_entry (Ok p)) l) as ->.
  { clear. induction l as [|p l IH]; cbn -[read_entry]; [done|]. by rewrite IH. }
  set (entries := sort_by _ _). unfold page_of. destruct (hq_offset q) as [o|]; cbn; [|rewrite drop_0];
    (destruct (hq_limit q) as [k|]; cbn; [done|]); apply take_ge; rewrite ?length_drop; lia.
Qed.

(** ** Sequences of writes *)

Fixpoint run_writes (ws : list PortWrite) (n : Nats) : list (EngineResult unit) * Nats :=
  match ws with
  | [] => ([], n)
  | w :: ws => let '(r, n) := port_write w n in let '(rs, n) := run_writes ws n in (r :: rs, n)
  end.
(** The writes that took effect: all that succeeded and some that failed. *)
Inductive took_effect : list PortWrite → list (EngineResult unit) → list PortWrite → Prop :=
| took_nil : took_effect [] [] []
| took_ok w ws rs l : took_effect ws rs l → took_effect (w :: ws) (Ok tt :: rs) (w :: l)
| took_failed w ws e rs l : took_effect ws rs l → took_effect (w :: ws) (Err e :: rs) (w :: l)
| skipped_failed w ws e rs l : took_effect ws rs l → took_effect (w :: ws) (Err e :: rs) l.

Lemma run_writes_contents ws n : forallb rust_text ws = true →
  ∃ applied, took_effect ws (run_writes ws n).1 applied ∧
    nats_contents (run_writes ws n).2 = fold_left (λ mem w, mem_write w mem) applied (nats_contents n).
Proof.
  revert n. induction ws as [|w ws IH]; intros n; cbn [run_writes forallb]; [exists []; split; [constructor|done]|].
  intros [Hw Hws]%andb_true_iff. pose proof (nats_write base64_encode now w Hw n) as Hn. fold port in Hn.
  destruct (port_write w n) as [r n1]. destruct (IH n1 Hws) as (l & Hl & Hc). destruct (run_writes ws n1) as [rs n2].
  simpl in *. destruct r as [[]|e].
  - exists (w :: l). split; [by constructor|]. cbn. by rewrite Hc, Hn.
  - destruct Hn as [Hn|Hn].
    + exists l. split; [by constructor|]. by rewrite Hc, Hn.
    + exists (w :: l). split; [by constructor|]. cbn. by rewrite Hc, Hn.
Qed.
Lemma run_writes_tidy ws n : forallb rust_text ws = true → tidy (jet (n_js n)) → tidy (jet (n_js (run_writes ws n).2)).
Proof.
  revert n. induction ws as [|w ws IH]; intros n; cbn [run_writes forallb]; [done|].
  intros [Hw Hws]%andb_true_iff Ht. pose proof (port_write_tidy w n Hw Ht) as Hn.
  destruct (port_write w n) as [r n1]. specialize (IH n1 Hws Hn). by destruct (run_writes ws n1) as [rs n2].
Qed.

End restart.

(** ** A concrete store *)

Definition empty_nats : NatsPersistence Server :=
  mkNats (mkServer (mkJet ∅ ∅ []) 1) (mkReport [] [] []) handle_cache_new.
Definition no_base64 (_ : list Byte.byte) : string := "".
Definition example_writes : list PortWrite := [PSaveTimer (example_timer 11 50); PSaveInstance example_instance; PSaveXml "1" "<process/>"].

Lemma empty_tidy : tidy (T := decimal_ids) (jet (n_js empty_nats)).
Proof. unfold tidy, tidy_bucket. split_and!; apply map_Forall_empty. Qed.
Lemma server_reads_ok (n : NatsPersistence Server) : reads_ok n.
Proof.
  split; intros; try done.
  - by exists (map_to_list (bucket (j_kv (sv_state (n_js n))) b)).*1.
  - exists ((λ k, mkObjectInfo k 0 None) <$> (map_to_list (bucket (j_objects (sv_state (n_js n))) b)).*1).
    by rewrite <- list_fmap_compose.
Qed.

