(* ===== verification/NatsDelete.v ===== *)
(** * Deleting a definition while other servers write

    [delete_definition] of persistence-nats/src/trait_impl.rs marks a member of a
    collection as deleted with an optimistic loop: read a revision, replace exactly
    that revision, start again when another server was faster. *)

From Stdlib Require Import Ascii.
From stdpp Require Import base list gmap strings pretty sorting.
From S2P Require Import Prelude Text Json Domain Token ProcessDef MessageRouting Runtime History Persistence JetStream NatsClient NatsStore NatsLaws.
Local Open Scope rust_scope.

Section delete.
  Context {S : Type} {J : JetStream S} {JL : JetStreamLaws S} {T : UuidText} {R : Records Payload}
    {RL : RecordsLaws Payload}.
  Notation Nats := (NatsPersistence S).
  Notation collections := "definition_collections".

Definition stored (st : JetState Payload) (key : string) : option DefinitionCollection :=
  bucket (j_kv st) collections !! key ≫= decode.
(** Collections stay, with their members, and no mark is lost. *)
Definition grows (st st' : JetState Payload) : Prop :=
  ∀ key c, stored st key = Some c →
    ∃ c', stored st' key = Some c' ∧ dc_definitions c' = dc_definitions c ∧ dc_deleted c ⊆ dc_deleted c'.
#[export] Instance grows_preorder : PreOrder grows.
Proof.
  split.
  - intros st key c Hc. by exists c.
  - intros st1 st2 st3 H12 H23 key c Hc. destruct (H12 key c Hc) as (c2 & Hc2 & Hd2 & Hm2).
    destruct (H23 key c2 Hc2) as (c3 & Hc3 & Hd3 & Hm3). exists c3. split; [done|]. split; [congruence|]. by etrans.
Qed.

(** What the other servers do: they only add marks, and a revision is never given
    to two values. *)
Record well_behaved (others : S → S) : Prop := {
  wb_grows s : grows (jet s) (jet (others s));
  wb_revisions s k p q rev :
    bucket (j_kv (jet s)) collections !! k = Some (p, rev) →
    bucket (j_kv (jet (others s))) collections !! k = Some (q, rev) → p = q;
}.
Lemma nobody_else : well_behaved id.
Proof. split; [by intros s|]. intros s k p q rev Hp Hq. unfold id in Hq. congruence. Qed.

Lemma grows_other_bucket st b f : b ≠ collections → grows st (st <| j_kv ::= in_bucket b f |>).
Proof. intros Hb key c Hc. exists c. split; [|done]. unfold stored. cbn. by rewrite bucket_in_ne. Qed.

(** Replacing the stored collection by one with one mark more. *)
Lemma mark_grows st key p rev rev' c id data :
  bucket (j_kv st) collections !! key = Some (p, rev) → from_slice p = Ok c → to_vec (with_deleted id c) = Ok data →
  let st' := st <| j_kv ::= in_bucket collections <[key := (data, rev')]> |> in
  grows st st' ∧ stored st' key = Some (with_deleted id c).
Proof.
  intros Hp Hc Hd. cbn zeta.
  assert (stored (st <| j_kv ::= in_bucket collections <[key := (data, rev')]> |>) key = Some (with_deleted id c)) as Hs.
  { unfold stored. cbn. rewrite bucket_in_eq, lookup_insert_eq. simpl. unfold decode. simpl. by rewrite (from_to _ _ Hd). }
  split; [|done]. intros key' c' Hc'. destruct (decide (key' = key)) as [->|Hne].
  - unfold stored in Hc'. rewrite Hp in Hc'. simpl in Hc'. unfold decode in Hc'. simpl in Hc'. rewrite Hc in Hc'. simplify_eq.
    exists (with_deleted id c'). split; [done|]. split; [done|]. cbn. set_solver.
  - exists c'. split; [|done]. unfold stored in *. cbn. by rewrite bucket_in_eq, lookup_insert_ne.
Qed.

Lemma mark_turn_spec others key id n :
  well_behaved others →
  let '(r, n') := mark_turn others collections key id n in
  grows (jet (n_js n)) (jet (n_js n')) ∧
  (r = Ok (Some tt) → ∃ c, stored (jet (n_js n')) key = Some c ∧ id ∈ dc_deleted c).
Proof.
  intros [Hg Hrev]. unfold mark_turn, mbind, Io_bind, read_js, io_read, io_lift, mret, Io_ret.
  destruct (kv_entry collections key (n_js n)) as [o|e] eqn:He; cbn; [|by split].
  apply kv_entry_law in He as ->. destruct (bucket _ collections !! key) as [[p rev]|] eqn:Hp; cbn; [|by split].
  destruct (from_slice p) as [c|e] eqn:Hc; cbn; [|by split].
  destruct (existsb (λ k, bool_decide (k = id)) (dc_deleted c)) eqn:Hin.
  { split; [done|]. intros _. exists c. split.
    - unfold stored. rewrite Hp. simpl. unfold decode. simpl. by rewrite Hc.
    - apply existsb_exists in Hin as (k & Hk%list_elem_of_In & ->%bool_decide_eq_true). done. }
  destruct (to_vec (with_deleted id c)) as [data|e] eqn:Hd; cbn; [|by split]. unfold js_step.
  specialize (Hg (n_js n)). set (s1 := others (n_js n)) in *.
  pose proof (kv_update_law collections key data rev s1) as Hu. cbn zeta in Hu.
  assert (∀ q rev', bucket (j_kv (jet s1)) collections !! key = Some (q, rev) →
    let st' := (jet s1) <| j_kv ::= in_bucket collections <[key := (data, rev')]> |> in
    grows (jet (n_js n)) st' ∧ ∃ c, stored st' key = Some c ∧ id ∈ dc_deleted c) as Hput.
  { intros q rev' Hq. assert (p = q) as <- by by eapply Hrev.
    destruct (mark_grows (jet s1) key p rev rev' c id data Hq Hc Hd) as [Hg' Hs]. split; [by etrans|].
    exists (with_deleted id c). split; [done|]. cbn. set_solver. }
  destruct (kv_update collections key data rev s1) as [[rev'|[t|t]] s2]; cbn.
  - destruct Hu as [[q Hq] ->]. destruct (Hput q rev' Hq) as [Hg' Hm]. by split.
  - destruct Hu as [_ ->]. by split.
  - destruct Hu as [->|[[q Hq] [rev' ->]]]; [by split|]. destruct (Hput q rev' Hq) as [Hg' _]. by split.
Qed.

(** A turn nobody disturbs is the last one. *)
Lemma mark_turn_alone key id n n' : mark_turn (λ s, s) collections key id n ≠ (Ok None, n').
Proof.
  unfold mark_turn, mbind, Io_bind, read_js, io_read, io_lift, mret, Io_ret.
  destruct (kv_entry collections key (n_js n)) as [o|e] eqn:He; cbn; [|done].
  apply kv_entry_law in He as ->. destruct (bucket _ collections !! key) as [[p rev]|] eqn:Hp; cbn; [|done].
  destruct (from_slice p) as [c|e]; cbn; [|done]. destruct (existsb _ _); [done|].
  destruct (to_vec _) as [data|e]; cbn; [|done]. unfold js_step.
  pose proof (kv_update_law collections key data rev (n_js n)) as Hu. cbn zeta in Hu.
  destruct (kv_update collections key data rev (n_js n)) as [[rev'|[t|t]] s2]; cbn; [done| |done].
  destruct Hu as [[] _]. by exists p.
Qed.

Lemma mark_loop_spec others turns key id n :
  (∀ t, well_behaved (others t)) →
  let '(r, n') := mark_loop others turns collections key id n in
  grows (jet (n_js n)) (jet (n_js n')) ∧
  (r = Ok (Some tt) → ∃ c, stored (jet (n_js n')) key = Some c ∧ id ∈ dc_deleted c) ∧
  ((∃ t, t < turns ∧ others t = λ s, s) → r ≠ Ok None).
Proof.
  intros Hwb. revert n. induction turns as [|turns IH]; intros n; cbn [mark_loop].
  - split; [done|]. split; [done|]. intros (t & ? & _). lia.
  - unfold mbind, Io_bind. pose proof (mark_turn_spec (others turns) key id n (Hwb turns)) as Ht.
    destruct (mark_turn (others turns) collections key id n) as [[[[]|]|e] n1] eqn:Hrun; cbn.
    + destruct Ht as [Hg Hm]. split; [done|]. split; [done|]. done.
    + destruct Ht as [Hg _]. specialize (IH n1). destruct (mark_loop others turns collections key id n1) as [r n2].
      destruct IH as (Hg2 & Hm & Hend). split; [by etrans|]. split; [done|]. intros (t & Hlt & Ht). apply Hend.
      exists t. split; [|done]. destruct (decide (t = turns)) as [->|]; [|lia]. rewrite Ht in Hrun.
      by apply mark_turn_alone in Hrun.
    + destruct Ht as [Hg _]. done.
Qed.

(** ** The whole operation *)

(** Every collection is stored under its id. *)
Definition collections_keyed (st : JetState Payload) : Prop := ∀ key c, stored st key = Some c → key = pretty (dc_id c).

Lemma listed_stored n l n' :
  nats_list_definition_collections n = (Ok l, n') →
  n_js n' = n_js n ∧ ∀ c, c ∈ l → ∃ key, stored (jet (n_js n)) key = Some c.
Proof.
  unfold nats_list_definition_collections, mbind, Io_bind, read_js, io_read.
  destruct (kv_handle collections n) as [Hjs Hst]. destruct (kv collections n) as [[store|e] n1]; [|done].
  simpl in *. rewrite (Hst store eq_refl). destruct (kv_keys collections (n_js n1)) as [keys|e]; [|done]. cbn.
  intros [= Hfold <-]. split; [done|]. rewrite Hjs in Hfold.
  refine (try_fold_inv _ (λ l, ∀ c, c ∈ l → ∃ key, stored (jet (n_js n)) key = Some c) [] keys l _ _ Hfold); [set_solver|].
  intros acc [key|e] acc' _ Hacc; cbn; [|done].
  destruct (kv_get collections key (n_js n)) as [[p|]|e] eqn:Hg; cbn; [|by intros [= <-]|done].
  destruct (from_slice p) as [c|e] eqn:Hc; cbn; [|done]. intros [= <-] c' [Hin|Hin]%elem_of_app; [by apply Hacc|].
  apply list_elem_of_singleton in Hin as ->. exists key. apply kv_get_law in Hg. unfold stored.
  destruct (bucket _ collections !! key) as [e|]; simpl in *; [|done]. simplify_eq. unfold decode. by rewrite Hc.
Qed.

Lemma delete_plain n key :
  let '(r, n') := (_ ← delete_record "definitions" "definition" key; obj_store ← object_store "bpmn_xml";
                   js_step (λ s, (Ok (Some tt) : EngineResult (option unit), (obj_delete obj_store key s).2))) n in
  grows (jet (n_js n)) (jet (n_js n')) ∧ r ≠ Ok None ∧
  (r = Ok (Some tt) → bucket (j_kv (jet (n_js n'))) "definitions" !! key = None).
Proof.
  unfold mbind, Io_bind. pose proof (delete_record_jet "definitions" "definition" key n) as Hd.
  assert (grows (jet (n_js n)) ((jet (n_js n)) <| j_kv ::= in_bucket "definitions" (delete key) |>)) as Hg
    by by apply grows_other_bucket.
  destruct (delete_record "definitions" "definition" key n) as [[[]|e] n1]; [|by destruct Hd as [->| ->]].
  destruct (object_handle "bpmn_xml" n1) as [Hjs Hst].
  assert (bucket (j_kv (jet (n_js n1))) "definitions" !! key = None) as Hnone.
  { rewrite Hd. cbn. by rewrite bucket_in_eq, lookup_delete_eq. }
  destruct (object_store "bpmn_xml" n1) as [[store|e] n2]; simpl in *; [|rewrite Hjs, Hd; by split].
  unfold js_step. cbn. rewrite Hjs. pose proof (obj_delete_law store key (n_js n1)) as Ho.
  destruct (obj_delete store key (n_js n1)) as [r s]. cbn.
  assert (jet s = jet (n_js n1) ∨ jet s = (jet (n_js n1)) <| j_objects ::= in_bucket store (delete key) |>) as Hs
    by (destruct r as [[]|e]; [by right|]; destruct Ho as [->|[_ ->]]; eauto).
  assert (j_kv (jet s) = j_kv (jet (n_js n1))) as Hkv by by destruct Hs as [->| ->].
  split; [|split; [done|intros _; by rewrite Hkv]]. rewrite <- Hd in Hg. intros k c Hk.
  destruct (Hg k c Hk) as (c' & Hc' & H). exists c'. split; [|done]. unfold stored in *. by rewrite Hkv.
Qed.

(** C6: Deleting a definition is safe beside other servers: whatever they do between
    its reads and writes, no collection, no member and no mark set by anybody is
    lost; when the deletion reports success the definition is marked deleted in a
    collection it belongs to, or is gone from the single definitions; and the
    loop ends at the latest with the first turn nobody disturbs. *)
Theorem delete_definition_keeps_marks others turns u n :
  (∀ t, well_behaved (others t)) → collections_keyed (jet (n_js n)) →
  let '(r, n') := nats_delete_definition others turns (pretty u) n in
  grows (jet (n_js n)) (jet (n_js n')) ∧
  (r = Ok (Some tt) →
     (∃ key c, stored (jet (n_js n')) key = Some c ∧ has_member (pretty u) c = true ∧ u ∈ dc_deleted c) ∨
     bucket (j_kv (jet (n_js n'))) "definitions" !! pretty u = None) ∧
  ((∃ t, t < turns ∧ others t = λ s, s) → r ≠ Ok None).
Proof.
  intros Hwb Hkeyed. unfold nats_delete_definition. unfold mbind at 1, Io_bind at 1.
  destruct (kv_handle collections n) as [Hjs Hst]. destruct (kv collections n) as [[store|e] n1]; simpl in Hjs, Hst; [|by rewrite Hjs].
  rewrite (Hst store eq_refl). rewrite <- Hjs in *. unfold mbind at 1, Io_bind at 1.
  destruct (nats_list_definition_collections n1) as [[l|e] n2] eqn:Hl.
  2: { unfold nats_list_definition_collections, mbind, Io_bind, read_js, io_read in Hl.
       destruct (kv_handle collections n1) as [Hjs' _]. destruct (kv collections n1) as [[]]; simplify_eq/=; by rewrite Hjs'. }
  apply listed_stored in Hl as [Hn2 Hstored]. rewrite <- Hn2 in *.
  destruct (List.find (has_member (pretty u)) l) as [c|] eqn:Hfind.
  - apply List.find_some in Hfind as [Hin%list_elem_of_In Hmem]. destruct (Hstored c Hin) as [key Hc].
    rewrite (Hkeyed key c Hc) in Hc. unfold mbind, Io_bind, io_lift. rewrite parse_uuid_text. cbn [map_err].
    pose proof (mark_loop_spec others turns (pretty (dc_id c)) u n2 Hwb) as Hloop.
    destruct (mark_loop others turns collections _ u n2) as [r n3]. destruct Hloop as (Hg & Hm & Hend).
    split; [done|]. split; [|done]. intros Hr. left. destruct (Hm Hr) as (c' & Hc' & Hd).
    destruct (Hg _ c Hc) as (c2 & Hc2 & Hdef & _). simplify_eq. exists (pretty (dc_id c)), c'. split; [done|]. split; [|done].
    unfold has_member in *. by rewrite Hdef.
  - pose proof (delete_plain n2 (pretty u)) as Hp.
    destruct ((_ ← delete_record _ _ _; _) n2) as [r n3]. destruct Hp as (Hg & Hne & Hnone).
    split; [done|]. split; [|done]. intros Hr. right. by apply Hnone.
Qed.
End delete.

(** ** Two servers *)

(** While a server marks one member of a collection, another marks a second one. *)
Definition pair_definition (key : Uuid) : ProcessDefinition :=
  mkDefinition key "pool" 1 ∅ ∅ ∅ [] [] [] [] ∅ ∅.
Definition pair_collection : DefinitionCollection := mkCollection 9 [pair_definition 1; pair_definition 2] "" VNull [].
Definition pair_server : Server :=
  mkServer (mkJet {["definition_collections" := {[ "9" := (DocCollection pair_collection, 1%N) ]}]} ∅ []) 2.
Definition pair_nats : NatsPersistence Server := mkNats pair_server (mkReport [] [] []) handle_cache_new.
(** The rival marks the second member, under a new revision. *)
Definition rival (s : Server) : Server :=
  match bucket (j_kv (sv_state s)) "definition_collections" !! "9" with
  | Some (DocCollection c, rev) =>
    if (rev <? sv_revision s)%N then
      mkServer (server_put "definition_collections" "9" (DocCollection (with_deleted 2 c)) (sv_revision s) (sv_state s))
        (sv_revision s + 1)
    else s
  | _ => s
  end.
Definition rivals (turn : nat) : Server → Server := if decide (turn = 1) then rival else λ s, s.

Lemma rival_well_behaved : well_behaved rival.
Proof.
  split.
  - intros s. unfold rival. destruct (bucket _ _ !! "9") as [[[] rev]|] eqn:Hs; try done.
    destruct (rev <? sv_revision s)%N; [|done].
    exact (proj1 (mark_grows (J := server_jetstream) (jet s) "9" (DocCollection x) rev (sv_revision s) x 2
      (DocCollection (with_deleted 2 x)) Hs eq_refl eq_refl)).
  - intros s k p q rev Hp. unfold rival. destruct (bucket (j_kv (sv_state s)) _ !! "9") as [[[] r]|] eqn:Hs;
      try (intros Hq; cbn in *; congruence).
    destruct (N.ltb_spec r (sv_revision s)); [|intros Hq; cbn in *; congruence].
    cbn in *. rewrite bucket_in_eq. destruct (decide (k = "9")) as [->|Hne].
    + rewrite lookup_insert_eq. intros [= <- <-]. rewrite Hs in Hp. simplify_eq. lia.
    + rewrite lookup_insert_ne by done. intros Hq. congruence.
Qed.
Lemma pair_keyed : collections_keyed (jet (n_js pair_nats)).
Proof.
  intros key c. unfold stored. cbn. unfold bucket. rewrite lookup_singleton_eq. cbn.
  destruct (decide (key = "9")) as [->|Hne]; [|by rewrite lookup_singleton_ne].
  rewrite lookup_singleton_eq. cbn. intros [= <-]. done.
Qed.

Lemma delete_definition_keeps_marks_witness :
  let '(r, n') := nats_delete_definition (T := decimal_ids) rivals 2 (pretty 1%N) pair_nats in
  grows (jet pair_server) (jet (n_js n')) ∧ r = Ok (Some tt) ∧
  dc_deleted <$> stored (jet (n_js n')) "9" = Some [2%N; 1%N].
Proof.
  pose proof (delete_definition_keeps_marks (T := decimal_ids) rivals 2 1 pair_nats) as H.
  assert ((nats_delete_definition (T := decimal_ids) rivals 2 (pretty 1%N) pair_nats).1 = Ok (Some tt) ∧
    dc_deleted <$> stored (jet (n_js (nats_delete_definition (T := decimal_ids) rivals 2 (pretty 1%N) pair_nats).2)) "9" =
      Some [2%N; 1%N]) as [Hr Hd] by (split; vm_compute; reflexivity).
  destruct (nats_delete_definition rivals 2 (pretty 1%N) pair_nats) as [r n'].
  destruct H as [Hg _]; [|apply pair_keyed|split; [exact Hg|split; [exact Hr|exact Hd]]].
  intros t. unfold rivals. destruct (decide (t = 1)); [apply rival_well_behaved|apply nobody_else].
Defined.
