(* ===== verification/HttpDeploy.v ===== *)
(** * Deployment over HTTP

    engine-server/src/server/deploy.rs: the handlers that deploy a document or a
    collection, list and delete definitions and give back their XML.  A deployment
    parses, checks the model, deploys in the engine, saves the XML and remembers it;
    when the XML cannot be saved the deployment is taken back. *)

From stdpp Require Import base list gmap strings pretty.
From S2P Require Import Prelude Text TextSplit Json CondLexer CondParser Domain Token ProcessDef Runtime History Registry Index TopicIndex TimerIndex Engine Join Boundary Waits InstanceOps DefinitionOps MessageRouting Collections Persistence BpmnModels Iso8601 BpmnScan BpmnTree BpmnData BpmnCompile BpmnSub BpmnParse BpmnWf BpmnCollaboration Redact ModelCheck XmlRewrite LogBuffer HttpState HttpAuth Startup HttpServer.
Local Open Scope rust_scope.

Record DeployRequest := mkDeploy { dr_xml : string; dr_name : string }.
Record DeployResponse := mkDeployed { dp_definition_key : string; dp_version : Z; dp_model_check : option ModelCheckReport }.
Record CollectionProcessResult := mkMember {
  cp_process_id : string;
  cp_definition_key : string;
  cp_version : Z;
  cp_model_check : option ModelCheckReport;
}.
Record CollectionDeployResponse := mkDeployedCollection {
  cd_collection_id : string;
  cd_processes : list CollectionProcessResult;
  cd_collaborations : list Collaboration;
}.
Record DefinitionInfo := mkInfo {
  di_key : string;
  di_bpmn_id : string;
  di_version : Z;
  di_node_count : nat;
  di_is_latest : bool;
}.

(** [serde_json::to_value] of the collaborations. *)
Class CollaborationWriter := { write_collaborations : list Collaboration → Value }.
(** What the store answers to the calls the engine makes while a request runs. *)
Record StoreAnswers := mkAnswers {
  says_instance : Uuid → EngineResult unit;
  says_definition : Uuid → EngineResult unit;
  says_commit : EngineResult unit;
}.

Section deploy.
  Context {U : UnicodeData} {T : TimeLib} {L : XmlLib} {X : XmlCopy} {CR : CollaborationReader} {CW : CollaborationWriter}.
  Context {UT : UuidText} {DT : DebugText} {St : Type} {W : WorkflowPersistence St}.
  (** Whether the binary has the analyzer, and the report a run on a text gives. *)
  Context (compiled : bool) (run : string → ModelCheckReport) (says : StoreAnswers).

(** ** Deployments *)

Definition too_large (xml : string) (max : N) : AppError :=
  PayloadTooLarge ("XML too large: " +:+ pretty (String.length xml) +:+ " bytes (max " +:+ pretty max +:+ ")").
Definition check_size (xml : string) : Hd St unit :=
  max ← app_gets a_max_xml_bytes;
  if (max <? N.of_nat (String.length xml))%N then refuse (too_large xml max) else mret tt.
Definition invalid_xml (err : EngineError) : AppError := BadRequest ("Invalid BPMN XML: " +:+ debug_error err).
(** A call that may panic. *)
Definition app_call {A} (c : call A) : Hd St A :=
  match c with Returns a => mret a | Panics => λ s, (Err (Crashed Panicked), s) end.
Definition model_check (xml : string) : Hd St (option ModelCheckReport) :=
  app_gets (λ s, check compiled (run xml) (a_model_checker s)).
Definition try_engine {A} (m : M A) : Hd St (EngineResult A) := on_engine (try m).

(** The XML of the new definition is saved, or the deployment is taken back. *)
Definition save_or_rollback (key : Uuid) (xml : string) : Hd St unit :=
  saved ← on_store (save_bpmn_xml (pretty key) xml);
  match saved with
  | Some (Err err) =>
    _ ← try_engine (delete_definition (says_instance says) (says_definition says key) key true);
    refuse (PersistenceError ("Failed to save BPMN XML: " +:+ error_text err))
  | _ => mret tt
  end.
(** [deploy_definition]: after the checks, and whole. *)
Definition commit_definition (xml : string) (d : ProcessDefinition) (report : option ModelCheckReport) : Hd St DeployResponse :=
  '(key, v) ← on_engine (deploy d);
  save_or_rollback key xml ;;
  app_modify (λ s, s <| a_deployed_xml ::= <[pretty key := xml]> |>) ;;
  mret (mkDeployed (pretty key) v report).
Definition http_deploy_definition (payload : DeployRequest) : Hd St DeployResponse :=
  check_size (dr_xml payload) ;;
  key ← on_engine new_uuid;
  parsed ← app_call (parse_bpmn_xml key (dr_xml payload));
  d ← app_lift (map_err invalid_xml parsed);
  report ← model_check (dr_xml payload);
  checker ← app_gets a_model_checker;
  match report with
  | Some r => if rejects_deploy checker r then refuse (ModelCheckRejected r) else mret tt
  | None => mret tt
  end ;;
  commit_definition (dr_xml payload) d report.

Definition xml_for_model_check (xml process_id : string) : Hd St string :=
  if compiled then
    isolated ← app_lift (map_err BadRequest (isolate_process xml process_id));
    app_call isolated
  else mret xml.
(** The check of every process of a collection; the reports, by process id. *)
Definition check_member (xml process_id : string) : Hd St (string * option ModelCheckReport) :=
  checked ← xml_for_model_check xml process_id;
  report ← model_check checked;
  checker ← app_gets a_model_checker;
  match report with
  | Some r =>
    if rejects_deploy checker r
    then refuse (BadRequest ("Model check failed for '" +:+ process_id +:+ "': " +:+ summary r))
    else mret (process_id, report)
  | None => mret (process_id, None)
  end.
Fixpoint map_hd {A B} (f : A → Hd St B) (l : list A) : Hd St (list B) :=
  match l with
  | [] => mret []
  | x :: l => y ← f x; ys ← map_hd f l; mret (y :: ys)
  end.
Definition member_result (c : DefinitionCollection) (m : string * option ModelCheckReport) : Hd St CollectionProcessResult :=
  match List.find (λ d, String.eqb (def_id d) m.1) (dc_definitions c) with
  | Some d => mret (mkMember m.1 (pretty (def_key d)) (version d) m.2)
  | None => refuse (BadRequest ("selected process '" +:+ m.1 +:+ "' was not deployed"))
  end.
(** [deploy_collection]. *)
Definition remember_collection (c : DefinitionCollection) (xml : string) (cache : DeployedXml) : DeployedXml :=
  fold_left (λ cache d, <[pretty (def_key d) := xml]> cache) (dc_definitions c) cache.
Definition http_deploy_collection (keys : nat → Uuid) (payload : DeployRequest) : Hd St CollectionDeployResponse :=
  let xml := dr_xml payload in
  check_size xml ;;
  parsed ← app_call (parse_bpmn_collaboration keys xml);
  document ← app_lift (map_err invalid_xml parsed);
  match doc_processes document with
  | [] => refuse (BadRequest "Collection has no executable processes")
  | _ => mret tt
  end ;;
  reports ← map_hd (λ d, check_member xml (def_id d)) (doc_processes document);
  c ← on_engine (deploy_collection (says_commit says) (doc_processes document) xml
                   (write_collaborations (doc_collaborations document)));
  app_modify (λ s, s <| a_deployed_xml ::= remember_collection c xml |>) ;;
  results ← map_hd (member_result c) reports;
  mret (mkDeployedCollection (pretty (dc_id c)) results (doc_collaborations document)).

(** ** Reading and deleting *)

(** [definitions.list()] of the engine. *)
Definition list_definitions (e : Engine) : list (Uuid * string * Z * nat) :=
  (λ '(k, d), (k, def_id d, version d, size (nodes d))) <$> map_to_list (e_definitions e).
(** The greatest version of every process id; no version below 0 counts. *)
Definition note_version (latest : gmap string Z) (raw : Uuid * string * Z * nat) : gmap string Z :=
  let '(_, bpmn_id, v, _) := raw in
  let entry := default 0%Z (latest !! bpmn_id) in
  <[bpmn_id := if (entry <? v)%Z then v else entry]> latest.
Definition latest_versions (raw : list (Uuid * string * Z * nat)) : gmap string Z := fold_left note_version raw ∅.
Definition http_list_definitions : Hd St (list DefinitionInfo) :=
  raw ← app_gets (λ s, list_definitions (a_engine s));
  let latest := latest_versions raw in
  mret ((λ '(key, bpmn_id, v, n), mkInfo (pretty key) bpmn_id v n (bool_decide (latest !! bpmn_id = Some v))) <$> raw).

Definition http_get_definition_xml (id : string) : Hd St string :=
  cached ← app_gets (λ s, a_deployed_xml s !! id);
  match cached with
  | Some xml => mret xml
  | None =>
    stored ← store_reads (load_bpmn_xml id);
    match stored with
    | Some (Ok xml) => mret xml
    | _ => refuse (NotFound ("No XML found for definition '" +:+ id +:+ "'"))
    end
  end.

Definition http_delete_definition (id : string) (cascade : option bool) : Hd St unit :=
  key ← path_uuid id;
  on_engine (delete_definition (says_instance says) (says_definition says key) key (default false cascade)) ;;
  app_modify (λ s, s <| a_deployed_xml ::= delete id |>).
Definition http_delete_all_definitions (bpmn_id : string) (cascade : option bool) : Hd St unit :=
  versions ← app_gets (λ s, list_definition_versions (e_definitions (a_engine s)) bpmn_id);
  on_engine (delete_all_definitions (says_instance says) (says_definition says) bpmn_id (default false cascade)) ;;
  app_modify (λ s, s <| a_deployed_xml ::= λ cache, fold_left (λ cache v, delete (pretty v.1.1) cache) versions cache |>).

(** ** A deployment happens whole or not at all *)

(** The key the next definition gets is new. *)
Definition key_is_fresh (e : Engine) : Prop := e_definitions e !! e_uuid e = None ∧ instances_of (e_uuid e) e = [].
(** The version the registry gives. *)
Definition versioned (reg : DefinitionRegistry) (d : ProcessDefinition) : ProcessDefinition :=
  d <| version := next_version (highest_version reg (def_id d)) (version d) |>.

Lemma deploy_run d e :
  sub_processes d = [] →
  ∃ u l, deploy d e = (Ok (def_key d, version (versioned (e_definitions e) d)),
    sent u l (e <| e_definitions ::= <[def_key d := versioned (e_definitions e) d]> |>)).
Proof.
  intros Hflat. unfold deploy. rewrite bind_run. cbn [gets]. unfold deploy_definition. rewrite deploy_inner_eq, Hflat.
  cbn [deploy_subs app]. rewrite bind_run. cbn [modify]. quiet_step u l Hu. eexists _, _. unfold versioned. f_equal.
  destruct d. cbn in Hflat. subst. done.
Qed.
Lemma delete_unused_run answers answer key cascade e :
  is_Some (e_definitions e !! key) → instances_of key e = [] →
  ∃ u l, delete_definition answers answer key cascade e = (map_err Throws answer, sent u l (e <| e_definitions ::= delete key |>)).
Proof.
  intros [d Hd] Hi. unfold delete_definition, get_definition. rewrite bind_run, bind_run. cbn [gets]. rewrite Hd.
  cbn [mret M_ret]. rewrite bind_run. cbn [gets]. rewrite Hi, bind_run. cbn [mret M_ret]. rewrite bind_run. cbn [modify].
  rewrite bind_run. cbn [emit modify]. rewrite bind_run. unfold lift. destruct answer as [[]|err]; cbn [map_err].
  - eexists _, [_; _]. unfold sent, emit_event, emit, modify. cbn. by rewrite <- app_assoc.
  - by eexists _, [_].
Qed.

(** A rejected XML: the engine's maps and the remembered texts are what they were. *)
Definition nothing_deployed (s s' : AppState St) : Prop :=
  e_definitions (a_engine s') = e_definitions (a_engine s) ∧ e_instances (a_engine s') = e_instances (a_engine s) ∧
  a_deployed_xml s' = a_deployed_xml s.
Lemma save_or_rollback_run key xml (s : AppState St) :
  is_Some (e_definitions (a_engine s) !! key) → instances_of key (a_engine s) = [] →
  match save_or_rollback key xml s with
  | (Ok _, s') => (a_persistence s = None ∧ s' = s) ∨
      ∃ st, a_persistence s = Some st ∧ (save_bpmn_xml (pretty key) xml st).1 = Ok tt ∧
        s' = s <| a_persistence := Some (save_bpmn_xml (pretty key) xml st).2 |>
  | (Err x, s') => (∃ err, x = Refused err) ∧ e_definitions (a_engine s') = delete key (e_definitions (a_engine s)) ∧
      e_instances (a_engine s') = e_instances (a_engine s) ∧ a_deployed_xml s' = a_deployed_xml s
  end.
Proof.
  intros Hd Hi. unfold save_or_rollback. rewrite hd_bind_run. unfold on_store.
  destruct (a_persistence s) as [st|] eqn:Hp; [|by left].
  destruct (save_bpmn_xml (pretty key) xml st) as [[[]|err] st'] eqn:Hs; [right; exists st; by rewrite Hs|].
  rewrite hd_bind_run. unfold try_engine, on_engine, try. cbn [a_engine].
  change (a_engine (s <| a_persistence := Some st' |>)) with (a_engine s).
  destruct (delete_unused_run (says_instance says) (says_definition says key) key true _ Hd Hi) as (u & l & ->).
  destruct (says_definition says key) as [[]|]; cbn [map_err]; (split; [by eexists|]); done.
Qed.
Lemma check_size_run xml (s : AppState St) :
  check_size xml s =
  (if (a_max_xml_bytes s <? N.of_nat (String.length xml))%N then Err (Refused (too_large xml (a_max_xml_bytes s))) else Ok tt, s).
Proof. unfold check_size. rewrite hd_bind_run. cbn [app_gets]. by destruct (_ <? _)%N. Qed.

(** The commit of a definition whose key is new. *)
Lemma commit_definition_run xml d report (s : AppState St) :
  sub_processes d = [] → e_definitions (a_engine s) !! def_key d = None → instances_of (def_key d) (a_engine s) = [] →
  match commit_definition xml d report s with
  | (Ok resp, s') =>
    let d' := versioned (e_definitions (a_engine s)) d in
    resp = mkDeployed (pretty (def_key d)) (version d') report ∧
    e_definitions (a_engine s') = <[def_key d := d']> (e_definitions (a_engine s)) ∧
    e_instances (a_engine s') = e_instances (a_engine s) ∧
    a_deployed_xml s' = <[pretty (def_key d) := xml]> (a_deployed_xml s) ∧
    ∀ st, a_persistence s = Some st → (save_bpmn_xml (pretty (def_key d)) xml st).1 = Ok tt ∧
      a_persistence s' = Some (save_bpmn_xml (pretty (def_key d)) xml st).2
  | (Err x, s') => (∃ err, x = Refused err) ∧ nothing_deployed s s'
  end.
Proof.
  intros Hflat Hnew Hins. unfold commit_definition. rewrite hd_bind_run. unfold on_engine.
  destruct (deploy_run d (a_engine s) Hflat) as (u & l & ->). cbn [map_err]. rewrite hd_bind_run.
  set (e1 := sent u l _). assert (is_Some (e_definitions e1 !! def_key d)) as Hd.
  { exists (versioned (e_definitions (a_engine s)) d). apply lookup_insert_eq. }
  pose proof (save_or_rollback_run (def_key d) xml (s <| a_engine := e1 |>) Hd Hins) as H.
  destruct (save_or_rollback _ _ _) as [[[]|x] s'].
  - rewrite hd_bind_run. cbn [app_modify mret Hd_ret]. split; [done|].
    destruct H as [[Hp ->]|(st & Hp & Hok & ->)]; change (a_persistence (s <| a_engine := e1 |>)) with (a_persistence s) in Hp.
    + split; [done|]. split; [done|]. split; [done|]. intros st Hst. congruence.
    + split; [done|]. split; [done|]. split; [done|]. intros st' Hst. rewrite Hp in Hst. by injection Hst as <-.
  - destruct H as (Hx & Hdel & Hi & Hc). split; [done|]. split; [|done]. rewrite Hdel.
    change (delete (def_key d) (<[def_key d := versioned (e_definitions (a_engine s)) d]> (e_definitions (a_engine s)))
      = e_definitions (a_engine s)). by rewrite delete_insert_eq, delete_id.
Qed.

(** What a deployment that succeeded has done. *)
Record deployed (payload : DeployRequest) (resp : DeployResponse) (s s' : AppState St) : Prop := {
  dep_size : (N.of_nat (String.length (dr_xml payload)) ≤ a_max_xml_bytes s)%N;
  dep_definition : ∃ d, parse_bpmn_xml (e_uuid (a_engine s)) (dr_xml payload) = Returns (Ok d) ∧
    e_definitions (a_engine s') = <[e_uuid (a_engine s) := versioned (e_definitions (a_engine s)) d]> (e_definitions (a_engine s)) ∧
    dp_version resp = version (versioned (e_definitions (a_engine s)) d);
  dep_key : dp_definition_key resp = pretty (e_uuid (a_engine s));
  dep_instances : e_instances (a_engine s') = e_instances (a_engine s);
  dep_cache : a_deployed_xml s' = <[dp_definition_key resp := dr_xml payload]> (a_deployed_xml s);
  dep_saved : ∀ st, a_persistence s = Some st →
    (save_bpmn_xml (dp_definition_key resp) (dr_xml payload) st).1 = Ok tt ∧
    a_persistence s' = Some (save_bpmn_xml (dp_definition_key resp) (dr_xml payload) st).2;
  dep_checked : dp_model_check resp = check compiled (run (dr_xml payload)) (a_model_checker s) ∧
    ∀ r, dp_model_check resp = Some r → rejects_deploy (a_model_checker s) r = false;
}.

(** C15: A deployment over HTTP happens whole or not at all.  When it succeeds the text was
    not too large, it parsed, the model check did not reject it, the store took the XML,
    exactly the parsed definition has been added under a new key with the version the
    registry gives, and the text is remembered under that key.  When it is refused, also
    because the store failed, whatever the store says to taking it back, the definitions,
    the instances and the remembered texts are what they were.  It never panics. *)
Theorem http_deploy_definition_atomic payload s :
  key_is_fresh (a_engine s) →
  match http_deploy_definition payload s with
  | (Ok resp, s') => deployed payload resp s s'
  | (Err x, s') => (∃ err, x = Refused err) ∧ nothing_deployed s s'
  end.
Proof.
  intros [Hnew Hins]. unfold http_deploy_definition. rewrite hd_bind_run, check_size_run.
  destruct (N.ltb_spec (a_max_xml_bytes s) (N.of_nat (String.length (dr_xml payload)))) as [|Hsize]; [by split; [eexists|]|].
  rewrite hd_bind_run. unfold on_engine at 1. cbn [new_uuid map_err]. rewrite hd_bind_run.
  pose proof (parse_bpmn_xml_compiled (e_uuid (a_engine s)) (dr_xml payload)) as Hparse.
  destruct (parse_bpmn_xml _ _) as [[d|err]|] eqn:Hd; [|by split; [eexists|]|done]. cbn [app_call mret Hd_ret].
  destruct Hparse as (lk & p & Hc). pose proof (compile_one_flat _ _ _ _ _ Hc) as Hflat.
  apply compile_one_ok in Hc as (_ & _ & Hkey & _).
  rewrite hd_bind_run. cbn [app_lift map_err]. rewrite hd_bind_run. cbn [model_check]. unfold model_check, app_gets.
  set (s1 := s <| a_engine := _ |>). change (a_model_checker s1) with (a_model_checker s).
  set (report := check compiled _ _). rewrite 2!hd_bind_run. change (a_model_checker s1) with (a_model_checker s).
  destruct (match report with Some r => rejects_deploy (a_model_checker s) r | None => false end) eqn:Hrej.
  { destruct report as [r|]; [|done]. rewrite Hrej. by split; [eexists|]. }
  assert (match report with
    | Some r => if rejects_deploy (a_model_checker s) r then refuse (ModelCheckRejected r) else mret () | None => mret () end s1
    = (Ok tt, s1)) as -> by (destruct report as [r|]; [by rewrite Hrej|done]).
  pose proof (commit_definition_run (dr_xml payload) d report s1 Hflat) as H. rewrite Hkey in H.
  specialize (H Hnew Hins). destruct (commit_definition _ _ _ s1) as [[resp|x] s']; [|by apply H].
  destruct H as (-> & H1 & H2 & H3 & H4). split; try done.
  - by exists d.
  - split; [done|]. intros r Hr. cbn in Hr. by rewrite Hr in Hrej.
Qed.

(** ** The latest version *)

Lemma latest_versions_app raw r : latest_versions (raw ++ [r]) = note_version (latest_versions raw) r.
Proof. unfold latest_versions. by rewrite fold_left_app. Qed.
Lemma latest_versions_spec raw bpmn_id :
  match latest_versions raw !! bpmn_id with
  | Some m => (0 ≤ m)%Z ∧ (m = 0%Z ∨ ∃ k n, (k, bpmn_id, m, n) ∈ raw) ∧ ∀ k v n, (k, bpmn_id, v, n) ∈ raw → (v ≤ m)%Z
  | None => ∀ k v n, (k, bpmn_id, v, n) ∉ raw
  end.
Proof.
  induction raw as [|[[[k id] v] n] raw IH] using rev_ind; [unfold latest_versions; cbn [fold_left]; rewrite lookup_empty; by intros k v n ?%not_elem_of_nil|].
  rewrite latest_versions_app. unfold note_version. destruct (decide (id = bpmn_id)) as [->|Hne].
  - rewrite lookup_insert_eq. destruct (latest_versions raw !! bpmn_id) as [m|]; cbn [default from_option id] in *.
    + destruct IH as (H0 & Hm & Hmax). destruct (Z.ltb_spec m v); (split; [lia|]); split.
      * right. exists k, n. apply elem_of_app. right. by apply list_elem_of_singleton.
      * intros k' v' n' [Hin|Hin%list_elem_of_singleton]%elem_of_app; [specialize (Hmax _ _ _ Hin); lia|]. simplify_eq. lia.
      * destruct Hm as [?|(k' & n' & ?)]; [by left|]. right. exists k', n'. apply elem_of_app. by left.
      * intros k' v' n' [Hin|Hin%list_elem_of_singleton]%elem_of_app; [by eapply Hmax|]. simplify_eq. lia.
    + destruct (Z.ltb_spec 0 v); (split; [lia|]); split.
      * right. exists k, n. apply elem_of_app. right. by apply list_elem_of_singleton.
      * intros k' v' n' [Hin|Hin%list_elem_of_singleton]%elem_of_app; [by apply IH in Hin|]. simplify_eq. lia.
      * by left.
      * intros k' v' n' [Hin|Hin%list_elem_of_singleton]%elem_of_app; [by apply IH in Hin|]. simplify_eq. lia.
  - rewrite lookup_insert_ne by done. destruct (latest_versions raw !! bpmn_id) as [m|].
    + destruct IH as (H0 & Hm & Hmax). split; [done|]. split.
      * destruct Hm as [?|(k' & n' & ?)]; [by left|]. right. exists k', n'. apply elem_of_app. by left.
      * intros k' v' n' [Hin|Hin%list_elem_of_singleton]%elem_of_app; [by eapply Hmax|]. simplify_eq.
    + intros k' v' n' [Hin|Hin%list_elem_of_singleton]%elem_of_app; [by eapply IH|]. simplify_eq.
Qed.
(** A definition is listed as the latest exactly when no other of its process has a
    greater version. *)
Lemma listed_latest e k d :
  (∀ k d, e_definitions e !! k = Some d → 1 ≤ version d)%Z → e_definitions e !! k = Some d →
  latest_versions (list_definitions e) !! def_id d = Some (version d) ↔
  ∀ k' d', e_definitions e !! k' = Some d' → def_id d' = def_id d → (version d' ≤ version d)%Z.
Proof.
  intros Hpos Hd.
  assert (∀ k d, e_definitions e !! k = Some d → (k, def_id d, version d, size (nodes d)) ∈ list_definitions e) as Hin.
  { intros k0 d0 H0. apply list_elem_of_fmap. exists (k0, d0). by rewrite elem_of_map_to_list. }
  assert (∀ k id v n, (k, id, v, n) ∈ list_definitions e → ∃ d, e_definitions e !! k = Some d ∧ id = def_id d ∧ v = version d) as Hout.
  { intros k0 id v n ([k1 d1] & Heq & H1%elem_of_map_to_list)%list_elem_of_fmap. simplify_eq. by exists d1. }
  pose proof (latest_versions_spec (list_definitions e) (def_id d)) as H.
  destruct (latest_versions _ !! _) as [m|]; [|by apply Hin, H in Hd].
  destruct H as (H0 & Hm & Hmax). split.
  - intros [= ->] k' d' Hd' Hid. eapply Hmax. rewrite <- Hid. by apply Hin.
  - intros Hall. f_equal. apply Z.le_antisymm; [|eapply Hmax; by apply Hin].
    destruct Hm as [->|(k' & n & (d' & Hd' & Hid & ->)%Hout)]; [specialize (Hpos _ _ Hd); lia|]. by eapply Hall.
Qed.

(** ** The text of a deleted definition *)

(** The cache is keyed by the text of the key, but deletion removes the text of the
    request: a definition deleted under another spelling of its key leaves its XML
    behind, and it is served from then on. *)
Lemma deleted_xml_still_served raw key xml cascade s s' :
  parse_uuid raw = Ok key → raw ≠ pretty key → a_deployed_xml s !! pretty key = Some xml →
  http_delete_definition raw cascade s = (Ok tt, s') →
  http_get_definition_xml (pretty key) s' = (Ok xml, s').
Proof.
  intros Hp Hne Hx. unfold http_delete_definition, path_uuid, parse_path_uuid. rewrite hd_bind_run, Hp. cbn [app_lift map_err].
  rewrite hd_bind_run. unfold on_engine. destruct (delete_definition _ _ _ _ _) as [[[]|] e']; [|done].
  cbn [map_err app_modify]. intros [= <-]. unfold http_get_definition_xml. rewrite hd_bind_run. unfold app_gets.
  replace (a_deployed_xml _ !! pretty key) with (Some xml); [done|]. symmetry.
  apply (lookup_delete_Some (M := gmap string)). by split.
Qed.
End deploy.

(** ** A server with a store in memory *)

Definition fixed_writer : CollaborationWriter := {| write_collaborations _ := VNull |}.
Definition all_well : StoreAnswers := mkAnswers (λ _, Ok tt) (λ _, Ok tt) (Ok tt).
Definition memory_server (max_xml : N) : AppState InMemoryPersistence :=
  example_server engine_new (Some mem_new) <| a_max_xml_bytes := max_xml |>.
Lemma http_deploy_definition_atomic_witness :
  match @http_deploy_definition ascii_only no_time pools_lib plain_debug _ InMemoryPersistence_port false (λ _, busy_report) all_well
    (mkDeploy "<definitions/>" "shop") (memory_server 14) with
  | (Ok resp, s') => dp_definition_key resp = "1000" ∧ a_deployed_xml s' = {["1000" := "<definitions/>"]}
  | (Err _, _) => False
  end.
Proof.
  pose proof (@http_deploy_definition_atomic ascii_only no_time pools_lib plain_debug _ InMemoryPersistence_port false (λ _, busy_report)
    all_well (mkDeploy "<definitions/>" "shop") (memory_server 14)) as H.
  destruct (http_deploy_definition _ _ _ _ _) as [[resp|x] s'] eqn:Hrun; [|by vm_compute in Hrun].
  destruct H as [_ _ Hkey _ Hcache _ _]; [by split|]. rewrite Hcache, Hkey. split; vm_compute; reflexivity.
Defined.
