(* ===== verification/HttpHandlers.v ===== *)
(** * Instances, correlation, history and monitoring over HTTP

    engine-server/src/server/instances.rs, messages.rs, signals.rs, timers.rs, events.rs,
    history.rs and monitoring.rs.  A handler gets the path segments, the query and the
    body as axum and serde have decoded them. *)

From stdpp Require Import base list gmap strings numbers pretty.
From Stdlib Require Import Ascii.
From S2P Require Import Prelude Text TextSplit Float Json CondLexer CondParser CondEval Domain Token ProcessDef DataMappings Runtime History Graph Registry Index TopicIndex TimerIndex Engine Scripts Handlers Join Boundary Waits EventScope ProcessStart Signals Conditional NextAction InstanceOps DefinitionOps MessageRouting TimerProcessor Persistence Redact ModelCheck LogBuffer HttpState HttpAuth Startup HttpServer.
Local Open Scope rust_scope.

(** ** Requests and responses *)

Record StartRequest := mkStartRequest {
  sr_definition_key : string;
  sr_business_key : option string;
  sr_variables : option Vars;
}.
Record StartLatestRequest := mkStartLatest {
  sl_bpmn_process_id : string;
  sl_business_key : option string;
  sl_variables : option Vars;
}.
Record StartLatestResponse := mkStartedLatest { sl_instance_id : string; sl_definition_key : string; sl_version : Z }.
(** [cancel_current] is true when the body does not say. *)
Record MoveTokenRequest := mkMoveToken {
  mt_target_node_id : string;
  mt_variables : option Vars;
  mt_cancel_current : option bool;
}.
Record MigrateInstanceRequest := mkMigrate { mi_target_definition_key : string; mi_node_mapping : gmap string string }.
Record ServerHistoryQuery := mkServerHistory {
  sh_event_types : option string;
  sh_node_id : option string;
  sh_actor_type : option string;
  sh_from : option DateTime;
  sh_to : option DateTime;
  sh_limit : option nat;
  sh_offset : option nat;
}.
Record CompletedInstancesQuery := mkServerCompleted {
  sq_definition_key : option string;
  sq_business_key : option string;
  sq_from : option DateTime;
  sq_to : option DateTime;
  sq_state : option string;
  sq_limit : option nat;
  sq_offset : option nat;
}.
Record BackendInfo := mkBackend {
  bk_backend_type : string;
  bk_nats_url : option string;
  bk_connected : bool;
  bk_storage_status : StorageStatus;
}.
Record MonitoringData := mkMonitoring {
  md_definitions_count : nat;
  md_instances_total : nat;
  md_instances_running : nat;
  md_instances_completed : nat;
  md_pending_user_tasks : nat;
  md_pending_service_tasks : nat;
  md_pending_timers : nat;
  md_pending_message_catches : nat;
  md_pending_signal_catches : nat;
  md_persistence_errors : N;
  md_storage_info : option StorageInfo;
  md_storage_status : StorageStatus;
}.

(** [with_business_key]: a top-level key that is not blank wins. *)
Definition with_business_key (variables : Vars) (business_key : option string) : Vars :=
  match business_key with
  | Some key => if String.eqb (trim_str key) "" then variables else <["business_key" := VString key]> variables
  | None => variables
  end.
Definition default_true : bool := true.

(** [parse_actor_type]. *)
Definition parse_actor_type (raw : string) : option ActorType :=
  let t := to_ascii_lowercase (trim_str raw) in
  if String.eqb t "engine" then Some ActorEngine
  else if String.eqb t "user" then Some ActorUser
  else if is_one_of ["serviceworker"; "service_worker"] t then Some ActorServiceWorker
  else if String.eqb t "timer" then Some ActorTimer
  else if String.eqb t "listener" then Some ActorListener
  else None.
(** The names serde gives the event types. *)
Definition event_types : list (string * HistoryEventType) :=
  [("InstanceStarted", InstanceStarted); ("InstanceCompleted", InstanceCompleted); ("InstanceDeleted", InstanceDeleted);
   ("TaskCompleted", TaskCompleted); ("VariableUpdated", VariableUpdated); ("GatewayTaken", GatewayTaken);
   ("ListenerExecuted", ListenerExecuted); ("TokenAdvanced", TokenAdvanced); ("TokenForked", TokenForked);
   ("TokenJoined", TokenJoined); ("BranchCompleted", BranchCompleted); ("Error", HistoryError);
   ("CallActivityStarted", CallActivityStarted); ("CallActivityCompleted", CallActivityCompleted);
   ("InstanceSuspended", InstanceWasSuspended); ("InstanceResumed", InstanceResumed); ("TokenMoved", TokenMoved);
   ("EscalationThrown", EscalationThrown); ("CompensationTriggered", CompensationTriggered); ("SignalCaught", SignalCaught);
   ("SignalThrown", SignalThrown); ("ConditionalCaught", ConditionalCaught); ("InstanceMigrated", InstanceMigrated)].
Definition parse_event_types (s : string) : list HistoryEventType :=
  omap (λ part, snd <$> List.find (λ named, String.eqb named.1 (of_chars (trim part))) event_types)
    (split_on (ch ",") (chars s)).

(** The name of a server-sent event, and the stream of one client: a receiver that is
    too slow misses events. *)
Definition event_type (ev : EngineEvent) : string :=
  match ev with
  | InstanceChanged => "instance_changed"
  | TaskChanged => "task_changed"
  | DefinitionChanged => "definition_changed"
  end.
Definition engine_events (received : list (option EngineEvent)) : list string := omap (fmap event_type) received.

Section handlers.
  Context {U : UnicodeData} {S : ScriptEngine} {C : CronLib} {R : Nested} {UT : UuidText} {DT : DebugText}.
  Context {St : Type} {W : WorkflowPersistence St}.

(** ** Instances (instances.rs) *)

Definition http_start_instance (payload : StartRequest) : Hd St string :=
  key ← path_uuid (sr_definition_key payload);
  id ← on_engine (start_instance_with_variables key (with_business_key (default ∅ (sr_variables payload)) (sr_business_key payload)));
  mret (pretty id).
Definition http_start_instance_latest (payload : StartLatestRequest) : Hd St StartLatestResponse :=
  '(id, key) ← on_engine (start_instance_latest (sl_bpmn_process_id payload)
                  (with_business_key (default ∅ (sl_variables payload)) (sl_business_key payload)));
  found ← app_gets (λ s, e_definitions (a_engine s) !! key);
  match found with
  | Some d => mret (mkStartedLatest (pretty id) (pretty key) (version d))
  | None => refuse (BadRequest "Definition not found")
  end.
(** The turns of a repeating timer go on beside the request. *)
Definition http_start_timer_instance (payload : StartRequest) : Hd St string :=
  key ← path_uuid (sr_definition_key payload);
  '(id, _) ← on_engine (start_timer_instance key (with_business_key (default ∅ (sr_variables payload)) (sr_business_key payload)));
  mret (pretty id).

(** The total goes into a header when a page was asked for. *)
Definition http_list_instances (limit offset : option nat) : Hd St (list ProcessInstance * option nat) :=
  match limit, offset with
  | None, None => app_gets (λ s, (list_instances (a_engine s), None))
  | _, _ => app_gets (λ s,
      let page := list_instances_page (default 0 offset) ((λ l, Nat.max 1 (Nat.min l 1000)) <$> limit) (a_engine s) in
      (page_items page, Some (page_total page)))
  end.

(** What the store has archived under an id; the engine uses the server's store. *)
Definition archived (id : Uuid) (s : AppState St) : EngineResult (option ProcessInstance) :=
  match a_persistence s with Some st => get_completed_instance (pretty id) st | None => Ok None end.
(** [get_instance_details]. *)
Definition instance_details (id : Uuid) (s : AppState St) : EngineResult ProcessInstance :=
  get_instance_or_archived (archived id s) id (a_engine s).
Definition http_get_instance (id : string) : Hd St ProcessInstance :=
  id ← path_uuid id;
  r ← app_gets (instance_details id);
  app_lift (map_err EngineFailed r).
Definition http_get_instance_incidents (id : string) : Hd St (list Incident) :=
  id ← path_uuid id;
  r ← app_gets (λ s, get_instance_incidents (archived id s) id (a_engine s));
  app_lift (map_err EngineFailed r).
(** The body is optional. *)
Definition http_resolve_instance_incident (id incident_id : string) (payload : option (option string)) : Hd St Incident :=
  id ← path_uuid id;
  incident ← path_uuid incident_id;
  on_engine (resolve_instance_incident id incident (mjoin payload)).
Definition http_update_instance_variables (id : string) (variables : Vars) : Hd St unit :=
  id ← path_uuid id;
  on_engine (update_instance_variables id variables).
Definition http_suspend_instance (id : string) : Hd St unit := id ← path_uuid id; on_engine (suspend_instance id).
Definition http_resume_instance (id : string) : Hd St unit := id ← path_uuid id; on_engine (resume_instance id).
Definition http_move_token (id : string) (payload : MoveTokenRequest) : Hd St unit :=
  id ← path_uuid id;
  on_engine (move_token id (mt_target_node_id payload) (default ∅ (mt_variables payload))
               (default default_true (mt_cancel_current payload))).
Definition http_migrate_instance (id : string) (payload : MigrateInstanceRequest) : Hd St unit :=
  id ← path_uuid id;
  target ← path_uuid (mi_target_definition_key payload);
  on_engine (migrate_instance id target (mi_node_mapping payload)).
(** [says] is what the store answers to the deletion of the record. *)
Definition http_delete_instance (says : Uuid → EngineResult unit) (id : string) : Hd St unit :=
  id ← path_uuid id;
  on_engine (delete_instance (says id) id).

(** ** Messages, signals and timers *)

Definition http_correlate_message (name : string) (business_key : option string) (variables : option Vars) : Hd St (list string) :=
  affected ← on_engine (correlate_message name business_key (default ∅ variables));
  mret (pretty <$> affected).
Definition http_correlate_signal (name : string) (variables : option Vars) : Hd St (list string) :=
  affected ← on_engine (correlate_signal name (default ∅ variables));
  mret (pretty <$> affected).
Definition http_process_timers : Hd St nat := on_engine process_timers.
Definition get_pending_messages : Hd St (list PendingMessageCatch) := app_gets (λ s, (map_to_list (e_message_catches (a_engine s))).*2).
Definition get_pending_signals : Hd St (list PendingSignalCatch) := app_gets (λ s, (map_to_list (e_signal_catches (a_engine s))).*2).
Definition http_pending_timers : Hd St (list PendingTimer) := app_gets (λ s, (map_to_list (primary (e_timers (a_engine s)))).*2).

(** ** History (history.rs) *)

Definition query_failed (err : EngineError) : AppError := BadRequest ("Failed to query history: " +:+ debug_error err).
Definition get_instance_history (id : string) (query : ServerHistoryQuery) : Hd St (list HistoryEntry) :=
  id ← path_uuid id;
  answer ← store_reads (query_history
    (mkHistoryQuery id (parse_event_types <$> sh_event_types query) (sh_node_id query)
       (sh_actor_type query ≫= parse_actor_type) (sh_from query) (sh_to query) (sh_limit query) (sh_offset query)));
  match answer with
  | Some r => app_lift (map_err query_failed r)
  | None => mret []
  end.
Definition get_instance_history_entry (id event_id : string) : Hd St HistoryEntry :=
  id ← path_uuid id;
  event ← path_uuid event_id;
  answer ← store_reads (query_history (mkHistoryQuery id None None None None None None None));
  match answer with
  | Some r =>
    history ← app_lift (map_err query_failed r);
    match List.find (λ x, bool_decide (he_id x = event)) history with
    | Some entry => mret entry
    | None => refuse (BadRequest ("History entry " +:+ pretty event +:+ " not found"))
    end
  | None => refuse (BadRequest "No persistence configured")
  end.
Definition list_completed_instances (query : CompletedInstancesQuery) : Hd St (list ProcessInstance) :=
  key ← match sq_definition_key query with
        | Some raw => key ← path_uuid raw; mret (Some key)
        | None => mret None
        end;
  answer ← store_reads (query_completed_instances
    (mkCompletedQuery key (sq_business_key query) (sq_from query) (sq_to query) (sq_state query) (sq_limit query) (sq_offset query)));
  match answer with
  | Some r => app_lift (map_err (λ err, BadRequest ("Failed to query completed instances: " +:+ debug_error err)) r)
  | None => mret []
  end.
Definition http_get_completed_instance (id : string) : Hd St ProcessInstance :=
  id ← path_uuid id;
  r ← app_gets (instance_details id);
  app_lift (map_err (λ err, BadRequest (debug_error err)) r).

(** ** Monitoring (monitoring.rs) *)

Definition ready_endpoint (s : AppState St) : StatusCode * string :=
  if a_require_nats s && bool_decide (a_persistence s = None) then (503%N, "Persistence required but not configured")
  else if bool_decide (storage_state (a_storage_status s) = StorageFailed) then
    (503%N, "Persistence bootstrap failed: " +:+ storage_detail (a_storage_status s))
  else
    match get_storage_info <$> a_persistence s with
    | Some (Err _) => (503%N, "NATS disconnected")
    | _ => (200%N, "Ready")
    end.
Definition get_backend_info (s : AppState St) : BackendInfo :=
  match a_persistence s with
  | Some st =>
    let info := match get_storage_info st with Ok info => info | Err _ => None end in
    mkBackend "persistent" ((λ i, si_host i +:+ ":" +:+ pretty (si_port i)) <$> info) true (a_storage_status s)
  | None => mkBackend "in-memory" (Some (redact_nats_url (a_nats_url s))) false (a_storage_status s)
  end.
(** The counter of failed writes is the persistence layer's. *)
Definition get_monitoring_data (persistence_error_count : N) (s : AppState St) : MonitoringData :=
  let stats := get_stats persistence_error_count (a_engine s) in
  let info := match get_storage_info <$> a_persistence s with Some (Ok info) => info | _ => None end in
  mkMonitoring (definitions_count stats) (instances_total stats)
    (instances_running stats + instances_waiting_user stats + instances_waiting_service stats) (instances_completed stats)
    (stat_user_tasks stats) (stat_service_tasks stats) (stat_timers stats) (stat_message_catches stats)
    (stat_signal_catches stats) (persistence_errors stats) info (a_storage_status s).
(** A response is a status with a text, or the entries. *)
Definition no_persistence : StatusCode * string := (503%N, "No persistence layer configured").
Definition http_bucket_entries (bucket : string) (offset limit : option nat) (s : AppState St)
    : result (StatusCode * string) (list BucketEntry) :=
  match a_persistence s with
  | Some st => map_err (λ e, (500%N, error_text e)) (get_bucket_entries bucket (default 0 offset) (Nat.max 1 (Nat.min (default 50 limit) 1000)) st)
  | None => Err no_persistence
  end.
Definition http_bucket_entry_detail (bucket key : string) (s : AppState St) : result (StatusCode * string) BucketEntryDetail :=
  match a_persistence s with
  | Some st => map_err (λ e, (404%N, error_text e)) (get_bucket_entry_detail bucket key st)
  | None => Err no_persistence
  end.

(** ** What the answers say *)

Lemma omap_shorter {A B} (f : A → option B) l : length (omap f l) ≤ length l.
Proof. induction l as [|x l IH]; cbn; [done|]. destruct (f x); cbn; lia. Qed.

(** The server is ready exactly when its storage is usable: a store is there if one is
    required, its setup did not fail, and it answers now. *)
Lemma ready_iff (s : AppState St) :
  (ready_endpoint s).1 = 200%N ↔
  (a_require_nats s = true → is_Some (a_persistence s)) ∧ storage_state (a_storage_status s) ≠ StorageFailed ∧
  ∀ st, a_persistence s = Some st → ∃ info, get_storage_info st = Ok info.
Proof.
  unfold ready_endpoint. destruct (a_persistence s) as [st|].
  - rewrite (bool_decide_eq_false_2 (Some st = None)), andb_false_r by done. cbn [fmap option_fmap option_map].
    case_bool_decide as Hs; [split; [done|]; by intros (_ & ? & _)|].
    destruct (get_storage_info st) as [info|err] eqn:Hi; cbn; split; try done.
    + intros _. split; [by eexists|]. split; [done|]. intros st' [= <-]. by exists info.
    + intros (_ & _ & H). destruct (H st eq_refl) as [info H']. congruence.
  - rewrite (bool_decide_eq_true_2 (None = None)), andb_true_r by done. cbn [fmap option_fmap option_map].
    destruct (a_require_nats s); [split; [done|]; intros (H & _); by destruct (H eq_refl)|].
    case_bool_decide as Hs; cbn; split; try done. by intros (_ & ? & _).
Qed.

(** A server that started without its store never reports that it is ready. *)
Lemma started_in_memory_not_ready `{CollaborationReader, LogJson} parse env connected recent file (s : AppState St) :
  start_server parse env connected recent file = Ok s → (ready_endpoint s).1 = 200%N → ∃ store, a_persistence s = Some store.
Proof.
  intros Hs (_ & Hf & _)%ready_iff. apply started_storage in Hs as [(store & _ & _ & Hp & _)|(_ & _ & Hfail)]; [by exists store|done].
Qed.

(** A page holds as many instances as the limit, clamped to 1..1000, allows, and the
    header gives the number of all of them. *)
Lemma page_bounds limit offset (s s' : AppState St) items total :
  http_list_instances limit offset s = (Ok (items, Some total), s') →
  s' = s ∧ total = size (e_instances (a_engine s)) ∧ 
  (is_Some limit → length items ≤ 1000) ∧ length items ≤ total - default 0 offset.
Proof.
  assert (∀ n m, length (page_items (list_instances_page n m (a_engine s))) ≤ size (e_instances (a_engine s)) - n ∧
    (∀ k, m = Some k → length (page_items (list_instances_page n m (a_engine s))) ≤ k)) as Hpage.
  { intros n m. unfold list_instances_page. cbn [page_items].
    match goal with |- context [omap ?f ?l] => pose proof (omap_shorter f l) as Ho end.
    rewrite length_take, length_drop in Ho. split; [destruct m; lia|]. intros k ->. lia. }
  unfold http_list_instances. destruct limit as [l|], offset as [o|]; cbn [app_gets fmap option_fmap option_map default from_option]; intros H.
  4: discriminate H.
  all: injection H as <- <- <-; cbn [id] in *; split; [done|]; split; [done|].
  - destruct (Hpage o (Some (Nat.max 1 (Nat.min l 1000)))) as [H1 H2]. specialize (H2 _ eq_refl).
    split; [intros _; etrans; [exact H2|lia]|exact H1].
  - destruct (Hpage 0 (Some (Nat.max 1 (Nat.min l 1000)))) as [H1 H2]. specialize (H2 _ eq_refl).
    split; [intros _; etrans; [exact H2|lia]|exact H1].
  - split; [by intros [? [=]]|]. exact (proj1 (Hpage o None)).
Qed.
End handlers.

(** Names that serde writes are read back, whatever blanks surround them. *)
Lemma event_types_read name ev : (name, ev) ∈ event_types → parse_event_types (" " +:+ name +:+ " ,nothing") = [ev].
Proof.
  intros Hin. unfold event_types in Hin. rewrite !elem_of_cons in Hin.
  repeat (destruct Hin as [[= -> ->]|Hin]; [vm_compute; reflexivity|]). by apply not_elem_of_nil in Hin.
Qed.
