(* ===== verification/HttpTasks.v ===== *)
(** * User tasks and service tasks over HTTP

    engine-server/src/server/tasks.rs: the handlers of tasks, the bounds on a
    fetch-and-lock request, and the long poll of engine-core/src/engine/service_task.rs
    behind it.  A long poll waits while other requests run, so it runs against a list of
    rounds: the instant it reads after a fetch, whether a notification or the tick ends
    the wait, and what the others do to the engine meanwhile. *)

From stdpp Require Import base list gmap strings numbers pretty.
From S2P Require Import Prelude Text TextSplit Float Json CondLexer CondParser CondEval Domain Token ProcessDef DataMappings Runtime History Graph Registry Index TopicIndex TimerIndex Engine Scripts Handlers Join Boundary Waits EventScope ProcessStart Signals Conditional NextAction InstanceOps TaskCompletion ServiceTask Persistence Redact ModelCheck LogBuffer HttpState HttpAuth Startup HttpServer.
Local Open Scope rust_scope.

(** ** The long poll *)

Definition MAX_SERVICE_TASK_LONG_POLL : Duration := 30 * second.

(** A round of the loop; the engine that the wait leaves behind is arbitrary. *)
Record Round := mkRound { rd_now : Z; rd_notified : bool; rd_meanwhile : Engine → Engine }.
Definition poll_fallback (fallback_tick : Duration) : Duration :=
  if (fallback_tick =? 0)%Z then (500 * millisecond)%Z else fallback_tick.
Definition poll_deadline (started : Z) (timeout : Duration) : Z := (started + Z.min timeout MAX_SERVICE_TASK_LONG_POLL)%Z.
(** When the sleep of a round that found nothing ends. *)
Definition wake_at (deadline fallback now : Z) : Z := (now + Z.min (deadline - now) fallback)%Z.
(** [None]: the poll still waits when the rounds are over. *)
Fixpoint poll_loop (worker : string) (max_tasks : nat) (topics : list (string * Z)) (deadline : Z) (rounds : list Round)
    : M (option (list PendingServiceTask)) :=
  match rounds with
  | [] => mret None
  | r :: rounds =>
    tasks ← fetch_and_lock_service_tasks_with_durations worker max_tasks topics;
    if negb (bool_decide (tasks = [])) || (deadline <=? rd_now r)%Z then mret (Some tasks)
    else modify (rd_meanwhile r) ;; poll_loop worker max_tasks topics deadline rounds
  end.
Definition fetch_and_lock_service_tasks_long_poll (worker : string) (max_tasks : nat) (topics : list (string * Z))
    (timeout : Duration) (started : Z) (rounds : list Round) : M (option (list PendingServiceTask)) :=
  poll_loop worker max_tasks topics (poll_deadline started timeout) rounds.
(** What the clock and the runtime promise of rounds: time does not run backwards, and a
    sleep does not end early. *)
Fixpoint paced (deadline fallback : Z) (from : Z) (rounds : list Round) : Prop :=
  match rounds with
  | [] => True
  | r :: rounds =>
    (from ≤ rd_now r)%Z ∧ paced deadline fallback (if rd_notified r then rd_now r else wake_at deadline fallback (rd_now r)) rounds
  end.

(** ** The requests *)

Record TopicRequest := mkTopic { tr_topic_name : string; tr_lock_duration : Z }.
Record FetchAndLockRequest := mkFetch {
  fr_worker_id : string;
  fr_max_tasks : N;
  fr_topics : list TopicRequest;
  fr_async_response_timeout : option N;
}.
Definition MIN_LOCK_DURATION_MS : Z := 1000.
Definition MAX_LOCK_DURATION_MS : Z := 3600000.
Definition MAX_FETCH_TASKS : N := 100.
Definition MAX_FETCH_TOPICS : nat := 32.
Definition LONG_POLL_FALLBACK_TICK : Duration := 500 * millisecond.

Definition validated_topic (index : nat) (t : TopicRequest) : result AppError (string * Z) :=
  let name := trim_str (tr_topic_name t) in
  let at_ := "topics[" +:+ pretty index +:+ "]" in
  if String.eqb name "" then Err (BadRequest (at_ +:+ ".topicName must not be empty"))
  else if negb ((MIN_LOCK_DURATION_MS <=? tr_lock_duration t)%Z && (tr_lock_duration t <=? MAX_LOCK_DURATION_MS)%Z) then
    Err (BadRequest (at_ +:+ ".lockDuration must be between " +:+ pretty MIN_LOCK_DURATION_MS +:+ " and "
      +:+ pretty MAX_LOCK_DURATION_MS +:+ " ms, got " +:+ pretty (tr_lock_duration t)))
  else Ok (name, lock_duration_ms_to_secs (tr_lock_duration t)).
Fixpoint validate_from (index : nat) (l : list TopicRequest) : result AppError (list (string * Z)) :=
  match l with
  | [] => Ok []
  | t :: l => x ←? validated_topic index t; xs ←? validate_from (S index) l; Ok (x :: xs)
  end.
Definition validated_topics (payload : FetchAndLockRequest) : result AppError (list (string * Z)) :=
  if bool_decide (fr_topics payload = []) then Err (BadRequest "topics must contain at least one topic")
  else if MAX_FETCH_TOPICS <? length (fr_topics payload) then
    Err (BadRequest ("topics must contain at most " +:+ pretty MAX_FETCH_TOPICS +:+ " entries, got " +:+ pretty (length (fr_topics payload))))
  else if negb ((1 <=? fr_max_tasks payload)%N && (fr_max_tasks payload <=? MAX_FETCH_TASKS)%N) then
    Err (BadRequest ("maxTasks must be between 1 and " +:+ pretty MAX_FETCH_TASKS +:+ ", got " +:+ pretty (fr_max_tasks payload)))
  else validate_from 0 (fr_topics payload).
(** The timeout is clamped before it becomes a [Duration]. *)
Definition fetch_timeout (payload : FetchAndLockRequest) : Duration :=
  let max_timeout_ms := Z.to_N (MAX_SERVICE_TASK_LONG_POLL `div` millisecond) in
  (Z.of_N (N.min (default 0%N (fr_async_response_timeout payload)) max_timeout_ms) * millisecond)%Z.

Section handlers.
  Context {U : UnicodeData} {S : ScriptEngine} {C : CronLib} {R : Nested} {UT : UuidText} {St : Type}.

Definition get_tasks : Hd St (list PendingUserTask) := app_gets (λ s, get_pending_user_tasks_enriched (a_engine s)).
Definition get_service_tasks : Hd St (list PendingServiceTask) := app_gets (λ s, get_pending_service_tasks_enriched (a_engine s)).
Definition http_complete_task (id : string) (variables : option Vars) : Hd St unit :=
  task ← path_uuid id;
  on_engine (complete_user_task task (default ∅ variables)).
(** [None]: the request still waits. *)
Definition http_fetch_and_lock (started : Z) (rounds : list Round) (payload : FetchAndLockRequest)
    : Hd St (option (list PendingServiceTask)) :=
  topics ← app_lift (validated_topics payload);
  on_engine (fetch_and_lock_service_tasks_long_poll (fr_worker_id payload) (N.to_nat (fr_max_tasks payload)) topics
    (fetch_timeout payload) started rounds).
Definition http_complete_service_task (id worker_id : string) (variables : option Vars) : Hd St unit :=
  task ← path_uuid id;
  on_engine (complete_service_task task worker_id (default ∅ variables)).
Definition http_fail_service_task (id worker_id : string) (retries : option Z) (message details : option string) : Hd St unit :=
  task ← path_uuid id;
  on_engine (fail_service_task task worker_id retries message details).
Definition http_retry_incident (id : string) (retries : option Z) : Hd St unit :=
  task ← path_uuid id;
  on_engine (retry_incident task retries).
Definition http_resolve_incident (id : string) (variables : option Vars) : Hd St unit :=
  task ← path_uuid id;
  on_engine (resolve_incident task (default ∅ variables)).
Definition http_extend_lock (id worker_id : string) (new_duration : Z) : Hd St unit :=
  task ← path_uuid id;
  on_engine (extend_lock task worker_id (lock_duration_ms_to_secs new_duration)).
Definition bpmn_error (id worker_id error_code : string) : Hd St unit :=
  task ← path_uuid id;
  on_engine (handle_bpmn_error task worker_id error_code).
End handlers.

(** ** What reaches the engine *)

(** The topics that pass: at most 32, none blank, every lock one second to one hour and
    never shorter than asked for; and the rest of the request is in its bounds. *)
Definition topic_ok (t : TopicRequest) (x : string * Z) : Prop :=
  x.1 = trim_str (tr_topic_name t) ∧ x.1 ≠ "" ∧ (1 ≤ x.2 ≤ 3600)%Z ∧
  (tr_lock_duration t ≤ x.2 * 1000 < tr_lock_duration t + 1000)%Z.
Lemma validated_topic_ok index t x : validated_topic index t = Ok x → topic_ok t x.
Proof.
  unfold validated_topic. destruct (String.eqb_spec (trim_str (tr_topic_name t)) "") as [|Hn]; [done|].
  destruct (_ && _) eqn:Hb; [|done]. apply andb_true_iff in Hb as [H1%Z.leb_le H2%Z.leb_le]. cbn [negb].
  unfold MIN_LOCK_DURATION_MS, MAX_LOCK_DURATION_MS in *. intros [= <-]. split; [done|]. split; [done|]. cbn [snd].
  pose proof (lock_duration_bounds (tr_lock_duration t)). lia.
Qed.
Lemma validate_from_ok index l xs : validate_from index l = Ok xs → Forall2 topic_ok l xs.
Proof.
  revert index xs. induction l as [|t l IH]; intros index xs; cbn; [intros [= <-]; constructor|].
  intros (x & Hx%validated_topic_ok & (ys & Hys%IH & [= <-])%result_bind_Ok)%result_bind_Ok. by constructor.
Qed.
Lemma validate_from_bad index l err : validate_from index l = Err err → ∃ msg, err = BadRequest msg.
Proof.
  revert index. induction l as [|t l IH]; intros index; cbn; [done|]. destruct (validated_topic index t) as [x|err'] eqn:Hx; cbn.
  - destruct (validate_from (S index) l) as [xs|err'] eqn:Hl; cbn; [done|]. intros [= <-]. by eapply IH.
  - intros [= <-]. unfold validated_topic in Hx. repeat case_match; simplify_eq; by eexists.
Qed.
Lemma validated_topics_ok payload xs :
  validated_topics payload = Ok xs →
  Forall2 topic_ok (fr_topics payload) xs ∧ 1 ≤ length xs ≤ 32 ∧ (1 ≤ fr_max_tasks payload ≤ 100)%N.
Proof.
  unfold validated_topics. case_bool_decide as Hne; [done|]. destruct (Nat.ltb_spec MAX_FETCH_TOPICS (length (fr_topics payload))) as [|Hl]; [done|].
  destruct (_ && _) eqn:Hb; [|done]. apply andb_true_iff in Hb as [H1%N.leb_le H2%N.leb_le]. cbn [negb].
  intros H%validate_from_ok. split; [done|]. rewrite <- (Forall2_length _ _ _ H). unfold MAX_FETCH_TOPICS, MAX_FETCH_TASKS in *.
  destruct (fr_topics payload); [done|]. cbn in *. lia.
Qed.
Lemma fetch_timeout_bounds payload : (0 ≤ fetch_timeout payload ≤ MAX_SERVICE_TASK_LONG_POLL)%Z.
Proof.
  unfold fetch_timeout. change (Z.to_N (MAX_SERVICE_TASK_LONG_POLL `div` millisecond)) with 30000%N. rewrite N2Z.inj_min.
  unfold MAX_SERVICE_TASK_LONG_POLL, second, millisecond. lia.
Qed.

(** ** A long poll ends *)

Definition sleeps (rounds : list Round) : nat := length (List.filter (λ r, negb (rd_notified r)) rounds).
Lemma sleeps_bound deadline fallback from rounds :
  (0 < fallback)%Z → (from ≤ deadline)%Z → paced deadline fallback from rounds → Forall (λ r, (rd_now r < deadline)%Z) rounds →
  ((Z.of_nat (sleeps rounds) - 1) * fallback < deadline - from)%Z.
Proof.
  intros Hf Hfrom Hp Hr. revert from Hfrom Hp. induction Hr as [|r rounds Hr _ IH]; intros from Hfrom; [cbn; lia|].
  cbn [paced]. intros [Hnow Hp]. unfold sleeps in *. cbn [List.filter]. destruct (rd_notified r); cbn [negb length].
  - specialize (IH (rd_now r) ltac:(lia) Hp). lia.
  - unfold wake_at in Hp. specialize (IH (wake_at deadline fallback (rd_now r)) ltac:(unfold wake_at; lia) Hp). unfold wake_at in IH.
    rewrite Nat2Z.inj_succ. set (n := Z.of_nat _) in *.
    destruct (Z.min_spec (deadline - rd_now r) fallback) as [[_ Hm]|[_ Hm]]; rewrite Hm in IH; [|nia].
    assert (n < 1)%Z by nia. nia.
Qed.

(** Rounds that found nothing, and the engines they went through. *)
Fixpoint waited (worker : string) (max_tasks : nat) (topics : list (string * Z)) (deadline : Z) (rounds : list Round) (e e' : Engine) : Prop :=
  match rounds with
  | [] => e' = e
  | r :: rounds => (rd_now r < deadline)%Z ∧
    ∃ e1, fetch_and_lock_service_tasks_with_durations worker max_tasks topics e = (Ok [], e1) ∧
      waited worker max_tasks topics deadline rounds (rd_meanwhile r e1) e'
  end.
Lemma fetch_returns worker max_tasks topics e :
  ∃ tasks e', fetch_and_lock_service_tasks_with_durations worker max_tasks topics e = (Ok tasks, e').
Proof.
  unfold fetch_and_lock_service_tasks_with_durations, fetch_and_lock_inner, now. do 2 (rewrite bind_run; cbn [gets]).
  destruct (fetch_loop _ _ _ _ _ _ _ _ _ _) as [tasks store]. rewrite bind_run. cbn [modify]. quiet_step u l Hu. by eexists _, _.
Qed.
Lemma poll_loop_run worker max_tasks topics deadline rounds e :
  match poll_loop worker max_tasks topics deadline rounds e with
  | (Err _, _) => False
  | (Ok None, e') => waited worker max_tasks topics deadline rounds e e'
  | (Ok (Some tasks), e') => ∃ before r after e1, rounds = before ++ r :: after ∧
      waited worker max_tasks topics deadline before e e1 ∧
      fetch_and_lock_service_tasks_with_durations worker max_tasks topics e1 = (Ok tasks, e') ∧
      (tasks = [] → (deadline ≤ rd_now r)%Z)
  end.
Proof.
  revert e. induction rounds as [|r rounds IH]; intros e; [done|]. cbn [poll_loop]. rewrite bind_run.
  destruct (fetch_returns worker max_tasks topics e) as (tasks & e1 & Hf). rewrite Hf.
  destruct (_ || _) eqn:Hdone; cbn [mret M_ret].
  - exists [], r, rounds, e. split; [done|]. split; [done|]. split; [done|]. intros ->.
    rewrite bool_decide_true in Hdone by done. by apply Z.leb_le.
  - apply orb_false_iff in Hdone as [Ht%negb_false_iff%bool_decide_eq_true Hd%Z.leb_gt]. subst tasks.
    rewrite bind_run. cbn [modify]. specialize (IH (rd_meanwhile r e1)).
    destruct (poll_loop _ _ _ _ rounds _) as [[[tasks|]|] e']; [|by split; [|exists e1]|done].
    destruct IH as (before & r' & after & e2 & -> & Hw & Hf' & Hd').
    exists (r :: before), r', after, e2. split; [done|]. split; [|done]. split; [done|]. by exists e1.
Qed.
Lemma waited_early worker max_tasks topics deadline rounds e e' :
  waited worker max_tasks topics deadline rounds e e' → Forall (λ r, (rd_now r < deadline)%Z) rounds.
Proof. revert e. induction rounds as [|r rounds IH]; intros e; [done|]. intros (Hr & e1 & _ & H%IH). by constructor. Qed.


(** A worker waits one second on an engine without tasks: the third fetch is its answer. *)
Definition idle_rounds : list Round := (λ n, mkRound (Z.of_nat n * 500 * millisecond) false id) <$> seq 0 62.
Definition second_long : FetchAndLockRequest := mkFetch "w1" 5 [mkTopic " mail " 1500] (Some 1000%N).
Definition idle_server : AppState unit := example_server engine_new None.
