(* ===== verification/HttpFiles.v ===== *)
(** * Files over HTTP

    engine-server/src/server/files.rs: upload, download and deletion of a file that is
    the value of a variable, and the header that names a download.  A multipart body is
    what axum reads from it: an error, no field, or the first field. *)

From stdpp Require Import base list gmap strings numbers pretty.
From Stdlib Require Import Ascii.
From S2P Require Import Prelude Text TextSplit Float Json Runtime CondLexer CondParser CondEval Domain Token ProcessDef DataMappings History Graph Registry Index TopicIndex TimerIndex Engine Scripts Handlers Join Boundary Waits EventScope ProcessStart Signals Conditional NextAction InstanceOps Persistence Redact ModelCheck LogBuffer HttpState HttpAuth Startup HttpServer HttpHandlers.
Local Open Scope rust_scope.

(** ** The name of a download *)

(** [filename.rsplit(['/', '\\']).next()]: what follows the last separator. *)
Definition is_separator (c : char) : bool := (c =? 47)%N || (c =? 92)%N.
Fixpoint after_last (p : char → bool) (l : list char) : list char :=
  match l with
  | [] => []
  | c :: r => if existsb p r then after_last p r else if p c then r else c :: r
  end.
(** The characters of the name. *)
Definition basename (filename : string) : list char := trim (after_last is_separator (chars filename)).
(** The characters a quoted name keeps: printable ASCII but no quote, backslash or
    semicolon. *)
Definition kept_char (c : char) : bool := (c <? 128)%N && (32 <=? c)%N && negb ((c =? 34)%N || (c =? 92)%N || (c =? 59)%N).
Definition ascii_name (base : list char) : string :=
  let kept := of_chars (take 200 (List.filter kept_char base)) in
  if String.eqb kept "" then "download" else kept.

Definition hex_digit (n : N) : ascii := ascii_of_N (if (n <? 10)%N then 48 + n else 55 + n)%N.
Definition is_token (a : ascii) : bool :=
  let n := N_of_ascii a in
  ((65 <=? n) && (n <=? 90) || (97 <=? n) && (n <=? 122) || (48 <=? n) && (n <=? 57) || (n =? 46) || (n =? 45) || (n =? 95))%N.
Definition encode_byte (a : ascii) : string :=
  if is_token a then String a EmptyString
  else String (ascii_of_N 37) (String (hex_digit (N_of_ascii a / 16)) (String (hex_digit (N_of_ascii a mod 16)) EmptyString)).
Fixpoint rfc5987_encode (value : string) : string :=
  match value with
  | EmptyString => EmptyString
  | String a value => encode_byte a +:+ rfc5987_encode value
  end.

Definition quote : string := String (ascii_of_N 34) EmptyString.
Definition disposition_text (filename : string) : string :=
  let base := basename filename in
  "attachment; filename=" +:+ quote +:+ ascii_name base +:+ quote +:+ "; filename*=UTF-8''" +:+ rfc5987_encode (of_chars base).
Definition content_disposition_attachment `{HeaderLib} (filename : string) : string :=
  default "attachment" (header_from_str (disposition_text filename)).

(** ** The handlers *)

Record Field := mkField {
  fl_file_name : option string;
  fl_content_type : option string;
  fl_bytes : result string (list Byte.byte);
}.
Record FileResponse := mkFileResponse { fp_content_type : string; fp_disposition : string; fp_data : list Byte.byte }.

Section handlers.
  Context {U : UnicodeData} {R : Nested} {UT : UuidText} {DT : DebugText} {HL : HeaderLib}.
  Context {St : Type} {W : WorkflowPersistence St}.

Definition upload_too_large (max_bytes : N) (size : nat) : AppError :=
  PayloadTooLarge ("Upload exceeds maximum size of " +:+ pretty max_bytes +:+ " bytes (got " +:+ pretty size +:+ " bytes)").
(** [uploaded] is the text of the clock. *)
Definition upload_instance_file (uploaded : string) (id var_name : string) (multipart : result string (option Field)) : Hd St unit :=
  id ← path_uuid id;
  known ← app_gets (instance_details id);
  match known with Err _ => refuse (BadRequest "Instance not found") | Ok _ => mret tt end ;;
  field ← app_lift (map_err BadRequest multipart);
  match field with
  | None => refuse (BadRequest "No file field provided")
  | Some field =>
    let name := default "unknown" (fl_file_name field) in
    let content_type := default "application/octet-stream" (fl_content_type field) in
    data ← app_lift (map_err BadRequest (fl_bytes field));
    max_bytes ← app_gets a_max_upload_bytes;
    (if (max_bytes <? N.of_nat (length data))%N then refuse (upload_too_large max_bytes (length data)) else mret tt) ;;
    let file := file_new id var_name name content_type (N.of_nat (length data)) uploaded in
    saved ← on_store (save_file (object_key file) data);
    match saved with
    | Some (Err err) => refuse (BadRequest ("Failed to save file: " +:+ debug_error err))
    | _ => mret tt
    end ;;
    on_engine (update_instance_variables id {[var_name := to_variable_value file]})
  end.

(** The file a variable of an instance holds. *)
Definition file_of (id var_name : string) : Hd St (Uuid * FileReference) :=
  id ← path_uuid id;
  r ← app_gets (instance_details id);
  i ← app_lift (map_err EngineFailed r);
  match get_file_reference var_name i with
  | Some file => mret (id, file)
  | None => refuse (BadRequest "Variable is not a file")
  end.
Definition get_instance_file (id var_name : string) : Hd St FileResponse :=
  '(_, file) ← file_of id var_name;
  loaded ← store_reads (load_file (object_key file));
  match loaded with
  | None => refuse (BadRequest "No persistence configured")
  | Some r =>
    data ← app_lift (map_err (λ err, BadRequest ("Failed to load file: " +:+ debug_error err)) r);
    mret (mkFileResponse (default "application/octet-stream" (header_from_str (mime_type file)))
            (content_disposition_attachment (filename file)) data)
  end.
Definition delete_instance_file (id var_name : string) : Hd St unit :=
  '(id, file) ← file_of id var_name;
  deleted ← on_store (delete_file (object_key file));
  match deleted with
  | Some (Err err) => refuse (BadRequest ("Failed to delete file: " +:+ debug_error err))
  | _ => mret tt
  end ;;
  on_engine (update_instance_variables id {[var_name := VNull]}).
End handlers.

(** ** A name cannot inject anything *)

Lemma after_last_separators p l : Forall (λ c, p c = false) (after_last p l).
Proof.
  induction l as [|c l IH]; cbn [after_last]; [done|]. destruct (existsb p l) eqn:He; [done|].
  assert (Forall (λ c, p c = false) l) as Hl.
  { apply Forall_forall. intros x Hx. destruct (p x) eqn:Hp; [|done]. rewrite <- He. symmetry. apply existsb_exists.
    exists x. split; [by apply list_elem_of_In|done]. }
  destruct (p c) eqn:Hc; [done|]. by constructor.
Qed.
(** The reader of RFC 5987. *)
Definition hex_value (a : ascii) : option N :=
  let n := N_of_ascii a in
  if ((48 <=? n) && (n <=? 57))%N then Some (n - 48)%N else if ((65 <=? n) && (n <=? 70))%N then Some (n - 55)%N else None.
Fixpoint rfc5987_decode (s : string) : option string :=
  match s with
  | EmptyString => Some EmptyString
  | String a rest =>
    if Ascii.eqb a (ascii_of_N 37) then
      match rest with
      | String h (String l rest) =>
        high ← hex_value h; low ← hex_value l; value ← rfc5987_decode rest;
        Some (String (ascii_of_N (high * 16 + low)) value)
      | _ => None
      end
    else value ← rfc5987_decode rest; Some (String a value)
  end.
Lemma decode_byte a s : rfc5987_decode (encode_byte a +:+ s) = value ← rfc5987_decode s; Some (String a value).
Proof. destruct a as [[] [] [] [] [] [] [] []]; reflexivity. Qed.
Lemma decode_encode s : rfc5987_decode (rfc5987_encode s) = Some s.
Proof. induction s as [|a s IH]; [done|]. cbn [rfc5987_encode]. by rewrite decode_byte, IH. Qed.

Definition plain_ascii (s : string) : list ascii := String.list_ascii_of_string s.
Lemma plain_ascii_app s t : plain_ascii (s +:+ t) = plain_ascii s ++ plain_ascii t.
Proof.
  unfold plain_ascii in *. induction s as [|a s IH]; [done|].
  rewrite string_app_cons. cbn [String.list_ascii_of_string app]. by rewrite IH.
Qed.
Definition encoded_char (a : ascii) : bool := is_token a || Ascii.eqb a (ascii_of_N 37).
Lemma encode_plain s : Forall (λ a, encoded_char a = true) (plain_ascii (rfc5987_encode s)).
Proof.
  induction s as [|a s IH]; [constructor|]. cbn [rfc5987_encode]. rewrite plain_ascii_app. apply Forall_app. split; [|done].
  apply Forall_forall, forallb_elem. destruct a as [[] [] [] [] [] [] [] []]; reflexivity.
Qed.

Definition name_char (c : char) : Prop := kept_char c = true ∧ is_separator c = false.
Lemma ascii_name_ok filename :
  Forall name_char (chars (ascii_name (basename filename))) ∧ 1 ≤ length (chars (ascii_name (basename filename))) ≤ 200.
Proof.
  unfold ascii_name. set (kept := take 200 _).
  assert (Forall name_char kept) as Hk.
  { apply Forall_take, Forall_forall. intros c Hc. apply list_elem_of_In, filter_In in Hc as [Hc Hkept]. split; [done|].
    apply list_elem_of_In, trim_subseteq in Hc. pose proof (after_last_separators is_separator (chars filename)) as Hs.
    rewrite Forall_forall in Hs. by apply Hs. }
  assert (chars (of_chars kept) = kept) as Hcs.
  { apply chars_of_chars. eapply Forall_impl; [exact Hk|]. intros c [Hc _]. unfold kept_char in Hc.
    rewrite !andb_true_iff, N.ltb_lt in Hc. lia. }
  destruct (String.eqb_spec (of_chars kept) "") as [|Hne].
  - split; [repeat constructor|vm_compute; lia].
  - rewrite Hcs. split; [done|]. split; [|unfold kept; rewrite length_take; lia]. destruct kept; [done|cbn; lia].
Qed.

(** C34: The name a client gave a file cannot break out of the header of its download: the
    value is a fixed text around a quoted name of 1 to 200 printable ASCII characters
    without quotes, separators or semicolons, and an encoded name of letters, digits and
    [.-_%] only, and what a client decodes is the name behind the last separator. *)
Theorem content_disposition_safe `{HeaderLib} filename :
  ∃ name encoded,
    content_disposition_attachment filename ∈
      ["attachment"; "attachment; filename=" +:+ quote +:+ name +:+ quote +:+ "; filename*=UTF-8''" +:+ encoded] ∧
    Forall (λ c, (32 ≤ c < 128)%N ∧ c ∉ chars (quote +:+ "\;/")) (chars name) ∧ 1 ≤ length (chars name) ≤ 200 ∧
    Forall (λ a, encoded_char a = true) (plain_ascii encoded) ∧
    rfc5987_decode encoded = Some (of_chars (trim (after_last is_separator (chars filename)))).
Proof.
  destruct (ascii_name_ok filename) as [Hn Hlen]. exists (ascii_name (basename filename)), (rfc5987_encode (of_chars (basename filename))).
  split.
  { unfold content_disposition_attachment. destruct (header_from_str _) as [v|] eqn:Hv; cbn [default from_option]; [|by left].
    apply header_from_str_text in Hv as ->. right. by left. }
  split; [|split; [done|split; [apply encode_plain|apply decode_encode]]].
  eapply Forall_impl; [exact Hn|]. intros c [Hc Hs]. unfold kept_char in Hc. unfold is_separator in Hs.
  rewrite !andb_true_iff, negb_true_iff, !orb_false_iff, N.ltb_lt, N.leb_le, !N.eqb_neq in Hc. rewrite orb_false_iff, !N.eqb_neq in Hs.
  split; [lia|]. change (chars (quote +:+ "\;/")) with [34; 92; 59; 47]%N. rewrite !not_elem_of_cons. repeat split; try lia. apply not_elem_of_nil.
Qed.

(** ** What is uploaded is downloaded *)

(** A store that keeps the files it took. *)
Class FileLaws (St : Type) {W : WorkflowPersistence St} : Prop := {
  file_kept key data st st' : save_file key data st = (Ok tt, st') → load_file key st' = Ok data;
}.
#[export] Instance memory_files {T : UuidText} : FileLaws InMemoryPersistence.
Proof. split. intros key data st st' [= <-]. cbn. unfold mem_load_file, mem_save_file. cbn. by rewrite lookup_insert_eq. Qed.

(** An update of variables that no conditional event watches. *)
Lemma update_unwatched_run {U : UnicodeData} {R : Nested} id updates e i :
  e_instances e !! id = Some i → (∀ k c, e_conditional_catches e !! k = Some c → cc_instance_id c ≠ id) →
  ∃ e' i', update_instance_variables id updates e = (Ok tt, e') ∧ e_instances e' !! id = Some i' ∧
    pi_variables i' = put_vars updates (pi_variables i).
Proof.
  intros Hi Hc. unfold update_instance_variables. rewrite bind_run. cbn [gets]. rewrite bind_run, update_instance_run, Hi.
  rewrite bind_run, update_instance_run. cbn [e_instances]. set (e1 := e <| e_instances := _ |>).
  assert (e_instances e1 !! id = Some (update_variables_in updates i)) as H1 by apply lookup_insert_eq. rewrite H1.
  set (e2 := e1 <| e_instances := _ |>). assert (∃ i2, e_instances e2 !! id = Some i2 ∧ pi_variables i2 = put_vars updates (pi_variables i))
    as (i2 & H2 & Hv) by (eexists; split; [apply lookup_insert_eq|done]).
  assert (e_conditional_catches e2 = e_conditional_catches e) as Hcc by done. clearbody e2. clear e1 H1.
  quiet_step u l Hu. rewrite bind_run.
  destruct (persist_instance_some id (sent u l e2) i2 H2) as (e3 & -> & Hp & Hi3 & _).
  assert (e_conditional_catches e3 = e_conditional_catches e) as Hc3.
  { unfold pending_maps in Hp. injection Hp. intros. congruence. }
  rewrite bind_run. unfold fire_conditional_catches. rewrite bind_run. cbn [gets]. rewrite Hc3.
  assert (List.filter (λ c, bool_decide (cc_instance_id c = id)) (map_to_list (e_conditional_catches e)).*2 = []) as ->.
  { destruct (List.filter _ _) as [|c rest] eqn:Hf; [done|]. assert (In c (c :: rest)) as Hin by (by left).
    rewrite <- Hf in Hin. apply filter_In in Hin as [Hin Hid%bool_decide_eq_true].
    apply list_elem_of_In, list_elem_of_fmap in Hin as ([k c'] & -> & Hk%elem_of_map_to_list). by apply Hc in Hk. }
  rewrite bind_run. cbn [gets mret M_ret]. exists e3, (i2 <| pi_audit_log ::= trim_for_persist |>).
  split; [done|]. split; [rewrite Hi3; apply lookup_insert_eq|done].
Qed.

Section roundtrip.
  Context {U : UnicodeData} {R : Nested} {UT : UuidText} {DT : DebugText} {HL : HeaderLib}.
  Context {St : Type} {W : WorkflowPersistence St} {FL : FileLaws St}.

Lemma get_instance_file_run raw id var_name file data (s : AppState St) st i :
  parse_uuid raw = Ok id → e_instances (a_engine s) !! id = Some i → get_file_reference var_name i = Some file →
  a_persistence s = Some st → load_file (object_key file) st = Ok data →
  get_instance_file raw var_name s =
  (Ok (mkFileResponse (default "application/octet-stream" (header_from_str (mime_type file)))
         (content_disposition_attachment (filename file)) data), s).
Proof.
  intros Hraw Hi Hf Hst Hl. assert (file_of raw var_name s = (Ok (id, file), s)) as Hfile.
  { unfold file_of, path_uuid, parse_path_uuid. rewrite hd_bind_run, Hraw. cbn [app_lift map_err]. rewrite hd_bind_run.
    unfold app_gets, instance_details, get_instance_or_archived. rewrite Hi, hd_bind_run. cbn [app_lift map_err]. by rewrite Hf. }
  unfold get_instance_file. rewrite hd_bind_run, Hfile, hd_bind_run. unfold store_reads, app_gets. rewrite Hst.
  cbn [fmap option_fmap option_map]. by rewrite Hl.
Qed.


(** A file for an instance that has been archived is saved before the upload is refused:
    it stays in the store, and no variable refers to it. *)
Lemma archived_upload_orphans uploaded raw id var_name field data (s : AppState St) st st' i :
  parse_uuid raw = Ok id → a_persistence s = Some st → e_instances (a_engine s) !! id = None →
  get_completed_instance (pretty id) st = Ok (Some i) → fl_bytes field = Ok data →
  (N.of_nat (length data) ≤ a_max_upload_bytes s)%N →
  let file := file_new id var_name (default "unknown" (fl_file_name field)) (default "application/octet-stream" (fl_content_type field))
                (N.of_nat (length data)) uploaded in
  save_file (object_key file) data st = (Ok tt, st') →
  upload_instance_file uploaded raw var_name (Ok (Some field)) s =
  (Err (Refused (NoSuchInstance id)), s <| a_persistence := Some st' |>).
Proof.
  intros Hraw Hst Hi Ha Hdata Hsize file Hsave. unfold upload_instance_file, path_uuid, parse_path_uuid. rewrite hd_bind_run, Hraw.
  cbn [app_lift map_err]. rewrite hd_bind_run. unfold app_gets at 1, instance_details, get_instance_or_archived, archived.
  rewrite Hi, Hst, Ha. cbn [result_bind ok_or]. do 2 (rewrite hd_bind_run; cbn [mret Hd_ret app_lift map_err]).
  rewrite Hdata, hd_bind_run. cbn [app_lift map_err]. rewrite hd_bind_run. cbn [app_gets]. rewrite hd_bind_run.
  destruct (N.ltb_spec (a_max_upload_bytes s) (N.of_nat (length data))); [lia|]. cbn [mret Hd_ret]. fold file. rewrite hd_bind_run.
  unfold on_store. rewrite Hst, Hsave, hd_bind_run. cbn [mret Hd_ret]. unfold on_engine, update_instance_variables.
  change (a_engine (s <| a_persistence := Some st' |>)) with (a_engine s). rewrite bind_run. cbn [gets].
  rewrite bind_run, update_instance_run, Hi. by destruct s.
Qed.
End roundtrip.

(** ** A report is uploaded and downloaded *)

Definition visible_only : HeaderLib.
Proof.
  refine {| header_from_str s := if forallb (λ c, (32 <=? c) && (c <? 127))%N (chars s) then Some s else None |}.
  intros s v. by destruct (forallb _ _); intros [= <-].
Defined.
Definition report_field : Field := mkField (Some "a/b/re;port.txt") (Some "text/plain") (Ok (as_bytes "hello")).
