(* ===== verification/HttpApi.v ===== *)
(** * Requests to the server

    The routes of server/mod.rs put together with the handlers: a request passes the gate,
    the router finds its handler, axum decodes its arguments, the handler runs.  Whatever
    clients send, the engine behind the server stays sound, and who has no key changes
    nothing. *)

From stdpp Require Import base list gmap strings numbers pretty.
From S2P Require Import Prelude Text TextSplit Float Json CondLexer CondParser CondEval Domain Token ProcessDef DataMappings Runtime History Graph Gateway Registry Index TopicIndex TimerIndex Engine Scripts Handlers Join Boundary Waits Hoare TaskHandlers EventScope ProcessStart Signals TimerProcessor Conditional ThrowHandlers NextAction Executor TaskCompletion InstanceOps DefinitionOps MessageRouting Collections ServiceTask Nesting EngineInv EngineSteps Persistence BpmnModels Iso8601 BpmnTree BpmnParse BpmnWf BpmnCollaboration Redact ModelCheck XmlRewrite LogBuffer HttpState HttpAuth Startup HttpServer HttpDeploy HttpHandlers HttpTasks HttpFiles.
Local Open Scope rust_scope.

(** The requests that may change something, with the arguments of their handlers. *)
Inductive ApiCall :=
| CDeploy (payload : DeployRequest)
| CDeployCollection (keys : nat → Uuid) (payload : DeployRequest)
| CDeleteDefinition (id : string) (cascade : option bool)
| CDeleteAllDefinitions (bpmn_id : string) (cascade : option bool)
| CStart (payload : StartRequest)
| CStartLatest (payload : StartLatestRequest)
| CStartTimer (payload : StartRequest)
| CDeleteInstance (id : string)
| CMoveToken (id : string) (payload : MoveTokenRequest)
| CMigrate (id : string) (payload : MigrateInstanceRequest)
| CSuspend (id : string)
| CResume (id : string)
| CUpdateVariables (id : string) (variables : Vars)
| CResolveInstanceIncident (id incident_id : string) (payload : option (option string))
| CUpload (uploaded id var_name : string) (multipart : result string (option Field))
| CDeleteFile (id var_name : string)
| CMessage (name : string) (business_key : option string) (variables : option Vars)
| CSignal (name : string) (variables : option Vars)
| CProcessTimers
| CCompleteTask (id : string) (variables : option Vars)
| CFetchAndLock (started : Z) (rounds : list Round) (payload : FetchAndLockRequest)
| CCompleteServiceTask (id worker_id : string) (variables : option Vars)
| CFailServiceTask (id worker_id : string) (retries : option Z) (message details : option string)
| CRetryIncident (id : string) (retries : option Z)
| CResolveIncident (id : string) (variables : option Vars)
| CExtendLock (id worker_id : string) (new_duration : Z)
| CBpmnError (id worker_id error_code : string)
| CRead (h : Handler).

Definition handler_of (c : ApiCall) : Handler :=
  match c with
  | CDeploy _ => HDeployDefinition
  | CDeployCollection _ _ => HDeployCollection
  | CDeleteDefinition _ _ => HDeleteDefinition
  | CDeleteAllDefinitions _ _ => HDeleteAllDefinitions
  | CStart _ => HStartInstance
  | CStartLatest _ => HStartInstanceLatest
  | CStartTimer _ => HStartTimerInstance
  | CDeleteInstance _ => HDeleteInstance
  | CMoveToken _ _ => HMoveToken
  | CMigrate _ _ => HMigrateInstance
  | CSuspend _ => HSuspendInstance
  | CResume _ => HResumeInstance
  | CUpdateVariables _ _ => HUpdateVariables
  | CResolveInstanceIncident _ _ _ => HResolveInstanceIncident
  | CUpload _ _ _ _ => HUploadFile
  | CDeleteFile _ _ => HDeleteFile
  | CMessage _ _ _ => HCorrelateMessage
  | CSignal _ _ => HCorrelateSignal
  | CProcessTimers => HProcessTimers
  | CCompleteTask _ _ => HCompleteTask
  | CFetchAndLock _ _ _ => HFetchAndLock
  | CCompleteServiceTask _ _ _ => HCompleteServiceTask
  | CFailServiceTask _ _ _ _ _ => HFailServiceTask
  | CRetryIncident _ _ => HRetryIncident
  | CResolveIncident _ _ => HResolveIncident
  | CExtendLock _ _ _ => HExtendLock
  | CBpmnError _ _ _ => HBpmnError
  | CRead h => h
  end.

Definition ignore_hd {St A} (m : Hd St A) : Hd St unit := m ≫= λ _, mret tt.

Section api.
  Context {U : UnicodeData} {T : TimeLib} {L : XmlLib} {X : XmlCopy} {S : ScriptEngine} {C : CronLib} {R : Nested}.
  Context {CR : CollaborationReader} {CW : CollaborationWriter} {UT : UuidText} {DT : DebugText}.
  Context {St : Type} {W : WorkflowPersistence St}.
  Context (compiled : bool) (run : string → ModelCheckReport) (says : StoreAnswers).

(** The handler of a request; the body of its answer is left out, and so is a handler
    that only reads. *)
Definition call_handler (c : ApiCall) : Hd St unit :=
  match c with
  | CDeploy payload => ignore_hd (http_deploy_definition compiled run says payload)
  | CDeployCollection keys payload => ignore_hd (http_deploy_collection compiled run says keys payload)
  | CDeleteDefinition id cascade => http_delete_definition says id cascade
  | CDeleteAllDefinitions bpmn_id cascade => http_delete_all_definitions says bpmn_id cascade
  | CStart payload => ignore_hd (http_start_instance payload)
  | CStartLatest payload => ignore_hd (http_start_instance_latest payload)
  | CStartTimer payload => ignore_hd (http_start_timer_instance payload)
  | CDeleteInstance id => http_delete_instance (says_instance says) id
  | CMoveToken id payload => http_move_token id payload
  | CMigrate id payload => http_migrate_instance id payload
  | CSuspend id => http_suspend_instance id
  | CResume id => http_resume_instance id
  | CUpdateVariables id variables => http_update_instance_variables id variables
  | CResolveInstanceIncident id incident payload => ignore_hd (http_resolve_instance_incident id incident payload)
  | CUpload uploaded id var_name multipart => upload_instance_file uploaded id var_name multipart
  | CDeleteFile id var_name => delete_instance_file id var_name
  | CMessage name business_key variables => ignore_hd (http_correlate_message name business_key variables)
  | CSignal name variables => ignore_hd (http_correlate_signal name variables)
  | CProcessTimers => ignore_hd http_process_timers
  | CCompleteTask id variables => http_complete_task id variables
  | CFetchAndLock started rounds payload => ignore_hd (http_fetch_and_lock started rounds payload)
  | CCompleteServiceTask id worker variables => http_complete_service_task id worker variables
  | CFailServiceTask id worker retries message details => http_fail_service_task id worker retries message details
  | CRetryIncident id retries => http_retry_incident id retries
  | CResolveIncident id variables => http_resolve_incident id variables
  | CExtendLock id worker duration => http_extend_lock id worker duration
  | CBpmnError id worker code => bpmn_error id worker code
  | CRead _ => mret tt
  end.

(** ** Serving a request *)

(** axum's extractors: the arguments of a handler, or the rejection of the request. *)
Class Extractors `{HttpLib} := {
  decode : Handler → HttpRequest → result AppError ApiCall;
  decode_handler h rq c : decode h rq = Ok c → handler_of c = h;
}.

Context {HL : HttpLib} {EX : Extractors}.

(** [None] is axum's own answer when no route matches. *)
Definition serve (metrics : bool) (rq : HttpRequest) (s : AppState St) : option (result HttpFault unit) * AppState St :=
  match auth_middleware (a_gate s) rq with
  | Panics => (Some (Err (Crashed Panicked)), s)
  | Returns (Err err) => (Some (Err (Refused err)), s)
  | Returns (Ok _) =>
    match route (app_routes metrics) (rq_method rq) (rq_path rq) with
    | None => (None, s)
    | Some h =>
      match decode h rq with
      | Err err => (Some (Err (Refused err)), s)
      | Ok c => let '(r, s) := call_handler c s in (Some r, s)
      end
    end
  end.
End api.

(** ** The timer scheduler (main.rs) *)

(** The longest the scheduler sleeps. *)
Definition timer_interval_ms (env : string → option string) : N := default 1000%N (env "TIMER_INTERVAL_MS" ≫= parse_u64).
(** The loop of the scheduler's task up to the shutdown: a round of timers, whatever its
    outcome, after each wait; [waits] is what happened to the server during each. *)
Fixpoint timer_scheduler {U : UnicodeData} {S : ScriptEngine} {C : CronLib} {R : Nested} {St} (waits : list (AppState St → AppState St))
    (s : AppState St) : AppState St :=
  match waits with
  | [] => s
  | wait :: waits => timer_scheduler waits (wait s <| a_engine ::= λ e, (process_timers e).2 |>)
  end.

(** ** Handlers keep the engine sound *)

Create HintDb http.

(** The engine stays sound and the gate is never touched. *)
Definition keeps {St A} (m : Hd St A) : Prop :=
  ∀ s, engine_ok (a_engine s) → engine_ok (a_engine (m s).2) ∧ a_gate (m s).2 = a_gate s.

Section keeps.
  Context {St : Type}.

Lemma keeps_ret {A} (a : A) : keeps (mret a : Hd St A).
Proof. by intros s. Qed.
Lemma keeps_bind {A B} (m : Hd St A) (k : A → Hd St B) : keeps m → (∀ a, keeps (k a)) → keeps (m ≫= k).
Proof.
  intros Hm Hk s Hs. rewrite hd_bind_run. destruct (Hm s Hs) as [H1 H2]. destruct (m s) as [[a|] s1]; [|done].
  destruct (Hk a s1 H1) as [H3 H4]. split; [done|]. by rewrite H4.
Qed.
Lemma keeps_refuse {A} err : keeps (refuse err : Hd St A).
Proof. by intros s. Qed.
Lemma keeps_gets {A} (f : AppState St → A) : keeps (app_gets f).
Proof. by intros s. Qed.
Lemma keeps_lift {A} (r : result AppError A) : keeps (app_lift r : Hd St A).
Proof. by intros s. Qed.
Lemma keeps_call {A} (c : call A) : keeps (app_call c : Hd St A).
Proof. by intros s; destruct c. Qed.
Lemma keeps_uuid `{UuidText} raw : keeps (path_uuid raw : Hd St Uuid).
Proof. apply keeps_lift. Qed.
Lemma keeps_store (w : Write St) : keeps (on_store w).
Proof. intros s Hs. unfold on_store. destruct (a_persistence s); [|done]. by destruct (w _). Qed.
Lemma keeps_xml f : keeps (app_modify (λ s : AppState St, s <| a_deployed_xml ::= f |>)).
Proof. by intros s. Qed.
Lemma keeps_engine {A} (m : M A) : preserves m → keeps (on_engine m : Hd St A).
Proof. intros Hm s Hs. unfold on_engine. specialize (Hm (a_engine s) Hs). by destruct (m (a_engine s)). Qed.
Lemma keeps_try {A} (m : M A) : preserves m → keeps (try_engine m : Hd St (EngineResult A)).
Proof.
  intros Hm. apply keeps_engine. intros e He. unfold try. specialize (Hm e He). destruct (m e) as [[a|[]] e']; done.
Qed.
Lemma keeps_map {A B} (f : A → Hd St B) l : (∀ x, keeps (f x)) → keeps (map_hd f l).
Proof.
  intros Hf. induction l as [|x l IH]; cbn [map_hd]; [apply keeps_ret|].
  apply keeps_bind; [done|]. intros y. apply keeps_bind; [done|]. intros ys. apply keeps_ret.
Qed.
End keeps.
#[export] Hint Resolve keeps_ret keeps_refuse keeps_gets keeps_lift keeps_call keeps_uuid keeps_store keeps_xml : http.
(** A handler, step by step. *)
Ltac keeps_steps :=
  repeat first
    [ solve [eauto 1 with http]
    | apply keeps_bind; [|intros ?]
    | apply keeps_map; intros ?
    | progress cbv beta iota
    | match goal with |- keeps (match ?x with _ => _ end) => destruct x end ].

Section sound_server.
  Context {U : UnicodeData} {T : TimeLib} {L : XmlLib} {X : XmlCopy} {S : ScriptEngine} {C : CronLib} {R : Nested} {RO : NestedOk R}.
  Context {CR : CollaborationReader} {CW : CollaborationWriter} {UT : UuidText} {DT : DebugText}.
  Context {St : Type} {W : WorkflowPersistence St}.
  Context (compiled : bool) (run : string → ModelCheckReport) (commit : EngineResult unit).

(** The store answers deletions, and a commit as it likes. *)
Definition deletes_well : StoreAnswers := mkAnswers (λ _, Ok tt) (λ _, Ok tt) commit.
(** What others do while a long poll waits keeps the engine sound. *)
Definition call_ok (c : ApiCall) : Prop :=
  match c with
  | CFetchAndLock _ rounds _ => Forall (λ r, ∀ e, engine_ok e → engine_ok (rd_meanwhile r e)) rounds
  | _ => True
  end.

Lemma preserves_sound {A} (m : M A) : (∀ ids, sound ids m) → preserves m.
Proof. intros H. by apply sound_preserves. Qed.
Lemma poll_loop_preserves worker n topics deadline rounds :
  Forall (λ r, ∀ e, engine_ok e → engine_ok (rd_meanwhile r e)) rounds → preserves (poll_loop worker n topics deadline rounds).
Proof.
  induction 1 as [|r rounds Hr _ IH]; cbn [poll_loop]; [by intros e|].
  apply preserves_bind; [apply sound_preserves, fetch_and_lock_inner_ok|]. intros tasks. destruct (_ || _); [by intros e|].
  apply preserves_bind; [|done]. intros e He. by apply Hr.
Qed.
Lemma new_uuid_preserves : preserves new_uuid.
Proof. intros e []. by split. Qed.
Lemma delete_all_preserves bpmn_id cascade : preserves (delete_all_definitions (λ _, Ok tt) (λ _, Ok tt) bpmn_id cascade).
Proof.
  apply preserves_bind; [by apply sound_preserves, (holds_gets _ _ (λ _, True))|]. intros versions.
  apply preserves_forM. intros k. apply delete_definition_preserves.
Qed.

Lemma deploy_handler_keeps payload : keeps (http_deploy_definition (St := St) compiled run deletes_well payload).
Proof.
  unfold http_deploy_definition, commit_definition, save_or_rollback, check_size, model_check. keeps_steps.
  - apply keeps_engine, new_uuid_preserves.
  - apply keeps_engine, deploy_preserves.
  - apply keeps_try, delete_definition_preserves.
Qed.
Lemma collection_handler_keeps keys payload : keeps (http_deploy_collection (St := St) compiled run deletes_well keys payload).
Proof.
  unfold http_deploy_collection, check_size, check_member, xml_for_model_check, model_check, member_result. keeps_steps.
  apply keeps_engine, deploy_collection_preserves.
Qed.
Lemma upload_keeps uploaded id var_name multipart : keeps (upload_instance_file (St := St) uploaded id var_name multipart).
Proof.
  unfold upload_instance_file. keeps_steps. apply keeps_engine, sound_preserves, update_instance_variables_ok.
Qed.
Lemma delete_file_keeps id var_name : keeps (delete_instance_file (St := St) id var_name).
Proof.
  unfold delete_instance_file, file_of. keeps_steps. apply keeps_engine, sound_preserves, update_instance_variables_ok.
Qed.

#[local] Hint Resolve deploy_handler_keeps collection_handler_keeps upload_keeps delete_file_keeps : http.
Lemma call_handler_keeps c : call_ok c → keeps (call_handler (St := St) compiled run deletes_well c).
Proof.
  intros Hc. destruct c; cbn [call_handler]; unfold ignore_hd;
    try (apply keeps_bind; [|intros ?; apply keeps_ret]);
    unfold http_delete_definition, http_delete_all_definitions, http_start_instance, http_start_instance_latest,
      http_start_timer_instance, http_delete_instance, http_move_token, http_migrate_instance, http_suspend_instance,
      http_resume_instance, http_update_instance_variables, http_resolve_instance_incident, http_correlate_message,
      http_correlate_signal, http_process_timers, http_complete_task, http_fetch_and_lock, http_complete_service_task,
      http_fail_service_task, http_retry_incident, http_resolve_incident, http_extend_lock, bpmn_error;
    keeps_steps; try apply keeps_engine.
  - apply delete_definition_preserves.
  - apply delete_all_preserves.
  - apply sound_preserves, start_instance_vars_ok.
  - apply sound_preserves, start_instance_latest_ok.
  - apply sound_preserves, start_timer_instance_ok.
  - apply delete_instance_preserves.
  - apply sound_preserves, move_token_ok.
  - apply sound_preserves, migrate_instance_ok.
  - apply sound_preserves, suspend_instance_ok.
  - apply sound_preserves, resume_instance_ok.
  - apply sound_preserves, update_instance_variables_ok.
  - apply sound_preserves, resolve_instance_incident_ok.
  - apply sound_preserves, correlate_message_ok.
  - apply sound_preserves, correlate_signal_ok.
  - apply sound_preserves, process_timers_ok.
  - apply sound_preserves, complete_user_task_ok.
  - by apply poll_loop_preserves.
  - apply sound_preserves, complete_service_task_ok.
  - apply sound_preserves, fail_service_task_ok.
  - apply sound_preserves, retry_incident_ok.
  - apply sound_preserves, resolve_incident_ok.
  - apply sound_preserves, extend_lock_ok.
  - apply sound_preserves, handle_bpmn_error_ok.
Qed.

(** ** Every request *)

Context {HL : HttpLib} {EX : Extractors}.

Definition serves_ok (rq : HttpRequest) : Prop := ∀ h c, decode h rq = Ok c → call_ok c.
Lemma serve_keeps metrics rq (s : AppState St) :
  serves_ok rq → engine_ok (a_engine s) →
  let s' := (serve compiled run deletes_well metrics rq s).2 in engine_ok (a_engine s') ∧ a_gate s' = a_gate s.
Proof.
  intros Hrq Hs. unfold serve. destruct (auth_middleware _ _) as [[[]|]|]; [|done..]. destruct (route _ _ _) as [h|]; [|done].
  destruct (decode h rq) as [c|err] eqn:Hd; [|done]. pose proof (call_handler_keeps c (Hrq h c Hd) s Hs) as H.
  by destruct (call_handler _ _ _ c s).
Qed.

(** A request of anybody, or what the engine does on its own: timers, in-process handlers,
    time. *)
Inductive server_step (s : AppState St) : AppState St → Prop :=
| serve_step metrics rq : serves_ok rq → server_step s (serve compiled run deletes_well metrics rq s).2
| engine_own_step rq : server_step s (s <| a_engine ::= λ e, (perform rq e).2 |>).
Lemma server_steps_keep s s' :
  rtc server_step s s' → engine_ok (a_engine s) → engine_ok (a_engine s') ∧ a_gate s' = a_gate s.
Proof.
  induction 1 as [s|s s1 s' Hstep _ IH]; intros Hs; [done|].
  assert (engine_ok (a_engine s1) ∧ a_gate s1 = a_gate s) as [H1 H2].
  { destruct Hstep as [metrics rq Hrq|rq]; [by apply serve_keeps|]. split; [|done]. by apply perform_preserves. }
  destruct (IH H1) as [H3 H4]. split; [done|]. by rewrite H4.
Qed.
(** The scheduler beside the requests is a sequence of these steps. *)
Lemma scheduler_steps waits s :
  Forall (λ wait, ∀ s, rtc server_step s (wait s)) waits → rtc server_step s (timer_scheduler waits s).
Proof.
  intros Hw. revert s. induction Hw as [|wait waits Hwait _ IH]; intros s; [done|]. cbn [timer_scheduler].
  etrans; [apply Hwait|]. eapply rtc_l; [|apply IH].
  replace (wait s <| a_engine ::= λ e, (process_timers e).2 |>) with (wait s <| a_engine ::= λ e, (perform RTimers e).2 |>); [constructor|].
  cbn. unfold ignore. f_equal. rewrite bind_run. by destruct (process_timers _) as [[]].
Qed.
Lemma public_handler_reads c : handler_of c = HHealth ∨ handler_of c = HReady → c = CRead (handler_of c).
Proof. intros [H|H]; destruct c; try discriminate H; done. Qed.


End sound_server.

(** ** A server with a worker key *)

#[local] Existing Instance plain_http.
Definition suspend_seven (h : Handler) (_ : HttpRequest) : result AppError ApiCall :=
  match h with HSuspendInstance => Ok (CSuspend "7") | _ => Ok (CRead h) end.
Lemma suspend_seven_handler h rq c : suspend_seven h rq = Ok c → handler_of c = h.
Proof. destruct h; intros [= <-]; done. Qed.
#[local] Instance suspending : Extractors := {| decode := suspend_seven; decode_handler := suspend_seven_handler |}.
Lemma suspending_ok rq : serves_ok rq.
Proof. intros h c. destruct h; intros [= <-]; done. Qed.

Definition suspend_request (headers : gmap string string) : HttpRequest := mkRequest POST "/api/instances/7/suspend" headers.
Definition guarded_server : ServerConfig := mkServerConfig worker_config None None None None None None None None.
Definition guarded_start : AppState InMemoryPersistence := build_state no_env engine_new (Some mem_new) ∅ buffer_new guarded_server.
#[local] Existing Instances ascii_only no_time pools_lib pools_copy no_scripts no_cron pools_reader fixed_writer plain_debug.
Definition after_deploy : AppState InMemoryPersistence :=
  guarded_start <| a_engine ::= λ e, (perform (R := executor 1) (RDeploy example_definition) e).2 |>.
Definition after_suspend : AppState InMemoryPersistence :=
  (serve (R := executor 1) false (λ _, busy_report) (deletes_well (Ok tt)) true (suspend_request ∅) after_deploy).2.
Lemma guarded_steps : rtc (server_step (R := executor 1) false (λ _, busy_report) (Ok tt)) guarded_start after_suspend.
Proof. eapply rtc_l; [apply (engine_own_step _ _ _ _ (RDeploy example_definition))|]. apply rtc_once, serve_step, suspending_ok. Qed.
