(* ===== verification/Desktop.v ===== *)
(** * The clients of the server

    desktop-tauri/src-tauri/src: the state of the client (state.rs), its requests to the
    server (api_helpers.rs), the commands of the user interface (commands/*.rs, listed in
    main.rs) and the reader of the server's events (sse_consumer.rs), and the other client
    of the repository, agent-orchestrator/src/main.rs.  reqwest, the file system and
    serde_json's reader are the class [Machine]. *)

From stdpp Require Import base list gmap strings numbers pretty.
From Stdlib Require Import Ascii.
From S2P Require Import Prelude Text TextSplit Json Domain HttpState HttpAuth Engine HttpServer HttpHandlers.
Local Open Scope rust_scope.

(** ** The state (state.rs) *)

(** A mutex, which is poisoned when a thread panicked while it held the lock. *)
Inductive mutex (A : Type) := Guards (a : A) | Poisoned.
Arguments Guards {A}. Arguments Poisoned {A}.
Definition poison_text : string := "poisoned lock: another task failed inside".
Record ClientState := mkClient { c_base_url : mutex string; c_api_key : mutex (option string) }.

Definition get_base_url (s : ClientState) : result string string :=
  match c_base_url s with Guards url => Ok url | Poisoned => Err ("Mutex poisoned: " +:+ poison_text) end.
(** [trim_end_matches('/')]. *)
Definition trim_end_slashes (url : string) : string := of_chars (rev (drop_while (N.eqb (ch "/")) (rev (chars url)))).
(** [filter(|s| !s.is_empty())] on a trimmed text. *)
Definition nonblank (s : string) : option string := let s := trim_str s in if String.eqb s "" then None else Some s.
Definition get_api_key (s : ClientState) : result string (option string) :=
  match c_api_key s with Guards key => Ok (key ≫= nonblank) | Poisoned => Err ("Mutex poisoned: " +:+ poison_text) end.
(** [main]: the state at the start. *)
Definition initial_state (engine_api_url : option string) : ClientState :=
  mkClient (Guards (default "http://localhost:8081" engine_api_url)) (Guards None).

(** ** Requests (api_helpers.rs) *)

Record Part := mkPart { part_file_name : string; part_mime : string; part_bytes : list Byte.byte }.
Inductive Body := NoBody | JsonBody (v : Value) | FormBody (name : string) (part : Part).
Record Outgoing := mkOutgoing {
  o_method : Method;
  o_url : string;
  (** What [query] of the builder adds. *)
  o_query : list (string * string);
  o_headers : gmap string string;
  o_body : Body;
}.
(** A response; reading its body may fail. *)
Record Incoming := mkIncoming {
  in_status : N;
  in_text : result string string;
  in_json : result string Value;
  in_bytes : result string (list Byte.byte);
}.
(** The figures of the monitoring page (state.rs). *)
Record BucketInfoData := mkBucketData { bd_name : string; bd_bucket_type : string; bd_entries : N; bd_size_bytes : N }.
Record StorageInfoData := mkStorageData {
  sd_backend_name : string;
  sd_version : string;
  sd_host : string;
  sd_port : N;
  sd_memory_bytes : N;
  sd_storage_bytes : N;
  sd_streams : N;
  sd_consumers : N;
  sd_buckets : list BucketInfoData;
}.
Record ClientMonitoring := mkClientMonitoring {
  cm_definitions_count : N;
  cm_instances_total : N;
  cm_instances_running : N;
  cm_instances_completed : N;
  cm_pending_user_tasks : N;
  cm_pending_service_tasks : N;
  cm_pending_timers : N;
  cm_pending_message_catches : N;
  cm_storage_info : option StorageInfoData;
}.
Definition is_success (r : Incoming) : bool := (200 <=? in_status r)%N && (in_status r <? 300)%N.

Class Machine (W : Type) := {
  send : Outgoing → W → result string Incoming * W;
  (** [StatusCode]'s text, as in [404 Not Found]. *)
  status_text : N → string;
  (** [serde_json::from_str]. *)
  parse_json : string → option Value;
  (** [Response::json] into [MonitoringData]. *)
  read_monitoring : Incoming → result string ClientMonitoring;
  (** [tokio::fs::read], [std::fs::read_to_string] and [tokio::fs::write]. *)
  read_file : string → W → result string (list Byte.byte);
  read_to_string : string → W → result string string;
  write_file : string → list Byte.byte → W → result string unit * W;
  (** [Path::file_name] as a text, the type mime_guess finds, and [Part::mime_str]. *)
  path_file_name : string → option string;
  guess_mime : string → string;
  mime_str : string → result string string;
}.

(** A command reads the state, and acts on the machine. *)
Record Desktop (W : Type) := mkDesktop { d_state : ClientState; d_machine : W }.
Arguments mkDesktop {W}. Arguments d_state {W}. Arguments d_machine {W}.
Definition Cmd (W A : Type) : Type := Desktop W → result string A * Desktop W.
#[export] Instance Cmd_ret {W} : MRet (Cmd W) := λ A a d, (Ok a, d).
#[export] Instance Cmd_bind {W} : MBind (Cmd W) := λ A B k m d,
  match m d with (Ok a, d) => k a d | (Err e, d) => (Err e, d) end.
Definition fails {W A} (msg : string) : Cmd W A := λ d, (Err msg, d).
Definition lift {W A} (r : result string A) : Cmd W A := λ d, (r, d).
Definition from_state {W A} (f : ClientState → result string A) : Cmd W A := λ d, (f (d_state d), d).

(** [Index] on a JSON value, and the texts the commands read with it. *)
Definition text_field (k : string) (v : Value) : option string := value_get k v ≫= as_str.
(** A map of variables as a JSON object. *)
Definition vars_object {A} (f : A → Value) (vars : gmap string A) : Value :=
  VObject (fold_right (λ kv fields, field_insert kv.1 (f kv.2) fields) [] (map_to_list vars)).
Definition vars_or_default (vars : option Vars) : Value := vars_object id (default ∅ vars).
Definition int (z : Z) : Value := VNumber (NumInt z).

Section client.
  Context {HV : HeaderLib} {W : Type} {MA : Machine W}.

Definition invalid_key : string := "Invalid API key: failed to parse header value".
Definition header_value (s : string) : Cmd W string :=
  match header_from_str s with Some v => mret v | None => fails invalid_key end.
Definition auth_headers : Cmd W (gmap string string) :=
  key ← from_state get_api_key;
  match key with
  | None => mret ∅
  | Some key =>
    bearer ← header_value ("Bearer " +:+ key);
    x_api_key ← header_value key;
    mret (<["x-api-key" := x_api_key]> (<["authorization" := bearer]> ∅))
  end.
(** [with_auth(..)?.send().await], with what a failed transmission is turned into. *)
Definition transmit (on_error : string → string) (rq : Outgoing) : Cmd W Incoming := λ d,
  let '(r, w) := send rq (d_machine d) in (map_err on_error r, mkDesktop (d_state d) w).
Definition request (m : Method) (url : string) (query : list (string * string)) (body : Body) (on_error : string → string) : Cmd W Incoming :=
  headers ← auth_headers;
  transmit on_error (mkOutgoing m url query headers body).

(** The text after [Request failed]: the field [error] of the body, or the body. *)
Definition error_message (body_text : string) : string :=
  default body_text (parse_json body_text ≫= text_field "error").
Definition body_text (res : Incoming) : string := match in_text res with Ok t => t | Err _ => "" end.
Definition request_failed (res : Incoming) (path message : string) : string :=
  "Request failed: " +:+ status_text (in_status res) +:+ " " +:+ path +:+ ": " +:+ message.

Definition api_request (m : Method) (path : string) (body : Body) (message : string → string) : Cmd W Incoming :=
  base ← from_state get_base_url;
  res ← request m (base +:+ path) [] body id;
  if is_success res then mret res else fails (request_failed res path (message (body_text res))).
Definition api_get (path : string) : Cmd W Value :=
  res ← api_request GET path NoBody error_message; lift (in_json res).
(** The only one that shows the body as it is. *)
Definition api_post (path : string) (body : Value) : Cmd W Value :=
  res ← api_request POST path (JsonBody body) id; lift (in_json res).
Definition api_post_no_body (path : string) (body : Value) : Cmd W unit :=
  _ ← api_request POST path (JsonBody body) error_message; mret tt.
Definition api_put (path : string) (body : Value) : Cmd W unit :=
  _ ← api_request PUT path (JsonBody body) error_message; mret tt.
Definition api_delete (path : string) : Cmd W unit :=
  _ ← api_request DELETE path NoBody error_message; mret tt.

(** ** Definitions (commands/deploy.rs) *)

Definition deploy_simple_process : Cmd W string :=
  fails "deploy_simple_process is not supported in HTTP mode. Use deploy_definition instead.".
Definition cmd_deploy_definition (xml name : string) : Cmd W string :=
  data ← api_post "/api/deploy" (VObject [("name", VString name); ("xml", VString xml)]);
  mret (default "" (text_field "definition_key" data)).
Definition cmd_list_definitions : Cmd W Value := api_get "/api/definitions".
Definition cmd_get_definition_xml (definition_id : string) : Cmd W string :=
  base ← from_state get_base_url;
  res ← request GET (base +:+ "/api/definitions/" +:+ definition_id +:+ "/xml") [] NoBody id;
  if is_success res then lift (in_text res)
  else fails ("Get definition XML failed: " +:+ status_text (in_status res)).
Definition bool_text (b : bool) : string := if b then "true" else "false".
Definition cmd_delete_definition (definition_id : string) (cascade : bool) : Cmd W unit :=
  api_delete ("/api/definitions/" +:+ definition_id +:+ "?cascade=" +:+ bool_text cascade).
Definition cmd_delete_all_definitions (bpmn_id : string) (cascade : bool) : Cmd W unit :=
  api_delete ("/api/definitions/bpmn/" +:+ bpmn_id +:+ "?cascade=" +:+ bool_text cascade).

(** ** Instances (commands/instances.rs) *)

Definition start_payload (def_id : string) (variables : option Vars) : Value :=
  VObject (("definition_key", VString def_id) ::
    match variables with
    | Some vars => if bool_decide (vars = ∅) then [] else [("variables", vars_object id vars)]
    | None => []
    end).
Definition cmd_start_instance (def_id : string) (variables : option Vars) : Cmd W string :=
  data ← api_post "/api/start" (start_payload def_id variables);
  mret (default "" (text_field "instance_id" data)).
Definition cmd_start_timer_instance (def_id : string) (variables : option Vars) : Cmd W string :=
  data ← api_post "/api/start/timer" (start_payload def_id variables);
  mret (default "" (text_field "instance_id" data)).
Definition cmd_list_instances : Cmd W Value := api_get "/api/instances".
Definition cmd_get_instance_details (instance_id : string) : Cmd W Value := api_get ("/api/instances/" +:+ instance_id).
Definition query_text (params : list string) : string := match params with [] => "" | _ => "?" +:+ join "&" params end.
Definition given (name : string) (value : option string) : list string :=
  match value with Some v => [name +:+ "=" +:+ v] | None => [] end.
Definition given_nonempty (name : string) (value : option string) : list string :=
  match value with Some v => if String.eqb v "" then [] else [name +:+ "=" +:+ v] | None => [] end.
Definition cmd_get_instance_history (instance_id : string) (event_types actor_types : option string) : Cmd W Value :=
  api_get ("/api/instances/" +:+ instance_id +:+ "/history" +:+
    query_text (given_nonempty "event_types" event_types ++ given_nonempty "actor_type" actor_types)).
Definition cmd_update_instance_variables (instance_id : string) (variables : Vars) : Cmd W unit :=
  api_put ("/api/instances/" +:+ instance_id +:+ "/variables") (VObject [("variables", vars_object id variables)]).
Definition cmd_suspend_instance (instance_id : string) : Cmd W unit :=
  api_post_no_body ("/api/instances/" +:+ instance_id +:+ "/suspend") (VObject []).
Definition cmd_resume_instance (instance_id : string) : Cmd W unit :=
  api_post_no_body ("/api/instances/" +:+ instance_id +:+ "/resume") (VObject []).
Definition cmd_move_token (instance_id target_node_id : string) (variables : option Vars) (cancel_current : option bool) : Cmd W unit :=
  api_post_no_body ("/api/instances/" +:+ instance_id +:+ "/move-token")
    (VObject [("cancel_current", VBool (default true cancel_current)); ("target_node_id", VString target_node_id);
              ("variables", vars_or_default variables)]).
Definition cmd_migrate_instance (instance_id target_definition_key : string) (node_mapping : option (gmap string string)) : Cmd W unit :=
  api_post_no_body ("/api/instances/" +:+ instance_id +:+ "/migrate")
    (VObject [("node_mapping", vars_object VString (default ∅ node_mapping)); ("target_definition_key", VString target_definition_key)]).
Definition cmd_delete_instance (instance_id : string) : Cmd W unit := api_delete ("/api/instances/" +:+ instance_id).
Definition cmd_query_completed_instances (definition_key business_key from to state_filter : option string) (limit offset : option N) : Cmd W Value :=
  api_get ("/api/history/instances" +:+
    query_text (given "definition_key" definition_key ++ given "business_key" business_key ++ given "from" from ++ given "to" to ++
      given "state" state_filter ++ given "limit" (pretty <$> limit) ++ given "offset" (pretty <$> offset))).
Definition cmd_get_completed_instance (instance_id : string) : Cmd W Value := api_get ("/api/history/instances/" +:+ instance_id).

(** ** Tasks and messages (commands/tasks.rs, commands/messages.rs) *)

Definition cmd_get_pending_tasks : Cmd W Value := api_get "/api/tasks".
Definition cmd_complete_task (task_id : string) (variables : option Vars) : Cmd W unit :=
  api_post_no_body ("/api/complete/" +:+ task_id) (VObject [("variables", vars_or_default variables)]).
Definition cmd_get_pending_service_tasks : Cmd W Value := api_get "/api/service-tasks".
Definition cmd_fetch_and_lock_service_tasks (worker_id : string) (max_tasks : N) (topic_name : string) (lock_duration : Z) : Cmd W Value :=
  api_post "/api/service-task/fetchAndLock"
    (VObject [("maxTasks", int (Z.of_N max_tasks));
              ("topics", VArray [VObject [("lockDuration", int lock_duration); ("topicName", VString topic_name)]]);
              ("workerId", VString worker_id)]).
Definition cmd_complete_service_task (task_id worker_id : string) (variables : option Vars) : Cmd W unit :=
  api_post_no_body ("/api/service-task/" +:+ task_id +:+ "/complete")
    (VObject [("variables", vars_or_default variables); ("workerId", VString worker_id)]).
Definition cmd_retry_incident (task_id : string) (retries : option Z) : Cmd W unit :=
  api_post_no_body ("/api/service-task/" +:+ task_id +:+ "/retry") (VObject [("retries", from_option int VNull retries)]).
Definition cmd_resolve_incident (task_id : string) (variables : option Vars) : Cmd W unit :=
  api_post_no_body ("/api/service-task/" +:+ task_id +:+ "/resolve") (VObject [("variables", vars_or_default variables)]).
Definition cmd_get_pending_timers : Cmd W Value := api_get "/api/timers".
Definition cmd_get_pending_message_catches : Cmd W Value := api_get "/api/messages".
Definition affected_ids (data : Value) : list string :=
  match value_get "affectedInstances" data with Some (VArray arr) => omap as_str arr | _ => [] end.
Definition cmd_correlate_message (message_name : string) (business_key : option string) (variables : option Vars) : Cmd W (list string) :=
  data ← api_post "/api/message"
    (VObject [("businessKey", from_option VString VNull business_key); ("messageName", VString message_name);
              ("variables", vars_or_default variables)]);
  mret (affected_ids data).

(** ** Files (commands/files.rs) *)

Definition file_url (base instance_id var_name : string) : string :=
  base +:+ "/api/instances/" +:+ instance_id +:+ "/files/" +:+ var_name.
Definition cmd_upload_instance_file (instance_id var_name file_path : string) : Cmd W Value :=
  base ← from_state get_base_url;
  file_data ← (λ d, (map_err (λ e, "Cannot read file: " +:+ e) (read_file file_path (d_machine d)), d));
  mime ← lift (mime_str (guess_mime file_path));
  let part := mkPart (default "unknown" (path_file_name file_path)) mime file_data in
  res ← request POST (file_url base instance_id var_name) [] (FormBody "file" part) id;
  if is_success res then mret (VObject [("status", VString "success")])
  else fails ("Upload failed with status: " +:+ status_text (in_status res)).
Definition save_bytes (save_path : string) (bytes : list Byte.byte) : Cmd W unit := λ d,
  let '(r, w) := write_file save_path bytes (d_machine d) in
  (map_err (λ e, "Cannot write file: " +:+ e) r, mkDesktop (d_state d) w).
Definition cmd_download_instance_file (instance_id var_name save_path : string) : Cmd W unit :=
  base ← from_state get_base_url;
  res ← request GET (file_url base instance_id var_name) [] NoBody id;
  if is_success res then
    bytes ← lift (in_bytes res);
    save_bytes save_path bytes
  else fails ("Download failed with status: " +:+ status_text (in_status res)).
Definition cmd_delete_instance_file (instance_id var_name : string) : Cmd W unit :=
  api_delete ("/api/instances/" +:+ instance_id +:+ "/files/" +:+ var_name).

(** ** Settings and monitoring (commands/monitoring.rs) *)

Definition cmd_get_api_url : Cmd W string := from_state get_base_url.
Definition cmd_set_api_url (url : string) : Cmd W unit := λ d,
  match c_base_url (d_state d) with
  | Poisoned => (Err poison_text, d)
  | Guards _ =>
    (Ok tt, mkDesktop (mkClient (Guards (trim_end_slashes url)) (c_api_key (d_state d))) (d_machine d))
  end.
Definition cmd_get_api_key : Cmd W string := key ← from_state get_api_key; mret (default "" key).
Definition cmd_set_api_key (key : string) : Cmd W unit := λ d,
  match c_api_key (d_state d) with
  | Poisoned => (Err poison_text, d)
  | Guards _ => (Ok tt, mkDesktop (mkClient (c_base_url (d_state d)) (Guards (nonblank key))) (d_machine d))
  end.
Definition cmd_get_monitoring_data : Cmd W ClientMonitoring :=
  base ← from_state get_base_url;
  res ← request GET (base +:+ "/api/monitoring") [] NoBody (λ e, "Verbindung fehlgeschlagen: " +:+ e);
  if is_success res then lift (map_err (λ e, "Ungültige Antwort: " +:+ e) (read_monitoring res))
  else fails ("Engine antwortete mit Status " +:+ status_text (in_status res)).
Definition cmd_get_log_entries (level search : option string) (limit : option N) : Cmd W Value :=
  base ← from_state get_base_url;
  res ← request GET (base +:+ "/api/logs")
    (from_option (λ l, [("level", l)]) [] level ++ from_option (λ s, [("search", s)]) [] search ++
     from_option (λ n, [("limit", pretty n)]) [] limit) NoBody id;
  if is_success res then lift (in_json res) else fails ("Status " +:+ status_text (in_status res)).
Definition cmd_read_bpmn_file (path : string) : Cmd W string := λ d,
  (map_err (λ e, "Could not read file '" +:+ path +:+ "': " +:+ e) (read_to_string path (d_machine d)), d).
Definition bucket_answer (res : Incoming) : Cmd W Value :=
  if is_success res then lift (in_json res)
  else fails (match in_text res with Ok t => t | Err _ => "Unknown error" end).
Definition cmd_get_bucket_entries (bucket : string) (offset limit : N) : Cmd W Value :=
  base ← from_state get_base_url;
  res ← request GET (base +:+ "/api/monitoring/buckets/" +:+ bucket +:+ "/entries?offset=" +:+ pretty offset
                      +:+ "&limit=" +:+ pretty limit) [] NoBody id;
  bucket_answer res.
Definition cmd_get_bucket_entry_detail (bucket key : string) : Cmd W Value :=
  base ← from_state get_base_url;
  res ← request GET (base +:+ "/api/monitoring/buckets/" +:+ bucket +:+ "/entries/" +:+ key) [] NoBody id;
  bucket_answer res.

(** ** The commands of the user interface (main.rs) *)

Inductive Command :=
| IDeploySimpleProcess
| IDeployDefinition (xml name : string)
| IListDefinitions
| IGetDefinitionXml (definition_id : string)
| IDeleteDefinition (definition_id : string) (cascade : bool)
| IDeleteAllDefinitions (bpmn_id : string) (cascade : bool)
| IStartInstance (def_id : string) (variables : option Vars)
| IStartTimerInstance (def_id : string) (variables : option Vars)
| IListInstances
| IGetInstanceDetails (instance_id : string)
| IGetInstanceHistory (instance_id : string) (event_types actor_types : option string)
| IUpdateInstanceVariables (instance_id : string) (variables : Vars)
| ISuspendInstance (instance_id : string)
| IResumeInstance (instance_id : string)
| IMoveToken (instance_id target_node_id : string) (variables : option Vars) (cancel_current : option bool)
| IMigrateInstance (instance_id target_definition_key : string) (node_mapping : option (gmap string string))
| IDeleteInstance (instance_id : string)
| IQueryCompletedInstances (definition_key business_key from to state_filter : option string) (limit offset : option N)
| IGetCompletedInstance (instance_id : string)
| IGetPendingTasks
| ICompleteTask (task_id : string) (variables : option Vars)
| IGetPendingServiceTasks
| IFetchAndLockServiceTasks (worker_id : string) (max_tasks : N) (topic_name : string) (lock_duration : Z)
| ICompleteServiceTask (task_id worker_id : string) (variables : option Vars)
| IRetryIncident (task_id : string) (retries : option Z)
| IResolveIncident (task_id : string) (variables : option Vars)
| IGetPendingTimers
| IGetPendingMessageCatches
| IUploadInstanceFile (instance_id var_name file_path : string)
| IDownloadInstanceFile (instance_id var_name save_path : string)
| IDeleteInstanceFile (instance_id var_name : string)
| IGetApiUrl
| ISetApiUrl (url : string)
| IGetApiKey
| ISetApiKey (key : string)
| IGetMonitoringData
| IGetBucketEntries (bucket : string) (offset limit : N)
| IGetBucketEntryDetail (bucket key : string)
| IGetLogEntries (level search : option string) (limit : option N)
| IReadBpmnFile (path : string)
| ICorrelateMessage (message_name : string) (business_key : option string) (variables : option Vars).

(** [generate_handler!]: a command runs; what it returns to the interface is left out. *)
Definition ignore {A} (m : Cmd W A) : Cmd W unit := _ ← m; mret tt.
Definition invoke (c : Command) : Cmd W unit :=
  match c with
  | IDeploySimpleProcess => ignore deploy_simple_process
  | IDeployDefinition xml name => ignore (cmd_deploy_definition xml name)
  | IListDefinitions => ignore cmd_list_definitions
  | IGetDefinitionXml id => ignore (cmd_get_definition_xml id)
  | IDeleteDefinition id cascade => cmd_delete_definition id cascade
  | IDeleteAllDefinitions id cascade => cmd_delete_all_definitions id cascade
  | IStartInstance id vars => ignore (cmd_start_instance id vars)
  | IStartTimerInstance id vars => ignore (cmd_start_timer_instance id vars)
  | IListInstances => ignore cmd_list_instances
  | IGetInstanceDetails id => ignore (cmd_get_instance_details id)
  | IGetInstanceHistory id events actors => ignore (cmd_get_instance_history id events actors)
  | IUpdateInstanceVariables id vars => cmd_update_instance_variables id vars
  | ISuspendInstance id => cmd_suspend_instance id
  | IResumeInstance id => cmd_resume_instance id
  | IMoveToken id node vars cancel => cmd_move_token id node vars cancel
  | IMigrateInstance id key mapping => cmd_migrate_instance id key mapping
  | IDeleteInstance id => cmd_delete_instance id
  | IQueryCompletedInstances key business from to state limit offset =>
    ignore (cmd_query_completed_instances key business from to state limit offset)
  | IGetCompletedInstance id => ignore (cmd_get_completed_instance id)
  | IGetPendingTasks => ignore cmd_get_pending_tasks
  | ICompleteTask id vars => cmd_complete_task id vars
  | IGetPendingServiceTasks => ignore cmd_get_pending_service_tasks
  | IFetchAndLockServiceTasks worker max topic lock => ignore (cmd_fetch_and_lock_service_tasks worker max topic lock)
  | ICompleteServiceTask id worker vars => cmd_complete_service_task id worker vars
  | IRetryIncident id retries => cmd_retry_incident id retries
  | IResolveIncident id vars => cmd_resolve_incident id vars
  | IGetPendingTimers => ignore cmd_get_pending_timers
  | IGetPendingMessageCatches => ignore cmd_get_pending_message_catches
  | IUploadInstanceFile id var path => ignore (cmd_upload_instance_file id var path)
  | IDownloadInstanceFile id var path => cmd_download_instance_file id var path
  | IDeleteInstanceFile id var => cmd_delete_instance_file id var
  | IGetApiUrl => ignore cmd_get_api_url
  | ISetApiUrl url => cmd_set_api_url url
  | IGetApiKey => ignore cmd_get_api_key
  | ISetApiKey key => cmd_set_api_key key
  | IGetMonitoringData => ignore cmd_get_monitoring_data
  | IGetBucketEntries bucket offset limit => ignore (cmd_get_bucket_entries bucket offset limit)
  | IGetBucketEntryDetail bucket key => ignore (cmd_get_bucket_entry_detail bucket key)
  | IGetLogEntries level search limit => ignore (cmd_get_log_entries level search limit)
  | IReadBpmnFile path => ignore (cmd_read_bpmn_file path)
  | ICorrelateMessage name key vars => ignore (cmd_correlate_message name key vars)
  end.
(** ** The reader of the server's events (sse_consumer.rs) *)

Definition sse_url_from_state (s : ClientState) : result string string :=
  base ←? get_base_url s; Ok (trim_end_slashes base +:+ "/api/events").
(** What waiting a second for the next line gives: a line, the end of the stream, an
    error, or nothing, and then the URL in the state. *)
Inductive Tick := Line (line : string) | Ended | Broken | Elapsed (url : result string string).
Inductive ConsumeOutcome := StreamEnded | UrlChanged.
Definition changed (current : string) (read : result string string) : bool :=
  match read with Ok url => negb (String.eqb url current) | Err _ => false end.
(** The types of the events given to the interface, and how reading ended, if it did. *)
Fixpoint consume (url : string) (current_event_type : string) (ticks : list Tick) : list string * option ConsumeOutcome :=
  match ticks with
  | [] => ([], None)
  | Line line :: ticks =>
    match strip_prefix (chars "event:") (chars line) with
    | Some event_type => consume url (of_chars (trim event_type)) ticks
    | None =>
      if starts_with "data:" line then
        let '(emitted, outcome) := consume url current_event_type ticks in
        ((if String.eqb current_event_type "" then emitted else current_event_type :: emitted), outcome)
      else if String.eqb line "" then consume url "" ticks
      else consume url current_event_type ticks
    end
  | Ended :: _ | Broken :: _ => ([], Some StreamEnded)
  | Elapsed read :: ticks => if changed url read then ([], Some UrlChanged) else consume url current_event_type ticks
  end.
Definition connect_and_consume (url : string) (ticks : list Tick) : Cmd W (list string * option ConsumeOutcome) :=
  headers ← auth_headers;
  res ← transmit id (mkOutgoing GET url [] (headers ∪ {["accept" := "text/event-stream"]}) NoBody);
  if is_success res then mret (consume url "" ticks) else fails ("HTTP " +:+ status_text (in_status res)).

(** [sleep_or_url_change]: after each slice of the pause the URL is read; [slices] lists
    the time (in milliseconds) and the reading.  [None]: the pause is not over. *)
Definition URL_POLL_MS : Z := 1000.
Fixpoint sleep_or_url_change (deadline now : Z) (current : string) (slices : list (Z * result string string)) : option bool :=
  if (deadline <=? now)%Z then Some false
  else
    match slices with
    | [] => None
    | (later, read) :: slices => if changed current read then Some true else sleep_or_url_change deadline later current slices
    end.
(** A turn of [run_consumer]: the URL, how the connection ended, and the pause. *)
Record Turn := mkTurn {
  t_url : result string string;
  t_outcome : result string ConsumeOutcome;
  t_now : Z;
  t_slices : list (Z * result string string);
}.
Record Consumer := mkConsumer { k_backoff_secs : Z; k_last_url : string }.
Definition consumer_start : Consumer := mkConsumer 1 "".
Definition longer (secs : Z) : Z := Z.min (secs * 2) 30.
Definition run_turn (k : Consumer) (t : Turn) : option Consumer :=
  match t_url t with
  | Err _ => Some (mkConsumer (longer (k_backoff_secs k)) (k_last_url k))
  | Ok url =>
    let backoff := if String.eqb url (k_last_url k) then k_backoff_secs k else 1%Z in
    match t_outcome t with
    | Ok UrlChanged => Some (mkConsumer 1 url)
    | outcome =>
      let backoff := match outcome with Ok _ => 1%Z | Err _ => backoff end in
      match sleep_or_url_change (t_now t + backoff * 1000) (t_now t) url (t_slices t) with
      | Some true => Some (mkConsumer 1 url)
      | Some false => Some (mkConsumer (longer backoff) url)
      | None => None
      end
    end
  end.
Fixpoint run_consumer (k : Consumer) (turns : list Turn) : option Consumer :=
  match turns with [] => Some k | t :: turns => k ← run_turn k t; run_consumer k turns end.
End client.

(** ** Where the commands go *)

(** The path of a request by its segments, with the query it carries in its text and the
    handler of the server it is meant for. *)
Inductive Seg := Fixed (s : string) | Arg (s : string).
Definition seg_text (seg : Seg) : string := match seg with Fixed s | Arg s => s end.
Definition path_of (segs : list Seg) : string := fold_right (λ seg path, "/" +:+ seg_text seg +:+ path) "" segs.
Record Target := mkTarget { g_method : Method; g_segments : list Seg; g_query : string; g_handler : Handler }.
Definition instance_target (m : Method) (id : string) (rest : list Seg) (query : string) (h : Handler) : option Target :=
  Some (mkTarget m (Fixed "api" :: Fixed "instances" :: Arg id :: rest) query h).
Definition task_target (id action : string) (h : Handler) : option Target :=
  Some (mkTarget POST [Fixed "api"; Fixed "service-task"; Arg id; Fixed action] "" h).
Definition api_target (m : Method) (rest : list Seg) (query : string) (h : Handler) : option Target :=
  Some (mkTarget m (Fixed "api" :: rest) query h).
Definition cascade_text (b : bool) : string := "?cascade=" +:+ bool_text b.
(** [None]: the command stays on the machine. *)
Definition target (c : Command) : option Target :=
  match c with
  | IDeploySimpleProcess | IGetApiUrl | ISetApiUrl _ | IGetApiKey | ISetApiKey _ | IReadBpmnFile _ => None
  | IDeployDefinition _ _ => api_target POST [Fixed "deploy"] "" HDeployDefinition
  | IListDefinitions => api_target GET [Fixed "definitions"] "" HListDefinitions
  | IGetDefinitionXml id => api_target GET [Fixed "definitions"; Arg id; Fixed "xml"] "" HGetDefinitionXml
  | IDeleteDefinition id b => api_target DELETE [Fixed "definitions"; Arg id] (cascade_text b) HDeleteDefinition
  | IDeleteAllDefinitions id b => api_target DELETE [Fixed "definitions"; Fixed "bpmn"; Arg id] (cascade_text b) HDeleteAllDefinitions
  | IStartInstance _ _ => api_target POST [Fixed "start"] "" HStartInstance
  | IStartTimerInstance _ _ => api_target POST [Fixed "start"; Fixed "timer"] "" HStartTimerInstance
  | IListInstances => api_target GET [Fixed "instances"] "" HListInstances
  | IGetInstanceDetails id => instance_target GET id [] "" HGetInstance
  | IGetInstanceHistory id e a =>
    instance_target GET id [Fixed "history"] (query_text (given_nonempty "event_types" e ++ given_nonempty "actor_type" a)) HGetHistory
  | IUpdateInstanceVariables id _ => instance_target PUT id [Fixed "variables"] "" HUpdateVariables
  | ISuspendInstance id => instance_target POST id [Fixed "suspend"] "" HSuspendInstance
  | IResumeInstance id => instance_target POST id [Fixed "resume"] "" HResumeInstance
  | IMoveToken id _ _ _ => instance_target POST id [Fixed "move-token"] "" HMoveToken
  | IMigrateInstance id _ _ => instance_target POST id [Fixed "migrate"] "" HMigrateInstance
  | IDeleteInstance id => instance_target DELETE id [] "" HDeleteInstance
  | IQueryCompletedInstances key business from to state limit offset =>
    api_target GET [Fixed "history"; Fixed "instances"]
      (query_text (given "definition_key" key ++ given "business_key" business ++ given "from" from ++ given "to" to ++
         given "state" state ++ given "limit" (pretty <$> limit) ++ given "offset" (pretty <$> offset))) HListCompleted
  | IGetCompletedInstance id => api_target GET [Fixed "history"; Fixed "instances"; Arg id] "" HGetCompleted
  | IGetPendingTasks => api_target GET [Fixed "tasks"] "" HGetTasks
  | ICompleteTask id _ => api_target POST [Fixed "complete"; Arg id] "" HCompleteTask
  | IGetPendingServiceTasks => api_target GET [Fixed "service-tasks"] "" HGetServiceTasks
  | IFetchAndLockServiceTasks _ _ _ _ => api_target POST [Fixed "service-task"; Fixed "fetchAndLock"] "" HFetchAndLock
  | ICompleteServiceTask id _ _ => task_target id "complete" HCompleteServiceTask
  | IRetryIncident id _ => task_target id "retry" HRetryIncident
  | IResolveIncident id _ => task_target id "resolve" HResolveIncident
  | IGetPendingTimers => api_target GET [Fixed "timers"] "" HGetTimers
  | IGetPendingMessageCatches => api_target GET [Fixed "messages"] "" HGetMessages
  | IUploadInstanceFile id var _ => instance_target POST id [Fixed "files"; Arg var] "" HUploadFile
  | IDownloadInstanceFile id var _ => instance_target GET id [Fixed "files"; Arg var] "" HGetFile
  | IDeleteInstanceFile id var => instance_target DELETE id [Fixed "files"; Arg var] "" HDeleteFile
  | IGetMonitoringData => api_target GET [Fixed "monitoring"] "" HMonitoring
  | IGetBucketEntries bucket offset limit =>
    api_target GET [Fixed "monitoring"; Fixed "buckets"; Arg bucket; Fixed "entries"]
      ("?offset=" +:+ pretty offset +:+ "&limit=" +:+ pretty limit) HBucketEntries
  | IGetBucketEntryDetail bucket key =>
    api_target GET [Fixed "monitoring"; Fixed "buckets"; Arg bucket; Fixed "entries"; Arg key] "" HBucketEntryDetail
  | IGetLogEntries _ _ _ => api_target GET [Fixed "logs"] "" HLogs
  | ICorrelateMessage _ _ _ => api_target POST [Fixed "message"] "" HCorrelateMessage
  end.

(** A machine that also writes down what it sends. *)
Record Recorded (W : Type) := mkRecorded { r_sent : list Outgoing; r_inner : W }.
Arguments mkRecorded {W}. Arguments r_sent {W}. Arguments r_inner {W}.
#[export] Instance recorded_machine {W} {MA : Machine W} : Machine (Recorded W) := {
  send rq w := let '(r, inner) := send rq (r_inner w) in (r, mkRecorded (r_sent w ++ [rq]) inner);
  status_text := status_text;
  parse_json := parse_json;
  read_monitoring := read_monitoring;
  read_file path w := read_file path (r_inner w);
  read_to_string path w := read_to_string path (r_inner w);
  write_file path bytes w := let '(r, inner) := write_file path bytes (r_inner w) in (r, mkRecorded (r_sent w) inner);
  path_file_name := path_file_name;
  guess_mime := guess_mime;
  mime_str := mime_str;
}.

Section requests.
  Context {HV : HeaderLib} {W : Type} {MA : Machine W}.
  Notation Run A := (Cmd (Recorded W) A).

(** The headers of a request: those of the key in the state. *)
Definition carries (s : ClientState) (headers : gmap string string) : Prop :=
  match get_api_key s with
  | Ok None => headers = ∅
  | Ok (Some key) => headers = <["x-api-key" := key]> (<["authorization" := "Bearer " +:+ key]> ∅)
  | Err _ => False
  end.
Definition addressed (m : Method) (path : string) (s : ClientState) (rq : Outgoing) : Prop :=
  o_method rq = m ∧ (∃ base, get_base_url s = Ok base ∧ o_url rq = base +:+ path) ∧ carries s (o_headers rq).

(** A command that sends nothing, and one that sends at most one request, and one if it
    succeeds. *)
Definition silent {A} (m : Run A) : Prop := ∀ d,
  d_state (m d).2 = d_state d ∧ r_sent (d_machine (m d).2) = r_sent (d_machine d).
Definition sends {A} (P : ClientState → Outgoing → Prop) (m : Run A) : Prop := ∀ d,
  d_state (m d).2 = d_state d ∧
  ((r_sent (d_machine (m d).2) = r_sent (d_machine d) ∧ ∃ msg, (m d).1 = Err msg) ∨
   ∃ rq, r_sent (d_machine (m d).2) = r_sent (d_machine d) ++ [rq] ∧ P (d_state d) rq).

Lemma silent_ret {A} (a : A) : silent (mret a).
Proof. done. Qed.
Lemma silent_fails {A} msg : silent (fails (A := A) msg).
Proof. done. Qed.
Lemma silent_lift {A} (r : result string A) : silent (lift r).
Proof. done. Qed.
Lemma silent_state {A} (f : ClientState → result string A) : silent (from_state f).
Proof. done. Qed.
Lemma silent_bind {A B} (m : Run A) (k : A → Run B) : silent m → (∀ a, silent (k a)) → silent (m ≫= k).
Proof.
  intros Hm Hk d. specialize (Hm d). unfold mbind, Cmd_bind. destruct (m d) as [[a|] d1]; [|done].
  destruct Hm as [H1 H2]. destruct (Hk a d1) as [H3 H4]. cbn [fst snd] in *. by rewrite H3, H4.
Qed.
Lemma silent_header v : silent (header_value v).
Proof. unfold header_value. by destruct (header_from_str v). Qed.
Lemma silent_auth : silent auth_headers.
Proof.
  apply silent_bind; [apply silent_state|]. intros [key|]; [|apply silent_ret].
  do 2 (apply silent_bind; [apply silent_header|intros ?]). apply silent_ret.
Qed.
Lemma auth_headers_carries (d : Desktop (Recorded W)) headers d' : auth_headers d = (Ok headers, d') → carries (d_state d) headers.
Proof.
  unfold auth_headers, carries, mbind, Cmd_bind, from_state, header_value.
  destruct (get_api_key (d_state d)) as [[key|]|]; [|by intros [= <- _]|done].
  destruct (header_from_str ("Bearer " +:+ key)) as [bearer|] eqn:Hb; [|done].
  destruct (header_from_str key) as [v|] eqn:Hk; [|done].
  apply header_from_str_text in Hb as ->. apply header_from_str_text in Hk as ->. by intros [= <- _].
Qed.

Lemma sends_after {A B} P (m : Run A) (k : A → Run B) : silent m → (∀ a, sends P (k a)) → sends P (m ≫= k).
Proof.
  intros Hm Hk d. specialize (Hm d). unfold mbind, Cmd_bind. destruct (m d) as [[a|msg] d1]; destruct Hm as [H1 H2].
  - destruct (Hk a d1) as [H3 H4]. cbn [fst snd] in *. by rewrite <- H1, <- H2.
  - split; [done|]. left. split; [done|]. by exists msg.
Qed.
Lemma sends_then {A B} P (m : Run A) (k : A → Run B) : sends P m → (∀ a, silent (k a)) → sends P (m ≫= k).
Proof.
  intros Hm Hk d. specialize (Hm d). unfold mbind, Cmd_bind. destruct (m d) as [[a|msg] d1]; destruct Hm as [H1 H2].
  - destruct (Hk a d1) as [H3 H4]. cbn [fst snd] in *. rewrite H3, H4. split; [done|]. right.
    destruct H2 as [[_ [msg ?]]|H2]; [done|exact H2].
  - split; [done|]. destruct H2 as [[H2 _]|H2]; [left; split; [done|by exists msg]|by right].
Qed.
(** The URL is read before the request is made. *)
Lemma sends_from_base {A} m path (k : string → Run A) :
  (∀ base, sends (λ s rq, get_base_url s = Ok base → addressed m path s rq) (k base)) →
  sends (addressed m path) (from_state get_base_url ≫= k).
Proof.
  intros Hk d. unfold mbind, Cmd_bind, from_state. destruct (get_base_url (d_state d)) as [base|msg] eqn:Hb; cbn [fst snd].
  - destruct (Hk base d) as [H1 [H2|(rq & H2 & H3)]]; (split; [done|]); [by left|right]. exists rq. split; [done|]. by apply H3.
  - split; [done|]. left. split; [done|]. by exists msg.
Qed.
Lemma sends_request m base path query body on_error :
  sends (λ s rq, get_base_url s = Ok base → addressed m path s rq) (request m (base +:+ path) query body on_error).
Proof.
  intros d. pose proof (silent_auth d) as [H1 H2]. unfold request, mbind, Cmd_bind.
  destruct (auth_headers d) as [[headers|msg] d1] eqn:Ha; cbn [fst snd] in *; [|split; [done|]; left; split; [done|by exists msg]].
  apply auth_headers_carries in Ha. unfold transmit. cbn. destruct (send _ (r_inner _)) as [r inner]. cbn. split; [done|]. right.
  eexists. split; [by rewrite H2|]. intros Hb. split; [done|]. split; [by exists base|done].
Qed.
Lemma sends_api m path body message : sends (addressed m path) (api_request m path body message).
Proof.
  apply sends_from_base. intros base. apply sends_then; [apply sends_request|]. intros res. by destruct (is_success res).
Qed.
Lemma sends_path {A} m path path' (c : Run A) : sends (addressed m path) c → path = path' → sends (addressed m path') c.
Proof. by intros H <-. Qed.
Lemma silent_bucket res : silent (bucket_answer res).
Proof. unfold bucket_answer. by destruct (is_success res). Qed.
Lemma silent_save path bytes : silent (save_bytes path bytes).
Proof. intros d. unfold save_bytes. cbn. by destruct (write_file _ _ _). Qed.
Ltac is_silent :=
  lazymatch goal with
  | |- silent (mret _) => apply silent_ret
  | |- silent (fails _) => apply silent_fails
  | |- silent (lift _) => apply silent_lift
  | |- silent (bucket_answer _) => apply silent_bucket
  | |- silent (save_bytes _ _) => apply silent_save
  | |- silent (_ ≫= _) => apply silent_bind; [is_silent|intros ?; is_silent]
  | |- silent (if is_success ?res then _ else _) => destruct (is_success res); is_silent
  end.
Ltac is_sent :=
  lazymatch goal with
  | |- sends _ (api_request _ _ _ _) => apply sends_api
  | |- sends _ (request _ _ _ _ _) => apply sends_request
  | |- sends _ (from_state get_base_url ≫= _) => apply sends_from_base; intros ?; is_sent
  | |- sends _ (_ ≫= _) => apply sends_then; [is_sent|intros ?; is_silent]
  end.
Lemma sends_upload id var path :
  sends (addressed POST ("/api/instances/" +:+ id +:+ "/files/" +:+ var)) (cmd_upload_instance_file id var path).
Proof.
  apply sends_from_base. intros base. apply sends_after; [done|]. intros data. apply sends_after; [done|]. intros mime. cbn zeta.
  apply sends_then; [apply sends_request|]. intros res. is_silent.
Qed.

(** Every command sends at most one request, to its target under the URL in the state and
    with the key in the state, and one if it succeeds; it leaves the state as it is. *)
Lemma invoke_sends c t : target c = Some t → sends (addressed (g_method t) (path_of (g_segments t) +:+ g_query t)) (invoke c).
Proof.
  destruct c; try done; intros [= <-]; cbn [invoke g_method g_segments g_query];
    unfold ignore, cmd_deploy_definition, cmd_list_definitions, cmd_get_definition_xml, cmd_delete_definition,
      cmd_delete_all_definitions, cmd_start_instance, cmd_start_timer_instance, cmd_list_instances, cmd_get_instance_details,
      cmd_get_instance_history, cmd_update_instance_variables, cmd_suspend_instance, cmd_resume_instance, cmd_move_token,
      cmd_migrate_instance, cmd_delete_instance, cmd_query_completed_instances, cmd_get_completed_instance, cmd_get_pending_tasks,
      cmd_complete_task, cmd_get_pending_service_tasks, cmd_fetch_and_lock_service_tasks, cmd_complete_service_task,
      cmd_retry_incident, cmd_resolve_incident, cmd_get_pending_timers, cmd_get_pending_message_catches,
      cmd_download_instance_file, cmd_delete_instance_file, cmd_get_monitoring_data, cmd_get_log_entries,
      cmd_get_bucket_entries, cmd_get_bucket_entry_detail, cmd_correlate_message, api_get, api_post, api_post_no_body, api_put, api_delete.
  all: eapply sends_path; [first [is_sent|apply sends_then; [apply sends_upload|intros ?; is_silent]]|].
  all: cbn; unfold file_url; rewrite ?string_app_assoc, ?string_app_nil_r; reflexivity.
Qed.
Lemma invoke_local c : target c = None → ∀ d, r_sent (d_machine (invoke c d).2) = r_sent (d_machine d).
Proof.
  intros Hc d. destruct c; try done; cbn [invoke];
    try (apply silent_bind; [|intros ?; apply silent_ret]; first [apply silent_state|apply silent_fails|apply silent_bind; [apply silent_state|intros ?; apply silent_ret]|done]).
  - unfold cmd_set_api_url. by case_match.
  - unfold cmd_set_api_key. by case_match.
Qed.
End requests.

(** ** The client at the gate of the server *)

Definition visible (c : char) : bool := (32 <=? c)%N && (c <? 127)%N.
Lemma substring_whole s : String.substring 0 (String.length s) s = s.
Proof. induction s as [|a s IH]; [done|]. cbn. by rewrite IH. Qed.
Lemma visible_scalar l : Forall (λ c, visible c = true) l → Forall (λ c, (c < 0x110000)%N) l.
Proof. intros Hl. eapply Forall_impl; [exact Hl|]. intros c [_ H%N.ltb_lt]%andb_true_iff. lia. Qed.

(** A key as both sides keep it: trimmed, and not empty. *)
Lemma nonblank_Some raw key : nonblank raw = Some key → key = of_chars (trim (chars raw)) ∧ key ≠ "".
Proof. unfold nonblank, trim_str. destruct (String.eqb_spec (of_chars (trim (chars raw))) ""); [done|]. by intros [= <-]. Qed.
Lemma strip_bearer_key raw key :
  nonblank raw = Some key → Forall (λ c, visible c = true) (trim (chars raw)) → strip_bearer ("Bearer " +:+ key) = Returns (Some key).
Proof.
  intros [-> Hne]%nonblank_Some Hv. set (l := trim (chars raw)) in *. pose proof (trim_edges (chars raw)) as Hedges. fold l in Hedges.
  assert (trim_str (of_chars l) = of_chars l) as Htrim.
  { unfold trim_str. rewrite chars_of_chars by by apply visible_scalar. by rewrite trim_id. }
  assert (trim_str ("Bearer " +:+ of_chars l) = "Bearer " +:+ of_chars l) as Hall.
  { unfold trim_str. change "Bearer " with (of_chars (chars "Bearer ")) at 1.
    rewrite chars_of_chars_app by repeat constructor. rewrite chars_of_chars by by apply visible_scalar.
    rewrite trim_id; [reflexivity|]. destruct Hedges as [_ Hl]. split; [by intros c [= <-]|].
    intros c Hc. apply Hl. destruct l as [|x l'] using rev_ind; [done|]. rewrite app_assoc, last_snoc in Hc. by rewrite last_snoc. }
  unfold strip_bearer. rewrite Hall. set (k := of_chars l) in *.
  change ("Bearer " +:+ k) with (String "B" (String "e" (String "a" (String "r" (String "e" (String "r" (String " " k))))))).
  cbn -[trim_str]. replace (String.length k - 0) with (String.length k) by lia. rewrite substring_whole, Htrim.
  destruct (String.eqb_spec k ""); done.
Qed.

(** The characters of a path that stay as they are on the wire. *)
Definition segment_char (c : char) : bool :=
  is_ascii_digit c || is_ascii_alphabetic c || bool_decide (c ∈ chars "-_.").
Definition plain_segment (s : string) : bool :=
  negb (String.eqb s "") && forallb (λ a, segment_char (N_of_ascii a)) (String.list_ascii_of_string s) && negb (bool_decide (s ∈ ["."; ".."])).
Definition plain_base (base : string) : Prop :=
  ∃ scheme host, scheme ∈ ["http"; "https"] ∧ base = scheme +:+ "://" +:+ host ∧ host ≠ "" ∧
    forallb (λ a, segment_char (N_of_ascii a) || Ascii.eqb a ":") (String.list_ascii_of_string host) = true.
Definition query_ok (query : string) : Prop := query = "" ∨ ∃ rest, query = "?" +:+ rest.

(** reqwest, the url and the http crate, and the server's end of the connection: the
    method arrives, a plain path arrives without its query, and a header of visible
    characters arrives as the text it is. *)
Class Wire `{HttpLib} := {
  arrives : Outgoing → HttpRequest;
  arrives_method rq : rq_method (arrives rq) = o_method rq;
  arrives_path rq base segs query : plain_base base → Forall (λ s, plain_segment s = true) segs → segs ≠ [] → query_ok query →
    o_url rq = base +:+ path_of (Fixed <$> segs) +:+ query → rq_path (arrives rq) = path_of (Fixed <$> segs);
  arrives_header rq name v : o_headers rq !! name = Some v → Forall (λ c, visible c = true) (chars v) →
    rq_headers (arrives rq) !! name ≫= to_str = Some v;
}.

Lemma path_of_texts segs : path_of segs = path_of (Fixed <$> (seg_text <$> segs)).
Proof.
  induction segs as [|seg segs IH]; [done|]. cbn [fmap list_fmap path_of fold_right seg_text].
  change (fold_right _ "" ?l) with (path_of l). by rewrite <- IH.
Qed.
Lemma chars_cons_ascii a s : (N_of_ascii a < 128)%N → chars (String a s) = N_of_ascii a :: chars s.
Proof.
  intros Ha. change (String a s) with (String a EmptyString +:+ s).
  replace (String a EmptyString) with (of_chars [N_of_ascii a]).
  - rewrite chars_of_chars_app; [done|]. repeat constructor. lia.
  - cbn. unfold encode_char. destruct (N.ltb_spec (N_of_ascii a) 128); [|lia]. cbn. unfold byte_of. by rewrite ascii_N_embedding.
Qed.

Lemma segment_char_ascii c : segment_char c = true → (c < 128)%N ∧ c ≠ ch "/".
Proof.
  unfold segment_char. rewrite !orb_true_iff. intros [[Hc|Hc]|Hc%bool_decide_eq_true].
  - unfold is_ascii_digit in Hc. apply andb_true_iff in Hc as [H1%N.leb_le H2%N.leb_le]. change (ch "/") with 47%N. lia.
  - unfold is_ascii_alphabetic in Hc. rewrite orb_true_iff, !andb_true_iff, !N.leb_le in Hc. change (ch "/") with 47%N. lia.
  - change (chars "-_.") with [45; 95; 46]%N in Hc. change (ch "/") with 47%N. rewrite !elem_of_cons, elem_of_nil in Hc. lia.
Qed.
Lemma plain_chars s rest : plain_segment s = true → chars (s +:+ rest) = chars s ++ chars rest ∧ ch "/" ∉ chars s.
Proof.
  unfold plain_segment. rewrite !andb_true_iff. intros [[_ Hs] _]. induction s as [|a s IH]; [split; [done|apply not_elem_of_nil]|].
  cbn in Hs. apply andb_true_iff in Hs as [[Ha Hne]%segment_char_ascii Hs]. destruct (IH Hs) as [H1 H2].
  rewrite string_app_cons, !chars_cons_ascii by done. rewrite H1. split; [done|]. apply not_elem_of_cons. split; [congruence|done].
Qed.
Lemma path_segments segs : segs ≠ [] → Forall (λ s, plain_segment s = true) segs → segments (path_of (Fixed <$> segs)) = [] :: (chars <$> segs).
Proof.
  intros Hne Hs. unfold segments. destruct segs as [|s segs]; [done|]. clear Hne. revert s Hs.
  assert (∀ path, chars ("/" +:+ path) = [] ++ ch "/" :: chars path) as Hslash by (intros; by apply chars_cons_ascii).
  induction segs as [|s' segs IH]; intros s [Hs Hr]%Forall_cons; cbn [fmap list_fmap path_of fold_right seg_text]; rewrite Hslash, split_on_cons by apply not_elem_of_nil.
  - f_equal. destruct (plain_chars s "" Hs) as [H1 H2]. rewrite H1. cbn. rewrite app_nil_r. by apply split_on_fresh.
  - destruct (plain_chars s (path_of (Fixed <$> s' :: segs)) Hs) as [H1 H2]. f_equal.
    change (fold_right _ "" (Fixed <$> segs)) with (path_of (Fixed <$> segs)) in *.
    change ("/" +:+ s' +:+ path_of (Fixed <$> segs)) with (path_of (Fixed <$> s' :: segs)). rewrite H1.
    specialize (IH s' Hr). cbn [fmap list_fmap path_of fold_right seg_text] in IH. rewrite Hslash, split_on_cons in IH by apply not_elem_of_nil.
    injection IH as IH. cbn [fmap list_fmap path_of fold_right seg_text]. rewrite Hslash. cbn [app]. rewrite split_on_cons by done. f_equal. exact IH.
Qed.

(** The table of routes, looked up by method and by the segments that are known. *)
Definition table_finds (routes : Routes) (known : list (option (list char))) (m : Method) (h : Handler) : bool :=
  forallb (λ entry, negb (may_match (segments entry.1) known) ||
    forallb (λ mh, negb (bool_decide (mh.1 = m)) || bool_decide (mh.2 = h)) entry.2) routes.
Definition known (segs : list Seg) : list (option (list char)) :=
  Some [] :: ((λ seg, match seg with Fixed s => Some (chars s) | Arg _ => None end) <$> segs).
Lemma known_texts segs : Forall2 (λ k s, k = None ∨ k = Some s) (known segs) ([] :: (chars <$> (seg_text <$> segs))).
Proof. constructor; [by right|]. induction segs as [|[s|s] segs IH]; constructor; auto. Qed.
Lemma route_found `{HttpLib} metrics segs m h h' :
  m ≠ HEAD → segs ≠ [] → Forall (λ s, plain_segment s = true) (seg_text <$> segs) → table_finds (app_routes metrics) (known segs) m h = true →
  route (app_routes metrics) m (path_of segs) = Some h' → h' = h.
Proof.
  intros Hm Hne Hs Ht (pattern & handlers & Hin & Hmatch & Hh)%route_listed. unfold table_finds in Ht. rewrite forallb_elem in Ht.
  specialize (Ht _ Hin). cbn [fst snd] in Ht. rewrite path_of_texts in Hmatch. unfold pattern_matches in Hmatch.
  rewrite path_segments in Hmatch; [|by destruct segs|done].
  rewrite (may_match_sound _ _ _ (known_texts segs) Hmatch) in Ht. cbn in Ht. rewrite forallb_elem in Ht.
  destruct Hh as [Hh|[-> _]]; [|done]. specialize (Ht _ Hh). cbn in Ht. rewrite bool_decide_true in Ht by done.
  by apply bool_decide_eq_true in Ht.
Qed.
(** A pattern that matches whatever the unknown segments are. *)
Fixpoint must_match (pattern : list (list char)) (path : list (option (list char))) : bool :=
  match pattern, path with
  | [], [] => true
  | p :: pattern, s :: path =>
    (is_capture p || match s with Some s => bool_decide (p = s) | None => false end) && must_match pattern path
  | _, _ => false
  end.
Lemma must_match_sound pattern path known :
  Forall2 (λ k s, k = None ∨ k = Some s) known path → must_match pattern known = true → segments_match pattern path = true.
Proof.
  intros Hk. revert pattern. induction Hk as [|k s known path Hks Hk IH]; intros [|p pattern]; try done. cbn.
  rewrite !andb_true_iff, !orb_true_iff. intros [Hp Hm]. split; [|by apply IH].
  destruct Hp as [Hp|Hp]; [by left|]. right. by destruct Hks as [->| ->].
Qed.
Definition table_has (routes : Routes) (known : list (option (list char))) (m : Method) (h : Handler) : bool :=
  existsb (λ entry, must_match (segments entry.1) known && existsb (λ mh, bool_decide (mh = (m, h))) entry.2) routes.
Lemma table_has_listed routes segs m h :
  segs ≠ [] → Forall (λ s, plain_segment s = true) (seg_text <$> segs) → table_has routes (known segs) m h = true →
  ∃ pattern handlers, (pattern, handlers) ∈ routes ∧ pattern_matches pattern (path_of segs) = true ∧ (m, h) ∈ handlers.
Proof.
  intros Hne Hs ([pattern handlers] & Hin & [Hmatch (mh & Hmh & ->%bool_decide_eq_true)%existsb_exists]%andb_true_iff)%existsb_exists.
  exists pattern, handlers. rewrite !list_elem_of_In. split; [done|]. split; [|done]. rewrite path_of_texts. unfold pattern_matches.
  rewrite path_segments; [|by destruct segs|done]. eapply must_match_sound; [apply known_texts|done].
Qed.
(** Every command's target is the only handler of the table for its method and path, and
    the table has it. *)
Lemma target_routed c t metrics : target c = Some t →
  g_method t ≠ HEAD ∧ g_segments t ≠ [] ∧ table_finds (app_routes metrics) (known (g_segments t)) (g_method t) (g_handler t) = true ∧
  table_has (app_routes metrics) (known (g_segments t)) (g_method t) (g_handler t) = true.
Proof. destruct c, metrics; try done; intros [= <-]; (split; [done|]; split; [done|]; split; vm_compute; reflexivity). Qed.
Lemma target_query c t : target c = Some t → query_ok (g_query t).
Proof.
  assert (∀ l, query_ok (query_text l)) as Hq by (intros []; [by left|right; by eexists]).
  destruct c; try done; intros [= <-]; first [apply Hq|by left|right; by eexists].
Qed.

Section served.
  Context {HV : HeaderLib} {HL : HttpLib} {WI : Wire} {W : Type} {MA : Machine W}.

Lemma key_presented raw key rq s :
  nonblank raw = Some key → Forall (λ c, visible c = true) (trim (chars raw)) →
  get_api_key s = Ok (Some key) → carries s (o_headers rq) → extract_api_key (rq_headers (arrives rq)) = Returns (Some key).
Proof.
  intros Hkey Hv Hs Hc. unfold carries in Hc. rewrite Hs in Hc. unfold extract_api_key.
  rewrite (arrives_header rq "authorization" ("Bearer " +:+ key)).
  - by rewrite (strip_bearer_key raw).
  - by rewrite Hc, lookup_insert_ne, lookup_insert_eq.
  - apply nonblank_Some in Hkey as [-> _]. change "Bearer " with (of_chars (chars "Bearer ")).
    rewrite chars_of_chars_app by repeat constructor. rewrite chars_of_chars by by apply visible_scalar.
    apply Forall_app. split; [repeat constructor|done].
Qed.

End served.

(** What is entered is what is presented. *)
Lemma nonblank_idempotent raw key : Forall (λ c, visible c = true) (trim (chars raw)) → nonblank raw = Some key → nonblank key = Some key.
Proof.
  intros Hv [-> Hne]%nonblank_Some. unfold nonblank, trim_str. rewrite chars_of_chars by by apply visible_scalar.
  rewrite (trim_id (trim (chars raw))) by apply trim_edges. by destruct (String.eqb_spec (of_chars (trim (chars raw))) "").
Qed.
Lemma set_then_get {W} raw (d : Desktop W) old :
  c_api_key (d_state d) = Guards old → Forall (λ c, visible c = true) (trim (chars raw)) →
  get_api_key (d_state (cmd_set_api_key raw d).2) = Ok (parse_api_key (Some raw)).
Proof.
  intros Hold Hv. unfold cmd_set_api_key. rewrite Hold. unfold get_api_key. cbn [d_state c_api_key snd].
  change (parse_api_key (Some raw)) with (nonblank raw). destruct (nonblank raw) as [key|] eqn:Hk; [|done].
  cbn [mbind option_bind]. by rewrite (nonblank_idempotent raw).
Qed.

(** ** A client and a server *)

Definition ascii_text (s : string) : bool := forallb (λ a, (N_of_ascii a <? 128)%N) (String.list_ascii_of_string s).
Lemma ascii_chars s rest : ascii_text s = true → chars (s +:+ rest) = chars s ++ chars rest ∧ of_chars (chars s) = s.
Proof.
  unfold ascii_text. induction s as [|a s IH]; [by rewrite string_app_nil_l|]. cbn [String.list_ascii_of_string forallb]. intros [Ha%N.ltb_lt Hs]%andb_true_iff. destruct (IH Hs) as [H1 H2].
  rewrite string_app_cons, !chars_cons_ascii by done. rewrite H1. split; [done|]. cbn [of_chars].
  unfold encode_char. destruct (N.ltb_spec (N_of_ascii a) 128); [|lia]. unfold byte_of. rewrite ascii_N_embedding, string_app_cons, string_app_nil_l. by rewrite H2.
Qed.
Definition url_path (url : string) : string :=
  match split_once (chars "://") (chars url) with
  | Some (_, rest) =>
    match split_once [ch "/"] rest with
    | Some (_, path) =>
      "/" +:+ of_chars (match split_once [ch "?"] path with Some (path, _) => path | None => path end)
    | None => ""
    end
  | None => ""
  end.
Lemma plain_ascii s : plain_segment s = true → ascii_text s = true ∧ ch "/" ∉ chars s ∧ ch "?" ∉ chars s.
Proof.
  unfold plain_segment, ascii_text. rewrite !andb_true_iff. intros [[_ Hs] _]. induction s as [|a s IH]; [split; [done|split; apply not_elem_of_nil]|].
  cbn in Hs. apply andb_true_iff in Hs as [Ha Hs]. destruct (IH Hs) as (H1 & H2 & H3). pose proof (segment_char_ascii _ Ha) as [Hl Hne].
  cbn [String.list_ascii_of_string forallb]. rewrite H1, chars_cons_ascii by done. split; [rewrite andb_true_r; by apply N.ltb_lt|]. split; apply not_elem_of_cons; (split; [|done]); [congruence|].
  intros Hq. rewrite <- Hq in Ha. by vm_compute in Ha.
Qed.
Lemma plain_path_ascii segs : Forall (λ s, plain_segment s = true) segs →
  ascii_text (path_of (Fixed <$> segs)) = true ∧ ch "?" ∉ chars (path_of (Fixed <$> segs)).
Proof.
  induction 1 as [|s segs Hs _ [IH1 IH2]]; [split; [done|apply not_elem_of_nil]|]. destruct (plain_ascii s Hs) as (H1 & _ & H3).
  cbn [fmap list_fmap path_of fold_right seg_text]. change (fold_right _ "" ?l) with (path_of l).
  assert (∀ a b, ascii_text a = true → ascii_text b = true → ascii_text (a +:+ b) = true) as Happ.
  { intros a b. unfold ascii_text. induction a as [|x a IHa]; [by rewrite string_app_nil_l|]. cbn. rewrite string_app_cons. cbn.
    intros [-> Ha]%andb_true_iff Hb. by apply IHa. }
  split; [by apply Happ; [|apply Happ]|]. rewrite (proj1 (ascii_chars "/" _ eq_refl)), (proj1 (ascii_chars s _ H1)).
  rewrite !elem_of_app. intros [Hq|[Hq|Hq]]; [by vm_compute in Hq; apply list_elem_of_singleton in Hq|done|done].
Qed.
Lemma url_path_plain base segs query :
  plain_base base → Forall (λ s, plain_segment s = true) segs → segs ≠ [] → query_ok query →
  url_path (base +:+ path_of (Fixed <$> segs) +:+ query) = path_of (Fixed <$> segs).
Proof.
  intros (scheme & host & Hscheme & -> & _ & Hhost) Hs Hne Hq. destruct (plain_path_ascii segs Hs) as [Ha Hqm].
  set (path := path_of _) in *. assert (∃ rest, path = "/" +:+ rest) as [rest Hrest] by (destruct segs as [|x segs]; [done|by eexists]).
  assert (ascii_text host = true ∧ ch "/" ∉ chars host) as [Hh Hns].
  { clear -Hhost. unfold ascii_text. induction host as [|a s IH]; [split; [done|apply not_elem_of_nil]|].
    cbn [String.list_ascii_of_string forallb] in *.
    apply andb_true_iff in Hhost as [Ha Hs]. destruct (IH Hs) as [H1 H2].
    assert ((N_of_ascii a < 128)%N ∧ N_of_ascii a ≠ ch "/") as [Hl Hn].
    { apply orb_true_iff in Ha as [Ha|Ha%Ascii.eqb_eq]; [by apply segment_char_ascii|by subst a]. }
    rewrite H1, chars_cons_ascii by done. split; [rewrite andb_true_r; by apply N.ltb_lt|]. apply not_elem_of_cons. split; [congruence|done]. }
  assert (ascii_text scheme = true ∧ ch ":" ∉ chars scheme) as [Hsc Hcolon].
  { rewrite !elem_of_cons, elem_of_nil in Hscheme. destruct Hscheme as [->|[->|[]]]; (split; [done|by apply (bool_decide_unpack _)]). }
  assert (ascii_text rest = true ∧ ch "?" ∉ chars rest) as [Har Hqr].
  { rewrite Hrest in Ha, Hqm. cbn in Ha. split; [done|]. rewrite (proj1 (ascii_chars "/" _ eq_refl)) in Hqm. by apply not_elem_of_app in Hqm as [_ Hqm]. }
  unfold url_path. rewrite Hrest, !string_app_assoc, (proj1 (ascii_chars scheme _ Hsc)), (proj1 (ascii_chars "://" _ eq_refl)).
  change (chars "://") with (ch ":" :: [47; 47]%N). rewrite split_once_fresh by done.
  rewrite (proj1 (ascii_chars host _ Hh)), (proj1 (ascii_chars "/" _ eq_refl)).
  change (chars "/") with [ch "/"]. rewrite split_once_fresh by done. do 2 f_equal. rewrite (proj1 (ascii_chars rest _ Har)).
  destruct Hq as [->|[more ->]].
  - change (chars "") with (@nil char). rewrite app_nil_r. rewrite (proj2 (split_once_None _ _) Hqr). by apply ascii_chars.
  - rewrite (proj1 (ascii_chars "?" _ eq_refl)). change (chars "?") with [ch "?"]. rewrite split_once_fresh by done. by apply ascii_chars.
Qed.

#[local] Existing Instance HttpAuth.plain_http.
#[local] Instance any_header : HeaderLib := {| header_from_str := Some; header_from_str_text s v H := f_equal (default "") (eq_sym H) |}.
Definition plain_arrives (rq : Outgoing) : HttpRequest := mkRequest (o_method rq) (url_path (o_url rq)) (o_headers rq).
#[local] Instance plain_wire : Wire.
Proof.
  refine {| arrives := plain_arrives |}; [done| |].
  - intros rq base segs query Hb Hs Hne Hq Hurl. cbn. rewrite Hurl. by apply url_path_plain.
  - intros rq name v Hv Hvis. cbn. rewrite Hv. cbn. unfold ascii_value. rewrite (proj2 (forallb_elem _ _)); [done|].
    intros c Hc. rewrite Forall_forall in Hvis. specialize (Hvis c Hc). apply andb_true_iff in Hvis as [_ H%N.ltb_lt]. apply N.ltb_lt. lia.
Defined.
(** A server that answers everything with an empty object. *)
#[local] Instance echo_machine : Machine unit := {
  send _ w := (Ok (mkIncoming 200 (Ok "{}") (Ok (VObject [])) (Ok [])), w);
  status_text _ := "200 OK";
  parse_json _ := None;
  read_monitoring _ := Err "no figures";
  read_file _ _ := Err "no such file";
  read_to_string _ _ := Err "no such file";
  write_file _ _ w := (Ok tt, w);
  path_file_name _ := None;
  guess_mime _ := "application/octet-stream";
  mime_str := Ok;
}.
Definition fresh_client : Desktop (Recorded unit) := mkDesktop (initial_state None) (mkRecorded [] tt).
Definition keyed_client : Desktop (Recorded unit) := (invoke (ISetApiKey "  s3cret ") fresh_client).2.
Definition keyed_gate : Gate := build_gate no_env (mkBuildConfig (Some (Some "s3cret  ")) None None None).


(** An argument with a slash reaches another handler: arguments are put into the path as
    they are. *)
Example unescaped_argument :
  (λ rq, first_route (app_routes true) (o_method rq) (url_path (o_url rq))) <$>
    r_sent (d_machine (invoke (IDeleteInstance "7/files/report") keyed_client).2) = [Some HDeleteFile].
Proof. vm_compute. reflexivity. Qed.
(** ... and one with an ampersand ends the parameter. *)
Example unescaped_parameter :
  o_url <$> r_sent (d_machine (invoke (IQueryCompletedInstances None (Some "A&state=B") None None None None None) keyed_client).2)
  = ["http://localhost:8081/api/history/instances?business_key=A&state=B"].
Proof. vm_compute. reflexivity. Qed.

(** ** The agent orchestrator (agent-orchestrator/src/main.rs) *)

(** The agent acts on the machine alone; any error ends it.  The task a message quotes is
    left out. *)
Definition Agent (W A : Type) : Type := W → result string A * W.
#[export] Instance Agent_ret {W} : MRet (Agent W) := λ A a w, (Ok a, w).
#[export] Instance Agent_bind {W} : MBind (Agent W) := λ A B k m w, match m w with (Ok a, w) => k a w | (Err e, w) => (Err e, w) end.

Section agent.
  Context {HV : HeaderLib} {W : Type} {MA : Machine W}.

Definition agent_lift {A} (r : result string A) : Agent W A := λ w, (r, w).
(** [as_str().ok_or_else(..)?] and [with_context(..)?]. *)
Definition agent_text (k : string) (msg : string) (v : Value) : Agent W string :=
  agent_lift (match text_field k v with Some t => Ok t | None => Err msg end).
(** Deserialising into [Vec<Value>]. *)
Definition agent_items (v : Value) : Agent W (list Value) :=
  agent_lift (match v with VArray items => Ok items | _ => Err "expected a sequence" end).
Definition agent_headers (api_key : option string) : Agent W (gmap string string) :=
  match api_key with
  | Some key =>
    if String.eqb key "" then mret ∅
    else
      agent_lift (match header_from_str ("Bearer " +:+ key) with
                  | Some v => Ok (<["authorization" := v]> ∅)
                  | None => Err "BPMNINJA_API_KEY enthält ungültige Header-Zeichen"
                  end)
  | None => mret ∅
  end.

Section calls.
  Context (base_url : string) (headers : gmap string string).

Definition agent_send (m : Method) (path : string) (body : Body) : Agent W Incoming := send (mkOutgoing m (base_url +:+ path) [] headers body).
(** [send().await?.json().await?], which does not look at the status. *)
Definition agent_call (m : Method) (path : string) (body : Body) : Agent W Value :=
  res ← agent_send m path body; agent_lift (in_json res).
Fixpoint complete_service_tasks (tasks : list Value) : Agent W unit :=
  match tasks with
  | [] => mret tt
  | task :: tasks =>
    task_id ← agent_text "id" "Missing or invalid 'id' in service task payload" task;
    _ ← agent_send POST ("/api/service-task/" +:+ task_id +:+ "/complete")
          (JsonBody (VObject [("variables", VObject [("processed", VBool true)]); ("workerId", VString "orchestrator")]));
    complete_service_tasks tasks
  end.
Fixpoint complete_user_tasks (tasks : list Value) : Agent W unit :=
  match tasks with
  | [] => mret tt
  | task :: tasks =>
    task_id ← agent_text "task_id" "Missing or invalid 'task_id' in user task payload" task;
    _ ← agent_send POST ("/api/complete/" +:+ task_id) (JsonBody (VObject [("variables", VObject [])]));
    complete_user_tasks tasks
  end.
(** The run of the agent: the final state of the instance it started. *)
Definition orchestrate : Agent W Value :=
  bpmn_xml ← (λ w, (read_to_string "example.bpmn" w, w));
  deploy_res ← agent_call POST "/api/deploy" (JsonBody (VObject [("name", VString "example"); ("xml", VString bpmn_xml)]));
  def_key ← agent_text "definition_key" "Missing or invalid 'definition_key' in deploy response" deploy_res;
  start_res ← agent_call POST "/api/start" (JsonBody (VObject [("definition_key", VString def_key)]));
  instance_id ← agent_text "instance_id" "Missing or invalid 'instance_id' in start response" start_res;
  tasks ← agent_call POST "/api/service-task/fetchAndLock"
    (JsonBody (VObject [("maxTasks", int 10);
       ("topics", VArray [VObject [("lockDuration", int 10000); ("topicName", VString "InitialProcessing")]]);
       ("workerId", VString "orchestrator")]));
  tasks ← agent_items tasks;
  complete_service_tasks tasks ;;
  user_tasks ← agent_call GET "/api/tasks" NoBody;
  user_tasks ← agent_items user_tasks;
  complete_user_tasks user_tasks ;;
  agent_call GET ("/api/instances/" +:+ instance_id) NoBody.
End calls.
Definition agent_main (env : string → option string) : Agent W Value :=
  headers ← agent_headers (env "BPMNINJA_API_KEY");
  orchestrate (default "http://localhost:8081" (env "ENGINE_API_URL")) headers.
End agent.

(** Whatever the server answers, the agent sends its key to the configured server only, and
    only the requests of a worker and of a person at a task list. *)
Section agent_requests.
  Context {HV : HeaderLib} {W : Type} {MA : Machine W} (base_url : string) (headers : gmap string string).
Definition agent_request (rq : Outgoing) : Prop :=
  o_headers rq = headers ∧
  ∃ path, o_url rq = base_url +:+ path ∧
    ((o_method rq = POST ∧ (path ∈ ["/api/deploy"; "/api/start"; "/api/service-task/fetchAndLock"] ∨
        (∃ id, path = "/api/complete/" +:+ id) ∨ ∃ id, path = "/api/service-task/" +:+ id +:+ "/complete")) ∨
     (o_method rq = GET ∧ (path = "/api/tasks" ∨ ∃ id, path = "/api/instances/" +:+ id))).
Definition sends_only {A} (m : Agent (Recorded W) A) : Prop := ∀ w,
  ∃ sent, r_sent (m w).2 = r_sent w ++ sent ∧ Forall agent_request sent.
Lemma only_pure {A} (r : Recorded W → result string A) : sends_only (λ w, (r w, w)).
Proof. intros w. exists []. by rewrite app_nil_r. Qed.
Lemma only_bind {A B} (m : Agent (Recorded W) A) (k : A → Agent (Recorded W) B) :
  sends_only m → (∀ a, sends_only (k a)) → sends_only (m ≫= k).
Proof.
  intros Hm Hk w. destruct (Hm w) as (sent & Hs & Hf). unfold mbind, Agent_bind. destruct (m w) as [[a|] w1]; [|by exists sent].
  destruct (Hk a w1) as (more & Hs' & Hf'). exists (sent ++ more). cbn [snd] in *. rewrite Hs', Hs, app_assoc. split; [done|by apply Forall_app].
Qed.
Lemma only_send m path body : agent_request (mkOutgoing m (base_url +:+ path) [] headers body) → sends_only (agent_send base_url headers m path body).
Proof.
  intros H w. unfold agent_send. cbn. destruct (send _ (r_inner w)) as [r inner]. cbn. eexists [_]. split; [done|]. by constructor.
Qed.
Ltac is_agent_request := split; [done|]; eexists; (split; [reflexivity|]); cbn; naive_solver (set_solver || eauto).
Lemma orchestrate_requests : sends_only (orchestrate base_url headers).
Proof.
  assert (∀ m path body, agent_request (mkOutgoing m (base_url +:+ path) [] headers body) → sends_only (agent_call base_url headers m path body)) as Hcall.
  { intros m path body H. apply only_bind; [by apply only_send|]. intros res. apply only_pure. }
  assert (∀ tasks, sends_only (complete_service_tasks base_url headers tasks)) as Hservice.
  { induction tasks as [|task tasks IH]; [apply only_pure|]. apply only_bind; [apply only_pure|]. intros id.
    apply only_bind; [apply only_send; is_agent_request|]. done. }
  assert (∀ tasks, sends_only (complete_user_tasks base_url headers tasks)) as Huser.
  { induction tasks as [|task tasks IH]; [apply only_pure|]. apply only_bind; [apply only_pure|]. intros id.
    apply only_bind; [apply only_send; is_agent_request|]. done. }
  unfold orchestrate.
  repeat first [apply only_pure|apply Hservice|apply Huser|apply Hcall; is_agent_request|apply only_bind; [|intros ?]].
Qed.
End agent_requests.

(** ** The events of the server reach the interface *)

(** axum's encoding of an event without data, by lines. *)
Class SseWriter := {
  event_lines : string → list string;
  event_lines_shape t : Forall (λ c, c ≠ 10%N ∧ c ≠ 13%N) (chars t) → ∃ data, event_lines t = ["event: " +:+ t; "data:" +:+ data; ""];
}.
(** What the server writes: an event of its engine, or a comment that keeps the connection. *)
Inductive Block := KeepAlive (comment : string) | Event (ev : EngineEvent).
Definition block_lines `{SseWriter} (b : Block) : list string :=
  match b with KeepAlive comment => [":" +:+ comment; ""] | Event ev => event_lines (event_type ev) end.
Definition block_event (b : Block) : option string := match b with KeepAlive _ => None | Event ev => Some (event_type ev) end.
Definition lines_of (ticks : list Tick) : list string := omap (λ t, match t with Line l => Some l | _ => None end) ticks.
(** Lines, and seconds without one in which the URL stays. *)
Definition steady (url : string) (t : Tick) : Prop :=
  match t with Line _ => True | Elapsed read => changed url read = false | _ => False end.
Definition final (url : string) (t : Tick) : option ConsumeOutcome :=
  match t with
  | Ended | Broken => Some StreamEnded
  | Elapsed read => if changed url read then Some UrlChanged else None
  | Line _ => None
  end.

Section events.
  Context {SW : SseWriter}.

Lemma consume_steady url current ticks rest :
  Forall (steady url) ticks → consume url current (ticks ++ rest) = consume url current ((Line <$> lines_of ticks) ++ rest).
Proof.
  intros Hs. revert current. induction Hs as [|t ticks Ht _ IH]; intros current; [done|].
  destruct t as [line| | |read]; try done; cbn.
  - destruct (strip_prefix _ _); [apply IH|]. destruct (starts_with "data:" line); [by rewrite IH|]. destruct (String.eqb line ""); apply IH.
  - cbn in Ht. rewrite Ht. apply IH.
Qed.
Lemma event_line url current t rest : trim (chars t) = chars t → of_chars (chars t) = t →
  consume url current (Line ("event: " +:+ t) :: rest) = consume url t rest.
Proof.
  intros Htrim Hof. cbn [consume]. change "event: " with (of_chars (chars "event: ")). rewrite chars_of_chars_app by repeat constructor.
  assert (strip_prefix (chars "event:") (chars "event: " ++ chars t) = Some (32%N :: chars t)) as -> by by apply strip_prefix_Some.
  f_equal. rewrite <- Hof at 2. f_equal. rewrite <- Htrim at 2. unfold trim. cbn [drop_while]. done.
Qed.
Lemma data_line url current data rest : current ≠ "" →
  consume url current (Line ("data:" +:+ data) :: rest) = let '(emitted, outcome) := consume url current rest in (current :: emitted, outcome).
Proof.
  intros Hne. cbn [consume]. destruct (strip_prefix (chars "event:") (chars ("data:" +:+ data))) as [r|] eqn:Hp.
  - apply strip_prefix_Some in Hp. change "data:" with (of_chars (chars "data:")) in Hp. rewrite chars_of_chars_app in Hp by repeat constructor. done.
  - assert (starts_with "data:" ("data:" +:+ data) = true) as -> by (unfold starts_with; rewrite !string_app_cons; cbn; by destruct data).
    by destruct (String.eqb_spec current "").
Qed.
Lemma blank_line url current rest : consume url current (Line "" :: rest) = consume url "" rest.
Proof. done. Qed.
Lemma comment_line url current comment rest : consume url current (Line (":" +:+ comment) :: rest) = consume url current rest.
Proof.
  cbn [consume]. destruct (strip_prefix (chars "event:") (chars (":" +:+ comment))) as [r|] eqn:Hp.
  - apply strip_prefix_Some in Hp. change ":" with (of_chars [ch ":"]) in Hp. rewrite chars_of_chars_app in Hp by repeat constructor. done.
  - done.
Qed.
Lemma consume_blocks url blocks rest :
  consume url "" ((Line <$> (blocks ≫= block_lines)) ++ rest) =
  let '(emitted, outcome) := consume url "" rest in (omap block_event blocks ++ emitted, outcome).
Proof.
  induction blocks as [|b blocks IH]; [cbn [mbind list_bind fmap list_fmap app omap list_omap]; by destruct (consume url "" rest)|]. cbn [mbind list_bind omap list_omap]. rewrite fmap_app, <- app_assoc.
  destruct b as [comment|ev]; cbn [block_lines block_event].
  - cbn [fmap list_fmap app]. by rewrite comment_line, blank_line.
  - destruct (event_lines_shape (event_type ev)) as [data ->]; [by destruct ev; repeat constructor|]. cbn [fmap list_fmap app].
    rewrite event_line, data_line, blank_line, IH by by destruct ev. by destruct (consume url "" rest).
Qed.

End events.

(** axum writes a space after each colon. *)
#[local] Instance spaced_lines : SseWriter.
Proof. refine {| event_lines t := ["event: " +:+ t; "data: "; ""] |}. intros t _. by exists " ". Defined.

(** ** Reconnecting *)

(** Each slice takes a second, or what is left of the pause. *)
Fixpoint paced_slices (deadline now : Z) (slices : list (Z * result string string)) : Prop :=
  match slices with
  | [] => True
  | (later, _) :: slices => (now + Z.min (deadline - now) URL_POLL_MS <= later)%Z ∧ paced_slices deadline later slices
  end.
Lemma pause_ends deadline now current slices :
  paced_slices deadline now slices → (deadline - now <= URL_POLL_MS * Z.of_nat (length slices))%Z →
  is_Some (sleep_or_url_change deadline now current slices).
Proof.
  revert now. induction slices as [|[later read] slices IH]; intros now; cbn [paced_slices sleep_or_url_change length].
  - intros _ H. destruct (Z.leb_spec deadline now); [by eexists|]. unfold URL_POLL_MS in H. lia.
  - intros [Hl Hp] H. destruct (Z.leb_spec deadline now); [by eexists|]. destruct (changed current read); [by eexists|].
    apply IH; [done|]. unfold URL_POLL_MS in *. lia.
Qed.
(** A pause is cut short exactly when a reading before its end shows another address. *)
Lemma pause_interrupted deadline now current slices : sleep_or_url_change deadline now current slices = Some true →
  ∃ seen later read rest, slices = seen ++ (later, read) :: rest ∧ Forall (λ s, changed current s.2 = false) seen ∧ changed current read = true.
Proof.
  revert now. induction slices as [|[later read] slices IH]; intros now; cbn; destruct (deadline <=? now)%Z; try done.
  destruct (changed current read) eqn:Hc; [intros _; by exists [], later, read, slices|]. intros H.
  apply IH in H as (seen & l & r & rest & -> & Hs & Hr). exists ((later, read) :: seen), l, r, rest. split; [done|]. split; [by constructor|done].
Qed.

(** The connection could not be made or was refused, with the address as before, and the
    pause after it ran its time. *)
Definition failed_turn (url : string) (t : Turn) : Prop :=
  t_url t = Ok url ∧ (∃ msg, t_outcome t = Err msg) ∧ Forall (λ s, changed url s.2 = false) (t_slices t).
Lemma sleep_unchanged deadline now current slices : Forall (λ s, changed current s.2 = false) slices →
  sleep_or_url_change deadline now current slices ≠ Some true.
Proof.
  intros Hs (seen & later & read & rest & -> & _ & Hr)%pause_interrupted. apply Forall_app in Hs as [_ [Hread _]%Forall_cons]. cbn in Hread. congruence.
Qed.
Lemma run_turn_bounds k t k' : (1 <= k_backoff_secs k <= 30)%Z → run_turn k t = Some k' → (1 <= k_backoff_secs k' <= 30)%Z.
Proof.
  intros Hk. unfold run_turn, longer. destruct (t_url t) as [url|]; [|by intros [= <-]; cbn; lia].
  destruct (String.eqb url _), (t_outcome t) as [[]|]; try (destruct (sleep_or_url_change _ _ _ _) as [[]|]; try done);
    intros [= <-]; cbn; lia.
Qed.
Lemma run_turn_fails k t k' : (1 <= k_backoff_secs k <= 30)%Z → failed_turn (k_last_url k) t → run_turn k t = Some k' →
  k' = mkConsumer (longer (k_backoff_secs k)) (k_last_url k).
Proof.
  intros Hk (Hu & [msg Ho] & Hs). unfold run_turn. rewrite Hu, Ho, String.eqb_refl.
  destruct (sleep_or_url_change _ _ _ _) as [[]|] eqn:Hp; [by apply sleep_unchanged in Hp|by intros [= <-]|done].
Qed.

(** When the pause after a turn ends. *)
Definition pause_end (k : Consumer) (t : Turn) : Z :=
  t_now t + match t_outcome t with Ok _ => 1 | Err _ => if changed (k_last_url k) (t_url t) then 1 else k_backoff_secs k end * 1000.

(** C40: The client keeps trying and does not hammer the server: whatever happened, the next
    pause is between one and 30 seconds; after [n] failures in a row it has doubled [n]
    times up to 30 seconds; a pause never hangs: a reading of the address each second ends
    it in time; and after a turn whose pause found another address, or whose connection
    ended for one, the next one starts again at one second. *)
Theorem client_reconnects turns k :
  run_consumer consumer_start turns = Some k →
  (1 <= k_backoff_secs k <= 30)%Z ∧
  (∀ failures k', Forall (failed_turn (k_last_url k)) failures → run_consumer k failures = Some k' →
     k_backoff_secs k' = Z.min (k_backoff_secs k * 2 ^ Z.of_nat (length failures)) 30 ∧ k_last_url k' = k_last_url k) ∧
  (∀ t, paced_slices (pause_end k t) (t_now t) (t_slices t) → 30 ≤ length (t_slices t) → is_Some (run_turn k t)) ∧
  (∀ t url k', t_url t = Ok url → t_outcome t = Ok UrlChanged ∨ sleep_or_url_change (pause_end k t) (t_now t) url (t_slices t) = Some true →
     run_turn k t = Some k' → k_backoff_secs k' = 1%Z).
Proof.
  intros Hrun. assert (1 <= k_backoff_secs k <= 30)%Z as Hk.
  { revert Hrun. assert (1 <= k_backoff_secs consumer_start <= 30)%Z as Hstart by done. revert Hstart. generalize consumer_start.
    induction turns as [|t turns IH]; intros k0 H0; [by intros [= <-]|]. cbn. destruct (run_turn k0 t) as [k1|] eqn:Ht; [|done].
    apply IH. by eapply run_turn_bounds. }
  clear Hrun. split; [done|]. split; [|split].
  - intros failures. revert k Hk. induction failures as [|t failures IH]; intros k Hk k' Hf; cbn [run_consumer length].
    + intros [= <-]. rewrite Z.mul_1_r. split; [lia|done].
    + apply Forall_cons in Hf as [Ht Hf]. destruct (run_turn k t) as [k1|] eqn:Hrun; [|done]. cbn [mbind option_bind].
      apply run_turn_fails in Hrun as ->; [|done..]. intros H. apply IH in H as [H1 H2]; [|unfold longer; cbn; lia|done].
      cbn [k_backoff_secs k_last_url] in *. split; [|done]. rewrite H1, Nat2Z.inj_succ, Z.pow_succ_r by lia. unfold longer.
      assert (1 <= 2 ^ Z.of_nat (length failures))%Z by (apply Z.pow_le_mono_r with (b := 0%Z); lia). nia.
  - intros t Hp Hl. unfold run_turn, pause_end in *. destruct (t_url t) as [url|]; [|by eexists]. cbn [changed] in Hp.
    assert (∀ secs, (1 <= secs <= 30)%Z → paced_slices (t_now t + secs * 1000) (t_now t) (t_slices t) →
      is_Some (sleep_or_url_change (t_now t + secs * 1000) (t_now t) url (t_slices t))) as Hsleep.
    { intros secs Hsecs Hpaced. apply pause_ends; [done|]. unfold URL_POLL_MS. lia. }
    destruct (t_outcome t) as [[]|]; [destruct (Hsleep 1%Z ltac:(lia) Hp) as [[] ->]; by eexists|by eexists|].
    destruct (String.eqb url _); cbn in Hp; [destruct (Hsleep _ Hk Hp) as [[] ->]|destruct (Hsleep 1%Z ltac:(lia) Hp) as [[] ->]]; by eexists.
  - intros t url k' Hu Ho. unfold run_turn, pause_end in *. rewrite Hu in *. cbn [changed] in Ho. destruct Ho as [->|Hp]; [by intros [= <-]|].
    destruct (t_outcome t) as [[]|]; [rewrite Hp; by intros [= <-]|by intros [= <-]|].
    destruct (String.eqb url _); cbn in Hp; rewrite Hp; by intros [= <-].
Qed.
Definition refused_turn (now : Z) : Turn :=
  mkTurn (Ok "u") (Err "connection refused") now ((λ i, ((now + 1000 * Z.of_nat i)%Z, Ok "u")) <$> seq 1 30).
Lemma client_reconnects_witness :
  run_consumer consumer_start [refused_turn 0; refused_turn 1000] = Some (mkConsumer 4 "u") ∧
  ∀ k', run_consumer (mkConsumer 4 "u") (refused_turn <$> [0; 0; 0; 0]%Z) = Some k' → k_backoff_secs k' = 30%Z.
Proof.
  assert (run_consumer consumer_start [refused_turn 0; refused_turn 1000] = Some (mkConsumer 4 "u")) as Hrun by (vm_compute; reflexivity).
  split; [exact Hrun|]. intros k' Hk'. destruct (client_reconnects _ _ Hrun) as (_ & H & _).
  refine (eq_trans (proj1 (H _ k' _ Hk')) _); [|vm_compute; reflexivity].
  repeat (constructor; [split; [reflexivity|split; [by eexists|vm_compute; repeat (constructor; [reflexivity|]); constructor]]|]). constructor.
Defined.
